(* ===== verification/_CoqProject ===== *)
-Q . S2P
Prelude.v
Heap.v
DenseMap.v
Register.v
Lifecycle.v
Injection.v
Events.v
Manager.v
Dispatch.v
Network.v
Refinement.v
Handlers.v
Bookkeeping.v
EventLoop.v
Scenarios.v
Runs.v
Quit.v
Waiting.v
Starting.v
Anomalies.v
AutoResetEvent.v
Interception.v
AsyncMutex.v
StringUtils.v
HttpCommon.v
HttpText.v
HttpHost.v
HttpConnection.v
HttpRequests.v
HttpServer.v
HttpResponses.v
HttpClient.v
HttpChunks.v
HttpAnomalies.v
HttpExamples.v
Timer.v
StaticVector.v
ReferenceCount.v
Generator.v
TaskFrames.v
Channel.v
TcpConnection.v
UringConnection.v
HttpOverTcp.v
TcpHost.v
TimerFactory.v
UringTimer.v
FileIO.v
SharedFileIO.v
UringQueue.v
SdeventQueue.v
BoostQueue.v
Base64.v
EventStatistics.v
TypeHash.v
Any.v
Redis.v
RedisText.v
RedisRuns.v
RedisTransactions.v
RedisAnomalies.v
Factories.v
EtcdV2.v
EtcdV3.v
CtorInjection.v
