(* ===== verification/Prelude.v ===== *)
(** * Ichor: a verification library

    Ichor is a C++20 framework for programs made of services that find each other
    at run time.  A [DependencyManager] owns the services of one thread.  Each
    service has a lifecycle manager, which keeps its state (INSTALLED, STARTING,
    INJECTING, ACTIVE, UNINJECTING, STOPPING), the interfaces it requires in a
    [DependencyRegister], the providers injected into it and the services that
    depend on it.  Everything that happens is an event in the queue of the thread:
    services are inserted, started, stopped and removed by events, and a service
    that comes online or goes offline is announced to the others by an event.
    [start()] and [stop()] of services, event handlers and the withdrawal of a
    provider are coroutines, which may be suspended in between events.  The loop of
    the queue takes one event at a time and hands it to
    [DependencyManager::processEvent].

    ** What models what

    - Prelude.v (this file): widths of integers; [outcome], a result or
      [std::terminate()]; the state monad [M] of the manager; [wlp] and [pres], the
      two ways to state what a program does to the state, with their tactics.
    - Heap.v: [SectionalPriorityQueue] with the heap algorithms of the standard
      library (include/ichor/stl/SectionalPriorityQueue.h).
    - DenseMap.v: maps and sets that iterate in the order of insertion and fill the
      place of an erased entry with the last one, as [unordered_dense] does.
    - Register.v: [Dependency], [Properties], [DependencyRegister]
      (include/ichor/dependency_management/, src/ichor/dependency_management/).
    - Lifecycle.v: the state machine of [AdvancedService], the four lifecycle
      managers as one record [lm], injection, [Filter]s.  Injection.v: what a
      provider coming online and going offline does to its consumer.
    - CtorInjection.v: [ConstructorInjectionService], which gets its dependencies
      through the constructor of a class, under such a lifecycle manager.
    - Events.v: the events, the comparators of the two priority queues, and the
      class [IEventQueue], what the manager needs of a queue.
    - Manager.v: the record [DM] of the members of [DependencyManager], the
      coroutines, and the functions services call.  Dispatch.v: [processEvent], one
      definition per case of its switch.
    - EventLoop.v: [TemplatePriorityQueue], its loop pass by pass, SIGINT.
    - AutoResetEvent.v: [AsyncAutoResetEvent], on any number of threads.
    - AsyncMutex.v: [AsyncManualResetEvent] and [AsyncSingleThreadedMutex].
    - StringUtils.v: numbers, splitting and versions of include/ichor/stl/StringUtils.h.
    - HttpCommon.v: methods, statuses, header words and the tables of
      include/ichor/services/network/http/ and HttpInternal.cpp; HttpHost.v:
      [HttpHostService], from the bytes of a connection to routes, handlers and the
      bytes of the answer; HttpConnection.v: [HttpConnectionService], from requests
      to bytes and back, with chunked bodies.  A handler of a route, a matcher and
      the connection below are arguments; a handler may be suspended.
    - Generator.v: [AsyncGenerator], its promise and its awaiters, for generators that
      are consumed by a coroutine and for those the manager runs.  TaskFrames.v: [Task],
      frames that await each other (include/ichor/coroutines/).
    - Channel.v: [CommunicationChannel], with the lock that broadcasts share.
    - UringQueue.v, SdeventQueue.v, BoostQueue.v: the other event queues of
      src/ichor/event_queues/, on a kernel or library that is an argument.
    - TcpConnection.v, UringConnection.v: the polled connection and the one over
      io_uring (src/services/network/tcp/), with the class [IConnectionService] of what
      they promise to HTTP; HttpOverTcp.v puts client and server on two of them;
      TcpHost.v: the two services that accept connections.
    - FileIO.v: reading, copying and writing files over io_uring; SharedFileIO.v: the file
      service of all managers with its one thread (src/services/io/).
    - Timer.v: [Timer] with its thread and the threads that use it
      (src/services/timer/Timer.cpp); UringTimer.v: the timer over io_uring;
      TimerFactory.v: the factory of the timers of a service and the service that
      creates the factories.
    - TypeHash.v: the hashes of type names (include/ichor/ConstevalHash.h).  Any.v:
      include/ichor/stl/Any.h.  EventStatistics.v: the measurements of
      src/services/metrics/EventStatisticsService.cpp.  Base64.v: src/base64/base64.cpp.
    - Redis.v: [HiredisService] (src/services/redis/HiRedisService.cpp): commands as they
      are sent, replies as they are read, transactions, and the connection with its
      timer, the calls that wait for it and the calls hiredis still has to answer.
    - Factories.v: [ClientFactory] and [LoggerFactory], which create a service for each
      service that asks for one; the class [PerRequester] is what both promise.
    - EtcdV2.v, EtcdV3.v: the clients of src/services/etcd/: operations with the requests
      they send and the answers they give, credentials and tokens, the connections of
      watches, and the versions a server must have.
    - StaticVector.v: include/ichor/stl/StaticVector.h, with the lifetime of each
      element.  ReferenceCount.v: include/ichor/stl/ReferenceCountedPointer.h, on a
      heap of objects that have such pointers as members.

    Code of services is an argument: the record [UserCode] of Manager.v gives for
    each call of [start()], [stop()], a handler, a tracker, an interceptor or a
    queued function what it does, as a tree of actions and suspensions that may
    depend on the state of the manager.  All theorems hold for all such code.
    Builds with hardening, the default, are modelled, so a violated check is the
    outcome [Terminated].

    ** What is proved

    - The service network (Network.v) is an abstract transition system on the
      service table and the suspended coroutines: lifecycle moves, links between
      services, insertion, removal, coroutine steps, each with its guard.
      Refinement.v and Handlers.v show that every event is a sequence of such steps;
      Network.v that each step keeps the invariant.  Runs.v takes this to all
      reachable states of a manager, for every queue that keeps its events and all
      interleavings with pushes and resumptions from outside: injected providers are
      alive and know their consumer, every history of a service follows the
      lifecycle, there is one [start()] or [stop()] at a time, event ids are unique.
    - Bookkeeping.v goes over all functions of the manager once, for any relation
      that only cares about the queue, the ids and quitting; Quit.v: a manager that
      has quit has nothing left; Waiting.v: finishing an event of a service resumes
      everybody who waits for it, also those who wait again; the loop ends.
    - Starting.v: what a StartServiceEvent does, on every branch.  Interception.v: an
      event prevented by an interceptor has no effect.
    - CtorInjection.v: constructor injection follows the lifecycle of Lifecycle.v, the
      object exists when it should, and is constructed from the latest providers, unless
      a provider comes while another one of the same interface is leaving; only a
      constructor that throws ends the program.
    - EventLoop.v: the ordered queue hands out the most urgent, oldest event first
      and its order does not depend on the order of pushes; SIGINT ends the loop in
      bounded time.
    - AutoResetEvent.v: no wake-up is lost, permits are used once, assertions hold,
      for all interleavings, by an invariant over the threads.
    - AsyncMutex.v, StringUtils.v: exclusion, progress; round trips and values.
    - HttpText.v has the lines and words the parsers share.  HttpRequests.v and
      HttpResponses.v: what one side writes the other side reads, whatever bytes
      follow, and a part of it is waited for.  HttpServer.v and HttpClient.v take
      this to connections: requests that arrive in any pieces are answered in their
      order, responses are delivered in the order of the requests; the server never
      reads outside of its buffer, whatever arrives.  Runs of the server are suspended at
      handlers and sends, and what happens to other connections meanwhile is arbitrary; that
      nothing happens to their own is a condition, without which requests are handled
      twice (HttpAnomalies.v).  HttpChunks.v: chunked bodies.
    - Generator.v: values arrive in order, assertions hold, the states of a promise
      follow the diagram of Enums.h, and a generator the manager runs leaves its table.
      TaskFrames.v: awaiting tasks computes what calling functions would.
    - Channel.v: a broadcast reaches every other manager once.
    - UringQueue.v: events are handled once and not used after deletion, for any order of
      completions, in the order of pushes for completions in order, up to the first event the
      last loop deletes too early; no check fails for a
      ring of the right size and waits that succeed or time out.  SdeventQueue.v: the same for the sources and the
      semaphore of sd-event.
    - TcpConnection.v, UringConnection.v: what is sent is given to the kernel in order,
      whatever it takes at a time; what arrives is handed on; both are instances of
      [IConnectionService].  HttpOverTcp.v: requests and answers from end to end.
    - FileIO.v: parts and batches make up the file, for all sizes of both.
      SharedFileIO.v: whatever the interleaving, one thread at most, and the effect of
      running the operations in the order of submission.
    - Timer.v: an invariant over all interleavings: callbacks of [stopTimer] are
      called once, and nothing is fired behind them; a periodic timer does not drift.
      UringTimer.v: where the timeout of a timer is, in each of its states.
      TimerFactory.v: stopping waits for all timers unless some are erased meanwhile, and
      leaves no factory behind.
    - Any.v: objects with values of any type refine a map of values, casts are exact up to
      types whose names have the same hash.
      EventStatistics.v: numbers, minima and maxima that are reported are those of the
      events.  Base64.v: decoding inverts encoding, as long as sizes are ints.
    - StaticVector.v: each member does to the contents what a specification on
      lists says or fails the assertion it says; calls with undefined behaviour are told
      apart from both.
    - ReferenceCount.v: an object exists as long as there is a pointer to it, counts
      are exact, and no operation touches a deleted object.
    - RedisText.v: the command of a SET with options, and the version from the reply to
      INFO.  RedisRuns.v: in every run each call is accounted for once, and what happens
      to the calls of an outage.  RedisTransactions.v: with a server that does what is
      documented of MULTI, EXEC and DISCARD (a class, with an instance), [exec()] returns
      the values of the transaction.
    - Factories.v: services that were created are in the table or stopped, each once.
    - EtcdV2.v: the user can be read back from the credentials, the form of a put has the
      fields it is given, stopping ends all watches.  EtcdV3.v: what is supported by a
      version is supported by later ones, and tokens are sent as they were received.
    - Anomalies.v, HttpAnomalies.v, RedisAnomalies.v, TcpHost.v, and the last theorems of most other files:
      runs in which the code does something else than it says.

    Scenarios.v and HttpExamples.v have the concrete systems at which the theorems
    are instantiated.

    ** Bounds and fuel

    Integers are [Z] with wrap-around written out ([wrap64]).  The event id counter
    is the number of ids handed out, the id its value modulo 2^64; ids are distinct
    below 2^64.  The counters of the auto-reset event have 32 bits; at most 2^32 - 2
    coroutines wait at a time.  The only fuel in the manager is that of the do/while
    of [finishWaitingService], the number of times the suspended coroutines can wait
    again; Waiting.v proves it enough.  [split] has the length of its text as fuel,
    enough for every non-empty delimiter.  The receive handler of the HTTP
    client has fuel for one more turn than there are bytes; a run of the server is resumed
    at most twice for each byte and once more, and [serve], which does so at once, has
    fuel for one resumption more; every message takes at least one byte;
    HttpClient.v and HttpServer.v prove it enough.  The loops of the hash of a name have its
    length as fuel.  How often waiting requests are
    answered after an unreadable response is an argument, because an answer may make
    the program send the next request.
    The event loop is a function of the readings of clock and signal flag, one per
    pass; the thread of a timer makes one step for each turn of its loop.  Sizes and
    positions of a static vector are [nat], its casts reduce them to the width of
    [storage_size_type].  Destroying pointers has the number of pointers as fuel:
    each step destroys one.  Reading a file has its length as fuel, and to run out of it is a result of its own; copying it has twice its
    length, at least one step for each part and for each write; the loops that send have
    one step for each byte.  These are proved enough where they are used.

    ** What is not modelled, and why

    Left out: logging, names and gids of services, checks for calls from the wrong
    thread, the read-only views of the manager, output for debugging; of files, paths and
    flags.  What the kernel, liburing, sd-event, Asio, hiredis, glaze and fmt do is an
    argument or an event wherever they are called: the code of these libraries is not part
    of the program.  For the same reason the HTTP and WebSocket services on Boost.Beast and
    the services for TLS are left out: they hand messages to the library and back and decide
    little themselves.  The JSON of the clients for etcd is written by tables for glaze.
    Locks and condition variables are single calls of pthread each; service proxies, typed
    wrappers and registration handles have no behaviour beyond that of the events and tables
    that are modelled; loggers only write.  The regular expressions, optional, expected,
    uuid and stack trace headers under include/ are third-party code, of the hash maps only
    the order of their entries is modelled. *)

From stdpp Require Import base gmap list sorting strings.
From Stdlib Require Import ZArith Lia.

(** ** Scope and notations of the development *)

Declare Scope ichor_scope.
Delimit Scope ichor_scope with ichor.
Open Scope Z_scope.

(** Width of the [uint64_t] and [uint8_t] values of the source; arithmetic on
    them is reduced explicitly. *)
Definition u64_mod : Z := 2 ^ 64.
Definition u8_mod : Z := 2 ^ 8.
Definition wrap64 (z : Z) : Z := z mod u64_mod.
Definition wrap8 (z : Z) : Z := z mod u8_mod.

(** ** Outcomes: a normal result, or [std::terminate()]/a failed assertion *)

Inductive outcome (A : Type) : Type :=
| Done (a : A)
| Terminated.
Arguments Done {A} a.
Arguments Terminated {A}.

#[export] Instance outcome_ret : MRet outcome := λ A a, Done a.
#[export] Instance outcome_bind : MBind outcome := λ A B f m,
  match m with Done a => f a | Terminated => Terminated end.
#[export] Instance outcome_fmap : FMap outcome := λ A B f m,
  match m with Done a => Done (f a) | Terminated => Terminated end.

(** ** State passing with abortion: the effect of the member functions *)

Definition M (S A : Type) : Type := S → outcome (A * S).

Section state_monad.
Context {S : Type}.

#[export] Instance M_ret : MRet (M S) := λ A a s, Done (a, s).
#[export] Instance M_bind : MBind (M S) := λ A B f m s,
  match m s with
  | Done (a, s') => f a s'
  | Terminated => Terminated
  end.

Definition terminate {A} : M S A := λ _, Terminated.
Definition get : M S S := λ s, Done (s, s).
Definition gets {A} (f : S → A) : M S A := λ s, Done (f s, s).
Definition put (s : S) : M S () := λ _, Done ((), s).
Definition modify (f : S → S) : M S () := λ s, Done ((), f s).

(** [for(auto x : l) body(x)] *)
Fixpoint for_each {A} (l : list A) (body : A → M S ()) : M S () :=
  match l with
  | [] => mret ()
  | x :: l' => mbind (λ _, for_each l' body) (body x)
  end.

(** Weakest liberal precondition: what holds if the call returns. *)
Definition wlp {A} (m : M S A) (Q : A → S → Prop) (s : S) : Prop :=
  match m s with
  | Done (a, s') => Q a s'
  | Terminated => True
  end.

Lemma wlp_ret {A} (a : A) Q s : Q a s → wlp (mret a) Q s.
Proof. done. Qed.

Lemma wlp_bind {A B} (m : M S A) (f : A → M S B) Q s :
  wlp m (λ a s', wlp (f a) Q s') s → wlp (mbind f m) Q s.
Proof.
  unfold wlp, mbind, M_bind. destruct (m s) as [[a s']|]; done.
Qed.

Lemma wlp_mono {A} (m : M S A) (P Q : A → S → Prop) s :
  (∀ a s', P a s' → Q a s') → wlp m P s → wlp m Q s.
Proof. unfold wlp. destruct (m s) as [[a s']|]; auto. Qed.

Lemma wlp_and {A} (m : M S A) (P Q : A → S → Prop) s :
  wlp m P s → wlp m Q s → wlp m (λ a s', P a s' ∧ Q a s') s.
Proof. unfold wlp. destruct (m s) as [[a s']|]; auto. Qed.

Lemma wlp_get Q s : Q s s → wlp get Q s.
Proof. done. Qed.
Lemma wlp_gets {A} (f : S → A) Q s : Q (f s) s → wlp (gets f) Q s.
Proof. done. Qed.
Lemma wlp_modify f Q s : Q () (f s) → wlp (modify f) Q s.
Proof. done. Qed.
Lemma wlp_terminate {A} (Q : A → S → Prop) s : wlp terminate Q s.
Proof. exact I. Qed.

(** Loop rule: an invariant kept by every iteration is kept by the loop. *)
Lemma wlp_for_each {A} (l : list A) body (I : S → Prop) s :
  I s →
  (∀ x s', x ∈ l → I s' → wlp (body x) (λ _, I) s') →
  wlp (for_each l body) (λ _, I) s.
Proof.
  revert s. induction l as [|x l IH]; intros s Hs Hb; [exact Hs|].
  apply wlp_bind. eapply wlp_mono, Hb; [|set_solver|done].
  intros [] s' Hs'. apply IH; [done|]. intros y s'' Hy. apply Hb. set_solver.
Qed.

(** The same, with an invariant on the elements still to be visited. *)
Lemma wlp_for_each_rest {A} (l : list A) body (I : list A → S → Prop) s :
  I l s →
  (∀ x l' s', x :: l' `suffix_of` l → I (x :: l') s' → wlp (body x) (λ _, I l') s') →
  wlp (for_each l body) (λ _, I []) s.
Proof.
  revert s. induction l as [|x l IH]; intros s Hs Hb; [exact Hs|].
  apply wlp_bind. eapply wlp_mono, Hb; [|done|done].
  intros [] s' Hs'. apply IH; [done|]. intros y l' s'' Hsuf. apply Hb.
  by apply suffix_cons_r.
Qed.

End state_monad.

Arguments M_ret : simpl never.

(** [if(c) m] *)
Definition when {S} (c : bool) (m : M S ()) : M S () :=
  if c then m else mret ().

Lemma wlp_when {S} (c : bool) (m : M S ()) Q s :
  (c = true → wlp m Q s) → (c = false → Q () s) → wlp (when c m) Q s.
Proof. intros Ht Hf. destruct c; [by apply Ht|by apply wlp_ret, Hf]. Qed.

(** ** Relations between the state before and after a call

    [pres R m]: whenever [m] returns, [R] relates the states.  For a preorder
    [R] this is closed under the program constructs. *)

Section pres.
Context {S : Type} (R : S → S → Prop) `{!PreOrder R}.

Definition pres {A} (m : M S A) : Prop := ∀ s, wlp m (λ _ s', R s s') s.

Lemma pres_ret {A} (a : A) : pres (mret a).
Proof. intros s. apply wlp_ret. reflexivity. Qed.
Lemma pres_get : pres get.
Proof. intros s. apply wlp_get. reflexivity. Qed.
Lemma pres_gets {A} (f : S → A) : pres (gets f).
Proof. intros s. apply wlp_gets. reflexivity. Qed.
Lemma pres_terminate {A} : pres (A := A) terminate.
Proof. intros s. apply wlp_terminate. Qed.
Lemma pres_modify f : (∀ s, R s (f s)) → pres (modify f).
Proof. intros Hf s. apply wlp_modify, Hf. Qed.
Lemma pres_bind {A B} (m : M S A) (f : A → M S B) :
  pres m → (∀ a, pres (f a)) → pres (mbind f m).
Proof.
  intros Hm Hf s. apply wlp_bind. eapply wlp_mono, Hm. simpl. intros a s1 H1.
  eapply wlp_mono, Hf. simpl. intros b s2 H2. by etransitivity.
Qed.
Lemma pres_when c m : (c = true → pres m) → pres (when c m).
Proof. intros Hm. destruct c; [by apply Hm|apply pres_ret]. Qed.
Lemma pres_for_each {A} (l : list A) body : (∀ x, x ∈ l → pres (body x)) → pres (for_each l body).
Proof.
  intros Hb. induction l as [|x l IH]; [apply pres_ret|].
  apply pres_bind; [apply Hb; set_solver|]. intros _. apply IH. intros y Hy. apply Hb. set_solver.
Qed.
End pres.

(** ** Tactics *)

(** Splits every boolean conjunction/disjunction hypothesis. *)
Ltac bool_hyps :=
  repeat match goal with
  | H : _ && _ = true |- _ => apply andb_true_iff in H as [? ?]
  | H : _ || _ = false |- _ => apply orb_false_iff in H as [? ?]
  | H : negb _ = true |- _ => apply negb_true_iff in H
  | H : negb _ = false |- _ => apply negb_false_iff in H
  | H : bool_decide _ = true |- _ => apply bool_decide_eq_true in H
  | H : bool_decide _ = false |- _ => apply bool_decide_eq_false in H
  end.

(** Walks through a monadic program in weakest-precondition form. *)
Ltac wlp_step :=
  match goal with
  | |- wlp (mbind _ _) _ _ => apply wlp_bind
  | |- wlp (mret _) _ _ => apply wlp_ret
  | |- wlp get _ _ => apply wlp_get
  | |- wlp (gets _) _ _ => apply wlp_gets
  | |- wlp (modify _) _ _ => apply wlp_modify
  | |- wlp terminate _ _ => apply wlp_terminate
  | |- wlp (when _ _) _ _ => apply wlp_when; intros
  | |- wlp (if ?b then _ else _) _ _ => destruct b eqn:?
  | |- wlp (match ?x with _ => _ end) _ _ => destruct x eqn:?
  end.

(** Takes a program apart under [pres]; what is left are the updates and the
    calls no hint of [ichor_pres] knows. *)
Create HintDb ichor_pres.
Ltac pres_step :=
  match goal with
  | |- pres _ (mbind _ _) => apply pres_bind; [apply _| |intros ?]
  | |- pres _ (mret _) => apply pres_ret; apply _
  | |- pres _ get => apply pres_get; apply _
  | |- pres _ (gets _) => apply pres_gets; apply _
  | |- pres _ terminate => apply pres_terminate
  | |- pres _ (when _ _) => apply pres_when; [apply _|intros ?]
  | |- pres _ (for_each _ _) => apply pres_for_each; [apply _|intros ? ?]
  | |- pres _ (if ?b then _ else _) => destruct b eqn:?
  | |- pres _ (match ?x with _ => _ end) => destruct x eqn:?
  | |- pres _ _ => solve [eauto 3 with ichor_pres]
  end.
Ltac pres_auto := repeat pres_step; try (apply pres_modify; intros ?; try done).

Create HintDb ichor.
#[export] Hint Resolve wlp_ret wlp_get wlp_gets wlp_modify wlp_terminate : ichor.

(** ** Generic lemmas on lists *)

Section list_lemmas.
Context {A : Type}.
Implicit Types l : list A.

Lemma filter_all (P : A → Prop) `{!∀ x, Decision (P x)} l :
  Forall P l → filter P l = l.
Proof. induction 1; simpl; [done|]. rewrite filter_cons_True; congruence. Qed.

Lemma filter_none (P : A → Prop) `{!∀ x, Decision (P x)} l :
  Forall (λ x, ¬ P x) l → filter P l = [].
Proof. induction 1; simpl; [done|]. by rewrite filter_cons_False. Qed.
End list_lemmas.

(** ** Facts on wrapped integers *)

Lemma wrap64_range z : 0 ≤ wrap64 z < u64_mod.
Proof. unfold wrap64, u64_mod. apply Z.mod_pos_bound. lia. Qed.

Lemma wrap64_small z : 0 ≤ z < u64_mod → wrap64 z = z.
Proof. apply Z.mod_small. Qed.

#[export] Hint Resolve wrap64_range : ichor.
Create Rewrite HintDb ichor_arith.
#[export] Hint Rewrite wrap64_small using lia : ichor_arith.
