(* ===== verification/Heap.v ===== *)
(** * [SectionalPriorityQueue] (include/ichor/stl/SectionalPriorityQueue.h)

    The vector-backed heap under the priority event queues.  [push] and [pop]
    are [push_back]/[pop_back] around [std::push_heap]/[std::pop_heap], which
    are written out as the array algorithms of the standard library: a hole is
    bubbled up ([push_heap_hole]), or moved down to a leaf along the larger
    children and then bubbled up ([adjust_heap]).  [comp] is the source's
    [Compare] template parameter.  The theorems: both operations keep the heap
    order and the multiset of elements, and [pop] returns an element no other
    element compares above. *)

From S2P Require Import Prelude.
From stdpp Require Import base list sorting.
From Stdlib Require Import Lia.

Open Scope nat_scope.

(** What [std::push_heap] and friends require of [Compare]: a strict weak
    ordering, stated on its complement. *)
Class StrictWeak {A} (comp : A → A → bool) : Prop := {
  sw_asym x y : comp x y = true → comp y x = false;
  sw_negtrans x y z : comp x y = false → comp y z = false → comp x z = false;
}.

Section heap.
Context {A : Type} (comp : A → A → bool).

(** ** Operations *)

Definition parent (i : nat) : nat := (i - 1) / 2.

(** The loop of [__push_heap]: [hole] moves up while its parent compares
    below [value]. *)
Fixpoint push_heap_hole (fuel : nat) (c : list A) (hole : nat) (value : A) : list A :=
  match fuel with
  | O => <[hole := value]> c
  | S fuel' =>
      if decide (0 < hole) then
        match c !! parent hole with
        | Some p =>
            if comp p value then push_heap_hole fuel' (<[hole := p]> c) (parent hole) value
            else <[hole := value]> c
        | None => <[hole := value]> c
        end
      else <[hole := value]> c
  end.

(** [std::push_heap(c.begin(), c.end(), Compare{})] *)
Definition push_heap (c : list A) : list A :=
  match last c with
  | Some value => push_heap_hole (length c) c (length c - 1) value
  | None => c
  end.

(** The larger of the two children [2*i+1] and [2*i+2], as [__adjust_heap]
    picks it: the right one unless it compares below the left one. *)
Definition larger_child (c : list A) (i : nat) : nat :=
  match c !! (2 * i + 2), c !! (2 * i + 1) with
  | Some r, Some l => if comp r l then 2 * i + 1 else 2 * i + 2
  | _, _ => 2 * i + 2
  end.

(** The descent of [__adjust_heap] over the first [len] slots: the hole takes
    the larger child until it has at most one child; a single child is taken
    too. *)
Fixpoint adjust_descend (fuel : nat) (c : list A) (len hole : nat) : list A * nat :=
  match fuel with
  | O => (c, hole)
  | S fuel' =>
      if decide (hole < (len - 1) / 2) then
        let child := larger_child c hole in
        match c !! child with
        | Some x => adjust_descend fuel' (<[hole := x]> c) len child
        | None => (c, hole)
        end
      else if decide (Nat.even len = true ∧ 2 ≤ len ∧ hole = (len - 2) / 2) then
        match c !! (2 * hole + 1) with
        | Some x => (<[hole := x]> c, 2 * hole + 1)
        | None => (c, hole)
        end
      else (c, hole)
  end.

Definition adjust_heap (c : list A) (len : nat) (value : A) : list A :=
  let '(c', hole) := adjust_descend len c len 0 in
  push_heap_hole len c' hole value.

(** [std::pop_heap(c.begin(), c.end(), Compare{})]: the top goes to the last
    slot, the old last value is sifted into the rest. *)
Definition pop_heap (c : list A) : list A :=
  match c !! 0, last c with
  | Some top, Some value =>
      if decide (1 < length c) then
        adjust_heap (take (length c - 1) c) (length c - 1) value ++ [top]
      else c
  | _, _ => c
  end.

Definition empty (c : list A) : bool := bool_decide (c = []).
Definition size (c : list A) : nat := length c.
Definition push (c : list A) (t : A) : list A := push_heap (c ++ [t]).

(** [pop] of an empty queue is undefined behaviour in the source: no result. *)
Definition pop (c : list A) : option (A * list A) :=
  match last (pop_heap c) with
  | Some t => Some (t, take (length c - 1) (pop_heap c))
  | None => None
  end.

(** ** The heap order *)

(** No element compares below... i.e. no parent compares below its child. *)
Definition is_heap (c : list A) : Prop :=
  ∀ i p x, 0 < i → c !! parent i = Some p → c !! i = Some x → comp p x = false.

(** Heap order except around [h]: edges away from [h], and from [h]'s parent
    to [h]'s children. *)
Definition heap_hole (c : list A) (h : nat) : Prop :=
  (∀ i p x, 0 < i → i ≠ h → parent i ≠ h →
     c !! parent i = Some p → c !! i = Some x → comp p x = false) ∧
  (∀ i p x, 0 < h → 0 < i → parent i = h →
     c !! parent h = Some p → c !! i = Some x → comp p x = false).

Context `{!StrictWeak comp}.

Lemma comp_irrefl x : comp x x = false.
Proof. destruct (comp x x) eqn:E; [|done]. by rewrite (sw_asym _ _ E) in E. Qed.

Lemma parent_lt i : 0 < i → parent i < i.
Proof. intros. unfold parent. apply Nat.Div0.div_lt_upper_bound; lia. Qed.

Lemma parent_child i j : 0 < i → parent i = j ↔ i = 2 * j + 1 ∨ i = 2 * j + 2.
Proof.
  intros Hi. unfold parent. pose proof (Nat.div_mod_eq (i - 1) 2).
  pose proof (Nat.mod_upper_bound (i - 1) 2). lia.
Qed.
Lemma parent_left j : parent (2 * j + 1) = j.
Proof. apply parent_child; lia. Qed.
Lemma parent_right j : parent (2 * j + 2) = j.
Proof. apply parent_child; lia. Qed.

(** ** Bubbling up *)

Lemma push_heap_hole_length fuel c hole value :
  length (push_heap_hole fuel c hole value) = length c.
Proof.
  revert c hole. induction fuel as [|fuel IH]; intros c hole; simpl;
    repeat case_match; rewrite ?IH, ?length_insert; done.
Qed.

Lemma heap_hole_up c h p value :
  0 < h → h < length c → c !! parent h = Some p → comp p value = true →
  heap_hole c h →
  heap_hole (<[h := p]> c) (parent h) ∧
  (∀ i x, 0 < i → parent i = parent h → <[h := p]> c !! i = Some x → comp value x = false).
Proof.
  intros Hh Hlen Hp Hcmp [He Hg]. pose proof (parent_lt h Hh) as Hlt.
  assert (comp value p = false) as Hvp by by apply sw_asym.
  repeat split.
  - intros i q x Hi Hih Hpi. rewrite !list_lookup_insert_Some.
    intros [(Hq1 & <- & _)|[Hq1 Hq]] [(Hx1 & <- & _)|[Hx1 Hx]].
    + by destruct Hpi; rewrite <- Hx1.
    + by eapply (Hg i p x).
    + by destruct Hpi; rewrite <- Hx1.
    + by eapply (He i q x).
  - intros i q x Hph Hi Hpi. rewrite !list_lookup_insert_Some.
    pose proof (parent_lt _ Hph).
    intros [(? & ? & _)|[Hq1 Hq]]; [lia|]. intros [(<- & <- & _)|[Hx1 Hx]].
    + eapply (He (parent h) q p); [done|lia|lia|done|done].
    + apply (sw_negtrans q p x).
      * eapply (He (parent h) q p); [done|lia|lia|done|done].
      * eapply (He i p x); [done|done|lia|by rewrite Hpi|done].
  - intros i x Hi Hpi. rewrite list_lookup_insert_Some.
    intros [(<- & <- & _)|[Hx1 Hx]]; [done|].
    apply (sw_negtrans value p x); [done|].
    eapply (He i p x); [done|done|lia|by rewrite Hpi|done].
Qed.

Lemma heap_hole_fill c h value :
  h < length c →
  heap_hole c h →
  (∀ i x, 0 < i → parent i = h → c !! i = Some x → comp value x = false) →
  (0 < h → ∀ p, c !! parent h = Some p → comp p value = false) →
  is_heap (<[h := value]> c).
Proof.
  intros Hlen [He Hg] Hv Hp i q x Hi. rewrite !list_lookup_insert_Some.
  intros [(Hq1 & <- & _)|[Hq1 Hq]] [(Hx1 & <- & _)|[Hx1 Hx]].
  - apply comp_irrefl.
  - by eapply Hv.
  - subst i. by apply Hp.
  - by eapply (He i q x).
Qed.

Lemma push_heap_hole_heap fuel c h value :
  h ≤ fuel → h < length c →
  heap_hole c h →
  (∀ i x, 0 < i → parent i = h → c !! i = Some x → comp value x = false) →
  is_heap (push_heap_hole fuel c h value).
Proof.
  revert c h. induction fuel as [|fuel IH]; intros c h Hf Hlen Hh Hv; simpl.
  { apply heap_hole_fill; [done..|lia]. }
  case_decide as Hpos; [|apply heap_hole_fill; [done..|lia]].
  pose proof (parent_lt h Hpos).
  destruct (c !! parent h) as [p|] eqn:Hp.
  2: { apply lookup_ge_None in Hp. lia. }
  destruct (comp p value) eqn:Hc.
  - destruct (heap_hole_up c h p value) as [??]; [done..|].
    apply IH; [lia|rewrite length_insert; lia|done|done].
  - apply heap_hole_fill; [done..|]. intros _ q. by rewrite Hp; intros [= <-].
Qed.

Lemma push_heap_hole_perm fuel c h value :
  h < length c → push_heap_hole fuel c h value ≡ₚ <[h := value]> c.
Proof.
  revert c h. induction fuel as [|fuel IH]; intros c h Hlen; simpl; [done|].
  case_decide as Hpos; [|done]. pose proof (parent_lt h Hpos).
  destruct (c !! parent h) as [p|] eqn:Hp; [|done].
  destruct (comp p value); [|done].
  rewrite IH by (rewrite length_insert; lia).
  rewrite <- (Permutation_insert_swap (<[h:=value]> c) h (parent h) value p).
  - by rewrite list_insert_insert_eq.
  - by apply list_lookup_insert_eq.
  - by rewrite list_lookup_insert_ne by lia.
Qed.

(** The last slot of [c ++ [t]] is a legal hole when [c] is a heap. *)
Lemma heap_hole_snoc c t : is_heap c → heap_hole (c ++ [t]) (length c).
Proof.
  intros Hc. split.
  - intros i p x Hi Hne Hpne Hp Hx. pose proof (parent_lt i Hi).
    apply lookup_lt_Some in Hx as Hl. rewrite length_app in Hl. simpl in Hl.
    rewrite lookup_app_l in Hp by lia. rewrite lookup_app_l in Hx by lia. by eapply Hc.
  - intros i p x Hh Hi Hpi _ Hx. pose proof (parent_lt i Hi).
    apply lookup_lt_Some in Hx. rewrite length_app in Hx. simpl in Hx. lia.
Qed.

Lemma push_heap_eq c t :
  push_heap (c ++ [t]) = push_heap_hole (S (length c)) (c ++ [t]) (length c) t.
Proof.
  unfold push_heap. rewrite last_snoc, length_app. simpl.
  by rewrite Nat.add_sub, Nat.add_1_r.
Qed.

Lemma push_is_heap c t : is_heap c → is_heap (push c t).
Proof.
  intros Hc. unfold push. rewrite push_heap_eq.
  apply push_heap_hole_heap; [lia|rewrite length_app; simpl; lia|by apply heap_hole_snoc|].
  intros i x Hi Hpi Hx. pose proof (parent_lt i Hi).
  apply lookup_lt_Some in Hx. rewrite length_app in Hx. simpl in Hx. lia.
Qed.

Lemma push_perm c t : push c t ≡ₚ t :: c.
Proof.
  unfold push. rewrite push_heap_eq.
  rewrite push_heap_hole_perm by (rewrite length_app; simpl; lia).
  rewrite insert_app_r_alt by lia. rewrite Nat.sub_diag. simpl.
  by rewrite Permutation_app_comm.
Qed.

(** ** Sifting down *)

(** Moving the hole to a child [s] that no sibling compares above. *)
Lemma heap_hole_down c h s x :
  0 < s → parent s = h → c !! s = Some x →
  (∀ i y, 0 < i → parent i = h → c !! i = Some y → comp x y = false) →
  heap_hole c h → heap_hole (<[h := x]> c) s.
Proof.
  intros Hs Hps Hx Hmax [He Hg]. pose proof (parent_lt s Hs) as Hlt. split.
  - intros i p y Hi His Hpi. rewrite !list_lookup_insert_Some.
    intros [(Hq1 & <- & _)|[Hq1 Hq]] [(Hx1 & <- & _)|[Hx1 Hy]].
    + apply comp_irrefl.
    + by eapply Hmax.
    + subst i. by eapply (Hg s p x).
    + by eapply (He i p y).
  - intros i p y _ Hi Hpi. rewrite !list_lookup_insert_Some.
    pose proof (parent_lt i Hi).
    intros [(Hq1 & <- & _)|[Hq1 Hq]] [(Hx1 & <- & _)|[Hx1 Hy]]; [lia| |lia|lia].
    eapply (He i x y); [done|lia|lia|by rewrite Hpi|done].
Qed.

Lemma larger_child_spec c h :
  2 * h + 2 < length c →
  ∃ x, c !! larger_child c h = Some x ∧ 0 < larger_child c h < length c ∧
       parent (larger_child c h) = h ∧
       ∀ i y, 0 < i → parent i = h → c !! i = Some y → comp x y = false.
Proof.
  intros Hlen. unfold larger_child.
  destruct (lookup_lt_is_Some_2 c (2 * h + 2)) as [r Hr]; [lia|].
  destruct (lookup_lt_is_Some_2 c (2 * h + 1)) as [l Hl]; [lia|].
  rewrite Hr, Hl. destruct (comp r l) eqn:Hc.
  - exists l. rewrite Hl, parent_left. repeat split; [lia..|].
    intros i y Hi [-> | ->]%parent_child Hy; simplify_eq; auto using comp_irrefl, sw_asym.
  - exists r. rewrite Hr, parent_right. repeat split; [lia..|].
    intros i y Hi [-> | ->]%parent_child Hy; simplify_eq; auto using comp_irrefl.
Qed.

(** What the descent of [adjust_heap] guarantees about its result. *)
Definition descended (len h : nat) (c : list A) (r : list A * nat) : Prop :=
  length r.1 = len ∧ r.2 < len ∧ len ≤ 2 * r.2 + 1 ∧ heap_hole r.1 r.2 ∧
  ∀ v, <[r.2 := v]> r.1 ≡ₚ <[h := v]> c.

Lemma insert_move_perm (c : list A) h s x v :
  h ≠ s → h < length c → c !! s = Some x → <[s := v]> (<[h := x]> c) ≡ₚ <[h := v]> c.
Proof.
  intros Hne Hh Hs. apply lookup_lt_Some in Hs as Hl.
  rewrite <- (Permutation_insert_swap (<[h:=v]> c) h s v x).
  - by rewrite list_insert_insert_eq.
  - by apply list_lookup_insert_eq.
  - by rewrite list_lookup_insert_ne.
Qed.

Lemma adjust_descend_spec fuel c len h :
  length c = len → h < len → len ≤ fuel + h → heap_hole c h →
  descended len h c (adjust_descend fuel c len h).
Proof.
  revert c h. induction fuel as [|fuel IH]; intros c h Hc Hh Hf Hhole; [simpl in *; lia|]. cbn [adjust_descend].
  pose proof (Nat.div_mod_eq (len - 1) 2). pose proof (Nat.mod_upper_bound (len - 1) 2).
  case_decide as Hd.
  - destruct (larger_child_spec c h) as (x & Hx & [??] & Hp & Hmax); [lia|].
    pose proof (parent_lt (larger_child c h)).
    rewrite Hx. edestruct (IH (<[h:=x]> c) (larger_child c h)) as (?&?&?&?&Hperm).
    + by rewrite length_insert.
    + lia.
    + lia.
    + by apply heap_hole_down.
    + split_and!; [done..|]. intros v. etrans; [apply Hperm|].
      apply insert_move_perm; [lia|lia|done].
  - case_decide as He.
    + destruct He as (Hev & H2 & ->). apply Nat.even_spec in Hev as [k Hk].
      replace ((len - 2) / 2) with (k - 1) in *
        by (replace (len - 2) with ((k - 1) * 2) by lia; by rewrite Nat.div_mul by lia).
      destruct (lookup_lt_is_Some_2 c (2 * (k - 1) + 1)) as [x Hx]; [lia|].
      rewrite Hx. split_and!; cbn [fst snd]; [by rewrite length_insert|lia|lia| |].
      * eapply heap_hole_down; [lia|by rewrite parent_left|done| |done].
        intros i y Hi Hpi Hy. apply parent_child in Hpi as [-> | ->]; [|apply lookup_lt_Some in Hy; lia|done].
        simplify_eq. apply comp_irrefl.
      * intros v. apply insert_move_perm; [lia|lia|done].
    + split_and!; cbn [fst snd]; [done|done| |done|done].
      destruct (Nat.Even_or_Odd len) as [[k Hk]|[k Hk]].
      * destruct (decide (2 ≤ len)); [|lia]. destruct (decide (h = (len - 2) / 2)).
        { destruct He. split; [apply Nat.even_spec; by exists k|done]. }
        replace ((len - 2) / 2) with (k - 1) in *
          by (replace (len - 2) with ((k - 1) * 2) by lia; by rewrite Nat.div_mul by lia).
        lia.
      * lia.
Qed.

Lemma heap_hole_root c : is_heap c → heap_hole c 0.
Proof. intros Hc. split; [|lia]. intros i p x Hi _ _. by apply Hc. Qed.

Lemma take_is_heap n c : is_heap c → is_heap (take n c).
Proof.
  intros Hc i p x Hi Hp Hx. apply lookup_take_Some in Hp as [Hp _].
  apply lookup_take_Some in Hx as [Hx _]. by eapply Hc.
Qed.

Lemma adjust_heap_spec c len value :
  length c = len → 0 < len → is_heap c →
  is_heap (adjust_heap c len value) ∧ length (adjust_heap c len value) = len ∧
  adjust_heap c len value ≡ₚ <[0 := value]> c.
Proof.
  intros Hc Hlen Hheap. unfold adjust_heap.
  pose proof (adjust_descend_spec len c len 0 Hc Hlen ltac:(lia) (heap_hole_root _ Hheap)) as Hd.
  destruct (adjust_descend len c len 0) as [c' h]. destruct Hd as (Hl & Hh & Hleaf & Hhole & Hperm).
  simpl in *. repeat split.
  - apply push_heap_hole_heap; [lia|lia|done|]. intros i x Hi Hpi Hx. apply lookup_lt_Some in Hx.
    apply parent_child in Hpi; lia.
  - by rewrite push_heap_hole_length.
  - by rewrite push_heap_hole_perm, Hperm by lia.
Qed.

(** ** The two operations of the queue *)

Lemma is_heap_top c t x : is_heap c → c !! 0 = Some t → x ∈ c → comp t x = false.
Proof.
  intros Hc Ht [i Hi]%list_elem_of_lookup. revert x Hi.
  induction (lt_wf i) as [i _ IH]; intros x Hx.
  destruct (decide (0 < i)) as [Hpos|]; [|replace i with 0 in Hx by lia; simplify_eq; apply comp_irrefl].
  pose proof (parent_lt i Hpos). apply lookup_lt_Some in Hx as Hl.
  destruct (lookup_lt_is_Some_2 c (parent i)) as [p Hp]; [lia|].
  apply (sw_negtrans t p x); [by eapply IH|by eapply Hc].
Qed.

Lemma pop_empty : pop [] = None.
Proof. done. Qed.

(** [pop] on a non-empty heap, completely: it succeeds, returns a top element,
    leaves a heap, and neither loses nor invents an element. *)
Lemma pop_spec c :
  is_heap c → c ≠ [] →
  ∃ t c', pop c = Some (t, c') ∧ is_heap c' ∧ c ≡ₚ t :: c' ∧
          ∀ x, x ∈ c → comp t x = false.
Proof.
  intros Hc Hne. destruct c as [|t c]; [done|]. unfold pop, pop_heap.
  destruct (last (t :: c)) as [value|] eqn:Hlast; [|by apply last_None in Hlast].
  cbn [lookup list_lookup]. case_decide as Hlen.
  - set (n := length (t :: c) - 1) in *.
    assert (length (take n (t :: c)) = n) as Hn by (rewrite length_take; lia).
    destruct (adjust_heap_spec (take n (t :: c)) n value Hn) as (Hh & Hl & Hp);
      [simpl in *; lia|by apply take_is_heap|].
    rewrite last_snoc, take_app_length' by done. eexists t, _.
    split_and!; [done|done| |intros x; by apply is_heap_top].
    rewrite Hp.
    apply last_Some in Hlast as [l Hl']. unfold n. rewrite Hl', length_app, Nat.add_sub.
    simpl. rewrite take_app_length. destruct l as [|y l]; [simplify_eq/=; lia|].
    simplify_eq/=. by rewrite Permutation_app_comm.
  - destruct c; [|simpl in *; lia]. exists t, []. split_and!; [done|by intros ???|done|].
    intros x ->%list_elem_of_singleton. apply comp_irrefl.
Qed.

(** Draining the queue, [n] pops at most. *)
Fixpoint drain (n : nat) (c : list A) : list A :=
  match n with
  | O => []
  | S n' => match pop c with Some (t, c') => t :: drain n' c' | None => [] end
  end.

Lemma drain_spec n c :
  is_heap c → length c ≤ n →
  drain n c ≡ₚ c ∧ Sorted (λ x y, comp x y = false) (drain n c).
Proof.
  revert c. induction n as [|n IH]; intros c Hc Hn; simpl.
  { destruct c; [by split|simpl in *; lia]. }
  destruct (decide (c = [])) as [->|Hne]; [by split|].
  destruct (pop_spec c Hc Hne) as (t & c' & -> & Hc' & Hp & Hmin).
  destruct (IH c') as [Hd Hs]; [done|apply Permutation_length in Hp; simpl in *; lia|].
  split; [by rewrite Hd|]. constructor; [done|].
  destruct (drain n c') as [|y l]; constructor. apply Hmin. rewrite Hp.
  right. rewrite <- Hd. left.
Qed.
End heap.
