(* ===== verification/DenseMap.v ===== *)
(** * The containers of [Ichor::unordered_map] / [Ichor::unordered_set]

    Both are ankerl's [unordered_dense] tables (include/ichor/Common.h): the
    entries live in a vector in insertion order, [do_try_emplace] appends when
    the key is absent, and [do_erase] overwrites the erased entry with the last
    one before [pop_back].  Iteration walks that vector, so the order in which
    the manager visits its services is the order of these lists.  The bucket
    array, which only finds positions in the vector, is represented by the
    search itself. *)

From S2P Require Import Prelude.
From stdpp Require Import base list gmap.
From Stdlib Require Import Lia.

Section dense.
Context {K V : Type} `{!EqDecision K}.
Implicit Types (m : list (K * V)) (k : K).

(** [find]: the entry of a key. *)
Fixpoint dfind k m : option V :=
  match m with
  | [] => None
  | (k', v) :: m' => if decide (k = k') then Some v else dfind k m'
  end.

Definition dcontains k m : bool := bool_decide (is_Some (dfind k m)).

(** [emplace]/[try_emplace]: no change when the key exists. *)
Definition demplace k (v : V) m : list (K * V) :=
  match dfind k m with
  | Some _ => m
  | None => m ++ [(k, v)]
  end.

(** Writing through the reference an iterator yields. *)
Fixpoint dupdate k (f : V → V) m : list (K * V) :=
  match m with
  | [] => []
  | (k', v) :: m' => if decide (k = k') then (k', f v) :: m' else (k', v) :: dupdate k f m'
  end.

(** [m_values[i] = move(m_values.back()); m_values.pop_back()] at the head. *)
Definition move_last_here {X} (l : list X) : list X :=
  match last l with
  | Some x => x :: take (length l - 1) l
  | None => []
  end.

Fixpoint derase k m : list (K * V) :=
  match m with
  | [] => []
  | (k', v) :: m' => if decide (k = k') then move_last_here m' else (k', v) :: derase k m'
  end.

(** [erase_if]: from the last entry to the first, each match erased at its place. *)
Definition erase_at {X} (i : nat) (l : list X) : list X := take i l ++ move_last_here (drop (S i) l).
Fixpoint erase_back {X} (P : X → bool) (idx : nat) (l : list X) : list X :=
  match idx with
  | O => l
  | S i =>
      match l !! i with
      | Some x => erase_back P i (if P x then erase_at i l else l)
      | None => erase_back P i l
      end
  end.
Definition derase_if {X} (P : X → bool) (l : list X) : list X := erase_back P (length l) l.

Definition dkeys m : list K := m.*1.
Definition dwf m : Prop := NoDup (dkeys m).

(** ** Lookup lemmas *)

Lemma dfind_Some_In k m v : dfind k m = Some v → (k, v) ∈ m.
Proof.
  induction m as [|[k' v'] m IH]; simpl; [done|]. case_decide; intros; simplify_eq; set_solver.
Qed.

Lemma dfind_is_Some k m : is_Some (dfind k m) ↔ k ∈ dkeys m.
Proof.
  induction m as [|[k' v'] m IH]; simpl.
  - split; [by intros []|set_solver].
  - rewrite elem_of_cons. case_decide; [|rewrite IH]; naive_solver.
Qed.

Lemma dfind_None k m : dfind k m = None ↔ k ∉ dkeys m.
Proof. rewrite <- dfind_is_Some, eq_None_not_Some. done. Qed.

Lemma dfind_app k m1 m2 :
  dfind k (m1 ++ m2) = match dfind k m1 with Some v => Some v | None => dfind k m2 end.
Proof. induction m1 as [|[k' v'] m IH]; simpl; [done|]. by case_decide. Qed.

Lemma dfind_dupdate k k' f m :
  dfind k (dupdate k' f m) = if decide (k = k') then f <$> dfind k m else dfind k m.
Proof.
  induction m as [|[k'' v] m IH]; simpl; [by case_decide|].
  repeat (case_decide; simplify_eq; simpl; try done); congruence.
Qed.

Lemma dkeys_dupdate k f m : dkeys (dupdate k f m) = dkeys m.
Proof. induction m as [|[k' v] m IH]; simpl; [done|]. case_decide; simpl; congruence. Qed.

Lemma dfind_demplace k k' v m :
  dfind k (demplace k' v m) =
  match dfind k m with
  | Some w => Some w
  | None => if decide (k = k') then Some v else None
  end.
Proof.
  unfold demplace. destruct (dfind k' m) eqn:E.
  - destruct (dfind k m) eqn:E'; [done|]. case_decide; congruence.
  - by rewrite dfind_app.
Qed.

Lemma move_last_here_perm {X} (l : list X) : move_last_here l ≡ₚ l.
Proof.
  unfold move_last_here. destruct (last l) as [x|] eqn:E.
  - apply last_Some in E as [l' ->]. rewrite length_app. simpl.
    rewrite Nat.add_sub, take_app_length. by rewrite <- Permutation_cons_append.
  - by apply last_None in E as ->.
Qed.

Lemma derase_perm k m : dwf m → derase k m ≡ₚ filter (λ p, p.1 ≠ k) m.
Proof.
  unfold dwf. induction m as [|[k' v] m IH]; simpl; [done|]. intros [Hk Hd]%NoDup_cons.
  case_decide as Hkk.
  - subst. rewrite filter_cons_False by naive_solver. rewrite move_last_here_perm.
    rewrite filter_all; [done|]. apply Forall_forall. intros [k v'] Hin Heq. simpl in Heq. subst.
    destruct Hk. apply list_elem_of_fmap. by exists (k', v').
  - rewrite filter_cons_True by done. by rewrite IH.
Qed.

Lemma dkeys_derase_perm k m : dwf m → dkeys (derase k m) ≡ₚ filter (λ k', k' ≠ k) (dkeys m).
Proof.
  intros Hm. unfold dkeys. rewrite (derase_perm k m Hm). clear Hm.
  induction m as [|[k' v] m IH]; [done|]. simpl.
  rewrite filter_cons. rewrite (filter_cons (λ k', k' ≠ k) k'). repeat case_decide; simpl; try done.
  by rewrite IH.
Qed.

Lemma elem_of_dkeys_derase k k' m : dwf m → k' ∈ dkeys (derase k m) ↔ k' ≠ k ∧ k' ∈ dkeys m.
Proof. intros Hm. rewrite dkeys_derase_perm by done. by rewrite list_elem_of_filter. Qed.

Lemma dwf_derase k m : dwf m → dwf (derase k m).
Proof.
  intros Hm. unfold dwf. rewrite dkeys_derase_perm by done. by apply NoDup_filter.
Qed.

Lemma dwf_demplace k v m : dwf m → dwf (demplace k v m).
Proof.
  intros Hm. unfold demplace. destruct (dfind k m) eqn:E; [done|].
  unfold dwf, dkeys. rewrite fmap_app. apply NoDup_app. split; [done|].
  split; [|apply NoDup_singleton]. intros x Hx ->%list_elem_of_singleton.
  by apply dfind_None in E.
Qed.

Lemma dwf_dupdate k f m : dwf m → dwf (dupdate k f m).
Proof. unfold dwf. by rewrite dkeys_dupdate. Qed.

Lemma dwf_nil : dwf [].
Proof. apply NoDup_nil_2. Qed.

(** On a well-formed table, [find] is membership of the entry vector. *)
Lemma dfind_elem_of k v m : dwf m → dfind k m = Some v ↔ (k, v) ∈ m.
Proof.
  intros Hm. split; [apply dfind_Some_In|].
  revert Hm. unfold dwf. induction m as [|[k' v'] m IH]; simpl; [set_solver|].
  intros [Hk Hd]%NoDup_cons [?|Hin]%elem_of_cons; simplify_eq; [by rewrite decide_True|].
  rewrite decide_False; [by apply IH|]. intros ->. destruct Hk. apply list_elem_of_fmap. by exists (k', v).
Qed.

Lemma dfind_derase k k' m :
  dwf m → dfind k (derase k' m) = if decide (k = k') then None else dfind k m.
Proof.
  intros Hm. pose proof (dwf_derase k' m Hm) as Hm'. case_decide as Hk.
  - apply dfind_None. rewrite elem_of_dkeys_derase by done. naive_solver.
  - apply option_eq. intros v. rewrite !dfind_elem_of by done.
    rewrite derase_perm by done. rewrite list_elem_of_filter. simpl. naive_solver.
Qed.

Lemma length_dupdate k f m : length (dupdate k f m) = length m.
Proof. rewrite <- (length_fmap fst), <- (length_fmap fst m). fold (dkeys m) (dkeys (dupdate k f m)). by rewrite dkeys_dupdate. Qed.
End dense.

#[export] Hint Resolve dwf_derase dwf_demplace dwf_dupdate dwf_nil : ichor.

(** ** Sets: the same vector without values *)

Section dense_set.
Context {K : Type} `{!EqDecision K}.
Implicit Types (s : list K) (k : K).

Definition sinsert k s : list K := if decide (k ∈ s) then s else s ++ [k].

Fixpoint serase k s : list K :=
  match s with
  | [] => []
  | k' :: s' => if decide (k = k') then move_last_here s' else k' :: serase k s'
  end.

Definition scontains k s : bool := bool_decide (k ∈ s).

Lemma elem_of_sinsert k k' s : k' ∈ sinsert k s ↔ k' = k ∨ k' ∈ s.
Proof. unfold sinsert. case_decide; set_solver. Qed.

Lemma NoDup_sinsert k s : NoDup s → NoDup (sinsert k s).
Proof.
  intros. unfold sinsert. case_decide; [done|]. apply NoDup_app.
  split_and!; [done|set_solver|apply NoDup_singleton].
Qed.

Lemma serase_perm k s : NoDup s → serase k s ≡ₚ filter (λ k', k' ≠ k) s.
Proof.
  induction s as [|k' s IH]; simpl; [done|]. intros [Hk Hd]%NoDup_cons. case_decide as Hkk.
  - subst. rewrite filter_cons_False by naive_solver. rewrite move_last_here_perm.
    rewrite filter_all; [done|]. apply Forall_forall. intros x Hx ->. done.
  - rewrite filter_cons_True by done. by rewrite IH.
Qed.

Lemma elem_of_serase k k' s : NoDup s → k' ∈ serase k s ↔ k' ≠ k ∧ k' ∈ s.
Proof. intros. rewrite serase_perm by done. by rewrite list_elem_of_filter. Qed.

Lemma NoDup_serase k s : NoDup s → NoDup (serase k s).
Proof. intros. rewrite serase_perm by done. by apply NoDup_filter. Qed.
End dense_set.

#[export] Hint Resolve NoDup_sinsert NoDup_serase : ichor.
