(* ===== verification/Register.v ===== *)
(** * Dependencies, properties and the dependency register

    [Dependency] and [DependencyFlags] (include/ichor/dependency_management/Dependency.h),
    [Properties] (include/ichor/Common.h) and [DependencyRegister]
    (include/ichor/dependency_management/DependencyRegister.h and
    src/ichor/dependency_management/DependencyRegister.cpp).  Interfaces are
    identified by their 64-bit name hash, as in the source.  A register is the
    list of its registrations in iteration order (the order of an
    [std::unordered_multimap] is unspecified; every theorem holds for every
    list), and an iterator into it is an index. *)

From S2P Require Import Prelude DenseMap.
From stdpp Require Import base list strings.
From Stdlib Require Import ZArith Lia.

Open Scope Z_scope.

(** ** [DependencyFlags] *)

Definition FLAG_NONE : Z := 0.
Definition FLAG_REQUIRED : Z := 1.
Definition FLAG_ALLOW_MULTIPLE : Z := 2.
Definition flags_or (lhs rhs : Z) : Z := Z.lor lhs rhs.
Definition flags_and (lhs rhs : Z) : Z := Z.land lhs rhs.

(** [(flags & DependencyFlags::REQUIRED) == DependencyFlags::REQUIRED] *)
Definition is_required (flags : Z) : bool := flags_and flags FLAG_REQUIRED =? FLAG_REQUIRED.
Definition allows_multiple (flags : Z) : bool :=
  flags_and flags FLAG_ALLOW_MULTIPLE =? FLAG_ALLOW_MULTIPLE.

(** ** [Dependency] *)

Record Dependency := mkDependency {
  interfaceNameHash : Z;
  flags : Z;
  satisfied : Z;            (* uint64_t *)
}.

#[export] Instance Dependency_eq_dec : EqDecision Dependency.
Proof. solve_decision. Defined.

(** [Dependency::operator==]: the counter is not compared. *)
Definition Dependency_eqb (a b : Dependency) : bool :=
  (interfaceNameHash a =? interfaceNameHash b) && (flags a =? flags b).

(** [satisfied++] and [satisfied--] on [uint64_t]. *)
Definition satisfied_inc (d : Dependency) : Dependency :=
  mkDependency (interfaceNameHash d) (flags d) (wrap64 (satisfied d + 1)).
Definition satisfied_dec (d : Dependency) : Dependency :=
  mkDependency (interfaceNameHash d) (flags d) (wrap64 (satisfied d - 1)).

(** ** [Properties]: string keys to [any]

    The payloads are the scalar types filters compare, and [Filter] itself. *)

Inductive scalar :=
| SString (s : string)
| SInt (z : Z)
| SBool (b : bool).

#[export] Instance scalar_eq_dec : EqDecision scalar.
Proof. solve_decision. Defined.

(** [any::type_hash() == typeNameHash<T>()]: the two hold the same type. *)
Definition same_type (a b : scalar) : bool :=
  match a, b with
  | SString _, SString _ | SInt _, SInt _ | SBool _, SBool _ => true
  | _, _ => false
  end.

(** The entries a [Filter] is built from (include/ichor/Filter.h); the template
    argument [MissingOk] is a field. *)
Inductive filter_entry :=
| PropertiesFilterEntry (key : string) (val : scalar) (missingOk : bool)
| DependencyPropertiesFilterEntry (depT : Z) (key : string) (val : scalar) (missingOk : bool)
| ServiceIdFilterEntry (id : Z).

Inductive any :=
| AnyScalar (s : scalar)
| AnyFilter (f : filter_entry).

Definition Properties : Type := list (string * any).

(** ** [DependencyRegister] *)

(** One entry of [_registrations]: the tuple's [Dependency] and optional
    properties.  The two stored functions call [addDependencyInstance] and
    [removeDependencyInstance] of the owning service; see Lifecycle.v. *)
Record registration := mkRegistration {
  reg_dep : Dependency;
  reg_props : option Properties;
}.

Notation DependencyRegister := (list registration) (only parsing).

(** [registerDependency<Interface>(svc, flags, props)] and
    [registerDependencyConstructor]: a new, unsatisfied registration. *)
Definition registerDependency (r : DependencyRegister) (iface flags : Z)
    (props : option Properties) : DependencyRegister :=
  r ++ [mkRegistration (mkDependency iface flags 0) props].

Definition registerDependencyConstructor (r : DependencyRegister) (iface : Z) : DependencyRegister :=
  r ++ [mkRegistration (mkDependency iface FLAG_REQUIRED 0) None].

(** [std::find_if(begin(), end(), pred)] as an index; [None] is [end()]. *)
Fixpoint find_if_from (n : nat) (pred : registration → bool) (r : DependencyRegister) : option nat :=
  match r with
  | [] => None
  | x :: r' => if pred x then Some n else find_if_from (S n) pred r'
  end.
Definition find_if := find_if_from 0.

Definition contains (r : DependencyRegister) (dependency : Dependency) : bool :=
  bool_decide (is_Some
    (find_if (λ n, interfaceNameHash (reg_dep n) =? interfaceNameHash dependency) r)).

(** The predicate of [find(hash, satisfied)]. *)
Definition find_pred (hash : Z) (sat : bool) (node : registration) : bool :=
  let dep := reg_dep node in
  (interfaceNameHash dep =? hash) &&
  (allows_multiple (flags dep) || (sat && (0 <? satisfied dep))
     || (negb sat && (satisfied dep =? 0))).

Definition find_hash_sat (r : DependencyRegister) (hash : Z) (sat : bool) : option nat :=
  find_if (find_pred hash sat) r.

(** [find(dependency, satisfied)] only uses the dependency's hash. *)
Definition find_dep_sat (r : DependencyRegister) (dependency : Dependency) (sat : bool) : option nat :=
  find_hash_sat r (interfaceNameHash dependency) sat.

Definition find_hash (r : DependencyRegister) (hash : Z) : option nat :=
  find_if (λ n, interfaceNameHash (reg_dep n) =? hash) r.

Definition register_size (r : DependencyRegister) : nat := length r.
Definition register_empty (r : DependencyRegister) : bool := bool_decide (r = []).

Definition dep_is_satisfied (node : registration) : bool :=
  (0 <? satisfied (reg_dep node))
  || (flags_and (flags (reg_dep node)) FLAG_REQUIRED =? FLAG_NONE).

Definition allSatisfied (r : DependencyRegister) : bool := forallb dep_is_satisfied r.

(** ** Lemmas *)

Lemma flags_and_required f : flags_and f FLAG_REQUIRED = Z.b2z (Z.odd f).
Proof.
  unfold flags_and, FLAG_REQUIRED. change 1 with (Z.ones 1).
  rewrite Z.land_ones by lia. rewrite Zmod_odd. by destruct (Z.odd f).
Qed.

(** The two ways the source tests the REQUIRED bit agree. *)
Lemma required_none f : (flags_and f FLAG_REQUIRED =? FLAG_NONE) = negb (is_required f).
Proof. unfold is_required. rewrite flags_and_required. by destruct (Z.odd f). Qed.

Lemma find_if_from_Some n pred r i :
  find_if_from n pred r = Some i ↔
  ∃ j x, i = (n + j)%nat ∧ r !! j = Some x ∧ pred x = true ∧
         ∀ j' y, (j' < j)%nat → r !! j' = Some y → pred y = false.
Proof.
  revert n. induction r as [|x r IH]; intros n; simpl.
  { split; [done|]. intros (j & x & _ & H & _). done. }
  destruct (pred x) eqn:Hp.
  - split.
    + intros [= <-]. exists 0%nat, x. split_and!; [lia|done|done|lia].
    + intros (j & y & -> & Hy & Hpy & Hmin). destruct j as [|j]; [f_equal; lia|].
      specialize (Hmin 0%nat x ltac:(lia) eq_refl). congruence.
  - rewrite IH. split.
    + intros (j & y & -> & Hy & Hpy & Hmin). exists (S j), y. split_and!; [lia|done|done|].
      intros [|j'] z Hlt Hz; simplify_eq/=; [done|]. eapply (Hmin j'); [lia|done].
    + intros ([|j] & y & -> & Hy & Hpy & Hmin); [simpl in Hy; congruence|].
      exists j, y. split_and!; [lia|done|done|]. intros j' z Hlt Hz.
      apply (Hmin (S j') z); [lia|done].
Qed.

Lemma find_if_Some pred r i :
  find_if pred r = Some i ↔
  ∃ x, r !! i = Some x ∧ pred x = true ∧ ∀ j y, (j < i)%nat → r !! j = Some y → pred y = false.
Proof.
  unfold find_if. rewrite find_if_from_Some. split.
  - intros (j & x & -> & ?). by exists x.
  - intros (x & ?). by exists i, x.
Qed.

Lemma find_if_None pred r : find_if pred r = None ↔ Forall (λ x, pred x = false) r.
Proof.
  unfold find_if. generalize 0%nat. induction r as [|x r IH]; intros n; simpl; [done|].
  rewrite Forall_cons. destruct (pred x) eqn:E; [naive_solver|]. rewrite IH. naive_solver.
Qed.

Lemma allSatisfied_spec r :
  allSatisfied r = true ↔
  ∀ i node, r !! i = Some node → is_required (flags (reg_dep node)) = true →
            0 < satisfied (reg_dep node).
Proof.
  unfold allSatisfied. rewrite forallb_True || rewrite forallb_forall.
  split.
  - intros H i node Hi Hreq. apply list_elem_of_lookup_2, list_elem_of_In, H in Hi.
    unfold dep_is_satisfied in Hi. rewrite required_none, Hreq in Hi. simpl in Hi. lia.
  - intros H node Hin. apply list_elem_of_In, list_elem_of_lookup in Hin as [i Hi].
    specialize (H i node Hi). unfold dep_is_satisfied. rewrite required_none.
    destruct (is_required _); simpl; [|by rewrite orb_true_r]. specialize (H eq_refl). lia.
Qed.
