(* ===== verification/Lifecycle.v ===== *)
(** * Services and their lifecycle managers

    The service state machine of [AdvancedService]
    (include/ichor/dependency_management/AdvancedService.h) and the part of the
    lifecycle managers that does not involve the event queue:
    [DependencyLifecycleManager], [LifecycleManager],
    [InternalServiceLifecycleManager] and [IServiceInterestedLifecycleManager].
    One record [lm] represents a manager together with the service it owns; the
    C++ class of the manager is the field [lm_kind], and every virtual function
    dispatches on it.  Builds with [ICHOR_USE_HARDENING] (the default) are
    modelled: the [std::terminate()] checks guarded by [DO_HARDENING] are the
    [Terminated] outcome.  The injection callbacks
    ([addDependencyInstance]/[removeDependencyInstance]) are code of the
    service; the calls made to them are recorded in [lm_calls], and the states
    a service has gone through in [lm_trace]; no operation reads these two. *)

From S2P Require Import Prelude DenseMap Register.
From stdpp Require Import base list strings.
From Stdlib Require Import ZArith Lia.

Open Scope Z_scope.

(** ** Enumerations (include/ichor/Enums.h) *)

Inductive ServiceState :=
| UNINSTALLED | INSTALLED | INJECTING | STARTING | ACTIVE | UNINJECTING | STOPPING.

#[export] Instance ServiceState_eq_dec : EqDecision ServiceState.
Proof. solve_decision. Defined.

(** The underlying values, used by the [<=]/[>=] comparisons. *)
Definition state_value (s : ServiceState) : Z :=
  match s with
  | UNINSTALLED => 0 | INSTALLED => 1 | INJECTING => 2 | STARTING => 3
  | ACTIVE => 4 | UNINJECTING => 5 | STOPPING => 6
  end.
Definition state_le (a b : ServiceState) : bool := state_value a <=? state_value b.

Inductive StartBehaviour := SB_DONE | SB_STARTED | SB_STOPPED | SB_STOP_ME.
#[export] Instance StartBehaviour_eq_dec : EqDecision StartBehaviour.
Proof. solve_decision. Defined.

Inductive DependencyChange := NOT_FOUND | FOUND | FOUND_AND_START_ME | FOUND_AND_STOP_ME.
#[export] Instance DependencyChange_eq_dec : EqDecision DependencyChange.
Proof. solve_decision. Defined.

(** ** The manager record *)

(** [KDependency]: [DependencyLifecycleManager]; [KPlain]: [LifecycleManager];
    [KInternal]: [InternalServiceLifecycleManager]. *)
Inductive lm_kind_t := KDependency | KPlain | KInternal.
#[export] Instance lm_kind_eq_dec : EqDecision lm_kind_t.
Proof. solve_decision. Defined.

(** Calls into the owned service. *)
Inductive inj_call :=
| AddDependencyInstance (iface provider : Z)
| RemoveDependencyInstance (iface provider : Z).
#[export] Instance inj_call_eq_dec : EqDecision inj_call.
Proof. solve_decision. Defined.

Record lm := mkLm {
  lm_kind : lm_kind_t;
  lm_id : Z;                        (* _serviceId *)
  lm_state : ServiceState;          (* _serviceState *)
  lm_priority : Z;                  (* _servicePriority *)
  lm_interfaces : list Z;           (* _interfaces: hashes of IFaces... *)
  lm_registry : DependencyRegister; (* _registry *)
  lm_injected : list Z;             (* _serviceIdsOfInjectedDependencies *)
  lm_goingaway : list Z;            (* _serviceIdsOfInjectedDependenciesButGoingAway *)
  lm_dependees : list Z;            (* _serviceIdsOfDependees *)
  lm_props : Properties;            (* _properties *)
  lm_calls : list inj_call;
  lm_trace : list ServiceState;     (* past values of _serviceState, newest first *)
}.

(** Field updates. *)
Definition set_state (s : ServiceState) (m : lm) : lm :=
  mkLm (lm_kind m) (lm_id m) s (lm_priority m) (lm_interfaces m) (lm_registry m)
    (lm_injected m) (lm_goingaway m) (lm_dependees m) (lm_props m) (lm_calls m)
    (lm_state m :: lm_trace m).
Definition set_registry (r : DependencyRegister) (m : lm) : lm :=
  mkLm (lm_kind m) (lm_id m) (lm_state m) (lm_priority m) (lm_interfaces m) r
    (lm_injected m) (lm_goingaway m) (lm_dependees m) (lm_props m) (lm_calls m) (lm_trace m).
Definition set_injected (l : list Z) (m : lm) : lm :=
  mkLm (lm_kind m) (lm_id m) (lm_state m) (lm_priority m) (lm_interfaces m) (lm_registry m)
    l (lm_goingaway m) (lm_dependees m) (lm_props m) (lm_calls m) (lm_trace m).
Definition set_goingaway (l : list Z) (m : lm) : lm :=
  mkLm (lm_kind m) (lm_id m) (lm_state m) (lm_priority m) (lm_interfaces m) (lm_registry m)
    (lm_injected m) l (lm_dependees m) (lm_props m) (lm_calls m) (lm_trace m).
Definition set_dependees (l : list Z) (m : lm) : lm :=
  mkLm (lm_kind m) (lm_id m) (lm_state m) (lm_priority m) (lm_interfaces m) (lm_registry m)
    (lm_injected m) (lm_goingaway m) l (lm_props m) (lm_calls m) (lm_trace m).
Definition add_call (c : inj_call) (m : lm) : lm :=
  mkLm (lm_kind m) (lm_id m) (lm_state m) (lm_priority m) (lm_interfaces m) (lm_registry m)
    (lm_injected m) (lm_goingaway m) (lm_dependees m) (lm_props m) (lm_calls m ++ [c]) (lm_trace m).
Definition set_priority (p : Z) (m : lm) : lm :=
  mkLm (lm_kind m) (lm_id m) (lm_state m) p (lm_interfaces m) (lm_registry m)
    (lm_injected m) (lm_goingaway m) (lm_dependees m) (lm_props m) (lm_calls m) (lm_trace m).

(** Constructors of the three managers: a service is born INSTALLED, an
    internal one is put ACTIVE at once. *)
Definition INTERNAL_EVENT_PRIORITY : Z := 1000.
Definition new_dependency_manager (id : Z) (ifaces : list Z) (reg : DependencyRegister)
    (props : Properties) : lm :=
  mkLm KDependency id INSTALLED INTERNAL_EVENT_PRIORITY ifaces reg [] [] [] props [] [].
Definition new_plain_manager (id : Z) (ifaces : list Z) (props : Properties) : lm :=
  mkLm KPlain id INSTALLED INTERNAL_EVENT_PRIORITY ifaces [] [] [] [] props [] [].
Definition new_internal_manager (id : Z) (iface : Z) : lm :=
  mkLm KInternal id ACTIVE INTERNAL_EVENT_PRIORITY [iface] [] [] [] [] [] [] [INSTALLED].

(** ** Accessors that dispatch on the manager class *)

Definition getDependencies (m : lm) : list Z :=
  match lm_kind m with KDependency => lm_injected m | _ => [] end.
Definition getDependees (m : lm) : list Z := lm_dependees m.
Definition getServiceState (m : lm) : ServiceState := lm_state m.
Definition getPriority (m : lm) : Z :=
  match lm_kind m with KInternal => INTERNAL_EVENT_PRIORITY | _ => lm_priority m end.
Definition getInterfaces (m : lm) : list Z := lm_interfaces m.
Definition getDependencyRegistry (m : lm) : option DependencyRegister :=
  match lm_kind m with KDependency => Some (lm_registry m) | _ => None end.
Definition isInternalManager (m : lm) : bool := bool_decide (lm_kind m = KInternal).

(** ** The service state machine *)

(** [AdvancedService::internal_start] up to [co_await start()]: [None] when
    nothing is started. *)
Definition internal_start_begin (dependencies : option DependencyRegister) (m : lm) : option lm :=
  if negb (bool_decide (lm_state m = INSTALLED))
     || match dependencies with Some r => negb (allSatisfied r) | None => false end
  then None
  else Some (set_state STARTING m).

(** The rest of [internal_start], with the outcome of the service's [start()]
    ([false] is a [StartError]). *)
Definition internal_start_end (started : bool) (m : lm) : StartBehaviour * lm :=
  if started then (SB_DONE, set_state INJECTING m)
  else (SB_STOPPED, set_state INSTALLED m).

(** [internal_stop] around [co_await stop()]. *)
Definition internal_stop_begin (m : lm) : outcome lm :=
  if bool_decide (lm_state m = UNINJECTING) then Done (set_state STOPPING m) else Terminated.
Definition internal_stop_end (m : lm) : StartBehaviour * lm :=
  (SB_DONE, set_state INSTALLED m).

Definition internalSetInjected (m : lm) : bool * lm :=
  if bool_decide (lm_state m = INJECTING) then (true, set_state ACTIVE m) else (false, m).
Definition internalSetUninjected (m : lm) : bool * lm :=
  if bool_decide (lm_state m = ACTIVE) then (true, set_state UNINJECTING m) else (false, m).

(** [setInjected]/[setUninjected] of the managers: the internal one runs the
    same guards on its pretended service. *)
Definition setInjected (m : lm) : bool * lm := internalSetInjected m.
Definition setUninjected (m : lm) : bool * lm := internalSetUninjected m.

(** ** Injection *)

(** A provider as the consumer's manager sees it: an entry of [_services], or
    the temporary [IServiceInterestedLifecycleManager].  Its id is
    [std::numeric_limits<ServiceIdType>::max()], and as [numeric_limits] is not
    specialised for [ServiceIdType] that is the value-initialised 0. *)
Record provider := mkProvider {
  prov_id : Z;
  prov_interfaces : list Z;
  prov_registers_dependees : bool;  (* insertSelfInto records the dependee *)
}.
Definition provider_of (m : lm) : provider :=
  mkProvider (lm_id m) (lm_interfaces m) (negb (bool_decide (lm_interfaces m = []))).
Definition SELF_SERVICE_ID : Z := 0.
Definition self_provider (iservice_hash : Z) : provider :=
  mkProvider SELF_SERVICE_ID [iservice_hash] false.

(** One iteration of the loop of [dependencyOnline]. *)
Definition dependencyOnline_step (prov : provider) (iface : Z)
    (acc : DependencyChange * lm) : DependencyChange * lm :=
  let '(interested, self) := acc in
  match find_hash_sat (lm_registry self) iface false with
  | None => acc
  | Some i =>
      match lm_registry self !! i with
      | None => acc
      | Some node =>
          let dep := reg_dep node in
          let interested' := if satisfied dep =? 0 then FOUND else interested in
          let self1 := set_injected (sinsert (prov_id prov) (lm_injected self)) self in
          let self2 := add_call (AddDependencyInstance (interfaceNameHash dep) (prov_id prov)) self1 in
          let self3 := set_registry
            (<[i := mkRegistration (satisfied_inc dep) (reg_props node)]> (lm_registry self2)) self2 in
          (interested', self3)
      end
  end.

(** [dependencyOnline]: the behaviour, the consumer, and whether the provider
    must record it as a dependee ([insertSelfInto] ran). *)
Definition dependencyOnline (self : lm) (prov : provider) : StartBehaviour * lm * bool :=
  match lm_kind self with
  | KPlain | KInternal => (SB_DONE, self, false)
  | KDependency =>
      if scontains (prov_id prov) (lm_injected self) then (SB_DONE, self, false)
      else
        let '(interested, self') :=
          fold_left (λ acc iface, dependencyOnline_step prov iface acc)
            (prov_interfaces prov) (NOT_FOUND, self) in
        let b := if bool_decide (interested = FOUND)
                    && state_le (lm_state self') INSTALLED
                    && allSatisfied (lm_registry self')
                 then SB_STARTED else SB_DONE in
        (b, self', scontains (prov_id prov) (lm_injected self') && prov_registers_dependees prov)
  end.

(** [insertSelfInto] on the provider's side. *)
Definition insertSelfInto (consumer : Z) (m : lm) : lm :=
  set_dependees (sinsert consumer (lm_dependees m)) m.

(** [interestedInDependencyGoingOffline]: the registrations (indices into the
    consumer's register) the provider satisfies. *)
Definition interestedInDependencyGoingOffline (self dependent : lm) : list nat :=
  match lm_kind self with
  | KPlain | KInternal => []
  | KDependency =>
      if negb (scontains (lm_id dependent) (lm_injected self)) then []
      else if scontains (lm_id dependent) (lm_goingaway self) then []
      else omap (λ iface, find_hash_sat (lm_registry self) iface true) (lm_interfaces dependent)
  end.

(** [removeSelfInto] on the provider's side; an internal manager only reacts to
    its own interface. *)
Definition removeSelfInto (iface consumer : Z) (m : lm) : lm :=
  match lm_kind m with
  | KInternal =>
      if bool_decide (iface ∈ lm_interfaces m)
      then set_dependees (serase consumer (lm_dependees m)) m else m
  | _ =>
      if bool_decide (lm_interfaces m = []) then m
      else set_dependees (serase consumer (lm_dependees m)) m
  end.

(** Does [removeSelfInto] call the removal function it is given. *)
Definition removeSelfInto_calls (iface : Z) (m : lm) : bool := bool_decide (iface ∈ lm_interfaces m).

(** [finishDependencyOffline(dependent, deps)]: removes the provider from the
    consumer and the consumer from the provider. *)
Fixpoint finish_loop (deps : list nat) (self dependent : lm) : outcome (lm * lm) :=
  match deps with
  | [] => Done (self, dependent)
  | i :: deps' =>
      match lm_registry self !! i with
      | None => Terminated
      | Some node =>
          let iface := interfaceNameHash (reg_dep node) in
          let self' := if removeSelfInto_calls iface dependent
                       then add_call (RemoveDependencyInstance iface (lm_id dependent)) self
                       else self in
          finish_loop deps' self' (removeSelfInto iface (lm_id self) dependent)
      end
  end.

Definition finishDependencyOffline (self dependent : lm) (deps : list nat) : outcome (lm * lm) :=
  match lm_kind self with
  | KPlain | KInternal => Terminated
  | KDependency =>
      '(self', dependent') ← finish_loop deps self dependent;
      Done (set_injected (serase (lm_id dependent) (lm_injected self'))
              (set_goingaway (serase (lm_id dependent) (lm_goingaway self')) self'),
            dependent')
  end.

(** ** Filters (include/ichor/Filter.h) *)

Definition filter_matches (e : filter_entry) (m : lm) : bool :=
  match e with
  | PropertiesFilterEntry key val missingOk =>
      match dfind key (lm_props m) with
      | Some (AnyScalar v) => if same_type v val then bool_decide (v = val) else missingOk
      | _ => missingOk
      end
  | DependencyPropertiesFilterEntry depT key val missingOk =>
      match getDependencyRegistry m with
      | None => missingOk
      | Some r =>
          match find_hash r depT with
          | None => missingOk
          | Some i =>
              match r !! i ≫= reg_props with
              | None => missingOk
              | Some props =>
                  match dfind key props with
                  | Some (AnyScalar v) => if same_type v val then bool_decide (v = val) else missingOk
                  | _ => missingOk
                  end
              end
          end
      end
  | ServiceIdFilterEntry id => lm_id m =? id
  end.

(** The [Filter] property of a manager, [nullptr] when there is none; a property
    of that name holding something else makes [any_cast] throw. *)
Definition filter_of (m : lm) : outcome (option filter_entry) :=
  match dfind "Filter"%string (lm_props m) with
  | Some (AnyFilter f) => Done (Some f)
  | Some (AnyScalar _) => Terminated
  | None => Done None
  end.

(** [filter != nullptr && !filter->compareTo( *m)] *)
Definition filtered_out (f : option filter_entry) (m : lm) : bool :=
  match f with Some e => negb (filter_matches e m) | None => false end.
