(* ===== verification/Injection.v ===== *)
(** * Dependencies coming and going

    What [dependencyOnline] does to the consumer, registration by registration,
    and that a provider that goes away again takes back exactly what it brought,
    provided none of its interfaces was satisfied by somebody else before. *)

From S2P Require Import Prelude DenseMap Register Lifecycle.
From stdpp Require Import base list sets.
From Stdlib Require Import ZArith Lia.

Open Scope Z_scope.

(** The registrations a provider with these interfaces is injected into. *)
Definition targets (r : list registration) (ifaces : list Z) : list nat :=
  omap (λ iface, find_hash_sat r iface false) ifaces.

Definition count_up (node : registration) : registration :=
  mkRegistration (satisfied_inc (reg_dep node)) (reg_props node).
Definition count_down (node : registration) : registration :=
  mkRegistration (satisfied_dec (reg_dep node)) (reg_props node).

Definition up_at (r : list registration) (i : nat) : list registration := alter count_up i r.
(** What the loop of [dependencyOffline] does to the counters. *)
Definition down_at (r : list registration) (i : nat) : list registration := alter count_down i r.

Definition hash_at (r : list registration) (i : nat) : option Z :=
  interfaceNameHash ∘ reg_dep <$> r !! i.

(** Registration [i] has no provider yet. *)
Definition vacant (r : list registration) (i : nat) : Prop :=
  ∃ node, r !! i = Some node ∧ satisfied (reg_dep node) = 0.

#[export] Instance vacant_dec r i : Decision (vacant r i).
Proof.
  destruct (r !! i) as [node|] eqn:E; [destruct (decide (satisfied (reg_dep node) = 0))|].
  - left. by exists node.
  - right. intros (x & ? & ?). naive_solver.
  - right. intros (x & ? & ?). naive_solver.
Defined.

(** ** Searching an updated register *)

Lemma find_if_alter pred f i (r : list registration) :
  (∀ x, r !! i = Some x → pred (f x) = pred x) → find_if pred (alter f i r) = find_if pred r.
Proof.
  unfold find_if. generalize 0%nat. revert i.
  induction r as [|x r IH]; intros [|i] n H; simpl; try done.
  - by rewrite (H x).
  - destruct (pred x); [done|]. by apply IH.
Qed.

Lemma find_hash_sat_at (r : list registration) iface b i :
  find_hash_sat r iface b = Some i → hash_at r i = Some iface.
Proof.
  unfold find_hash_sat, hash_at. rewrite find_if_Some. intros (node & Hn & Hp & _).
  rewrite Hn.
  unfold find_pred in Hp. apply andb_true_iff in Hp as [Hp%Z.eqb_eq _]. simpl. by rewrite Hp.
Qed.

Lemma find_hash_sat_other (r : list registration) iface b i f :
  (∀ node, interfaceNameHash (reg_dep (f node)) = interfaceNameHash (reg_dep node)) →
  hash_at r i ≠ Some iface → find_hash_sat (alter f i r) iface b = find_hash_sat r iface b.
Proof.
  intros Hf Hi. apply find_if_alter. intros x Hx. unfold find_pred, hash_at in *.
  rewrite Hx in Hi. rewrite Hf. simpl in Hi.
  assert ((interfaceNameHash (reg_dep x) =? iface) = false) as -> by (apply Z.eqb_neq; congruence). done.
Qed.

Lemma hash_at_alter (r : list registration) i j f :
  (∀ node, interfaceNameHash (reg_dep (f node)) = interfaceNameHash (reg_dep node)) →
  hash_at (alter f i r) j = hash_at r j.
Proof.
  intros Hf. unfold hash_at. destruct (decide (i = j)) as [->|Hne].
  - rewrite list_lookup_alter_eq. destruct (r !! j); simpl; [by rewrite Hf|done].
  - by rewrite list_lookup_alter_ne.
Qed.

Lemma targets_cons r x l :
  targets r (x :: l) =
  match find_hash_sat r x false with Some i => i :: targets r l | None => targets r l end.
Proof. done. Qed.

Lemma targets_up r i iface ifaces :
  hash_at r i = Some iface → iface ∉ ifaces → targets (up_at r i) ifaces = targets r ifaces.
Proof.
  intros Hh. induction ifaces as [|x ifaces IH]; intros Hn; [done|]. rewrite !targets_cons.
  assert (find_hash_sat (up_at r i) x false = find_hash_sat r x false) as ->.
  { apply find_hash_sat_other; [done|]. set_solver. }
  rewrite IH by set_solver. done.
Qed.

Lemma targets_hash r ifaces i : i ∈ targets r ifaces → ∃ iface, iface ∈ ifaces ∧ hash_at r i = Some iface.
Proof.
  unfold targets. rewrite list_elem_of_omap. intros (x & Hx & Hf).
  exists x. split; [done|]. by eapply find_hash_sat_at.
Qed.

Lemma targets_NoDup r ifaces : NoDup ifaces → NoDup (targets r ifaces).
Proof.
  induction 1 as [|x l Hx Hl IH]; [apply NoDup_nil_2|]. rewrite targets_cons.
  destruct (find_hash_sat r x false) as [i|] eqn:E; [|done]. constructor; [|done].
  intros Hi. apply targets_hash in Hi as (y & Hy & Hh). apply find_hash_sat_at in E. congruence.
Qed.

Lemma vacant_up r i j : i ≠ j → vacant (up_at r i) j ↔ vacant r j.
Proof. intros Hne. unfold vacant, up_at. by setoid_rewrite list_lookup_alter_ne. Qed.

(** ** [dependencyOnline], registration by registration *)

Lemma online_step prov iface c self :
  dependencyOnline_step prov iface (c, self) =
  match find_hash_sat (lm_registry self) iface false with
  | None => (c, self)
  | Some i =>
      (if decide (vacant (lm_registry self) i) then FOUND else c,
       set_registry (up_at (lm_registry self) i)
         (add_call (AddDependencyInstance iface (prov_id prov))
           (set_injected (sinsert (prov_id prov) (lm_injected self)) self)))
  end.
Proof.
  unfold dependencyOnline_step. destruct (find_hash_sat _ _ _) as [i|] eqn:E; [|done].
  pose proof (find_hash_sat_at _ _ _ _ E) as Hh. unfold hash_at in Hh.
  destruct (lm_registry self !! i) as [node|] eqn:Hi; [|done]. simplify_eq/=. f_equal.
  - destruct (Z.eqb_spec (satisfied (reg_dep node)) 0) as [E0|E0]; destruct (decide _) as [V|V]; try done.
    + destruct V. by exists node.
    + destruct V as (n & Hn & V). congruence.
  - f_equal. unfold up_at. apply list_eq. intros j. destruct (decide (i = j)) as [->|Hne].
    + rewrite list_lookup_insert_eq by (by eapply lookup_lt_Some).
      by rewrite list_lookup_alter_eq, Hi.
    + by rewrite list_lookup_insert_ne, list_lookup_alter_ne.
Qed.

Lemma online_fold prov ifaces c self :
  NoDup ifaces →
  let res := fold_left (λ acc iface, dependencyOnline_step prov iface acc) ifaces (c, self) in
  let ts := targets (lm_registry self) ifaces in
  lm_registry res.2 = foldl up_at (lm_registry self) ts ∧
  lm_injected res.2 = (if decide (ts = []) then lm_injected self else sinsert (prov_id prov) (lm_injected self)) ∧
  lm_state res.2 = lm_state self ∧ lm_kind res.2 = lm_kind self ∧ lm_id res.2 = lm_id self ∧
  lm_goingaway res.2 = lm_goingaway self ∧
  (res.1 = FOUND ↔ c = FOUND ∨ ∃ i, i ∈ ts ∧ vacant (lm_registry self) i).
Proof.
  intros Hnd. revert c self. induction Hnd as [|x l Hx Hl IH]; intros c self; cbn zeta.
  { simpl. split_and!; try done. split; [by left|]. intros [|(i & Hi & _)]; [done|set_solver]. }
  cbn [fold_left]. rewrite online_step, targets_cons.
  destruct (find_hash_sat (lm_registry self) x false) as [i|] eqn:E; [|apply IH].
  pose proof (find_hash_sat_at _ _ _ _ E) as Hh.
  set (self1 := set_registry _ _). set (c1 := if decide _ then _ else _).
  specialize (IH c1 self1). cbn zeta in IH. destruct IH as (Hr & Hi & Hs & Hk & Hid & Hg & Hc).
  change (lm_registry self1) with (up_at (lm_registry self) i) in *.
  rewrite (targets_up _ _ x) in Hr, Hi, Hc by done.
  split_and!; [done| |done..|].
  - rewrite Hi. change (lm_injected self1) with (sinsert (prov_id prov) (lm_injected self)).
    rewrite (decide_False (P := i :: _ = [])) by done. case_decide; [done|].
    unfold sinsert at 1. rewrite decide_True; [done|]. apply elem_of_sinsert. by left.
  - rewrite Hc. unfold c1. split.
    + intros [H|(j & Hj & Hv)].
      * destruct (decide _); [right|by left]. exists i. split; [set_solver|done].
      * right. exists j. split; [set_solver|]. revert Hv. apply vacant_up. intros <-.
        apply targets_hash in Hj as (y & Hy & Hh'). congruence.
    + intros [->|(j & Hj & Hv)]; [left; by destruct (decide _)|].
      apply elem_of_cons in Hj as [->|Hj]; [left; by rewrite decide_True|].
      right. exists j. split; [done|]. apply vacant_up; [|done]. intros <-.
      apply targets_hash in Hj as (y & Hy & Hh'). congruence.
Qed.

Lemma foldl_alter_lookup (f : registration → registration) (r : list registration) ts j :
  NoDup ts →
  foldl (λ r i, alter f i r) r ts !! j = if decide (j ∈ ts) then f <$> r !! j else r !! j.
Proof.
  intros Hnd. revert r. induction Hnd as [|i ts Hi Hts IH]; intros r; cbn [foldl].
  { rewrite decide_False by set_solver. done. }
  rewrite IH. destruct (decide (i = j)) as [->|Hne].
  - rewrite decide_False, decide_True by set_solver. by rewrite list_lookup_alter_eq.
  - rewrite list_lookup_alter_ne by done. destruct (decide (j ∈ ts)).
    + by rewrite decide_True by set_solver.
    + rewrite decide_False by set_solver. done.
Qed.

(** C11: what a consumer does with a new provider.  Exactly the registrations the
    provider is for count up; the provider is recorded as injected if there is
    such a registration; and the consumer asks to be started exactly when it is
    not started yet, one of these registrations had nobody, and now every
    required dependency is there. *)
Theorem dependencyOnline_functional self prov b self' rec :
  lm_kind self = KDependency → prov_id prov ∉ lm_injected self → NoDup (prov_interfaces prov) →
  dependencyOnline self prov = (b, self', rec) →
  let ts := targets (lm_registry self) (prov_interfaces prov) in
  (∀ i, lm_registry self' !! i =
        if decide (i ∈ ts) then count_up <$> lm_registry self !! i else lm_registry self !! i) ∧
  (prov_id prov ∈ lm_injected self' ↔ ts ≠ []) ∧
  (b = SB_STARTED ↔
     state_le (lm_state self) INSTALLED = true ∧
     (∃ i, i ∈ ts ∧ vacant (lm_registry self) i) ∧
     ∀ i node, lm_registry self' !! i = Some node → is_required (flags (reg_dep node)) = true →
               0 < satisfied (reg_dep node)).
Proof.
  intros Hk Hni Hnd Hd ts. unfold dependencyOnline in Hd. rewrite Hk in Hd.
  unfold scontains at 1 in Hd. rewrite bool_decide_false in Hd by done.
  pose proof (online_fold prov (prov_interfaces prov) NOT_FOUND self Hnd) as Hf.
  cbn zeta in Hf. fold ts in Hf. destruct (fold_left _ _ _) as [c s]. simpl in Hf.
  destruct Hf as (Hr & Hi & Hs & _ & _ & _ & Hc). injection Hd as Hb <- _. split_and!.
  - intros i. rewrite Hr. apply (foldl_alter_lookup count_up), targets_NoDup, Hnd.
  - rewrite Hi. case_decide as E; [by split|]. split; [done|]. intros _. apply elem_of_sinsert. by left.
  - rewrite <- allSatisfied_spec, <- Hs. rewrite <- Hb.
    assert (c = FOUND ↔ ∃ i, i ∈ ts ∧ vacant (lm_registry self) i) as Hc' by naive_solver.
    rewrite <- Hc'. case_bool_decide; simpl; [|naive_solver].
    destruct (state_le _ _), (allSatisfied _); naive_solver.
Qed.

(** ** A provider that comes and goes *)

Lemma count_down_up node :
  0 ≤ satisfied (reg_dep node) < u64_mod → count_down (count_up node) = node.
Proof.
  destruct node as [[h f s] props]. unfold count_down, count_up, satisfied_dec, satisfied_inc. simpl.
  intros Hs. unfold wrap64. do 2 f_equal.
  rewrite Zminus_mod_idemp_l. replace (s + 1 - 1) with s by lia. apply Z.mod_small. lia.
Qed.

(** Every interface is registered at most once, and no counter is about to
    overflow. *)
Definition register_wf (r : list registration) : Prop :=
  NoDup (interfaceNameHash ∘ reg_dep <$> r) ∧
  Forall (λ node, 0 ≤ satisfied (reg_dep node) < u64_mod - 1) r.

(** Nobody else satisfies a registration for one of the interfaces that takes
    one provider only. *)
Definition undisputed (r : list registration) (ifaces : list Z) : Prop :=
  ∀ iface i, iface ∈ ifaces → hash_at r i = Some iface → is_Some (find_hash_sat r iface false).

Lemma unique_index (r : list registration) i j h :
  NoDup (interfaceNameHash ∘ reg_dep <$> r) → hash_at r i = Some h → hash_at r j = Some h → i = j.
Proof.
  unfold hash_at. rewrite <- !list_lookup_fmap. apply NoDup_lookup.
Qed.

(** After coming online the provider finds the registrations it was injected
    into again. *)
Lemma find_again r ifaces iface :
  register_wf r → NoDup ifaces → undisputed r ifaces → iface ∈ ifaces →
  find_hash_sat (foldl up_at r (targets r ifaces)) iface true = find_hash_sat r iface false.
Proof.
  intros [Hu Hb] Hnd Hd Hin. set (r' := foldl up_at r (targets r ifaces)).
  assert (∀ j, r' !! j = if decide (j ∈ targets r ifaces) then count_up <$> r !! j else r !! j) as Hr'.
  { intros j. apply (foldl_alter_lookup count_up), targets_NoDup, Hnd. }
  assert (∀ j, hash_at r' j = hash_at r j) as Hh'.
  { intros j. unfold hash_at. rewrite Hr'. case_decide; [|done]. by destruct (r !! j). }
  destruct (find_hash_sat r iface false) as [i|] eqn:E.
  - pose proof (find_hash_sat_at _ _ _ _ E) as Hh.
    unfold find_hash_sat in E |- *. apply find_if_Some in E as (node & Hn & Hp & _).
    apply find_if_Some. exists (count_up node). split_and!.
    + rewrite Hr', decide_True, Hn; [done|]. unfold targets. apply list_elem_of_omap.
      exists iface. split; [done|]. unfold find_hash_sat. apply find_if_Some.
      exists node. split_and!; [done..|]. intros j y Hj Hy.
      unfold find_pred. destruct (Z.eqb_spec (interfaceNameHash (reg_dep y)) iface) as [Ey|]; [|done].
      assert (j = i); [|lia]. eapply unique_index; [done| |done]. unfold hash_at. by rewrite Hy, <- Ey.
    + rewrite Forall_lookup in Hb. specialize (Hb i node Hn). unfold find_pred in *. simpl.
      apply andb_true_iff in Hp as [-> _]. simpl. rewrite wrap64_small by lia.
      assert (0 <? satisfied (reg_dep node) + 1 = true) as -> by lia. by rewrite orb_true_r.
    + intros j y Hj Hy. unfold find_pred.
      destruct (Z.eqb_spec (interfaceNameHash (reg_dep y)) iface) as [Ey|]; [|done].
      assert (j = i); [|lia]. eapply unique_index; [done| |done].
      rewrite <- Hh'. unfold hash_at. by rewrite Hy, <- Ey.
  - unfold find_hash_sat. apply find_if_None. apply Forall_lookup. intros j y Hy. unfold find_pred.
    destruct (Z.eqb_spec (interfaceNameHash (reg_dep y)) iface) as [Ey|]; [|done].
    destruct (Hd iface j Hin) as [i Hi]; [|congruence].
    rewrite <- Hh'. unfold hash_at. by rewrite Hy, <- Ey.
Qed.

Lemma omap_ext_in {A B} (f g : A → option B) (l : list A) : (∀ x, x ∈ l → f x = g x) → omap f l = omap g l.
Proof.
  induction l as [|x l IH]; intros H; [done|]. cbn. rewrite H by set_solver.
  rewrite IH by set_solver. done.
Qed.

Lemma down_undoes_up r ts :
  NoDup ts → Forall (λ node, 0 ≤ satisfied (reg_dep node) < u64_mod - 1) r →
  foldl down_at (foldl up_at r ts) ts = r.
Proof.
  intros Hnd Hb. apply list_eq. intros j.
  rewrite (foldl_alter_lookup count_down) by done. rewrite (foldl_alter_lookup count_up) by done.
  case_decide; [|done]. destruct (r !! j) as [node|] eqn:E; [|done]. simpl. f_equal.
  rewrite Forall_lookup in Hb. apply count_down_up. specialize (Hb j node E). lia.
Qed.

Lemma serase_sinsert k (s : list Z) : k ∉ s → serase k (sinsert k s) = s.
Proof.
  intros Hk. unfold sinsert. rewrite decide_False by done. induction s as [|x s IH]; simpl.
  - by rewrite decide_True.
  - rewrite decide_False by set_solver. f_equal. apply IH. set_solver.
Qed.

Lemma finish_loop_total deps self dependent :
  (∀ i, i ∈ deps → is_Some (lm_registry self !! i)) →
  ∃ self' dependent', finish_loop deps self dependent = Done (self', dependent') ∧
    lm_injected self' = lm_injected self.
Proof.
  revert self dependent. induction deps as [|i deps IH]; intros self dependent Hall; [by eexists _, _|].
  cbn [finish_loop]. destruct (Hall i) as [node ->]; [set_solver|].
  destruct (removeSelfInto_calls _ _).
  - destruct (IH (add_call (RemoveDependencyInstance (interfaceNameHash (reg_dep node)) (lm_id dependent)) self)
      (removeSelfInto (interfaceNameHash (reg_dep node)) (lm_id self) dependent)) as (s & p & -> & Hi);
      [intros j Hj; apply Hall; set_solver|]. by eexists _, _.
  - apply IH. intros j Hj. apply Hall. set_solver.
Qed.

(** C12: coming online and going offline again is a round trip.  When a provider
    that was injected leaves, the consumer looks up exactly the registrations the
    provider was injected into, counting them down gives the old register back,
    and finishing takes it off the injected list. *)
Theorem online_offline_roundtrip self dependent b self' rec :
  lm_kind self = KDependency →
  lm_id dependent ∉ lm_injected self → lm_id dependent ∉ lm_goingaway self →
  NoDup (lm_interfaces dependent) → register_wf (lm_registry self) →
  undisputed (lm_registry self) (lm_interfaces dependent) →
  dependencyOnline self (provider_of dependent) = (b, self', rec) →
  targets (lm_registry self) (lm_interfaces dependent) ≠ [] →
  let deps := interestedInDependencyGoingOffline self' dependent in
  deps = targets (lm_registry self) (lm_interfaces dependent) ∧
  foldl down_at (lm_registry self') deps = lm_registry self ∧
  ∃ self'' dependent', finishDependencyOffline self' dependent deps = Done (self'', dependent') ∧
    lm_injected self'' = lm_injected self.
Proof.
  intros Hk Hni Hng Hnd Hwf Hu Hd Hne. unfold dependencyOnline in Hd. rewrite Hk in Hd.
  unfold scontains at 1 in Hd. simpl in Hd. rewrite bool_decide_false in Hd by done.
  pose proof (online_fold (provider_of dependent) (lm_interfaces dependent) NOT_FOUND self Hnd) as Hf.
  cbn zeta in Hf. destruct (fold_left _ _ _) as [c s]. injection Hd as _ <- _. simpl in Hf.
  destruct Hf as (Hr & Hi & Hs & Hk' & Hid & Hg & _). rewrite decide_False in Hi by done.
  assert (interestedInDependencyGoingOffline s dependent =
          targets (lm_registry self) (lm_interfaces dependent)) as Hdeps.
  { unfold interestedInDependencyGoingOffline, scontains. rewrite Hk', Hk.
    rewrite bool_decide_true by (rewrite Hi; apply elem_of_sinsert; by left).
    rewrite Hg, bool_decide_false by done. simpl. unfold targets. apply omap_ext_in. intros x Hx.
    rewrite Hr. by apply find_again. }
  cbn zeta. rewrite Hdeps. split_and!; [done| |].
  - rewrite Hr. apply down_undoes_up; [by apply targets_NoDup|apply Hwf].
  - assert (∀ i, i ∈ targets (lm_registry self) (lm_interfaces dependent) → is_Some (lm_registry s !! i)) as Hall.
    { intros i Hin. rewrite Hr, (foldl_alter_lookup count_up) by by apply targets_NoDup.
      apply targets_hash in Hin as (h & _ & Hh). unfold hash_at in Hh.
      destruct (lm_registry self !! i) as [node|] eqn:E; [|done]. case_decide; simpl; by eexists. }
    unfold finishDependencyOffline. rewrite Hk', Hk.
    destruct (finish_loop_total _ s dependent Hall) as (s1 & p1 & -> & Hi1).
    simpl. eexists _, _. split; [done|]. simpl. rewrite Hi1, Hi. by apply serase_sinsert.
Qed.

(** ** At concrete services *)

(** A consumer that requires interface 10 and can use interfaces 11, of any
    number of providers. *)
Definition demo_consumer : lm :=
  new_dependency_manager 3 []
    (registerDependency (registerDependency [] 10 FLAG_REQUIRED None) 11 FLAG_ALLOW_MULTIPLE None) [].
Definition demo_provider : lm := new_plain_manager 4 [11; 10] [].
Definition demo_injected : lm := (dependencyOnline demo_consumer (provider_of demo_provider)).1.2.

Lemma dependencyOnline_functional_witness :
  targets (lm_registry demo_consumer) [11; 10] = [1; 0]%nat ∧
  (4 ∈ lm_injected demo_injected ↔ [1; 0]%nat ≠ []) ∧
  (SB_STARTED = SB_STARTED ↔
     state_le INSTALLED INSTALLED = true ∧
     (∃ i, i ∈ [1; 0]%nat ∧ vacant (lm_registry demo_consumer) i) ∧
     ∀ i node, lm_registry demo_injected !! i = Some node →
       is_required (flags (reg_dep node)) = true → 0 < satisfied (reg_dep node)).
Proof.
  split; [vm_compute; reflexivity|].
  apply (dependencyOnline_functional demo_consumer (provider_of demo_provider) SB_STARTED demo_injected true).
  - reflexivity.
  - apply not_elem_of_nil.
  - apply (bool_decide_eq_true_1 (NoDup [11; 10])). vm_compute. reflexivity.
  - vm_compute. reflexivity.
Defined.

Lemma online_offline_roundtrip_witness :
  lm_injected demo_injected = [4] ∧
  interestedInDependencyGoingOffline demo_injected demo_provider = [1; 0]%nat ∧
  foldl down_at (lm_registry demo_injected)
    (interestedInDependencyGoingOffline demo_injected demo_provider) = lm_registry demo_consumer ∧
  ∃ self'' dependent',
    finishDependencyOffline demo_injected demo_provider
      (interestedInDependencyGoingOffline demo_injected demo_provider) = Done (self'', dependent') ∧
    lm_injected self'' = [].
Proof.
  split; [vm_compute; reflexivity|].
  apply (online_offline_roundtrip demo_consumer demo_provider SB_STARTED demo_injected true).
  - reflexivity.
  - apply not_elem_of_nil.
  - apply not_elem_of_nil.
  - apply (bool_decide_eq_true_1 (NoDup [11; 10])). vm_compute. reflexivity.
  - split; [apply (bool_decide_eq_true_1 (NoDup [10; 11])); vm_compute; reflexivity|].
    repeat constructor; vm_compute; congruence.
  - intros iface i Hin _. apply list_elem_of_In in Hin.
    destruct Hin as [<-|[<-|[]]]; vm_compute; eexists; reflexivity.
  - vm_compute. reflexivity.
  - vm_compute. discriminate.
Defined.
