(* ===== verification/Events.v ===== *)
(** * Events and the event-queue interface

    The [Event] base and the event structs of include/ichor/events/*.h (and
    [InsertServiceEvent] of include/ichor/DependencyManager.h): one record with
    the three common fields and one constructor per struct for the rest.
    [get_type] returns the key under which handlers and interceptors are
    registered; the compile-time name hashes of the framework's own events are
    represented by distinct negative numbers, user events bring their own.
    [IEventQueue] is the interface the manager needs of a queue, with the two
    comparators of include/ichor/event_queues/PriorityQueue.h and the
    [TemplatePriorityQueue] that implements it. *)

From S2P Require Import Prelude DenseMap Register Lifecycle Heap.
From stdpp Require Import base list sorting.
From Stdlib Require Import ZArith Lia.

Open Scope Z_scope.

(** ** Priorities (include/ichor/events/Event.h) *)

Definition INTERNAL_DEPENDENCY_EVENT_PRIORITY : Z := 100.
Definition INTERNAL_COROUTINE_EVENT_PRIORITY : Z := 98.
Definition INTERNAL_INSERT_SERVICE_EVENT_PRIORITY : Z := 50.

(** ** Event structs *)

Inductive event_body :=
| DependencyOnlineEvent
| DependencyOfflineEvent (removeOriginatingServiceAfterStop : bool)
| DependencyRequestEvent (dependency : Dependency) (properties : option Properties)
| DependencyUndoRequestEvent (dependency : Dependency) (properties : option Properties)
| QuitEvent
| StopServiceEvent (serviceId : Z) (removeAfter : bool)
| StartServiceEvent (serviceId : Z)
| RemoveServiceEvent (serviceId : Z)
| DoWorkEvent
| RemoveEventHandlerEvent (key_id key_type : Z)
| RemoveEventInterceptorEvent (interceptorId eventType : Z)
| AddTrackerEvent (interfaceNameHash : Z)
| RemoveTrackerEvent (interfaceNameHash : Z)
| ContinuableEvent (promiseId : Z)
| ContinuableStartEvent (promiseId : Z)
| ContinuableDependencyOfflineEvent (originatingOfflineServiceId : Z)
    (removeOriginatingOfflineServiceAfterStop : bool) (dependencyIterators : list nat)
| InsertServiceEvent (mgr : lm)
| RunFunctionEvent (fun_id : Z)
| RunFunctionEventAsync (fun_id : Z)
| UserEvent (type payload : Z).

Record Event := mkEvent {
  ev_id : Z;
  ev_origin : Z;      (* originatingService *)
  ev_priority : Z;
  ev_body : event_body;
}.

(** [Event::get_type]. *)
Definition body_type (b : event_body) : Z :=
  match b with
  | DependencyOnlineEvent => -1
  | DependencyOfflineEvent _ => -2
  | DependencyRequestEvent _ _ => -3
  | DependencyUndoRequestEvent _ _ => -4
  | QuitEvent => -5
  | StopServiceEvent _ _ => -6
  | StartServiceEvent _ => -7
  | RemoveServiceEvent _ => -8
  | DoWorkEvent => -9
  | RemoveEventHandlerEvent _ _ => -10
  | RemoveEventInterceptorEvent _ _ => -11
  | AddTrackerEvent _ => -12
  | RemoveTrackerEvent _ => -13
  | ContinuableEvent _ => -14
  | ContinuableStartEvent _ => -15
  | ContinuableDependencyOfflineEvent _ _ _ => -16
  | InsertServiceEvent _ => -17
  | RunFunctionEvent _ => -18
  | RunFunctionEventAsync _ => -19
  | UserEvent t _ => t
  end.
Definition get_type (e : Event) : Z := body_type (ev_body e).

Definition TYPE_DependencyOnlineEvent : Z := -1.
Definition TYPE_DependencyOfflineEvent : Z := -2.
Definition TYPE_StopServiceEvent : Z := -6.
Definition TYPE_StartServiceEvent : Z := -7.

(** ** Comparators *)

(** [lhs->priority > rhs->priority]: a smaller number is more urgent. *)
Definition PriorityQueueCompare (lhs rhs : Event) : bool := ev_priority rhs <? ev_priority lhs.

Definition OrderedPriorityQueueCompare (lhs rhs : Event) : bool :=
  if ev_priority lhs =? ev_priority rhs then ev_id rhs <? ev_id lhs
  else ev_priority rhs <? ev_priority lhs.

#[export] Instance PriorityQueueCompare_sw : StrictWeak PriorityQueueCompare.
Proof. split; unfold PriorityQueueCompare; intros; lia. Qed.

#[export] Instance OrderedPriorityQueueCompare_sw : StrictWeak OrderedPriorityQueueCompare.
Proof.
  split; unfold OrderedPriorityQueueCompare; intros *;
    repeat match goal with |- context [?a =? ?b] => destruct (Z.eqb_spec a b) end; lia.
Qed.

(** ** What the manager needs of a queue: [pushEventInternal] keeps the events *)

Class IEventQueue (push : list Event → Event → list Event) : Prop :=
  push_keeps : ∀ c e, push c e ≡ₚ e :: c.

#[export] Instance PriorityQueue_IEventQueue (comp : Event → Event → bool) :
  IEventQueue (Heap.push comp).
Proof. intros c e. apply push_perm. Qed.
