(* ===== verification/Manager.v ===== *)
(** * The dependency manager: state, coroutines and bookkeeping

    [DependencyManager] (include/ichor/DependencyManager.h and
    src/ichor/DependencyManager.cpp) without the event dispatch, which is in
    Dispatch.v.  The state is one record; every member function is a state
    passing program that may end in [std::terminate()].

    Coroutines.  Everything the framework runs asynchronously is an
    [AsyncGenerator] driven by the manager.  A generator that has not finished
    after [begin()] is kept in [_scopedGenerators] under its promise id; here
    its suspended coroutine frame is the value [cont]: inside the service's
    [start()] or [stop()] ([CStart], [CStop]), inside
    [DependencyLifecycleManager::dependencyOffline] at one of its three
    [co_await]s ([CDepOffline]), inside a callback ([CIchor]), at a [co_yield]
    ([CYielded]), or finished and waiting to be collected ([CDone]).  A
    generator that returns after having been suspended pushes the
    [ContinuableStartEvent]/[ContinuableEvent] of
    include/ichor/coroutines/AsyncGeneratorDetail.h.

    Service code is not part of the framework.  What a service may do is a
    script [ucoro] over the manager's public functions, given by the record
    [UserCode]; all theorems hold for every such record. *)

From S2P Require Import Prelude DenseMap Register Lifecycle Heap Events.
From stdpp Require Import base list gmap.
From Stdlib Require Import ZArith Lia.

Open Scope Z_scope.

(** ** Service code *)

(** The events a service can push itself; the last four are also what the
    destructors of the registration handles push
    (src/ichor/dependency_management/DependencyRegistrations.cpp). *)
Inductive user_event :=
| UStop (serviceId : Z) (removeAfter : bool)
| UStart (serviceId : Z)
| URemove (serviceId : Z)
| UQuit
| UDoWork
| URunFunction (fun_id : Z)
| URunFunctionAsync (fun_id : Z)
| UCustom (type payload : Z)
| URemoveHandler (key_id key_type : Z)
| URemoveInterceptor (interceptorId eventType : Z)
| URemoveTracker (interfaceNameHash : Z).

Definition user_event_body (u : user_event) : event_body :=
  match u with
  | UStop s r => StopServiceEvent s r
  | UStart s => StartServiceEvent s
  | URemove s => RemoveServiceEvent s
  | UQuit => QuitEvent
  | UDoWork => DoWorkEvent
  | URunFunction f => RunFunctionEvent f
  | URunFunctionAsync f => RunFunctionEventAsync f
  | UCustom t p => UserEvent t p
  | URemoveHandler i t => RemoveEventHandlerEvent i t
  | URemoveInterceptor i t => RemoveEventInterceptorEvent i t
  | URemoveTracker i => RemoveTrackerEvent i
  end.

(** The argument of [createServiceManager<Impl, Interfaces...>(props, priority)];
    [spec_deps] are the dependencies the constructor of [Impl] registers, [None]
    when it requests none. *)
Record service_spec := mkSpec {
  spec_interfaces : list Z;
  spec_deps : option (list (Z * Z * option Properties));
  spec_props : Properties;
  spec_priority : Z;
  spec_is_logger : bool;
}.

(** Synchronous calls into the manager. *)
Inductive action :=
| PushEvent (origin priority : Z) (e : user_event)
| RegisterEventHandler (self type : Z) (target : option Z) (cb : Z)
| RegisterEventInterceptor (self type fn : Z)
| RegisterDependencyTracker (self iface fn : Z)
| CreateServiceManager (spec : service_spec).

(** A coroutine of service code ([Task] body): the calls up to the next
    suspension point, and what follows. *)
Inductive ucoro (R : Type) :=
| CoReturn (acts : list action) (r : R)
| CoSuspend (acts : list action) (k : ucoro R)
| CoAwaitEvent (acts : list action) (origin priority : Z) (coalesce : bool) (e : user_event) (k : ucoro R)
| CoWaitService (acts : list action) (svc : Z) (started : bool) (kQuitting k : ucoro R).
Arguments CoReturn {R}. Arguments CoSuspend {R}. Arguments CoAwaitEvent {R}. Arguments CoWaitService {R}.

(** An [AsyncGenerator<IchorBehaviour>] body: coroutine pieces separated by
    [co_yield]. *)
Inductive ugen :=
| GenLast (body : ucoro ())
| GenYield (body : ucoro ()) (rest : ugen).

(** ** Bookkeeping records *)

Record tracker := mkTracker { tr_svc : Z; tr_fn : Z }.
Record callback := mkCallback { cb_listening : Z; cb_filter : option Z; cb_fn : Z }.
Record interceptor := mkInterceptor { ic_id : Z; ic_listening : Z; ic_fn : Z }.

(** [EventWaiter]: one [AsyncManualResetEvent] per waiting coroutine, given by
    the promise id of the generator that awaits it. *)
Record event_waiter := mkWaiter {
  ew_events : list (Z * Z);  (* event type, promise id *)
  ew_svc : Z;
  ew_type : Z;
}.

(** [WaitingStopService] *)
Record waiting_stop := mkWaitingStop {
  ws_origin : Z;
  ws_priority : Z;
  ws_removeAfter : bool;
  ws_deps : list nat;
}.

Inductive gen_type := GStartBehaviour | GIchorBehaviour.
#[export] Instance gen_type_eq_dec : EqDecision gen_type.
Proof. solve_decision. Defined.

(** The three [co_await]s of [dependencyOffline]. *)
Inductive wait_stage := WaitOnline | WaitOfflineActive | WaitOfflineUninjecting.

Inductive cont :=
| CStart (svc : Z) (afterOnline : bool) (k : ucoro bool)
| CStop (svc : Z) (k : ucoro ())
| CDepOffline (svc : Z) (stage : wait_stage) (rest : list nat)
    (interested : DependencyChange) (ret : StartBehaviour)
| CIchor (g : ugen)
| CYielded (g : ugen)
| CDone (v : StartBehaviour).

(** [ScopedGenerator]; [sg_ref] identifies the reference-counted event object. *)
Record scoped_generator := mkScoped {
  sg_type : gen_type;
  sg_svc : Z;
  sg_priority : Z;
  sg_cont : cont;
  sg_event : Event;
  sg_ref : Z;
}.

(** ** The manager *)

Record DM := mkDM {
  services : list (Z * lm); (* _services *)
  trackers : gmap Z (list tracker); (* _dependencyRequestTrackers *)
  callbacks : gmap Z (list callback); (* _eventCallbacks *)
  interceptors : gmap Z (list interceptor); (* _eventInterceptors *)
  gens : gmap Z scoped_generator; (* _scopedGenerators *)
  eventWaiters : list (Z * event_waiter); (* _eventWaiters *)
  dependencyWaiters : gmap Z event_waiter; (* _dependencyWaiters *)
  pendingCoroutine : gmap Z waiting_stop; (* _pendingStopsDueToCoroutine *)
  pendingDependencies : gmap Z (list waiting_stop); (* _pendingStopsDueToDependencies *)
  queue : list Event; (* the events in _eventQueue *)
  nextEventId : Z; (* IEventQueue::_eventIdCounter *)
  nextPromiseId : Z; (* AsyncGeneratorPromiseBase::_idCounter *)
  nextServiceId : Z; (* Detail::_serviceIdCounter *)
  nextInterceptorId : Z; (* _intercepterIdCounter *)
  nextRef : Z; (* identities of reference-counted events *)
  logger : option Z; (* service id behind _logger *)
  quitEventReceived : bool; (* _quitEventReceived *)
  quitDone : bool; (* _quitDone *)
  queueQuit : bool; (* IEventQueue::quit() was called *)
  localAll : list interceptor; (* allEventInterceptorsCopy of the running processEvent *)
  localEvt : list interceptor; (* eventInterceptorsCopy of the running processEvent *)
}.

(** Field updates. *)
Definition upd_services (f : list (Z * lm) → list (Z * lm)) (d : DM) : DM :=
  mkDM (f (services d)) (trackers d) (callbacks d) (interceptors d) (gens d) (eventWaiters d) (dependencyWaiters d) (pendingCoroutine d) (pendingDependencies d) (queue d) (nextEventId d) (nextPromiseId d) (nextServiceId d) (nextInterceptorId d) (nextRef d) (logger d) (quitEventReceived d) (quitDone d) (queueQuit d) (localAll d) (localEvt d).
Definition upd_trackers (f : gmap Z (list tracker) → gmap Z (list tracker)) (d : DM) : DM :=
  mkDM (services d) (f (trackers d)) (callbacks d) (interceptors d) (gens d) (eventWaiters d) (dependencyWaiters d) (pendingCoroutine d) (pendingDependencies d) (queue d) (nextEventId d) (nextPromiseId d) (nextServiceId d) (nextInterceptorId d) (nextRef d) (logger d) (quitEventReceived d) (quitDone d) (queueQuit d) (localAll d) (localEvt d).
Definition upd_callbacks (f : gmap Z (list callback) → gmap Z (list callback)) (d : DM) : DM :=
  mkDM (services d) (trackers d) (f (callbacks d)) (interceptors d) (gens d) (eventWaiters d) (dependencyWaiters d) (pendingCoroutine d) (pendingDependencies d) (queue d) (nextEventId d) (nextPromiseId d) (nextServiceId d) (nextInterceptorId d) (nextRef d) (logger d) (quitEventReceived d) (quitDone d) (queueQuit d) (localAll d) (localEvt d).
Definition upd_interceptors (f : gmap Z (list interceptor) → gmap Z (list interceptor)) (d : DM) : DM :=
  mkDM (services d) (trackers d) (callbacks d) (f (interceptors d)) (gens d) (eventWaiters d) (dependencyWaiters d) (pendingCoroutine d) (pendingDependencies d) (queue d) (nextEventId d) (nextPromiseId d) (nextServiceId d) (nextInterceptorId d) (nextRef d) (logger d) (quitEventReceived d) (quitDone d) (queueQuit d) (localAll d) (localEvt d).
Definition upd_gens (f : gmap Z scoped_generator → gmap Z scoped_generator) (d : DM) : DM :=
  mkDM (services d) (trackers d) (callbacks d) (interceptors d) (f (gens d)) (eventWaiters d) (dependencyWaiters d) (pendingCoroutine d) (pendingDependencies d) (queue d) (nextEventId d) (nextPromiseId d) (nextServiceId d) (nextInterceptorId d) (nextRef d) (logger d) (quitEventReceived d) (quitDone d) (queueQuit d) (localAll d) (localEvt d).
Definition upd_eventWaiters (f : list (Z * event_waiter) → list (Z * event_waiter)) (d : DM) : DM :=
  mkDM (services d) (trackers d) (callbacks d) (interceptors d) (gens d) (f (eventWaiters d)) (dependencyWaiters d) (pendingCoroutine d) (pendingDependencies d) (queue d) (nextEventId d) (nextPromiseId d) (nextServiceId d) (nextInterceptorId d) (nextRef d) (logger d) (quitEventReceived d) (quitDone d) (queueQuit d) (localAll d) (localEvt d).
Definition upd_dependencyWaiters (f : gmap Z event_waiter → gmap Z event_waiter) (d : DM) : DM :=
  mkDM (services d) (trackers d) (callbacks d) (interceptors d) (gens d) (eventWaiters d) (f (dependencyWaiters d)) (pendingCoroutine d) (pendingDependencies d) (queue d) (nextEventId d) (nextPromiseId d) (nextServiceId d) (nextInterceptorId d) (nextRef d) (logger d) (quitEventReceived d) (quitDone d) (queueQuit d) (localAll d) (localEvt d).
Definition upd_pendingCoroutine (f : gmap Z waiting_stop → gmap Z waiting_stop) (d : DM) : DM :=
  mkDM (services d) (trackers d) (callbacks d) (interceptors d) (gens d) (eventWaiters d) (dependencyWaiters d) (f (pendingCoroutine d)) (pendingDependencies d) (queue d) (nextEventId d) (nextPromiseId d) (nextServiceId d) (nextInterceptorId d) (nextRef d) (logger d) (quitEventReceived d) (quitDone d) (queueQuit d) (localAll d) (localEvt d).
Definition upd_pendingDependencies (f : gmap Z (list waiting_stop) → gmap Z (list waiting_stop)) (d : DM) : DM :=
  mkDM (services d) (trackers d) (callbacks d) (interceptors d) (gens d) (eventWaiters d) (dependencyWaiters d) (pendingCoroutine d) (f (pendingDependencies d)) (queue d) (nextEventId d) (nextPromiseId d) (nextServiceId d) (nextInterceptorId d) (nextRef d) (logger d) (quitEventReceived d) (quitDone d) (queueQuit d) (localAll d) (localEvt d).
Definition upd_queue (f : list Event → list Event) (d : DM) : DM :=
  mkDM (services d) (trackers d) (callbacks d) (interceptors d) (gens d) (eventWaiters d) (dependencyWaiters d) (pendingCoroutine d) (pendingDependencies d) (f (queue d)) (nextEventId d) (nextPromiseId d) (nextServiceId d) (nextInterceptorId d) (nextRef d) (logger d) (quitEventReceived d) (quitDone d) (queueQuit d) (localAll d) (localEvt d).
Definition upd_nextEventId (f : Z → Z) (d : DM) : DM :=
  mkDM (services d) (trackers d) (callbacks d) (interceptors d) (gens d) (eventWaiters d) (dependencyWaiters d) (pendingCoroutine d) (pendingDependencies d) (queue d) (f (nextEventId d)) (nextPromiseId d) (nextServiceId d) (nextInterceptorId d) (nextRef d) (logger d) (quitEventReceived d) (quitDone d) (queueQuit d) (localAll d) (localEvt d).
Definition upd_nextPromiseId (f : Z → Z) (d : DM) : DM :=
  mkDM (services d) (trackers d) (callbacks d) (interceptors d) (gens d) (eventWaiters d) (dependencyWaiters d) (pendingCoroutine d) (pendingDependencies d) (queue d) (nextEventId d) (f (nextPromiseId d)) (nextServiceId d) (nextInterceptorId d) (nextRef d) (logger d) (quitEventReceived d) (quitDone d) (queueQuit d) (localAll d) (localEvt d).
Definition upd_nextServiceId (f : Z → Z) (d : DM) : DM :=
  mkDM (services d) (trackers d) (callbacks d) (interceptors d) (gens d) (eventWaiters d) (dependencyWaiters d) (pendingCoroutine d) (pendingDependencies d) (queue d) (nextEventId d) (nextPromiseId d) (f (nextServiceId d)) (nextInterceptorId d) (nextRef d) (logger d) (quitEventReceived d) (quitDone d) (queueQuit d) (localAll d) (localEvt d).
Definition upd_nextInterceptorId (f : Z → Z) (d : DM) : DM :=
  mkDM (services d) (trackers d) (callbacks d) (interceptors d) (gens d) (eventWaiters d) (dependencyWaiters d) (pendingCoroutine d) (pendingDependencies d) (queue d) (nextEventId d) (nextPromiseId d) (nextServiceId d) (f (nextInterceptorId d)) (nextRef d) (logger d) (quitEventReceived d) (quitDone d) (queueQuit d) (localAll d) (localEvt d).
Definition upd_nextRef (f : Z → Z) (d : DM) : DM :=
  mkDM (services d) (trackers d) (callbacks d) (interceptors d) (gens d) (eventWaiters d) (dependencyWaiters d) (pendingCoroutine d) (pendingDependencies d) (queue d) (nextEventId d) (nextPromiseId d) (nextServiceId d) (nextInterceptorId d) (f (nextRef d)) (logger d) (quitEventReceived d) (quitDone d) (queueQuit d) (localAll d) (localEvt d).
Definition upd_logger (f : option Z → option Z) (d : DM) : DM :=
  mkDM (services d) (trackers d) (callbacks d) (interceptors d) (gens d) (eventWaiters d) (dependencyWaiters d) (pendingCoroutine d) (pendingDependencies d) (queue d) (nextEventId d) (nextPromiseId d) (nextServiceId d) (nextInterceptorId d) (nextRef d) (f (logger d)) (quitEventReceived d) (quitDone d) (queueQuit d) (localAll d) (localEvt d).
Definition upd_quitEventReceived (f : bool → bool) (d : DM) : DM :=
  mkDM (services d) (trackers d) (callbacks d) (interceptors d) (gens d) (eventWaiters d) (dependencyWaiters d) (pendingCoroutine d) (pendingDependencies d) (queue d) (nextEventId d) (nextPromiseId d) (nextServiceId d) (nextInterceptorId d) (nextRef d) (logger d) (f (quitEventReceived d)) (quitDone d) (queueQuit d) (localAll d) (localEvt d).
Definition upd_quitDone (f : bool → bool) (d : DM) : DM :=
  mkDM (services d) (trackers d) (callbacks d) (interceptors d) (gens d) (eventWaiters d) (dependencyWaiters d) (pendingCoroutine d) (pendingDependencies d) (queue d) (nextEventId d) (nextPromiseId d) (nextServiceId d) (nextInterceptorId d) (nextRef d) (logger d) (quitEventReceived d) (f (quitDone d)) (queueQuit d) (localAll d) (localEvt d).
Definition upd_queueQuit (f : bool → bool) (d : DM) : DM :=
  mkDM (services d) (trackers d) (callbacks d) (interceptors d) (gens d) (eventWaiters d) (dependencyWaiters d) (pendingCoroutine d) (pendingDependencies d) (queue d) (nextEventId d) (nextPromiseId d) (nextServiceId d) (nextInterceptorId d) (nextRef d) (logger d) (quitEventReceived d) (quitDone d) (f (queueQuit d)) (localAll d) (localEvt d).
Definition upd_localAll (f : list interceptor → list interceptor) (d : DM) : DM :=
  mkDM (services d) (trackers d) (callbacks d) (interceptors d) (gens d) (eventWaiters d) (dependencyWaiters d) (pendingCoroutine d) (pendingDependencies d) (queue d) (nextEventId d) (nextPromiseId d) (nextServiceId d) (nextInterceptorId d) (nextRef d) (logger d) (quitEventReceived d) (quitDone d) (queueQuit d) (f (localAll d)) (localEvt d).
Definition upd_localEvt (f : list interceptor → list interceptor) (d : DM) : DM :=
  mkDM (services d) (trackers d) (callbacks d) (interceptors d) (gens d) (eventWaiters d) (dependencyWaiters d) (pendingCoroutine d) (pendingDependencies d) (queue d) (nextEventId d) (nextPromiseId d) (nextServiceId d) (nextInterceptorId d) (nextRef d) (logger d) (quitEventReceived d) (quitDone d) (queueQuit d) (localAll d) (f (localEvt d)).

(** The code supplied by services, by the identity the framework calls it with.
    It may look at the manager. *)
Record UserCode := mkUserCode {
  uc_start : Z → DM → ucoro bool;                 (* start(): false is StartError *)
  uc_stop : Z → DM → ucoro ();                    (* stop() *)
  uc_handle : Z → Event → DM → ugen;              (* handleEvent *)
  uc_track : Z → Event → DM → ugen;               (* handleDependencyRequest / UndoRequest *)
  uc_run : Z → DM → list action;                  (* RunFunctionEvent::fun *)
  uc_runAsync : Z → DM → ugen;                    (* RunFunctionEventAsync::fun *)
  uc_preIntercept : Z → Event → DM → list action * bool;
  uc_postIntercept : Z → Event → bool → DM → list action;
}.

Section manager.
(** The queue's [pushEventInternal]. *)
Context (qpush : list Event → Event → list Event).
(** Code of the services. *)
Context (uc : UserCode).

(** ** Small accessors *)

(** The counter is kept as the number of ids handed out; the id is its value in
    64 bits. *)
Definition getNextEventId : M DM Z := λ d,
  Done (wrap64 (nextEventId d), upd_nextEventId Z.succ d).

Definition pushPrioritisedEvent (origin priority : Z) (b : event_body) : M DM Z :=
  id ← getNextEventId;
  modify (upd_queue (λ q, qpush q (mkEvent id origin priority b)));;
  mret id.
Definition push (origin priority : Z) (b : event_body) : M DM () :=
  pushPrioritisedEvent origin priority b;; mret ().

(** [AsyncGeneratorPromiseBase()]: 0 is skipped. *)
Definition newPromiseId : M DM Z := λ d,
  Done (nextPromiseId d,
        upd_nextPromiseId (λ n, if wrap64 (n + 1) =? 0 then 1 else wrap64 (n + 1)) d).

Definition newRef : M DM Z := λ d, Done (nextRef d, upd_nextRef (λ n, n + 1) d).

Definition findService (id : Z) : M DM (option lm) := gets (λ d, dfind id (services d)).
Definition modService (id : Z) (f : lm → lm) : M DM () := modify (upd_services (dupdate id f)).

Definition liftOutcome {A} (o : outcome A) : M DM A :=
  match o with Done a => mret a | Terminated => terminate end.

(** ** Public functions service code calls *)

(** [registerEventHandler] *)
Definition registerEventHandler (self type : Z) (target : option Z) (cb : Z) : M DM () :=
  modify (upd_callbacks (λ m,
    <[type := default [] (m !! type) ++ [mkCallback self target cb]]> m)).

(** [registerEventInterceptor]; type 0 intercepts every event. *)
Definition registerEventInterceptor (self type fn : Z) : M DM () :=
  id ← gets nextInterceptorId;
  modify (upd_nextInterceptorId (λ n, wrap64 (n + 1)));;
  modify (upd_interceptors (λ m,
    <[type := default [] (m !! type) ++ [mkInterceptor id self fn]]> m)).

(** [registerDependencyTracker]: only while starting or started. *)
Definition registerDependencyTracker (self iface fn : Z) : M DM () :=
  om ← findService self;
  match om with
  | None => terminate
  | Some m =>
      if negb (state_le STARTING (lm_state m)) || negb (state_le (lm_state m) ACTIVE)
      then terminate
      else
        modify (upd_trackers (λ t,
          <[iface := default [] (t !! iface) ++ [mkTracker self fn]]> t));;
        push self (Z.min INTERNAL_INSERT_SERVICE_EVENT_PRIORITY (lm_priority m)) (AddTrackerEvent iface)
  end.

Definition spec_register (deps : list (Z * Z * option Properties)) : DependencyRegister :=
  fold_left (λ r d, registerDependency r d.1.1 d.1.2 d.2) deps [].

Definition spec_manager (id : Z) (spec : service_spec) : lm :=
  set_priority (spec_priority spec)
    match spec_deps spec with
    | Some deps => new_dependency_manager id (spec_interfaces spec) (spec_register deps) (spec_props spec)
    | None => new_plain_manager id (spec_interfaces spec) (spec_props spec)
    end.

(** [internalCreateServiceManager] *)
Definition internalCreateServiceManager (spec : service_spec) : M DM Z :=
  serviceId ← gets nextServiceId;
  modify (upd_nextServiceId (λ n, wrap64 (n + 1)));;
  let cmpMgr := spec_manager serviceId spec in
  let priority := spec_priority spec in
  let event_priority := Z.min INTERNAL_DEPENDENCY_EVENT_PRIORITY priority in
  existing ← findService serviceId;
  match existing with
  | Some _ => terminate
  | None =>
      match spec_deps spec with
      | Some _ =>
          push serviceId (Z.min INTERNAL_INSERT_SERVICE_EVENT_PRIORITY priority) (InsertServiceEvent cmpMgr);;
          for_each (lm_registry cmpMgr) (λ r,
            push serviceId event_priority (DependencyRequestEvent (reg_dep r) (reg_props r)));;
          when (forallb (λ r, negb (is_required (flags (reg_dep r)))) (lm_registry cmpMgr))
            (push serviceId event_priority (StartServiceEvent serviceId));;
          mret serviceId
      | None =>
          when (spec_is_logger spec) (modify (upd_logger (λ _, Some serviceId)));;
          push serviceId (Z.min INTERNAL_INSERT_SERVICE_EVENT_PRIORITY priority) (InsertServiceEvent cmpMgr);;
          push serviceId event_priority (StartServiceEvent serviceId);;
          mret serviceId
      end
  end.

Definition runAction (a : action) : M DM () :=
  match a with
  | PushEvent origin priority e => push origin priority (user_event_body e)
  | RegisterEventHandler self type target cb => registerEventHandler self type target cb
  | RegisterEventInterceptor self type fn => registerEventInterceptor self type fn
  | RegisterDependencyTracker self iface fn => registerDependencyTracker self iface fn
  | CreateServiceManager spec => internalCreateServiceManager spec;; mret ()
  end.
Definition runActions (l : list action) : M DM () := for_each l runAction.

(** ** Waiting *)

Definition add_waiter (type pid : Z) (w : event_waiter) : event_waiter :=
  mkWaiter (ew_events w ++ [(type, pid)]) (ew_svc w) (ew_type w).

(** [pushPrioritisedEventAsync], up to its [co_await], by generator [pid]. *)
Definition pushPrioritisedEventAsync (pid origin priority : Z) (coalesce : bool) (b : event_body) : M DM () :=
  ws ← gets eventWaiters;
  known ← findService origin;
  if negb (origin =? 0) && negb (bool_decide (is_Some known)) then terminate
  else
    match (if coalesce
           then list_find (λ w, ew_svc w.2 = origin ∧ ew_type w.2 = body_type b) ws
           else None) with
    | Some (_, (key, _)) => modify (upd_eventWaiters (dupdate key (add_waiter (body_type b) pid)))
    | None =>
        eventId ← pushPrioritisedEvent origin priority b;
        modify (upd_eventWaiters
          (demplace eventId (mkWaiter [(body_type b, pid)] origin (body_type b))))
    end.

(** [waitForService], up to its [co_await]. *)
Definition waitForService (pid serviceId eventType : Z) : M DM () :=
  modify (upd_dependencyWaiters (λ m,
    match m !! serviceId with
    | Some w => <[serviceId := add_waiter eventType pid w]> m
    | None => <[serviceId := mkWaiter [(eventType, pid)] serviceId eventType]> m
    end)).

Definition hasDependencyWaiter (serviceId eventType : Z) (d : DM) : bool :=
  match dependencyWaiters d !! serviceId with
  | Some w => bool_decide (Exists (λ p, p.1 = eventType) (ew_events w))
  | None => false
  end.

(** [waitForServiceStarted]/[waitForServiceStopped] as far as they decide:
    quitting, nothing to wait for, or suspend.  A service that is not in the
    table yet is a created, not yet inserted one. *)
Inductive wait_decision := WaitQuitting | WaitNot | WaitSuspend.
Definition service_state_of (svc : Z) (d : DM) : ServiceState :=
  match dfind svc (services d) with Some m => lm_state m | None => INSTALLED end.
Definition waitForServiceStarted_decide (svc : Z) (d : DM) : wait_decision :=
  if quitEventReceived d then WaitQuitting
  else if bool_decide (service_state_of svc d = ACTIVE) then WaitNot else WaitSuspend.
Definition waitForServiceStopped_decide (svc : Z) (d : DM) : wait_decision :=
  if quitEventReceived d then WaitQuitting
  else if bool_decide (service_state_of svc d = ACTIVE) then WaitNot else WaitSuspend.

(** ** Running service coroutines *)

(** Runs generator [pid]'s service code to its next suspension or its end. *)
Fixpoint runUser {R} (pid : Z) (k : ucoro R) : M DM (R + ucoro R) :=
  match k with
  | CoReturn acts r => runActions acts;; mret (inl r)
  | CoSuspend acts k' => runActions acts;; mret (inr k')
  | CoAwaitEvent acts origin priority coalesce e k' =>
      runActions acts;;
      pushPrioritisedEventAsync pid origin priority coalesce (user_event_body e);;
      mret (inr k')
  | CoWaitService acts svc started kq k' =>
      runActions acts;;
      dec ← gets (if started then waitForServiceStarted_decide svc else waitForServiceStopped_decide svc);
      match dec with
      | WaitQuitting => runUser pid kq
      | WaitNot => runUser pid k'
      | WaitSuspend =>
          waitForService pid svc (if started then TYPE_StartServiceEvent else TYPE_StopServiceEvent);;
          mret (inr k')
      end
  end.

(** A generator body run to its next suspension: finished with a value, or a frame. *)
Definition run_result : Type := StartBehaviour + cont.

Definition runGen (svc priority pid : Z) (g : ugen) : M DM run_result :=
  match g with
  | GenLast body =>
      r ← runUser pid body;
      match r with
      | inl _ => mret (inl SB_DONE)
      | inr body' => mret (inr (CIchor (GenLast body')))
      end
  | GenYield body rest =>
      r ← runUser pid body;
      match r with
      | inl _ => push svc priority (ContinuableEvent pid);; mret (inr (CYielded rest))
      | inr body' => mret (inr (CIchor (GenYield body' rest)))
      end
  end.

(** The tail of [internal_start] and of [start]/[startAfterDependencyOnline]. *)
Definition afterOnline_result (afterOnline : bool) (b : StartBehaviour) : StartBehaviour :=
  if afterOnline && bool_decide (b = SB_DONE) then SB_STARTED else b.

Definition runStart (svc pid : Z) (afterOnline : bool) (k : ucoro bool) : M DM run_result :=
  r ← runUser pid k;
  match r with
  | inr k' => mret (inr (CStart svc afterOnline k'))
  | inl ok =>
      modService svc (λ m, (internal_start_end ok m).2);;
      mret (inl (afterOnline_result afterOnline (if (ok : bool) then SB_DONE else SB_STOPPED)))
  end.

Definition runStop (svc pid : Z) (k : ucoro ()) : M DM run_result :=
  r ← runUser pid k;
  match r with
  | inr k' => mret (inr (CStop svc k'))
  | inl _ => modService svc (λ m, (internal_stop_end m).2);; mret (inl SB_DONE)
  end.

(** [ILifecycleManager::start]/[startAfterDependencyOnline], first [begin()]. *)
Definition beginStart (svc : Z) (afterOnline : bool) (pid : Z) : M DM run_result :=
  om ← findService svc;
  match om with
  | None => terminate
  | Some m =>
      match lm_kind m with
      | KInternal =>
          if afterOnline then terminate
          else modService svc (set_state ACTIVE);; mret (inl SB_DONE)
      | _ =>
          match internal_start_begin (if afterOnline then None else getDependencyRegistry m) m with
          | None => mret (inl (afterOnline_result afterOnline SB_DONE))
          | Some m' =>
              modService svc (λ _, m');;
              k ← gets (uc_start uc svc);
              runStart svc pid afterOnline k
          end
      end
  end.

(** [ILifecycleManager::stop], first [begin()]. *)
Definition beginStop (svc pid : Z) : M DM run_result :=
  om ← findService svc;
  match om with
  | None => terminate
  | Some m =>
      match lm_kind m with
      | KInternal => modService svc (set_state INSTALLED);; mret (inl SB_DONE)
      | _ =>
          m' ← liftOutcome (internal_stop_begin m);
          modService svc (λ _, m');;
          k ← gets (uc_stop uc svc);
          runStop svc pid k
      end
  end.

(** ** [DependencyLifecycleManager::dependencyOffline] *)

(** After the waits of one dependency: does the service have to stop. *)
Definition depOffline_decide (svc : Z) : M DM (DependencyChange * option StartBehaviour) :=
  om ← findService svc;
  match om with
  | None => terminate
  | Some m =>
      if bool_decide (lm_state m = UNINJECTING) then mret (FOUND_AND_STOP_ME, Some SB_STOP_ME)
      else mret (FOUND, None)
  end.

(** The part of an iteration after a possible wait for DependencyOnlineEvent;
    [next] runs the remaining iterations. *)
Definition depOffline_stop (svc pid : Z) (required : bool) (rest : list nat)
    (interested : DependencyChange) (ret : StartBehaviour)
    (next : DependencyChange → StartBehaviour → M DM run_result) : M DM run_result :=
  om ← findService svc;
  match om with
  | None => terminate
  | Some m =>
      if required && negb (bool_decide (interested = FOUND_AND_STOP_ME))
         && (bool_decide (lm_state m = ACTIVE) || bool_decide (lm_state m = UNINJECTING))
      then
        waiting ← gets (hasDependencyWaiter svc TYPE_DependencyOfflineEvent);
        if bool_decide (lm_state m = ACTIVE) then
          when (negb waiting)
            (push svc (INTERNAL_DEPENDENCY_EVENT_PRIORITY - 1) (DependencyOfflineEvent false));;
          waitForService pid svc TYPE_DependencyOfflineEvent;;
          mret (inr (CDepOffline svc WaitOfflineActive rest interested ret))
        else if (waiting : bool) then
          waitForService pid svc TYPE_DependencyOfflineEvent;;
          mret (inr (CDepOffline svc WaitOfflineUninjecting rest interested ret))
        else
          d ← depOffline_decide svc;
          next d.1 (default ret d.2)
      else
        next (if bool_decide (interested = FOUND_AND_STOP_ME) then interested else FOUND) ret
  end.

(** The loop over [depInterfaces]. *)
Fixpoint depOffline_loop (svc pid : Z) (deps : list nat)
    (interested : DependencyChange) (ret : StartBehaviour) : M DM run_result :=
  match deps with
  | [] => mret (inl ret)
  | i :: rest =>
      om ← findService svc;
      match om with
      | None => terminate
      | Some m =>
          match lm_registry m !! i with
          | None => terminate
          | Some node =>
              let dep := satisfied_dec (reg_dep node) in
              modService svc (λ m', set_registry
                (<[i := mkRegistration dep (reg_props node)]> (lm_registry m')) m');;
              if satisfied dep =? u64_mod - 1 then terminate
              else
                let required := is_required (flags dep) && (satisfied dep =? 0) in
                if required && (bool_decide (lm_state m = STARTING) || bool_decide (lm_state m = INJECTING))
                then
                  waitForService pid svc TYPE_DependencyOnlineEvent;;
                  mret (inr (CDepOffline svc WaitOnline rest interested ret))
                else
                  depOffline_stop svc pid required rest interested ret
                    (λ i' r', depOffline_loop svc pid rest i' r')
          end
      end
  end.

Definition dependencyOffline (svc provider : Z) (deps : list nat) (pid : Z) : M DM run_result :=
  om ← findService svc;
  match om with
  | None => terminate
  | Some m =>
      match lm_kind m with
      | KDependency =>
          modService svc (λ m', set_goingaway (sinsert provider (lm_goingaway m')) m');;
          depOffline_loop svc pid deps NOT_FOUND SB_DONE
      | _ => terminate
      end
  end.

(** Resumption after one of its three [co_await]s. *)
Definition resumeDepOffline (svc pid : Z) (stage : wait_stage) (rest : list nat)
    (interested : DependencyChange) (ret : StartBehaviour) : M DM run_result :=
  om ← findService svc;
  match om with
  | None => terminate
  | Some m =>
      let next := λ i' r', depOffline_loop svc pid rest i' r' in
      match stage with
      | WaitOnline =>
          if bool_decide (lm_state m = ACTIVE)
          then depOffline_stop svc pid true rest interested ret next
          else terminate
      | WaitOfflineActive =>
          if bool_decide (lm_dependees m = [])
          then d ← depOffline_decide svc; next d.1 (default ret d.2)
          else terminate
      | WaitOfflineUninjecting =>
          d ← depOffline_decide svc; next d.1 (default ret d.2)
      end
  end.

(** ** Resuming and collecting generators *)

Definition set_cont (c : cont) (g : scoped_generator) : scoped_generator :=
  mkScoped (sg_type g) (sg_svc g) (sg_priority g) c (sg_event g) (sg_ref g).

Definition continuation_event (t : gen_type) (pid : Z) : event_body :=
  match t with
  | GStartBehaviour => ContinuableStartEvent pid
  | GIchorBehaviour => ContinuableEvent pid
  end.

(** Runs the frame of a scoped generator; a body that returns pushes its
    continuation event ([return_value]) and stays [CDone] at its final
    suspension point. *)
Definition runFrame (pid : Z) (g : scoped_generator) : M DM run_result :=
  match sg_cont g with
  | CStart svc after k => runStart svc pid after k
  | CStop svc k => runStop svc pid k
  | CDepOffline svc stage rest interested ret => resumeDepOffline svc pid stage rest interested ret
  | CIchor body | CYielded body => runGen (sg_svc g) (sg_priority g) pid body
  | CDone v => mret (inl v)
  end.

Definition storeFrame (pid : Z) (g : scoped_generator) (r : run_result) : M DM () :=
  match r with
  | inr c => modify (upd_gens (alter (set_cont c) pid))
  | inl v =>
      push (sg_svc g) (sg_priority g) (continuation_event (sg_type g) pid);;
      modify (upd_gens (alter (set_cont (CDone v)) pid))
  end.

(** [coroutine_handle::resume] of the coroutine awaited under [pid]. *)
Definition resume (pid : Z) : M DM () :=
  og ← gets (λ d, gens d !! pid);
  match og with
  | None => mret ()
  | Some g =>
      match sg_cont g with
      | CDone _ => mret ()
      | _ => r ← runFrame pid g; storeFrame pid g r
      end
  end.

(** [_scopedGenerators.emplace(promiseId, ScopedGenerator{gen, event})] *)
Definition scopeGenerator (pid : Z) (t : gen_type) (svc priority : Z) (c : cont)
    (e : Event) (ref : Z) : M DM () :=
  modify (upd_gens (λ m,
    match m !! pid with
    | Some _ => m
    | None => <[pid := mkScoped t svc priority c e ref]> m
    end)).

(** [ReferenceCountedPointer::use_count] of a generator's event. *)
Definition use_count (ref : Z) (d : DM) : nat :=
  size (filter (λ p : Z * scoped_generator, sg_ref p.2 = ref) (gens d)).

Definition existingCoroutineFor (serviceId : Z) (d : DM) : bool :=
  bool_decide (map_Exists (λ _ g, sg_svc g = serviceId) (gens d)).

(** ** Finishing waits *)

(** [handleEventCompletion]: resumes the coroutines awaiting the event. *)
Definition handleEventCompletion (evtId : Z) : M DM () :=
  ow ← gets (λ d, dfind evtId (eventWaiters d));
  match ow with
  | None => mret ()
  | Some w =>
      for_each (ew_events w) (λ p, resume p.2);;
      modify (upd_eventWaiters (derase evtId))
  end.

(** One round of the do/while of [finishWaitingService]: take the matching
    waiters out, then resume them. *)
Definition take_waiters (serviceId eventType : Z) : M DM (list Z) := λ d,
  match dependencyWaiters d !! serviceId with
  | None => Done ([], d)
  | Some w =>
      Done ((filter (λ p, p.1 = eventType) (ew_events w)).*2,
            upd_dependencyWaiters
              (<[serviceId := mkWaiter (filter (λ p, p.1 ≠ eventType) (ew_events w))
                                (ew_svc w) (ew_type w)]>) d)
  end.

Fixpoint finish_rounds (fuel : nat) (serviceId eventType : Z) (ret : bool) : M DM bool :=
  match fuel with
  | O => mret ret
  | S fuel' =>
      evts ← take_waiters serviceId eventType;
      for_each evts resume;;
      if bool_decide ((evts : list Z) = []) then mret ret
      else finish_rounds fuel' serviceId eventType true
  end.

(** How often a suspended [dependencyOffline] can still wait: twice per
    remaining dependency, once more if it is waiting to become ACTIVE first.
    The rounds end when nobody waits again, so this bounds them. *)
Definition frame_fuel (c : cont) : nat :=
  match c with
  | CDepOffline _ WaitOnline rest _ _ => 2 * length rest + 2
  | CDepOffline _ _ rest _ _ => 2 * length rest + 1
  | _ => 0
  end.
Definition finish_fuel (d : DM) : nat :=
  S (S (map_fold (λ _ g n, (frame_fuel (sg_cont g) + n)%nat) 0%nat (gens d))).

Definition finishWaitingService (serviceId eventType : Z) : M DM bool :=
  present ← gets (λ d, bool_decide (is_Some (dependencyWaiters d !! serviceId)));
  if (present : bool) then
    fuel ← gets finish_fuel;
    ret ← finish_rounds fuel serviceId eventType false;
    none_left ← gets (λ d, match dependencyWaiters d !! serviceId with
                           | Some w => bool_decide (ew_events w = [])
                           | None => false
                           end);
    if (none_left : bool)
    then modify (upd_dependencyWaiters (delete serviceId));; mret true
    else mret ret
  else mret false.

(** ** Registrations and quitting *)

Definition erase_registrations {A} (owner : A → Z) (svcId : Z) (m : gmap Z (list A)) : gmap Z (list A) :=
  omap (λ l, match filter (λ x, owner x ≠ svcId) l with [] => None | l' => Some l' end) m.

Definition clearServiceRegistrations (svcId : Z) : M DM () :=
  modify (upd_trackers (erase_registrations tr_svc svcId));;
  modify (upd_callbacks (erase_registrations cb_listening svcId));;
  modify (upd_interceptors (erase_registrations ic_listening svcId));;
  modify (upd_localAll (filter (λ i, ic_listening i ≠ svcId)));;
  modify (upd_localEvt (filter (λ i, ic_listening i ≠ svcId))).

Definition all_services_stopped (d : DM) : bool :=
  forallb (λ p : Z * lm, isInternalManager p.2 || bool_decide (lm_state p.2 = INSTALLED)) (services d).

Definition checkIfCanQuit : M DM () :=
  d ← get;
  when (quitEventReceived d && negb (quitDone d) && bool_decide (gens d = ∅))
    (when (all_services_stopped d)
      (if negb (bool_decide (eventWaiters d = [])) then terminate
       else if negb (bool_decide (dependencyWaiters d = ∅)) then terminate
       else
         modify (upd_queueQuit (λ _, true));;
         modify (upd_services (λ _, []));;
         modify (upd_localAll (λ _, []));;
         modify (upd_localEvt (λ _, []));;
         modify (upd_logger (λ _, None));;
         modify (upd_quitDone (λ _, true)))).
End manager.
