(* ===== verification/Dispatch.v ===== *)
(** * [DependencyManager::processEvent] (src/ichor/DependencyManager.cpp)

    One definition per case of the event switch, in the order of the source,
    and [processEvent] around them: interceptors before and after, and the
    completion of the event when no coroutine has taken it over.  A handler
    returns whether it moved the event into a scoped generator
    ([uniqueEvt] empty). *)

From S2P Require Import Prelude DenseMap Register Lifecycle Heap Events Manager.
From stdpp Require Import base list gmap.
From Stdlib Require Import ZArith Lia.

Open Scope Z_scope.

(** [typeNameHash<IService>()] *)
Definition TYPE_IService : Z := -1.

Section dispatch.
Context (qpush : list Event → Event → list Event).
Context (uc : UserCode).

Notation push := (push qpush).
Notation finishWaitingService := (finishWaitingService qpush).
Notation handleEventCompletion := (handleEventCompletion qpush).
Notation runActions := (runActions qpush).
Notation runGen := (runGen qpush).
Notation beginStart := (beginStart qpush uc).
Notation beginStop := (beginStop qpush uc).

Definition depPriority (p : Z) : Z := Z.min p INTERNAL_DEPENDENCY_EVENT_PRIORITY.
Definition coPriority (p : Z) : Z := Z.min INTERNAL_COROUTINE_EVENT_PRIORITY p.

(** ** DependencyOnlineEvent and InsertServiceEvent *)

(** [startAfterDependencyOnline] of [svc], on behalf of an event of priority
    [prio]; a suspended start is scoped with the event to push later. *)
Definition startAndAnnounce (svc prio : Z) : M DM () :=
  om ← findService svc;
  match om with
  | None => terminate
  | Some m =>
      pid ← newPromiseId;
      r ← beginStart svc true pid;
      match r with
      | inr c =>
          id ← getNextEventId;
          ref ← newRef;
          scopeGenerator pid GStartBehaviour svc (depPriority (getPriority m)) c
            (mkEvent id svc (depPriority prio) DependencyOnlineEvent) ref
      | inl SB_STARTED => push svc (depPriority prio) DependencyOnlineEvent
      | inl _ => mret ()
      end
  end.

(** Offers provider [prov] to consumer [svc]; returns the start behaviour. *)
Definition offerDependency (svc : Z) (prov : provider) : M DM StartBehaviour :=
  om ← findService svc;
  match om with
  | None => terminate
  | Some m =>
      let '(b, m', recorded) := dependencyOnline m prov in
      modService svc (λ _, m');;
      when recorded (modService (prov_id prov) (insertSelfInto svc));;
      mret b
  end.

Definition onlineStep (origin prio : Z) (manager : lm) (flt : option filter_entry) (svc : Z) : M DM () :=
  oc ← findService svc;
  match oc with
  | None => mret ()
  | Some c =>
      if (svc =? origin) || filtered_out flt c then mret ()
      else
        b ← offerDependency svc (provider_of manager);
        if bool_decide (b = SB_DONE) then mret () else startAndAnnounce svc prio
  end.

Definition onDependencyOnline (e : Event) : M DM bool :=
  let origin := ev_origin e in
  om ← findService origin;
  match om with
  | None => mret false
  | Some m =>
      let '(ok, m') := setInjected m in
      if negb ok then mret false
      else
        modService origin (λ _, m');;
        finishWaitingService origin TYPE_DependencyOnlineEvent;;
        (if bool_decide (getInterfaces m = []) then mret ()
         else
           flt ← liftOutcome (filter_of m);
           keys ← gets (λ d, dkeys (services d));
           for_each keys (onlineStep origin (ev_priority e) m flt));;
        quitting ← gets quitEventReceived;
        when quitting (push origin (depPriority (ev_priority e)) (StopServiceEvent origin true));;
        mret false
  end.

(** ** DependencyOfflineEvent *)

(** [finishDependencyOffline] of [consumer] for [provider], in the table. *)
Definition finishOffline (consumer provider : Z) (deps : list nat) : M DM () :=
  oc ← findService consumer;
  op ← findService provider;
  match oc, op with
  | Some c, Some p =>
      r ← liftOutcome (finishDependencyOffline c p deps);
      modService consumer (λ _, r.1);;
      modService provider (λ _, r.2)
  | _, _ => terminate
  end.

Definition addPendingStop (svc : Z) (w : waiting_stop) : M DM () :=
  modify (upd_pendingDependencies (λ m, <[svc := default [] (m !! svc) ++ [w]]> m)).

Definition offlineStep (origin : Z) (removeAfter : bool) (svc : Z) : M DM () :=
  oc ← findService svc;
  op ← findService origin;
  match oc, op with
  | Some c, Some p =>
      let priority := depPriority (getPriority c) in
      let depIts := interestedInDependencyGoingOffline c p in
      if bool_decide (depIts = []) then mret ()
      else
        pid ← newPromiseId;
        r ← dependencyOffline qpush svc origin depIts pid;
        match r with
        | inr k =>
            id ← getNextEventId;
            ref ← newRef;
            scopeGenerator pid GStartBehaviour svc priority k
              (mkEvent id svc priority (ContinuableDependencyOfflineEvent origin removeAfter depIts)) ref
        | inl SB_STOP_ME =>
            waiting ← gets (λ d, default [] (pendingDependencies d !! svc));
            when (bool_decide ((waiting : list waiting_stop) = []))
              (push origin priority (StopServiceEvent svc removeAfter));;
            addPendingStop svc (mkWaitingStop origin priority removeAfter depIts)
        | inl SB_STOPPED => terminate
        | inl SB_DONE => finishOffline svc origin depIts
        | inl SB_STARTED => mret ()
        end
  | _, _ => terminate
  end.

Definition onDependencyOffline (e : Event) (removeAfter : bool) : M DM bool :=
  let origin := ev_origin e in
  om ← findService origin;
  match om with
  | None => mret false
  | Some m =>
      let '(ok, m') := setUninjected m in
      if negb ok then mret false
      else
        modService origin (λ _, m');;
        for_each (getDependees m) (offlineStep origin removeAfter);;
        om' ← findService origin;
        when (match om' with Some p => bool_decide (getDependees p = []) | None => false end)
          (finishWaitingService origin TYPE_DependencyOfflineEvent;;
           push origin (depPriority (ev_priority e)) (StopServiceEvent origin removeAfter));;
        mret false
  end.

(** ** DependencyRequestEvent *)

(** Runs a tracker or handler callback as a generator of service [svc];
    [Some frame] when it did not finish. *)
Definition beginCallback (svc prio : Z) (g : DM → ugen) : M DM (option (Z * cont)) :=
  pid ← newPromiseId;
  body ← gets g;
  r ← runGen svc prio pid body;
  match r with
  | inl _ => mret None
  | inr c => mret (Some (pid, c))
  end.

(** The loop shared by requests and broadcasts: the first unfinished callback
    takes the event over, later ones share it. *)
Definition scopeShared (e : Event) (svc prio : Z) (g : DM → ugen) (ref : option Z) : M DM (option Z) :=
  r ← beginCallback svc prio g;
  match r with
  | None => mret ref
  | Some (pid, c) =>
      rf ← match ref with Some x => mret x | None => newRef end;
      scopeGenerator pid GIchorBehaviour svc prio c e rf;;
      mret (Some rf)
  end.

Fixpoint requestLoop (e : Event) (l : list tracker) (ref : option Z) : M DM (option Z) :=
  match l with
  | [] => mret ref
  | t :: l' =>
      ref' ← scopeShared e (tr_svc t) (ev_priority e) (uc_track uc (tr_fn t) e) ref;
      requestLoop e l' ref'
  end.

Definition onDependencyRequest (e : Event) (dep : Dependency) : M DM bool :=
  ts ← gets (λ d, default [] (trackers d !! interfaceNameHash dep));
  ref ← requestLoop e ts None;
  mret (bool_decide (is_Some ref)).

(** ** QuitEvent *)

Definition quitStep (origin svc : Z) : M DM () :=
  om ← findService svc;
  match om with
  | None => mret ()
  | Some m =>
      if bool_decide (lm_state m = ACTIVE) && negb (isInternalManager m) then
        let priority := Z.max (getPriority m) INTERNAL_DEPENDENCY_EVENT_PRIORITY in
        for_each (getDependees m) (λ dep, push origin priority (StopServiceEvent dep true));;
        push origin priority (StopServiceEvent svc true)
      else mret ()
  end.

Definition onQuit (e : Event) : M DM bool :=
  modify (upd_quitEventReceived (λ _, true));;
  keys ← gets (λ d, dkeys (services d));
  for_each keys (quitStep (ev_origin e));;
  checkIfCanQuit;;
  mret false.

(** ** InsertServiceEvent *)

Definition insertStep (svc prio key : Z) : M DM () :=
  oc ← findService svc;
  om ← findService key;
  match oc, om with
  | Some c, Some m =>
      if negb (bool_decide (lm_state m = ACTIVE)) || bool_decide (getInterfaces m = []) then mret ()
      else
        flt ← liftOutcome (filter_of m);
        if filtered_out flt c then mret ()
        else
          b ← offerDependency svc (provider_of m);
          if bool_decide (b = SB_DONE) then mret () else startAndAnnounce svc prio
  | _, _ => mret ()
  end.

Definition onInsertService (e : Event) (mgr : lm) : M DM bool :=
  let svc := ev_origin e in
  modify (upd_services (demplace svc mgr));;
  b ← offerDependency svc (self_provider TYPE_IService);
  when (bool_decide (b = SB_STARTED)) (startAndAnnounce svc (ev_priority e));;
  om ← findService svc;
  match om with
  | None => mret false
  | Some m =>
      match getDependencyRegistry m with
      | None | Some [] => mret false
      | Some _ =>
          keys ← gets (λ d, dkeys (services d));
          for_each keys (insertStep svc (ev_priority e));;
          mret false
      end
  end.

(** ** Removing a service *)

Definition preIntercepts (infos : list interceptor) (e : Event) (allow : bool) : M DM bool :=
  fold_left (λ acc i,
    a ← acc;
    r ← gets (uc_preIntercept uc (ic_fn i) e);
    runActions r.1;;
    mret (a && r.2)) infos (mret allow).

Definition postIntercepts (infos : list interceptor) (e : Event) (processed : bool) : M DM () :=
  for_each infos (λ i,
    acts ← gets (uc_postIntercept uc (ic_fn i) e processed);
    runActions acts).

(** The hardening check of [removeInternalService] on pending coroutines. *)
Definition blocksRemoval (svcId : Z) (g : scoped_generator) : bool :=
  match ev_body (sg_event g) with
  | StartServiceEvent s => (ev_origin (sg_event g) =? svcId) || (s =? svcId)
  | ContinuableDependencyOfflineEvent off _ _ => off =? svcId
  | DependencyOfflineEvent _ | StopServiceEvent _ _ => false
  | _ => ev_origin (sg_event g) =? svcId
  end.

(** One tracker told about the dropped request; returns the handler count. *)
Definition undoStep (e : Event) (t : tracker) (count : Z) : M DM Z :=
  ot ← findService (tr_svc t);
  match ot with
  | None => terminate
  | Some tm =>
      if state_le UNINJECTING (lm_state tm) || state_le (lm_state tm) INSTALLED then mret count
      else
        r ← beginCallback (tr_svc t) (ev_priority e) (uc_track uc (tr_fn t) e);
        match r with
        | None => mret (count + 1)
        | Some (pid, c) =>
            id ← getNextEventId;
            ref ← newRef;
            scopeGenerator pid GIchorBehaviour (tr_svc t) (ev_priority e) c
              (mkEvent id (tr_svc t) INTERNAL_DEPENDENCY_EVENT_PRIORITY (ev_body e)) ref;;
            mret (count + 1)
        end
  end.

Fixpoint undoLoop (e : Event) (l : list tracker) (count : Z) : M DM Z :=
  match l with
  | [] => mret count
  | t :: l' => n ← undoStep e t count; undoLoop e l' n
  end.

Definition undoRequest (svcId : Z) (r : registration) : M DM () :=
  id ← getNextEventId;
  let e := mkEvent id svcId INTERNAL_DEPENDENCY_EVENT_PRIORITY
             (DependencyUndoRequestEvent (reg_dep r) (reg_props r)) in
  all ← gets localAll;
  evs ← gets localEvt;
  preIntercepts all e true;;
  preIntercepts evs e true;;
  ts ← gets (λ d, default [] (trackers d !! interfaceNameHash (reg_dep r)));
  n ← undoLoop e ts 0;
  all' ← gets localAll;
  evs' ← gets localEvt;
  postIntercepts all' e (0 <? n);;
  postIntercepts evs' e (0 <? n).

Definition removeInternalService (svcId : Z) : M DM () :=
  om ← findService svcId;
  match om with
  | None => terminate
  | Some m =>
      blocked ← gets (λ d, bool_decide (map_Exists (λ _ g, blocksRemoval svcId g = true) (gens d)));
      if negb (bool_decide (getDependees m = [])) then terminate
      else if negb (bool_decide (getDependencies m = [])) then terminate
      else if (blocked : bool) then terminate
      else
        for_each (default [] (getDependencyRegistry m)) (undoRequest svcId);;
        modify (upd_trackers (erase_registrations tr_svc svcId));;
        modify (upd_services (derase svcId))
  end.

(** ** StopServiceEvent *)

Definition pendingStep (e : Event) (svc : Z) (w : waiting_stop) : M DM () :=
  op ← findService (ws_origin w);
  match op with
  | None => terminate
  | Some _ =>
      finishOffline svc (ws_origin w) (ws_deps w);;
      op' ← findService (ws_origin w);
      when (match op' with Some p => bool_decide (getDependees p = []) | None => false end)
        (push svc (coPriority (ev_priority e)) (StopServiceEvent (ws_origin w) (ws_removeAfter w)))
  end.

(** What follows a completed [stop()], for the synchronous and the coroutine
    path alike: release the services waiting for this one, leave the
    dependencies, drop the registrations. *)
Definition finishStop (e : Event) (svc : Z) (removeAfter : bool) : M DM () :=
  ws ← gets (λ d, default [] (pendingDependencies d !! svc));
  for_each ws (pendingStep e svc);;
  modify (upd_pendingDependencies (delete svc));;
  om ← findService svc;
  match om with
  | None => terminate
  | Some m =>
      for_each (getDependencies m) (λ dep,
        modService dep (λ p, set_dependees (serase svc (lm_dependees p)) p));;
      modService svc (set_injected []);;
      clearServiceRegistrations svc;;
      when removeAfter (removeInternalService svc)
  end.

Definition onStopService (e : Event) (svc : Z) (removeAfter : bool) : M DM bool :=
  om ← findService svc;
  match om with
  | None => mret false
  | Some m =>
      if bool_decide (lm_state m = INSTALLED) || bool_decide (lm_state m = STOPPING) then mret false
      else
        waiting ← gets (λ d, bool_decide (is_Some (dependencyWaiters d !! svc)));
        if waiting && (negb (bool_decide (getDependees m = []))
                       || negb (bool_decide (lm_state m = UNINJECTING)))
        then mret false
        else
          when waiting (finishWaitingService svc TYPE_DependencyOfflineEvent;; mret ());;
          running ← gets (existingCoroutineFor svc);
          if (running : bool) then
            modify (upd_pendingCoroutine (λ p,
              match p !! svc with
              | Some _ => p
              | None => <[svc := mkWaitingStop (ev_origin e) (ev_priority e) removeAfter []]> p
              end));;
            mret false
          else
            om' ← findService svc;
            match om' with
            | None => terminate
            | Some m' =>
                if bool_decide (getDependees m' = []) && bool_decide (lm_state m' = UNINJECTING) then
                  modify (upd_logger (λ l, if bool_decide (l = Some svc) then None else l));;
                  pid ← newPromiseId;
                  r ← beginStop svc pid;
                  match r with
                  | inr c =>
                      ref ← newRef;
                      scopeGenerator pid GStartBehaviour svc (depPriority (getPriority m')) c e ref;;
                      mret true
                  | inl _ =>
                      om'' ← findService svc;
                      if bool_decide (lm_state <$> om'' = Some INSTALLED)
                      then finishStop e svc removeAfter;; checkIfCanQuit;; mret false
                      else terminate
                  end
                else
                  when (negb (bool_decide (lm_state m' = UNINJECTING)))
                    (push svc (ev_priority e) (DependencyOfflineEvent removeAfter));;
                  mret false
            end
  end.

(** ** StartServiceEvent *)

Definition onStartService (e : Event) (svc : Z) : M DM bool :=
  om ← findService svc;
  match om with
  | None => mret false
  | Some m =>
      if bool_decide (lm_state m = ACTIVE) then mret false
      else if bool_decide (lm_state m = STARTING) || bool_decide (lm_state m = INJECTING) then mret false
      else
        pid ← newPromiseId;
        r ← beginStart svc false pid;
        match r with
        | inr c =>
            ref ← newRef;
            scopeGenerator pid GStartBehaviour svc (depPriority (getPriority m)) c e ref;;
            mret true
        | inl _ =>
            om' ← findService svc;
            if bool_decide (lm_state <$> om' = Some INSTALLED) then mret false
            else
              push svc (depPriority (ev_priority e)) DependencyOnlineEvent;;
              quitting ← gets quitEventReceived;
              when quitting (push svc (depPriority (ev_priority e)) (StopServiceEvent svc true));;
              mret false
        end
  end.

(** ** The smaller cases *)

Definition onRemoveService (svc : Z) : M DM bool :=
  om ← findService svc;
  match om with
  | None => mret false
  | Some m =>
      if negb (bool_decide (lm_state m = INSTALLED)) || negb (bool_decide (getDependees m = []))
         || negb (bool_decide (getDependencies m = []))
      then mret false
      else removeInternalService svc;; mret false
  end.

Definition onRemoveEventHandler (key_id key_type : Z) : M DM bool :=
  modify (upd_callbacks (alter (filter (λ c, cb_listening c ≠ key_id)) key_type));; mret false.

Definition onRemoveEventInterceptor (id type : Z) : M DM bool :=
  modify (upd_interceptors (alter (filter (λ i, ic_id i ≠ id)) type));; mret false.

(** The requests a new tracker is told about: every registration for its
    interface, of every service. *)
Definition tracker_requests (iface : Z) (d : DM) : list Event :=
  p ← services d;
  r ← default [] (getDependencyRegistry p.2);
  if interfaceNameHash (reg_dep r) =? iface
  then [mkEvent 0 p.1 (depPriority (getPriority p.2)) (DependencyRequestEvent (reg_dep r) (reg_props r))]
  else [].

Definition trackerStep (prio : Z) (t : tracker) (req : Event) : M DM () :=
  r ← beginCallback (tr_svc t) prio (uc_track uc (tr_fn t) req);
  match r with
  | None => mret ()
  | Some (pid, c) => ref ← newRef; scopeGenerator pid GIchorBehaviour (tr_svc t) prio c req ref
  end.

Definition onAddTracker (e : Event) (iface : Z) : M DM bool :=
  ts ← gets (λ d, default [] (trackers d !! iface));
  match list_find (λ t, tr_svc t = ev_origin e) ts with
  | None => mret false
  | Some (_, t) =>
      reqs ← gets (tracker_requests iface);
      for_each reqs (trackerStep (ev_priority e) t);;
      mret false
  end.

Definition onRemoveTracker (e : Event) (iface : Z) : M DM bool :=
  modify (upd_trackers (λ m,
    match m !! iface with
    | None => m
    | Some l =>
        match filter (λ t, tr_svc t ≠ ev_origin e) l with
        | [] => delete iface m
        | l' => <[iface := l']> m
        end
    end));;
  mret false.

(** ** ContinuableEvent *)

(** A finished callback generator is collected: the last one that shares the
    event completes it, and a stop that had to wait for the coroutine is
    queued again. *)
Definition collectGenerator (pid : Z) (g : scoped_generator) : M DM () :=
  n ← gets (use_count (sg_ref g));
  when (bool_decide (n = 1%nat)) (handleEventCompletion (ev_id (sg_event g)));;
  pending ← gets (λ d, pendingCoroutine d !! sg_svc g);
  match pending with
  | Some w => push (ws_origin w) (depPriority (ws_priority w)) (StopServiceEvent (sg_svc g) (ws_removeAfter w))
  | None => mret ()
  end;;
  modify (upd_gens (delete pid)).

(** [begin_interface] runs a generator on from its [co_yield]; one that is
    suspended inside a [co_await] is left alone. *)
Definition onContinuable (pid : Z) : M DM bool :=
  og ← gets (λ d, gens d !! pid);
  match og with
  | None => mret false
  | Some g =>
      match sg_cont g with
      | CDone _ => collectGenerator pid g
      | CYielded _ =>
          r ← runFrame qpush pid g;
          storeFrame qpush pid g r;;
          match r with
          | inl _ => collectGenerator pid g
          | inr _ => mret ()
          end
      | _ => mret ()
      end;;
      checkIfCanQuit;;
      mret false
  end.

(** ** ContinuableStartEvent *)

Definition continueStart (e orig : Event) (svc : Z) : M DM () :=
  push svc (coPriority (ev_priority e)) DependencyOnlineEvent;;
  quitting ← gets quitEventReceived;
  when quitting (push svc (depPriority (ev_priority e)) (StopServiceEvent svc true));;
  handleEventCompletion (ev_id orig).

Definition continueStop (orig : Event) (pid svc : Z) (removeAfter : bool) : M DM () :=
  om ← findService svc;
  match om with
  | None => terminate
  | Some m =>
      if negb (bool_decide (lm_state m = INSTALLED)) then terminate
      else if negb (bool_decide (getDependees m = [])) then terminate
      else
        finishStop orig svc removeAfter;;
        handleEventCompletion (ev_id orig);;
        modify (upd_gens (delete pid));;
        checkIfCanQuit
  end.

Definition continueOnline (e orig : Event) (v : StartBehaviour) : M DM () :=
  when (bool_decide (v = SB_STARTED))
    (push (ev_origin orig) (coPriority (ev_priority e)) DependencyOnlineEvent);;
  handleEventCompletion (ev_id orig).

Definition continueOffline (e orig : Event) (v : StartBehaviour) (off : Z) (removeAfter : bool)
    (deps : list nat) : M DM () :=
  let svc := ev_origin orig in
  oo ← findService off;
  os ← findService svc;
  match oo, os with
  | Some _, Some m =>
      (if bool_decide (v = SB_STOP_ME) then
         waiting ← gets (λ d, default [] (pendingDependencies d !! svc));
         when (bool_decide ((waiting : list waiting_stop) = [])
               || (bool_decide (lm_state m = UNINJECTING) && bool_decide (getDependees m = [])))
           (push (ev_origin e) (ev_priority e) (StopServiceEvent svc removeAfter));;
         addPendingStop svc (mkWaitingStop off (ev_priority e) removeAfter deps)
       else
         finishOffline svc off deps;;
         oo' ← findService off;
         when (match oo' with Some p => bool_decide (getDependees p = []) | None => false end)
           (push off (coPriority (ev_priority e)) (StopServiceEvent off removeAfter);;
            finishWaitingService off TYPE_DependencyOfflineEvent;;
            mret ()));;
      handleEventCompletion (ev_id orig)
  | _, _ => terminate
  end.

Definition onContinuableStart (e : Event) (pid : Z) : M DM bool :=
  og ← gets (λ d, gens d !! pid);
  match og with
  | None => mret false
  | Some g =>
      match sg_cont g with
      | CDone v =>
          let orig := sg_event g in
          match ev_body orig with
          | StartServiceEvent svc =>
              continueStart e orig svc;; modify (upd_gens (delete pid))
          | StopServiceEvent svc removeAfter => continueStop orig pid svc removeAfter
          | DependencyOnlineEvent =>
              continueOnline e orig v;; modify (upd_gens (delete pid))
          | ContinuableDependencyOfflineEvent off removeAfter deps =>
              continueOffline e orig v off removeAfter deps;; modify (upd_gens (delete pid))
          | _ => terminate
          end
      | _ => mret ()
      end;;
      mret false
  end.

(** ** Functions and broadcasts *)

(** The events of a service that is gone or not started are dropped. *)
Definition staleRun (origin : Z) (d : DM) : bool :=
  negb (origin =? 0) &&
  match dfind origin (services d) with
  | None => true
  | Some m => bool_decide (lm_state m = INSTALLED)
  end.

Definition onRunFunction (e : Event) (f : Z) : M DM bool :=
  stale ← gets (staleRun (ev_origin e));
  when (negb stale) (acts ← gets (uc_run uc f); runActions acts);;
  mret false.

Definition onRunFunctionAsync (e : Event) (f : Z) : M DM bool :=
  stale ← gets (staleRun (ev_origin e));
  if (stale : bool) then mret false
  else
    ref ← scopeShared e (ev_origin e) (ev_priority e) (uc_runAsync uc f) None;
    mret (bool_decide (is_Some ref)).

(** Does callback [cb] of a service in state [m] get event [e]. *)
Definition callbackApplies (e : Event) (cb : callback) (m : lm) : bool :=
  (bool_decide (lm_state m = ACTIVE) || bool_decide (lm_state m = INJECTING)) &&
  match cb_filter cb with None => true | Some t => t =? ev_origin e end.

Fixpoint broadcastLoop (e : Event) (l : list callback) (ref : option Z) : M DM (option Z) :=
  match l with
  | [] => mret ref
  | cb :: l' =>
      om ← findService (cb_listening cb);
      ref' ← match om with
             | Some m =>
                 if callbackApplies e cb m
                 then scopeShared e (cb_listening cb) (getPriority m) (uc_handle uc (cb_fn cb) e) ref
                 else mret ref
             | None => mret ref
             end;
      broadcastLoop e l' ref'
  end.

(** Number of registered handlers, and whether the event was moved away. *)
Definition broadcastEvent (e : Event) : M DM (Z * bool) :=
  cbs ← gets (λ d, default [] (callbacks d !! get_type e));
  ref ← broadcastLoop e cbs None;
  mret (Z.of_nat (length cbs), bool_decide (is_Some ref)).

(** ** processEvent *)

Definition handled (m : M DM bool) : M DM (Z * bool) := moved ← m; mret (1, moved).

(** The switch: number of handlers, and whether the event was moved away. *)
Definition dispatch (e : Event) : M DM (Z * bool) :=
  match ev_body e with
  | DependencyOnlineEvent => handled (onDependencyOnline e)
  | DependencyOfflineEvent r => handled (onDependencyOffline e r)
  | DependencyRequestEvent dep _ => handled (onDependencyRequest e dep)
  | QuitEvent => handled (onQuit e)
  | InsertServiceEvent mgr => handled (onInsertService e mgr)
  | StopServiceEvent svc r => handled (onStopService e svc r)
  | RemoveServiceEvent svc => handled (onRemoveService svc)
  | StartServiceEvent svc => handled (onStartService e svc)
  | RemoveEventHandlerEvent i t => handled (onRemoveEventHandler i t)
  | RemoveEventInterceptorEvent i t => handled (onRemoveEventInterceptor i t)
  | AddTrackerEvent i => handled (onAddTracker e i)
  | RemoveTrackerEvent i => handled (onRemoveTracker e i)
  | ContinuableEvent pid => handled (onContinuable pid)
  | ContinuableStartEvent pid => handled (onContinuableStart e pid)
  | RunFunctionEvent f => handled (onRunFunction e f)
  | RunFunctionEventAsync f => handled (onRunFunctionAsync e f)
  | DependencyUndoRequestEvent _ _ | DoWorkEvent
  | ContinuableDependencyOfflineEvent _ _ _ | UserEvent _ _ => broadcastEvent e
  end.

(** One group of interceptors, copied when its turn comes; whether there is
    such a group is looked up once, before the first interceptor runs. *)
Definition interceptGroup (present : bool) (key : Z) (store : list interceptor → DM → DM)
    (e : Event) (allow : bool) : M DM bool :=
  infos ← gets (λ d, if present then default [] (interceptors d !! key) else []);
  modify (store infos);;
  preIntercepts infos e allow.

Definition processEvent (e : Event) : M DM () :=
  done ← gets quitDone;
  if (done : bool) then mret ()
  else if get_type e =? 0 then terminate
  else
    all ← gets (λ d, bool_decide (is_Some (interceptors d !! 0)));
    evs ← gets (λ d, bool_decide (is_Some (interceptors d !! get_type e)));
    allow1 ← interceptGroup all 0 (λ l, upd_localAll (λ _, l)) e true;
    allow ← interceptGroup evs (get_type e) (λ l, upd_localEvt (λ _, l)) e allow1;
    r ← (if (allow : bool) then dispatch e else mret (1, false));
    all' ← gets localAll;
    postIntercepts all' e (allow && (0 <? r.1));;
    evs' ← gets localEvt;
    postIntercepts evs' e (allow && (0 <? r.1));;
    when (negb r.2) (handleEventCompletion (ev_id e)).

(** ** The rest of the manager's life *)

(** [start()], on a thread without a manager *)
Definition dm_start : M DM () := modify (upd_quitEventReceived (λ _, false)).

(** [stop()]: a last [stop()] of what is still running, without waiting. *)
Definition stopStep (svc : Z) : M DM () :=
  om ← findService svc;
  match om with
  | Some m => when (bool_decide (lm_state m = ACTIVE)) (pid ← newPromiseId; beginStop svc pid;; mret ())
  | None => mret ()
  end.
Definition dm_stop : M DM () :=
  keys ← gets (λ d, dkeys (services d));
  for_each keys stopStep;;
  modify (upd_services (λ _, [])).

Definition addInternalServiceManager (m : lm) : M DM () :=
  modify (upd_services (demplace (lm_id m) m)).
End dispatch.

(** The constructor: the manager registers itself, with service id [id] and
    interface hash [iface], as an internal service. *)
Definition new_DependencyManager (id iface : Z) : DM :=
  mkDM [(id, new_internal_manager id iface)] ∅ ∅ ∅ ∅ [] ∅ ∅ ∅ [] 0 1 (wrap64 (id + 1)) 1 1 None
    false false false [] [].
