(* ===== verification/Network.v ===== *)
(** * The service network: an abstract transition system

    What [processEvent] may do to the service table and to the suspended
    coroutines, as a step relation on the two: services move along the edges of
    the lifecycle, get linked to and unlinked from providers, are inserted and
    removed; coroutine frames are created, resumed and collected.  Each rule
    carries the guard under which the code performs it.  [net_ok] is the
    invariant of the system, proved by rule induction; Refinement.v shows that
    every event is a sequence of such steps. *)

From S2P Require Import Prelude DenseMap Register Lifecycle Heap Events Manager.
From stdpp Require Import base list gmap.
From Stdlib Require Import ZArith Lia.

Open Scope Z_scope.

(** ** The lifecycle of a service *)

(** A real service is started, injected, used, uninjected and stopped in this
    order, a failed [start()] returns it to INSTALLED; an internal one is put
    ACTIVE and taken down without the intermediate states. *)
Definition lifecycle_edge (k : lm_kind_t) (a b : ServiceState) : bool :=
  match k, a, b with
  | KInternal, (INSTALLED | UNINJECTING), ACTIVE => true
  | KInternal, UNINJECTING, INSTALLED => true
  | KInternal, ACTIVE, UNINJECTING => true
  | KInternal, _, _ => false
  | _, INSTALLED, STARTING => true
  | _, STARTING, (INJECTING | INSTALLED) => true
  | _, INJECTING, ACTIVE => true
  | _, ACTIVE, UNINJECTING => true
  | _, UNINJECTING, STOPPING => true
  | _, STOPPING, INSTALLED => true
  | _, _, _ => false
  end.

(** A history, newest state first, that begins INSTALLED and in which every
    state follows from the one before. *)
Fixpoint legal_history (k : lm_kind_t) (l : list ServiceState) : bool :=
  match l with
  | [] => false
  | [a] => bool_decide (a = INSTALLED)
  | b :: (a :: _) as l' => lifecycle_edge k a b && legal_history k l'
  end.

Definition history (m : lm) : list ServiceState := lm_state m :: lm_trace m.

Lemma legal_history_move m s :
  legal_history (lm_kind m) (history m) = true →
  lifecycle_edge (lm_kind m) (lm_state m) s = true →
  legal_history (lm_kind m) (history (set_state s m)) = true.
Proof. intros Hl He. simpl in *. by rewrite He. Qed.

(** Where internal and real services can be. *)
Lemma internal_states m :
  lm_kind m = KInternal → legal_history KInternal (history m) = true →
  lm_state m = INSTALLED ∨ lm_state m = ACTIVE ∨ lm_state m = UNINJECTING.
Proof.
  unfold history. intros _. simpl. destruct (lm_trace m) as [|a l].
  - intros ?. bool_hyps. auto.
  - intros ?. bool_hyps. destruct a, (lm_state m); simplify_eq/=; auto.
Qed.

(** ** States and steps *)

(** The coroutine of a service's own [start()] or [stop()], with the state the
    service is in while it runs. *)
Definition frame_svc (c : cont) : option (Z * ServiceState) :=
  match c with
  | CStart svc _ _ => Some (svc, STARTING)
  | CStop svc _ => Some (svc, STOPPING)
  | _ => None
  end.

Record net := mkNet {
  n_svcs : list (Z * lm);
  n_gens : gmap Z scoped_generator;
}.
Definition view (d : DM) : net := mkNet (services d) (gens d).

Definition frame_of (k : Z) (g : scoped_generator) : Prop :=
  ∃ st, frame_svc (sg_cont g) = Some (k, st).
Definition no_frame (k : Z) (G : gmap Z scoped_generator) : Prop :=
  ∀ pid g, G !! pid = Some g → ¬ frame_of k g.

(** What never changes about a service: the class of its manager, the interfaces
    it requests, the interfaces it provides. *)
Record signature := mkSig {
  sig_kind : lm_kind_t;
  sig_requests : list Z;
  sig_provides : list Z;
}.
#[export] Instance signature_eq_dec : EqDecision signature.
Proof. solve_decision. Defined.
Definition sig_of (m : lm) : signature :=
  mkSig (lm_kind m) (interfaceNameHash ∘ reg_dep <$> lm_registry m) (lm_interfaces m).

(** What all updates but links and moves leave alone. *)
Definition quiet (m m' : lm) : Prop :=
  lm_kind m' = lm_kind m ∧ lm_id m' = lm_id m ∧ lm_state m' = lm_state m ∧
  lm_trace m' = lm_trace m ∧ sig_of m' = sig_of m ∧
  lm_injected m' = lm_injected m ∧ lm_dependees m' = lm_dependees m.

Arguments sig_of : simpl never.

Lemma sig_of_set_registry m i node dep props :
  lm_registry m !! i = Some node → interfaceNameHash dep = interfaceNameHash (reg_dep node) →
  sig_of (set_registry (<[i := mkRegistration dep props]> (lm_registry m)) m) = sig_of m.
Proof.
  intros Hi Hh. unfold sig_of. f_equal. cbn [lm_registry set_registry].
  etrans; [apply (list_fmap_insert (interfaceNameHash ∘ reg_dep))|].
  apply list_insert_id. etrans; [apply list_lookup_fmap|].
  change (interfaceNameHash ∘ reg_dep <$> (lm_registry m !! i) = Some (interfaceNameHash dep)).
  rewrite Hi. simpl. by rewrite Hh.
Qed.

(** A manager fresh from its constructor. *)
Definition pristine (k : Z) (m : lm) : Prop :=
  lm_id m = k ∧ lm_state m = INSTALLED ∧ lm_trace m = [] ∧ lm_injected m = [] ∧
  lm_dependees m = [] ∧ lm_kind m ≠ KInternal.

(** [finishStop] on the table: the service leaves all its dependencies. *)
Definition leave_deps (k : Z) (deps : list Z) (S : list (Z * lm)) : list (Z * lm) :=
  fold_left (λ S a, dupdate a (λ p, set_dependees (serase k (lm_dependees p)) p) S) deps S.
Definition leave (k : Z) (m : lm) (S : list (Z * lm)) : list (Z * lm) :=
  dupdate k (set_injected []) (leave_deps k (getDependencies m) S).

Inductive net_step : net → net → Prop :=
| NQuiet S G k m m' :
    dfind k S = Some m → quiet m m' →
    net_step (mkNet S G) (mkNet (dupdate k (λ _, m') S) G)
| NMove S G k m s :
    dfind k S = Some m → lifecycle_edge (lm_kind m) (lm_state m) s = true →
    no_frame k G → (lm_dependees m = [] ∨ s = ACTIVE ∨ s = UNINJECTING) →
    net_step (mkNet S G) (mkNet (dupdate k (set_state s) S) G)
| NLink S G k a m m' p :
    dfind k S = Some m → lm_kind m = KDependency →
    quiet (set_injected (sinsert a (lm_injected m)) m) m' →
    a ≠ k → dfind a S = Some p → lm_state p = ACTIVE →
    net_step (mkNet S G) (mkNet (dupdate a (insertSelfInto k) (dupdate k (λ _, m') S)) G)
| NSelf S G k m m' :
    dfind k S = Some m → lm_kind m = KDependency →
    quiet (set_injected (sinsert SELF_SERVICE_ID (lm_injected m)) m) m' →
    net_step (mkNet S G) (mkNet (dupdate k (λ _, m') S) G)
| NUnlink S G k a m m' p p' :
    dfind k S = Some m → dfind a S = Some p → a ≠ k →
    quiet (set_injected (serase a (lm_injected m)) m) m' →
    quiet (set_dependees (serase k (lm_dependees p)) p) p' →
    net_step (mkNet S G) (mkNet (dupdate a (λ _, p') (dupdate k (λ _, m') S)) G)
| NLeave S G k m :
    dfind k S = Some m → lm_state m = INSTALLED →
    net_step (mkNet S G) (mkNet (leave k m S) G)
| NInsert S G k m :
    dfind k S = None → pristine k m → net_step (mkNet S G) (mkNet (demplace k m S) G)
| NRemove S G k m :
    dfind k S = Some m → lm_state m = INSTALLED → lm_dependees m = [] → getDependencies m = [] →
    net_step (mkNet S G) (mkNet (derase k S) G)
| NQuit S G :
    G = ∅ → Forall (λ p, isInternalManager p.2 = true ∨ lm_state p.2 = INSTALLED) S →
    net_step (mkNet S G) (mkNet [] G)
| NScope S G pid g :
    G !! pid = None →
    (∀ k st, frame_svc (sg_cont g) = Some (k, st) →
       no_frame k G ∧ ∃ m, dfind k S = Some m ∧ lm_state m = st) →
    net_step (mkNet S G) (mkNet S (<[pid := g]> G))
| NFrame S G pid g c :
    G !! pid = Some g → frame_svc c = frame_svc (sg_cont g) ∨ frame_svc c = None →
    net_step (mkNet S G) (mkNet S (alter (set_cont c) pid G))
| NCollect S G pid : net_step (mkNet S G) (mkNet S (delete pid G)).

(** ** The invariant *)

Record lm_ok (k : Z) (m : lm) : Prop := {
  ok_id : lm_id m = k;
  ok_injected : NoDup (lm_injected m);
  ok_dependees : NoDup (lm_dependees m);
  ok_kind : lm_kind m ≠ KDependency → lm_injected m = [];
  ok_history : legal_history (lm_kind m) (history m) = true;
  ok_live : lm_dependees m ≠ [] → lm_state m = ACTIVE ∨ lm_state m = UNINJECTING;
}.

Record table_ok (S : list (Z * lm)) : Prop := {
  tab_wf : dwf S;
  tab_lm : ∀ k m, dfind k S = Some m → lm_ok k m;
  (* an injected provider is in the table and knows its consumer *)
  tab_injected : ∀ k m a, dfind k S = Some m → a ∈ lm_injected m →
    a = SELF_SERVICE_ID ∨ ∃ p, dfind a S = Some p ∧ k ∈ lm_dependees p;
  (* a dependee is in the table and has the provider injected *)
  tab_dependees : ∀ a p k, dfind a S = Some p → k ∈ lm_dependees p →
    k ≠ a ∧ ∃ m, dfind k S = Some m ∧ a ∈ lm_injected m;
}.

Record frames_ok (S : list (Z * lm)) (G : gmap Z scoped_generator) : Prop := {
  (* a frame of start()/stop() belongs to a service in that state *)
  frm_state : ∀ pid g k st, G !! pid = Some g → frame_svc (sg_cont g) = Some (k, st) →
    ∃ m, dfind k S = Some m ∧ lm_state m = st;
  (* and a service has one of them at most *)
  frm_unique : ∀ pid pid' g g' k, G !! pid = Some g → G !! pid' = Some g' →
    frame_of k g → frame_of k g' → pid = pid';
}.

Definition net_ok (n : net) : Prop := table_ok (n_svcs n) ∧ frames_ok (n_svcs n) (n_gens n).

(** ** Preservation: the service table *)

Ltac dlookup :=
  repeat match goal with
  | H : context [dfind _ (dupdate _ _ _)] |- _ => rewrite dfind_dupdate in H
  | |- context [dfind _ (dupdate _ _ _)] => rewrite dfind_dupdate
  | H : context [decide (?a = ?b)] |- _ => destruct (decide (a = b)); simplify_eq/=
  | |- context [decide (?a = ?b)] => destruct (decide (a = b)); simplify_eq/=
  | H : dfind ?k ?S = Some _, H' : _ <$> dfind ?k ?S = Some _ |- _ => rewrite H in H'; simplify_eq/=
  | H : dfind ?k ?S = Some _ |- context [_ <$> dfind ?k ?S] => rewrite H; simpl
  end.

Lemma dupdate_const (k : Z) (f : lm → lm) m S :
  dfind k S = Some m → dupdate k f S = dupdate k (λ _, f m) S.
Proof.
  induction S as [|[k' v] S IH]; simpl; [done|]. case_decide; intros; simplify_eq; [done|].
  by rewrite IH.
Qed.

(** One service changed, its links kept (up to the pseudo-provider). *)
Lemma table_ok_update S k m m' :
  table_ok S → dfind k S = Some m → lm_ok k m' →
  (∀ x, x ∈ lm_injected m → x ∈ lm_injected m') →
  (∀ x, x ∈ lm_injected m' → x ∈ lm_injected m ∨ x = SELF_SERVICE_ID) →
  lm_dependees m' = lm_dependees m →
  table_ok (dupdate k (λ _, m') S).
Proof.
  intros [Hwf Hlm Hin Hde] Hk Hok H1 H2 H3. split.
  - auto with ichor.
  - intros x mx Hx. dlookup; auto.
  - intros x mx a Hx Ha.
    assert (a = SELF_SERVICE_ID ∨ ∃ m0, dfind x S = Some m0 ∧ a ∈ lm_injected m0)
      as [|(m0 & Hx0 & Ha0)]; [dlookup; naive_solver|auto|].
    destruct (Hin _ _ _ Hx0 Ha0) as [|(p & Hp & ?)]; [auto|right]. clear Hx.
    dlookup; [exists m'; rewrite H3; naive_solver|eauto].
  - intros a p x Ha Hx.
    assert (∃ p0, dfind a S = Some p0 ∧ x ∈ lm_dependees p0) as (p0 & Ha0 & Hx0).
    { dlookup; [exists m; by rewrite <- H3|eauto]. }
    destruct (Hde _ _ _ Ha0 Hx0) as [? (mx & ? & ?)]. clear Ha. split; [done|].
    dlookup; naive_solver.
Qed.

(** A consumer [k] and a provider [a] changed together. *)
Lemma table_ok_update2 S k a m m' p p' :
  table_ok S → dfind k S = Some m → dfind a S = Some p → a ≠ k → lm_ok k m' → lm_ok a p' →
  (∀ x, x ≠ a → x ∈ lm_injected m' ↔ x ∈ lm_injected m) →
  (∀ x, x ≠ k → x ∈ lm_dependees p' ↔ x ∈ lm_dependees p) →
  (a ∈ lm_injected m' ↔ k ∈ lm_dependees p') →
  lm_dependees m' = lm_dependees m → lm_injected p' = lm_injected p →
  table_ok (dupdate a (λ _, p') (dupdate k (λ _, m') S)).
Proof.
  intros [Hwf Hlm Hin Hde] Hk Ha Hak Hokm Hokp Hi Hd Hlink Hdm Hip. split.
  - auto with ichor.
  - intros x mx Hx. dlookup; auto.
  - intros x mx b Hx Hb. destruct (decide (x = k ∧ b = a)) as [[-> ->]|Hne].
    + right. dlookup. exists p'. naive_solver.
    + assert (∃ m0, dfind x S = Some m0 ∧ b ∈ lm_injected m0) as (m0 & Hx0 & Hb0).
      { dlookup; [exists p; by rewrite <- Hip|exists m; rewrite <- Hi by naive_solver; done|eauto]. }
      destruct (Hin _ _ _ Hx0 Hb0) as [|(q & Hq & Hxq)]; [auto|right]. clear Hx.
      dlookup; [exists p'; rewrite Hd; naive_solver|exists m'; rewrite Hdm; naive_solver|eauto].
  - intros b q x Hb Hx. destruct (decide (b = a ∧ x = k)) as [[-> ->]|Hne].
    + dlookup. naive_solver.
    + assert (∃ q0, dfind b S = Some q0 ∧ x ∈ lm_dependees q0) as (q0 & Hb0 & Hx0).
      { dlookup; [exists p; rewrite <- Hd by naive_solver; done|exists m; by rewrite <- Hdm|eauto]. }
      destruct (Hde _ _ _ Hb0 Hx0) as [? (m0 & Hm0 & Hbm)]. split; [done|]. clear Hb.
      dlookup; [exists p'; rewrite Hip; naive_solver|exists m'; rewrite Hi; naive_solver|eauto].
Qed.

(** A service gone from all its dependencies. *)
Lemma dfind_leave_deps k deps S x :
  NoDup deps →
  dfind x (leave_deps k deps S) =
  (λ p, if decide (x ∈ deps) then set_dependees (serase k (lm_dependees p)) p else p) <$> dfind x S.
Proof.
  unfold leave_deps. revert S. induction deps as [|a deps IH]; intros S Hnd; simpl.
  - destruct (dfind x S); done.
  - apply NoDup_cons in Hnd as [Ha Hnd]. rewrite IH, dfind_dupdate by done.
    destruct (decide (x = a)) as [->|]; destruct (dfind _ S); simpl; [|done| |done].
    + by rewrite decide_False, decide_True by set_solver.
    + f_equal. do 2 case_decide; set_solver.
Qed.

Lemma dkeys_leave_deps k deps S : dkeys (leave_deps k deps S) = dkeys S.
Proof.
  unfold leave_deps. revert S. induction deps as [|a deps IH]; intros S; simpl; [done|].
  by rewrite IH, dkeys_dupdate.
Qed.

(** What a service looks like after [k] has left. *)
Definition left_by (k : Z) (m : lm) (x : Z) (p : lm) : lm :=
  let p1 := if decide (x ∈ getDependencies m)
            then set_dependees (serase k (lm_dependees p)) p else p in
  if decide (x = k) then set_injected [] p1 else p1.

Lemma dfind_leave k m S x :
  NoDup (getDependencies m) → dfind x (leave k m S) = left_by k m x <$> dfind x S.
Proof.
  intros. unfold leave, left_by. rewrite dfind_dupdate, dfind_leave_deps by done.
  destruct (dfind x S); repeat case_decide; done.
Qed.

Lemma getDependencies_injected k m : lm_ok k m → getDependencies m = lm_injected m.
Proof. intros []. unfold getDependencies. destruct (lm_kind m) eqn:E; [done|by rewrite ok_kind0..]. Qed.

Lemma left_by_spec k m x p :
  NoDup (lm_dependees p) →
  lm_state (left_by k m x p) = lm_state p ∧ lm_trace (left_by k m x p) = lm_trace p ∧
  lm_kind (left_by k m x p) = lm_kind p ∧ lm_id (left_by k m x p) = lm_id p ∧
  lm_injected (left_by k m x p) = (if decide (x = k) then [] else lm_injected p) ∧
  NoDup (lm_dependees (left_by k m x p)) ∧
  (∀ b, b ∈ lm_dependees (left_by k m x p) ↔
        b ∈ lm_dependees p ∧ (x ∈ getDependencies m → b ≠ k)).
Proof.
  intros Hnd. pose proof (NoDup_serase k _ Hnd). pose proof (λ b, elem_of_serase k b _ Hnd).
  unfold left_by. repeat case_decide; simpl; naive_solver.
Qed.

Lemma table_ok_leave S k m : table_ok S → dfind k S = Some m → table_ok (leave k m S).
Proof.
  intros [Hwf Hlm Hin Hde] Hk. pose proof (Hlm _ _ Hk) as Hokm.
  assert (NoDup (getDependencies m)) as Hnd
    by (erewrite getDependencies_injected by done; apply Hokm).
  split.
  - unfold dwf, leave. rewrite dkeys_dupdate, dkeys_leave_deps. done.
  - intros x mx. rewrite dfind_leave by done. destruct (dfind x S) as [p|] eqn:Hx; [|done].
    intros [= <-]. destruct (Hlm _ _ Hx) as [? ? Hd ? Hh ?].
    destruct (left_by_spec k m x p Hd) as (Es & Et & Ek & Ei & Eij & ? & Hb).
    split; rewrite ?Ek, ?Ei, ?Eij; [done|case_decide; [constructor|done]|done|case_decide; auto| |].
    + unfold history. rewrite Es, Et. done.
    + rewrite Es. intros Hne. assert (lm_dependees p ≠ []) as Hne'; [|by auto].
      intros E. destruct (lm_dependees (left_by k m x p)) as [|b l]; [done|].
      assert (b ∈ lm_dependees p) by (apply Hb; set_solver). rewrite E in *. set_solver.
  - intros x mx a. rewrite dfind_leave by done. destruct (dfind x S) as [p|] eqn:Hx; [|done].
    intros [= <-]. destruct (left_by_spec k m x p) as (_ & _ & _ & _ & -> & _); [apply (Hlm _ _ Hx)|].
    case_decide; [set_solver|]. intros Ha.
    destruct (Hin _ _ _ Hx Ha) as [|(q & Hq & ?)]; [auto|right].
    rewrite dfind_leave, Hq by done. eexists; split; [done|].
    apply left_by_spec; [apply (Hlm _ _ Hq)|]. naive_solver.
  - intros a q x. rewrite dfind_leave by done. destruct (dfind a S) as [p|] eqn:Ha; [|done].
    intros [= <-]. destruct (left_by_spec k m a p) as (_ & _ & _ & _ & _ & _ & Hb); [apply (Hlm _ _ Ha)|].
    intros [Hx Hxk]%Hb. destruct (Hde _ _ _ Ha Hx) as [? (mx & Hmx & Hinj)]. split; [done|].
    rewrite dfind_leave, Hmx by done. eexists; split; [done|].
    destruct (left_by_spec k m x mx) as (_ & _ & _ & _ & -> & _); [apply (Hlm _ _ Hmx)|].
    rewrite decide_False; [done|]. intros ->. rewrite Hk in Hmx. simplify_eq.
    erewrite getDependencies_injected in Hxk by done. naive_solver.
Qed.

Lemma pristine_ok k m : pristine k m → lm_ok k m.
Proof.
  intros (? & Hs & Ht & Hi & Hd & ?). split; rewrite ?Hi, ?Hd; try done; try constructor.
  unfold history. rewrite Hs, Ht. done.
Qed.

Lemma table_ok_add S k m :
  table_ok S → dfind k S = None → lm_ok k m → lm_injected m = [] → lm_dependees m = [] →
  table_ok (demplace k m S).
Proof.
  intros [Hwf Hlm Hin Hde] Hk Hm Hi Hd.
  assert (∀ x mx, dfind x (demplace k m S) = Some mx → dfind x S = Some mx ∨ x = k ∧ mx = m) as Hl.
  { intros x mx. rewrite dfind_demplace. destruct (dfind x S); [naive_solver|]. case_decide; naive_solver. }
  assert (∀ x mx, dfind x S = Some mx → dfind x (demplace k m S) = Some mx) as Hr.
  { intros x mx Hx. rewrite dfind_demplace, Hx. done. }
  split.
  - auto with ichor.
  - intros x mx [?|[-> ->]]%Hl; eauto.
  - intros x mx a [Hx|[-> ->]]%Hl Ha; [|rewrite Hi in Ha; set_solver].
    destruct (Hin _ _ _ Hx Ha) as [|(p & Hp & ?)]; naive_solver.
  - intros a p x [Hx|[-> ->]]%Hl Ha; [|rewrite Hd in Ha; set_solver].
    destruct (Hde _ _ _ Hx Ha) as [? (mx & ? & ?)]. naive_solver.
Qed.

Lemma table_ok_insert S k m :
  table_ok S → dfind k S = None → pristine k m → table_ok (demplace k m S).
Proof.
  intros Ht Hk Hm. pose proof Hm as (_ & _ & _ & Hi & Hd & _).
  apply table_ok_add; [done|done|by apply pristine_ok|done|done].
Qed.

Lemma table_ok_remove S k m :
  table_ok S → dfind k S = Some m → lm_dependees m = [] → getDependencies m = [] →
  table_ok (derase k S).
Proof.
  intros [Hwf Hlm Hin Hde] Hk Hd Hi. erewrite getDependencies_injected in Hi by eauto. split.
  - auto with ichor.
  - intros x mx. rewrite dfind_derase by done. case_decide; [done|eauto].
  - intros x mx a. rewrite dfind_derase by done. case_decide; [done|]. intros Hx Ha.
    destruct (Hin _ _ _ Hx Ha) as [|(p & Hp & ?)]; [auto|right]. exists p.
    rewrite dfind_derase, decide_False; [done| |done]. intros ->. simplify_eq. rewrite Hd in *. set_solver.
  - intros a p x. rewrite dfind_derase by done. case_decide; [done|]. intros Ha Hx.
    destruct (Hde _ _ _ Ha Hx) as [? (mx & Hmx & ?)]. split; [done|]. exists mx.
    rewrite dfind_derase, decide_False; [done| |done]. intros ->. simplify_eq. rewrite Hi in *. set_solver.
Qed.

(** ** Preservation: the coroutine frames *)

Lemma frames_ok_services S S' G :
  frames_ok S G →
  (∀ k m, dfind k S = Some m → no_frame k G ∨ ∃ m', dfind k S' = Some m' ∧ lm_state m' = lm_state m) →
  frames_ok S' G.
Proof.
  intros [Hst Hun] Hk. split; [|done]. intros pid g k st Hg Hc.
  destruct (Hst _ _ _ _ Hg Hc) as (m & Hm & <-). destruct (Hk _ _ Hm) as [Hn|]; [|done].
  destruct (Hn _ _ Hg). by exists (lm_state m).
Qed.

Lemma no_frame_state S G k m :
  frames_ok S G → dfind k S = Some m → lm_state m ≠ STARTING → lm_state m ≠ STOPPING → no_frame k G.
Proof.
  intros [Hst _] Hm H1 H2 pid g Hg [st Hf]. destruct (Hst _ _ _ _ Hg Hf) as (m' & ? & ?).
  destruct (sg_cont g); simplify_eq/=.
Qed.

Lemma no_frame_gone S G k : frames_ok S G → dfind k S = None → no_frame k G.
Proof.
  intros [Hst _] Hm pid g Hg [st Hf]. destruct (Hst _ _ _ _ Hg Hf) as (m' & ? & ?). congruence.
Qed.

(** Frames inherited from a set of frames, with other ids or dropped. *)
Lemma frames_ok_sub S G G' :
  frames_ok S G →
  (∀ pid g' k st, G' !! pid = Some g' → frame_svc (sg_cont g') = Some (k, st) →
     ∃ g, G !! pid = Some g ∧ frame_svc (sg_cont g) = Some (k, st)) →
  frames_ok S G'.
Proof.
  intros [Hst Hun] Hsub. split.
  - intros pid g' k st Hg Hf. destruct (Hsub _ _ _ _ Hg Hf) as (g & ? & ?). eauto.
  - intros pid pid' g g' k Hg Hg' [st Hf] [st' Hf'].
    destruct (Hsub _ _ _ _ Hg Hf) as (h & ? & ?), (Hsub _ _ _ _ Hg' Hf') as (h' & ? & ?).
    eapply (Hun pid pid'); unfold frame_of; eauto.
Qed.

Lemma frames_ok_scope S G pid g :
  frames_ok S G → G !! pid = None →
  (∀ k st, frame_svc (sg_cont g) = Some (k, st) →
     no_frame k G ∧ ∃ m, dfind k S = Some m ∧ lm_state m = st) →
  frames_ok S (<[pid := g]> G).
Proof.
  intros [Hst Hun] Hpid Hg. split.
  - intros q h k st [[<- <-]|[? Hq]]%lookup_insert_Some Hf; [by apply Hg|eauto].
  - intros q q' h h' k Hq Hq' [st Hf] [st' Hf'].
    apply lookup_insert_Some in Hq as [[<- <-]|[? Hq]], Hq' as [[<- <-]|[? Hq']]; [done| | |].
    + destruct (Hg _ _ Hf) as [Hn _]. destruct (Hn _ _ Hq'). by eexists.
    + destruct (Hg _ _ Hf') as [Hn _]. destruct (Hn _ _ Hq). by eexists.
    + eapply Hun; unfold frame_of; eauto.
Qed.

(** ** The invariant is inductive *)

Lemma quiet_ok k m m' : quiet m m' → lm_ok k m → lm_ok k m'.
Proof.
  intros (Hk & Hi & Hs & Ht & _ & Hj & Hd) [].
  split; unfold history in *; rewrite ?Hk, ?Hi, ?Hs, ?Ht, ?Hj, ?Hd; done.
Qed.

Lemma lm_ok_injected k m l :
  lm_ok k m → lm_kind m = KDependency → NoDup l → lm_ok k (set_injected l m).
Proof. intros [] ??. split; simpl; done. Qed.

Lemma lm_ok_erase k m l :
  lm_ok k m → NoDup l → (∀ x, x ∈ l → x ∈ lm_injected m) → lm_ok k (set_injected l m).
Proof.
  intros [] ? Hl. split; simpl; try done. intros Hk. rewrite ok_kind0 in Hl by done.
  destruct l as [|x l]; [done|]. exfalso. specialize (Hl x). set_solver.
Qed.

Lemma lm_ok_dependees k m l :
  lm_ok k m → NoDup l → (l ≠ [] → lm_state m = ACTIVE ∨ lm_state m = UNINJECTING) →
  lm_ok k (set_dependees l m).
Proof. intros [] ??. split; simpl; done. Qed.

Lemma table_ok_link S k a m m' p :
  table_ok S → dfind k S = Some m → lm_kind m = KDependency →
  quiet (set_injected (sinsert a (lm_injected m)) m) m' →
  a ≠ k → dfind a S = Some p → lm_state p = ACTIVE →
  table_ok (dupdate a (insertSelfInto k) (dupdate k (λ _, m') S)).
Proof.
  intros Ht Hk Hkd Hq Hne Ha Hact.
  pose proof (tab_lm _ Ht _ _ Hk) as Hm. pose proof (tab_lm _ Ht _ _ Ha) as Hp.
  erewrite (dupdate_const a _ p) by (rewrite dfind_dupdate, decide_False; done).
  pose proof Hq as (_&_&_&_&_&Hi&Hd); simpl in Hi, Hd.
  eapply (table_ok_update2 S k a m m' p); [done..| | | | | |done|done].
  - eapply quiet_ok; [done|]. apply lm_ok_injected; [done..|]. apply NoDup_sinsert, Hm.
  - apply lm_ok_dependees; [done|apply NoDup_sinsert, Hp|auto].
  - intros x ?. rewrite Hi, elem_of_sinsert. naive_solver.
  - intros x ?. simpl. rewrite elem_of_sinsert. naive_solver.
  - simpl. rewrite Hi, !elem_of_sinsert. naive_solver.
Qed.

Lemma table_ok_unlink S k a m m' p p' :
  table_ok S → dfind k S = Some m → dfind a S = Some p → a ≠ k →
  quiet (set_injected (serase a (lm_injected m)) m) m' →
  quiet (set_dependees (serase k (lm_dependees p)) p) p' →
  table_ok (dupdate a (λ _, p') (dupdate k (λ _, m') S)).
Proof.
  intros Ht Hk Ha Hne Hq Hq'.
  pose proof (tab_lm _ Ht _ _ Hk) as Hm. pose proof (tab_lm _ Ht _ _ Ha) as Hp.
  pose proof (ok_injected _ _ Hm) as Hnm. pose proof (ok_dependees _ _ Hp) as Hnp.
  pose proof Hq as (_&_&_&_&_&Hi&Hd); pose proof Hq' as (_&_&_&_&_&Hi'&Hd'); simpl in *.
  eapply (table_ok_update2 S k a m m' p); [done..| | | | | |done|done].
  - eapply quiet_ok; [done|]. apply lm_ok_erase; [done|by apply NoDup_serase|].
    intros x. rewrite elem_of_serase by done. tauto.
  - eapply quiet_ok; [done|]. apply lm_ok_dependees; [done|by apply NoDup_serase|].
    intros Hx. apply (ok_live _ _ Hp). intros E. rewrite E in Hx. done.
  - intros x ?. rewrite Hi, elem_of_serase by done. naive_solver.
  - intros x ?. rewrite Hd', elem_of_serase by done. naive_solver.
  - rewrite Hi, Hd', !elem_of_serase by done. naive_solver.
Qed.

Lemma table_ok_step n n' : net_step n n' → net_ok n → table_ok (n_svcs n').
Proof.
  intros Hs [Ht _]. destruct Hs as
    [S G k m m' Hk Hq|S G k m s Hk He Hn Hd|S G k a m m' p Hk Hkd Hq Hne Ha Hact|S G k m m' Hk Hkd Hq
    |S G k a m m' p p' Hk Ha Hne Hq Hq'|S G k m Hk Hi|S G k m Hk Hp|S G k m Hk Hi Hd Hdep|S G HG HS
    |S G pid g Hpid Hg|S G pid g c Hg Hc|S G pid]; simpl in *; try done.
  - eapply table_ok_update; [done..|eapply quiet_ok, tab_lm; eauto| | |];
      destruct Hq as (_&_&_&_&_&Hi&Hd); rewrite ?Hi, ?Hd; auto.
  - erewrite dupdate_const by done. eapply table_ok_update; [done..| |auto|auto|done].
    destruct (tab_lm _ Ht _ _ Hk). split; simpl; try done; [by apply legal_history_move|naive_solver].
  - by eapply table_ok_link.
  - pose proof Hq as (_&_&_&_&_&Hi&Hd); simpl in Hi, Hd.
    eapply table_ok_update; [done..| | | |done].
    + eapply quiet_ok; [done|]. apply lm_ok_injected; [by eapply tab_lm|done|].
      by eapply NoDup_sinsert, ok_injected, tab_lm.
    + intros x. rewrite Hi, elem_of_sinsert. auto.
    + intros x. rewrite Hi, elem_of_sinsert. naive_solver.
  - by eapply table_ok_unlink.
  - by eapply table_ok_leave.
  - by apply table_ok_insert.
  - by eapply table_ok_remove.
  - split; [apply dwf_nil|done..].
Qed.

(** Every service keeps its state, unless no frame speaks of it. *)
Lemma frames_ok_step n n' : net_step n n' → net_ok n → frames_ok (n_svcs n') (n_gens n').
Proof.
  intros Hs [Ht Hf]. destruct Hs as
    [S G k m m' Hk Hq|S G k m s Hk He Hn Hd|S G k a m m' p Hk Hkd Hq Hne Ha Hact|S G k m m' Hk Hkd Hq
    |S G k a m m' p p' Hk Ha Hne Hq Hq'|S G k m Hk Hi|S G k m Hk Hp|S G k m Hk Hi Hd Hdep|S G HG HS
    |S G pid g Hpid Hg|S G pid g c Hg Hc|S G pid]; simpl in *;
    try (eapply frames_ok_services; [done|]; intros x mx Hx).
  - right. destruct Hq as (_&_&?&_). dlookup; eauto.
  - destruct (decide (x = k)) as [->|]; [auto|right]. dlookup; eauto.
  - right. destruct Hq as (_&_&?&_). dlookup; eauto.
  - right. destruct Hq as (_&_&?&_). dlookup; eauto.
  - right. destruct Hq as (_&_&?&_), Hq' as (_&_&?&_). dlookup; eauto.
  - right. pose proof (tab_lm _ Ht _ _ Hk) as Hm. rewrite dfind_leave, Hx.
    + eexists; split; [done|]. by apply left_by_spec, (tab_lm _ Ht _ _ Hx).
    + erewrite getDependencies_injected by done. apply Hm.
  - right. rewrite dfind_demplace, Hx. eauto.
  - destruct (decide (x = k)) as [->|]; [left|right].
    + eapply no_frame_state; [done..| |]; congruence.
    + rewrite dfind_derase, decide_False; [eauto|done|apply Ht].
  - left. subst. intros pid g. by rewrite lookup_empty.
  - by apply frames_ok_scope.
  - eapply frames_ok_sub; [done|]. intros q g' k st Hq Hfr.
    apply lookup_alter_Some in Hq as [(-> & h & Hh & ->)|[? Hq]]; [|eauto].
    simplify_eq. simpl in Hfr. destruct Hc as [Hc|Hc]; [|congruence]. rewrite Hc in Hfr. eauto.
  - eapply frames_ok_sub; [done|]. intros q g' k st [_ Hq]%lookup_delete_Some. eauto.
Qed.

Lemma net_ok_step n n' : net_step n n' → net_ok n → net_ok n'.
Proof. intros Hs Hn. split; [by eapply table_ok_step|by eapply frames_ok_step]. Qed.

Lemma net_ok_steps n n' : rtc net_step n n' → net_ok n → net_ok n'.
Proof. induction 1; eauto using net_ok_step. Qed.

(** The network of a new manager. *)
Lemma new_internal_ok k iface : lm_ok k (new_internal_manager k iface).
Proof. split; simpl; try done; constructor. Qed.

Lemma table_ok_nil : table_ok [].
Proof. split; [apply dwf_nil|done..]. Qed.

Lemma frames_ok_none S : frames_ok S ∅.
Proof. split; intros *; rewrite lookup_empty; done. Qed.
