(* ===== verification/Refinement.v ===== *)
(** * The manager refines the service network

    Every call of the dependency manager is a sequence of network steps
    (Network.v) that keeps the invariant of the network.  The proofs follow the
    calls from the inside out: service code, which cannot touch the table; the
    coroutine frames; the handlers of Dispatch.v. *)

From S2P Require Import Prelude DenseMap Register Lifecycle Heap Events Manager Dispatch Network.
From stdpp Require Import base list gmap.
From Stdlib Require Import ZArith Lia.

Open Scope Z_scope.

(** ** Calls that do not touch the network *)

Definition untouched (d d' : DM) : Prop :=
  services d' = services d ∧ gens d' = gens d ∧ pendingDependencies d' = pendingDependencies d.

#[export] Instance untouched_preorder : PreOrder untouched.
Proof. split; [done|]. intros d1 d2 d3 (?&?&?) (?&?&?). unfold untouched. split_and!; congruence. Qed.

Lemma untouched_view d d' : untouched d d' → view d' = view d.
Proof. intros (H1 & H2 & _). unfold view. by rewrite H1, H2. Qed.

Section silent.
Context (qpush : list Event → Event → list Event) (uc : UserCode).

Lemma push_silent origin priority b : pres untouched (Manager.push qpush origin priority b).
Proof. intros d. done. Qed.
Lemma pushPrioritisedEvent_silent origin priority b :
  pres untouched (pushPrioritisedEvent qpush origin priority b).
Proof. intros d. done. Qed.
Lemma getNextEventId_silent : pres untouched getNextEventId.
Proof. intros d. done. Qed.
Lemma newPromiseId_silent : pres untouched newPromiseId.
Proof. intros d. done. Qed.
Lemma newRef_silent : pres untouched newRef.
Proof. intros d. done. Qed.
Lemma findService_silent id : pres untouched (findService id).
Proof. intros d. done. Qed.
Lemma liftOutcome_silent {A} (o : outcome A) : pres untouched (liftOutcome o).
Proof. unfold liftOutcome. pres_auto. Qed.
Hint Resolve push_silent pushPrioritisedEvent_silent getNextEventId_silent newPromiseId_silent
  newRef_silent findService_silent liftOutcome_silent : ichor_pres.

Lemma runAction_silent a : pres untouched (runAction qpush a).
Proof.
  destruct a; simpl; unfold registerEventHandler, registerEventInterceptor,
    registerDependencyTracker, internalCreateServiceManager; pres_auto.
Qed.
Hint Resolve runAction_silent : ichor_pres.
Lemma runActions_silent l : pres untouched (runActions qpush l).
Proof. unfold runActions. pres_auto. Qed.
Hint Resolve runActions_silent : ichor_pres.

Lemma waitForService_silent pid svc ty : pres untouched (waitForService pid svc ty).
Proof. unfold waitForService. pres_auto. Qed.
Lemma pushPrioritisedEventAsync_silent pid origin priority coalesce b :
  pres untouched (pushPrioritisedEventAsync qpush pid origin priority coalesce b).
Proof. unfold pushPrioritisedEventAsync. pres_auto. Qed.
Hint Resolve waitForService_silent pushPrioritisedEventAsync_silent : ichor_pres.

Lemma runUser_silent {R} pid (k : ucoro R) : pres untouched (runUser qpush pid k).
Proof. induction k; simpl; pres_auto. Qed.
Hint Resolve runUser_silent : ichor_pres.
Lemma runGen_silent svc priority pid g : pres untouched (runGen qpush svc priority pid g).
Proof. destruct g; simpl; pres_auto. Qed.
Hint Resolve runGen_silent : ichor_pres.
Lemma beginCallback_silent svc prio g : pres untouched (beginCallback qpush svc prio g).
Proof. unfold beginCallback. pres_auto. Qed.
Lemma clearServiceRegistrations_silent svc : pres untouched (clearServiceRegistrations svc).
Proof. unfold clearServiceRegistrations. pres_auto. Qed.
Lemma preIntercepts_silent infos e allow : pres untouched (preIntercepts qpush uc infos e allow).
Proof.
  unfold preIntercepts. generalize (pres_ret untouched allow). generalize (mret allow : M DM bool).
  induction infos as [|i infos IH]; simpl; [done|]. intros m Hm. apply IH. pres_auto.
Qed.
Lemma postIntercepts_silent infos e p : pres untouched (postIntercepts qpush uc infos e p).
Proof. unfold postIntercepts. pres_auto. Qed.
End silent.

#[export] Hint Resolve push_silent pushPrioritisedEvent_silent getNextEventId_silent newPromiseId_silent
  newRef_silent findService_silent liftOutcome_silent runAction_silent runActions_silent
  waitForService_silent pushPrioritisedEventAsync_silent runUser_silent runGen_silent
  beginCallback_silent clearServiceRegistrations_silent preIntercepts_silent postIntercepts_silent
  : ichor_pres.

(** ** The invariant of the manager *)

Section invariant.
(** The signatures of the services, by id. *)
Context (Γ : Z → signature).

(** Consumer [k] uses provider [a] through its registrations [deps]. *)
Definition static_edge (k a : Z) (deps : list nat) : Prop :=
  k ≠ a ∧ deps ≠ [] ∧
  Forall (λ i, ∃ h, sig_requests (Γ k) !! i = Some h ∧ h ∈ sig_provides (Γ a)) deps.

(** Services keep their signatures, and whatever the manager has stored about
    dependencies going offline speaks of such edges. *)
Definition event_static (e : Event) : Prop :=
  match ev_body e with
  | ContinuableDependencyOfflineEvent off _ deps => static_edge (ev_origin e) off deps
  | _ => True
  end.
Record static (d : DM) : Prop := {
  st_sig : ∀ k m, dfind k (services d) = Some m → sig_of m = Γ k;
  st_pend : ∀ k ws, pendingDependencies d !! k = Some ws →
    Forall (λ w, static_edge k (ws_origin w) (ws_deps w)) ws;
  st_gens : ∀ pid g, gens d !! pid = Some g → event_static (sg_event g);
}.

Definition Inv (d : DM) : Prop := net_ok (view d) ∧ static d.

(** A service without a running [start()] or [stop()] is left as it is. *)
Definition keeps (k : Z) (n n' : net) : Prop :=
  ∀ m, dfind k (n_svcs n) = Some m → no_frame k (n_gens n) →
    (∃ m', dfind k (n_svcs n') = Some m' ∧ quiet m m') ∧ no_frame k (n_gens n').

Definition refines (d d' : DM) : Prop := Inv d → Inv d' ∧ rtc net_step (view d) (view d').
Definition evolves (d d' : DM) : Prop :=
  Inv d → (Inv d' ∧ rtc net_step (view d) (view d')) ∧ ∀ k, keeps k (view d) (view d').

#[export] Instance quiet_preorder : PreOrder quiet.
Proof.
  split; [done|]. intros m1 m2 m3 (?&?&?&?&?&?&?) (?&?&?&?&?&?&?). unfold quiet.
  split_and!; congruence.
Qed.

#[export] Instance refines_preorder : PreOrder refines.
Proof.
  split; [by split|]. intros d1 d2 d3 H1 H2 Hi. destruct (H1 Hi) as [Hi2 ?].
  destruct (H2 Hi2) as [Hi3 ?]. split; [done|]. by etransitivity.
Qed.

#[export] Instance evolves_preorder : PreOrder evolves.
Proof.
  split.
  - intros d Hi. split; [by split|]. intros k m Hm Hn. split; [by exists m|done].
  - intros d1 d2 d3 H1 H2 Hi. destruct (H1 Hi) as [[Hi2 R1] K1], (H2 Hi2) as [[Hi3 R2] K2].
    split; [split; [done|by etransitivity]|]. intros k m Hm Hn.
    destruct (K1 k m Hm Hn) as [(m2 & Hm2 & ?) Hn2], (K2 k m2 Hm2 Hn2) as [(m3 & ? & ?) ?].
    split; [|done]. exists m3. split; [done|]. by etransitivity.
Qed.

Lemma evolves_refines d d' : evolves d d' → refines d d'.
Proof. intros He Hi. by apply He. Qed.

Lemma untouched_evolves d d' : untouched d d' → evolves d d'.
Proof.
  intros Hu. pose proof (untouched_view _ _ Hu) as Hv. destruct Hu as (Hs & Hg & Hp).
  intros [Hn [H1 H2 H3]]. unfold Inv. rewrite Hv. split_and!; [done| |done|].
  - split; rewrite ?Hs, ?Hg, ?Hp; done.
  - intros k m Hm Hnf. split; [by exists m|done].
Qed.

Lemma silent_evolves {A} (m : M DM A) : pres untouched m → pres evolves m.
Proof. intros Hm d. eapply wlp_mono, Hm. simpl. intros _ d'. apply untouched_evolves. Qed.
Lemma evolves_pres_refines {A} (m : M DM A) : pres evolves m → pres refines m.
Proof. intros Hm d. eapply wlp_mono, Hm. simpl. intros _ d'. apply evolves_refines. Qed.
Lemma silent_refines {A} (m : M DM A) : pres untouched m → pres refines m.
Proof. intros. by apply evolves_pres_refines, silent_evolves. Qed.

(** One network step of the table, or of the frames, that keeps signatures. *)
Lemma services_refines d f :
  rtc net_step (view d) (mkNet (f (services d)) (gens d)) →
  (∀ k m', dfind k (f (services d)) = Some m' →
     ∃ m, dfind k (services d) = Some m ∧ sig_of m' = sig_of m) →
  refines d (upd_services f d).
Proof.
  intros Hstep Hsig [Hn [H1 H2 H3]]. split; [|done]. split; [by eapply net_ok_steps|].
  split; [|done..]. simpl. intros k m' Hm'. destruct (Hsig _ _ Hm') as (m & Hm & ->). eauto.
Qed.

Lemma gens_refines d f :
  rtc net_step (view d) (mkNet (services d) (f (gens d))) →
  (∀ pid g', f (gens d) !! pid = Some g' →
     event_static (sg_event g') ∨ ∃ g, gens d !! pid = Some g ∧ sg_event g' = sg_event g) →
  refines d (upd_gens f d).
Proof.
  intros Hstep Hev [Hn [H1 H2 H3]]. split; [|done]. split; [by eapply net_ok_steps|].
  split; [done..|]. simpl. intros pid g' Hg'. destruct (Hev _ _ Hg') as [|(g & Hg & ->)]; eauto.
Qed.

Lemma dupdate_absent (k : Z) (f : lm → lm) S : dfind k S = None → dupdate k f S = S.
Proof. induction S as [|[k' v] S IH]; simpl; [done|]. case_decide; [done|]. intros. by rewrite IH. Qed.

Lemma upd_services_const d k f m :
  dfind k (services d) = Some m → upd_services (dupdate k (λ _, f m)) d = upd_services (dupdate k f) d.
Proof. intros Hm. unfold upd_services. by rewrite (dupdate_const k f m). Qed.

(** Updates of a service that are no lifecycle or link changes. *)
Lemma quiet_update_evolves d k f :
  (∀ m, dfind k (services d) = Some m → quiet m (f m)) →
  evolves d (upd_services (dupdate k f) d).
Proof.
  intros Hf Hi. destruct (dfind k (services d)) as [m|] eqn:Hk.
  - specialize (Hf m eq_refl). split.
    + revert Hi. apply services_refines.
      * apply rtc_once. rewrite (dupdate_const k f m) by done. by eapply NQuiet.
      * intros x m'. rewrite dfind_dupdate. case_decide; [|eauto]. subst. rewrite Hk. simpl.
        intros [= <-]. exists m. split; [done|]. apply Hf.
    + intros x mx Hx Hn. split; [|done]. simpl in *. rewrite dfind_dupdate. case_decide as Hxk; [subst|by exists mx].
      rewrite Hk in *. simplify_eq/=. eauto.
  - split; [|intros x mx Hx Hn; simpl; rewrite dupdate_absent by done; naive_solver].
    revert Hi. apply services_refines; rewrite dupdate_absent by done; [done|eauto].
Qed.

(** Sequencing in specifications that also speak of the result. *)
Definition ev_spec {A} (m : M DM A) (Q : A → Prop) : Prop :=
  ∀ d, wlp m (λ r d', evolves d d' ∧ Q r) d.

Lemma ev_spec_bind {A B} (m : M DM A) (f : A → M DM B) Q d :
  wlp m (λ a d1, evolves d d1 ∧ wlp (f a) (λ r d2, evolves d1 d2 ∧ Q r) d1) d →
  wlp (mbind f m) (λ r d2, evolves d d2 ∧ Q r) d.
Proof.
  intros Hm. apply wlp_bind. eapply wlp_mono, Hm. simpl. intros a d1 [He Hf].
  eapply wlp_mono, Hf. simpl. intros r d2 [He2 ?]. split; [by etransitivity|done].
Qed.
Lemma ev_spec_pres {A B} (m : M DM A) (f : A → M DM B) Q d :
  pres evolves m → (∀ a, ev_spec (f a) Q) → wlp (mbind f m) (λ r d2, evolves d d2 ∧ Q r) d.
Proof.
  intros Hm Hf. apply ev_spec_bind. eapply wlp_mono, Hm. intros a d1 He. split; [done|apply Hf].
Qed.
Lemma ev_spec_silent {A B} (m : M DM A) (f : A → M DM B) Q d :
  pres untouched m → (∀ a, ev_spec (f a) Q) → wlp (mbind f m) (λ r d2, evolves d d2 ∧ Q r) d.
Proof. intros Hm. by apply ev_spec_pres, silent_evolves. Qed.
Lemma ev_spec_ret {A} (a : A) (Q : A → Prop) : Q a → ev_spec (mret a) Q.
Proof. intros Ha d. apply wlp_ret. split; [reflexivity|done]. Qed.
Lemma ev_spec_terminate {A} (Q : A → Prop) : ev_spec terminate Q.
Proof. intros d. apply wlp_terminate. Qed.
End invariant.

(** ** Coroutine frames *)

Section frames.
Context (Γ : Z → signature).
Context (qpush : list Event → Event → list Event) (uc : UserCode).
Notation evolves := (evolves Γ).
Notation refines := (refines Γ).
Notation Inv := (Inv Γ).

(** A result that is not the frame of a [start()] or [stop()]. *)
Definition plain_result (r : run_result) : Prop :=
  match r with inl _ => True | inr c => frame_svc c = None end.

Lemma depOffline_decide_silent svc : pres untouched (depOffline_decide svc).
Proof. unfold depOffline_decide. pres_auto. Qed.
Hint Resolve depOffline_decide_silent : ichor_pres.

Lemma depOffline_stop_spec svc pid required rest interested ret next :
  (∀ i r, ev_spec Γ (next i r) plain_result) →
  ev_spec Γ (depOffline_stop qpush svc pid required rest interested ret next) plain_result.
Proof.
  intros Hnext d. unfold depOffline_stop.
  apply ev_spec_silent; [eauto with ichor_pres|]. intros [m|]; [|apply ev_spec_terminate].
  destruct (_ && _); [|apply Hnext]. intros d1.
  apply ev_spec_silent; [apply pres_gets, _|]. intros waiting. case_bool_decide.
  - intros d2. do 2 (apply ev_spec_silent; [pres_auto|]; intros ? ?).
    by apply ev_spec_ret.
  - destruct waiting; intros d2.
    + apply ev_spec_silent; [pres_auto|]. intros _. by apply ev_spec_ret.
    + apply ev_spec_silent; [pres_auto|]. intros ?. apply Hnext.
Qed.

Lemma depOffline_loop_spec svc pid deps interested ret :
  ev_spec Γ (depOffline_loop qpush svc pid deps interested ret) plain_result.
Proof.
  revert interested ret. induction deps as [|i deps IH]; intros interested ret; simpl.
  - by apply ev_spec_ret.
  - intros d. apply ev_spec_bind. apply wlp_gets. split; [reflexivity|].
    destruct (dfind svc (services d)) as [m|] eqn:Hm; [|apply wlp_terminate].
    destruct (lm_registry m !! i) as [node|] eqn:Hi; [|apply wlp_terminate].
    apply ev_spec_bind, wlp_modify. split.
    + apply quiet_update_evolves. intros m' Hm'. rewrite Hm in Hm'. simplify_eq.
      unfold quiet. split_and!; try done. by eapply sig_of_set_registry.
    + simpl. case_match; [apply wlp_terminate|]. case_match; [|by apply depOffline_stop_spec; auto].
      apply ev_spec_silent; [pres_auto|]. intros _. by apply ev_spec_ret.
Qed.

Lemma dependencyOffline_spec svc provider deps pid :
  ev_spec Γ (dependencyOffline qpush svc provider deps pid) plain_result.
Proof.
  intros d. unfold dependencyOffline. apply ev_spec_silent; [pres_auto|].
  intros [m|]; [|apply ev_spec_terminate]. destruct (lm_kind m); [|apply ev_spec_terminate..].
  intros d1. apply ev_spec_bind, wlp_modify. split; [|apply depOffline_loop_spec].
  by apply quiet_update_evolves.
Qed.

Lemma resumeDepOffline_spec svc pid stage rest interested ret :
  ev_spec Γ (resumeDepOffline qpush svc pid stage rest interested ret) plain_result.
Proof.
  intros d. unfold resumeDepOffline. apply ev_spec_silent; [pres_auto|].
  intros [m|]; [|apply ev_spec_terminate]. destruct stage.
  - case_bool_decide; [|apply ev_spec_terminate].
    apply depOffline_stop_spec. intros. apply depOffline_loop_spec.
  - case_bool_decide; [|apply ev_spec_terminate]. intros d1.
    apply ev_spec_silent; [pres_auto|]. intros ?. apply depOffline_loop_spec.
  - intros d1. apply ev_spec_silent; [pres_auto|]. intros ?. apply depOffline_loop_spec.
Qed.

(** Service code in [start()] and [stop()]: it suspends with the network
    untouched, or ends and moves the service on. *)
Definition ended (svc : Z) (s : ServiceState) (d d' : DM) : Prop :=
  services d' = dupdate svc (set_state s) (services d) ∧ gens d' = gens d ∧
  pendingDependencies d' = pendingDependencies d.

Lemma runStart_spec svc pid after k d :
  wlp (runStart qpush svc pid after k)
    (λ r d', match r with
             | inl _ => ended svc INJECTING d d' ∨ ended svc INSTALLED d d'
             | inr c => untouched d d' ∧ ∃ k', c = CStart svc after k'
             end) d.
Proof.
  unfold runStart. apply wlp_bind. eapply wlp_mono, runUser_silent. simpl.
  intros [ok|k'] d1 Hu; [|apply wlp_ret; eauto].
  apply wlp_bind, wlp_modify, wlp_ret. destruct Hu as (Hs & Hg & Hp). unfold ended. simpl.
  rewrite Hs, Hg, Hp. destruct ok; [left|right]; done.
Qed.

Lemma runStop_spec svc pid k d :
  wlp (runStop qpush svc pid k)
    (λ r d', match r with
             | inl _ => ended svc INSTALLED d d'
             | inr c => untouched d d' ∧ ∃ k', c = CStop svc k'
             end) d.
Proof.
  unfold runStop. apply wlp_bind. eapply wlp_mono, runUser_silent. simpl.
  intros [ok|k'] d1 Hu; [|apply wlp_ret; eauto].
  apply wlp_bind, wlp_modify, wlp_ret. destruct Hu as (Hs & Hg & Hp). unfold ended. simpl.
  rewrite Hs, Hg, Hp. done.
Qed.

Lemma runGen_plain svc priority pid g : ev_spec Γ (runGen qpush svc priority pid g) plain_result.
Proof.
  destruct g as [body|body rest]; simpl; intros d; (apply ev_spec_silent; [pres_auto|]);
    intros [?|?]; try by apply ev_spec_ret.
  intros d1. apply ev_spec_silent; [pres_auto|]. intros _. by apply ev_spec_ret.
Qed.

(** Storing the new frame of a generator. *)
Lemma set_cont_evolves d pid c :
  (∀ g, gens d !! pid = Some g → frame_svc c = frame_svc (sg_cont g) ∨ frame_svc c = None) →
  evolves d (upd_gens (alter (set_cont c) pid) d).
Proof.
  intros Hc Hi. split.
  - revert Hi. apply gens_refines.
    + destruct (gens d !! pid) as [g|] eqn:Hg.
      * apply rtc_once. eapply NFrame; eauto.
      * by rewrite alter_id'.
    + intros q g' [(-> & h & Hh & ->)|[? Hq]]%lookup_alter_Some; eauto.
  - intros k m Hm Hn. split; [by exists m|]. simpl in *.
    intros q g' [(-> & h & Hh & ->)|[? Hq]]%lookup_alter_Some; [|by eapply Hn].
    intros [st Hst]. simpl in Hst. destruct (Hc _ Hh) as [E|E]; [|congruence].
    apply (Hn _ _ Hh). exists st. congruence.
Qed.

Lemma storeFrame_plain pid g r : plain_result r → pres evolves (storeFrame qpush pid g r).
Proof.
  destruct r as [v|c]; simpl; intros Hr.
  - pres_step; [apply silent_evolves; pres_auto|]. apply pres_modify. intros d.
    apply set_cont_evolves. auto.
  - apply pres_modify. intros d. apply set_cont_evolves. auto.
Qed.

(** The end of a [start()] or [stop()] coroutine. *)
Lemma frame_ended d pid g svc s st v :
  gens d !! pid = Some g → frame_svc (sg_cont g) = Some (svc, st) →
  (∀ k, k ≠ KInternal → lifecycle_edge k st s = true) →
  evolves d (upd_gens (alter (set_cont (CDone v)) pid) (upd_services (dupdate svc (set_state s)) d)).
Proof.
  intros Hg Hf He Hi. pose proof Hi as [[Ht Hfr] [Hsig Hp Hge]].
  destruct (frm_state _ _ Hfr _ _ _ _ Hg Hf) as (m & Hm & Hst). simpl in Hm.
  pose proof (tab_lm _ Ht _ _ Hm) as Hok.
  assert (st = STARTING ∨ st = STOPPING) as Hst' by (destruct (sg_cont g); simplify_eq/=; auto).
  assert (lm_kind m ≠ KInternal) as Hk.
  { intros Hk. pose proof (ok_history _ _ Hok) as Hh. rewrite Hk in Hh.
    destruct Hst', (internal_states m Hk Hh) as [|[|]]; congruence. }
  assert (lm_dependees m = []) as Hd.
  { destruct (lm_dependees m) eqn:E; [done|]. exfalso.
    destruct Hst', (ok_live _ _ Hok); congruence. }
  assert (no_frame svc (alter (set_cont (CDone v)) pid (gens d))) as Hn.
  { intros q g' [(-> & h & Hh & ->)|[Hne Hq]]%lookup_alter_Some [st' Hst2]; [done|].
    destruct Hne. eapply (frm_unique _ _ Hfr); [done..| |]; eexists; done. }
  assert (rtc net_step (view d) (mkNet (dupdate svc (set_state s) (services d))
            (alter (set_cont (CDone v)) pid (gens d)))) as Hrtc.
  { eapply rtc_l; [eapply (NFrame _ _ pid g (CDone v)); [done|by right]|]. apply rtc_once.
    eapply NMove; [done| |done|auto]. rewrite Hst. auto. }
  split; [split; [|done]|].
  - split; [by eapply net_ok_steps|]. split; simpl; [|done|].
    + intros x mx. rewrite dfind_dupdate. case_decide; [|eauto]. subst. rewrite Hm. simpl.
      intros [= <-]. rewrite <- (Hsig _ _ Hm). done.
    + intros q g' [(-> & h & Hh & ->)|[? Hq]]%lookup_alter_Some; eauto. simpl. eauto.
  - intros x mx Hx Hnx. simpl in *. split.
    + exists mx. split; [|done]. rewrite dfind_dupdate, decide_False; [done|]. intros ->.
      destruct (Hnx _ _ Hg). by eexists.
    + intros q g' [(-> & h & Hh & ->)|[? Hq]]%lookup_alter_Some; [|by eapply Hnx]. by intros [? ?].
Qed.

(** Storing the result of a [start()] or [stop()] coroutine that ended. *)
Lemma storeFrame_ended d d1 pid g svc s st v :
  gens d !! pid = Some g → frame_svc (sg_cont g) = Some (svc, st) →
  (∀ k, k ≠ KInternal → lifecycle_edge k st s = true) →
  ended svc s d d1 → wlp (storeFrame qpush pid g (inl v)) (λ _ d2, evolves d d2) d1.
Proof.
  intros Hg Hf He (Hs & Hge & Hp). unfold wlp. simpl.
  etransitivity; [by eapply (frame_ended d pid g svc s st v)|].
  apply untouched_evolves. unfold untouched. simpl. rewrite Hs, Hge, Hp. done.
Qed.

Lemma storeFrame_suspended d d1 pid g c :
  gens d !! pid = Some g → frame_svc c = frame_svc (sg_cont g) →
  untouched d d1 → wlp (storeFrame qpush pid g (inr c)) (λ _ d2, evolves d d2) d1.
Proof.
  intros Hg Hf Hu. apply wlp_modify. etransitivity; [by apply untouched_evolves|].
  apply set_cont_evolves. intros g' Hg'. destruct Hu as (_ & E & _). left. congruence.
Qed.

Lemma resume_evolves pid : pres evolves (resume qpush pid).
Proof.
  intros d. unfold resume. apply wlp_bind, wlp_gets.
  destruct (gens d !! pid) as [g|] eqn:Hg; [|apply wlp_ret; reflexivity].
  unfold runFrame. destruct (sg_cont g) as [svc after k|svc k|svc stage rest i r|body|body|v] eqn:Hc.
  - apply wlp_bind. eapply wlp_mono, runStart_spec. simpl. intros [v|c] d1 Hr.
    + assert (frame_svc (sg_cont g) = Some (svc, STARTING)) as Hf by (rewrite Hc; done).
      destruct Hr; (eapply storeFrame_ended; [done..| |done]); by intros [] ?.
    + destruct Hr as (Hu & k' & ->). eapply storeFrame_suspended; [done| |done]. by rewrite Hc.
  - apply wlp_bind. eapply wlp_mono, runStop_spec. simpl. intros [v|c] d1 Hr.
    + assert (frame_svc (sg_cont g) = Some (svc, STOPPING)) as Hf by (rewrite Hc; done).
      eapply storeFrame_ended; [done..| |done]. by intros [] ?.
    + destruct Hr as (Hu & k' & ->). eapply storeFrame_suspended; [done| |done]. by rewrite Hc.
  - apply wlp_bind. eapply wlp_mono, resumeDepOffline_spec. simpl. intros x d1 [He Hp].
    eapply wlp_mono, storeFrame_plain, Hp. simpl. intros _ d2 He2. by etransitivity.
  - apply wlp_bind. eapply wlp_mono, runGen_plain. simpl. intros x d1 [He Hp].
    eapply wlp_mono, storeFrame_plain, Hp. simpl. intros _ d2 He2. by etransitivity.
  - apply wlp_bind. eapply wlp_mono, runGen_plain. simpl. intros x d1 [He Hp].
    eapply wlp_mono, storeFrame_plain, Hp. simpl. intros _ d2 He2. by etransitivity.
  - apply wlp_ret. reflexivity.
Qed.

Lemma handleEventCompletion_evolves id : pres evolves (handleEventCompletion qpush id).
Proof.
  unfold handleEventCompletion. pres_step; [apply silent_evolves; pres_auto|].
  case_match; [|apply pres_ret, _]. pres_step; [|apply silent_evolves; pres_auto].
  apply pres_for_each; [apply _|]. intros ? _. apply resume_evolves.
Qed.

Lemma take_waiters_silent svc ty : pres untouched (take_waiters svc ty).
Proof. intros d. unfold take_waiters, wlp. destruct (dependencyWaiters d !! svc); done. Qed.

Lemma finish_rounds_evolves fuel svc ty ret : pres evolves (finish_rounds qpush fuel svc ty ret).
Proof.
  revert ret. induction fuel as [|fuel IH]; intros ret; simpl; [apply pres_ret, _|].
  pres_step; [apply silent_evolves, take_waiters_silent|].
  pres_step; [apply pres_for_each; [apply _|]; intros ? _; apply resume_evolves|].
  case_bool_decide; [apply pres_ret, _|apply IH].
Qed.

Lemma finishWaitingService_evolves svc ty : pres evolves (finishWaitingService qpush svc ty).
Proof.
  unfold finishWaitingService. pres_step; [apply silent_evolves; pres_auto|].
  case_match; [|apply pres_ret, _]. pres_step; [apply silent_evolves; pres_auto|].
  pres_step; [apply finish_rounds_evolves|]. pres_step; [apply silent_evolves; pres_auto|].
  case_match; [|apply pres_ret, _]. apply silent_evolves. pres_auto.
Qed.
End frames.

(** ** Starting and stopping services *)

Section start_stop.
Context (Γ : Z → signature).
Context (qpush : list Event → Event → list Event) (uc : UserCode).
Notation evolves := (evolves Γ).
Notation refines := (refines Γ).
Notation Inv := (Inv Γ).

(** Only service [svc] may differ. *)
Definition only (svc : Z) (d d' : DM) : Prop :=
  ∀ k, k ≠ svc → dfind k (services d') = dfind k (services d).
Definition pre_active (svc : Z) (d : DM) : Prop :=
  ∃ m, dfind svc (services d) = Some m ∧
    (lm_state m = INSTALLED ∨ lm_state m = STARTING ∨ lm_state m = INJECTING).
(** What a start of [svc] does. *)
Definition starts (svc : Z) (d d' : DM) : Prop :=
  refines d d' ∧ only svc d d' ∧ (pre_active svc d → pre_active svc d').

#[export] Instance starts_preorder svc : PreOrder (starts svc).
Proof.
  split.
  - intros d. split_and!; [reflexivity|done|done].
  - intros d1 d2 d3 (R1 & O1 & P1) (R2 & O2 & P2). split_and!; [by etransitivity| |auto].
    intros k Hk. by rewrite O2, O1.
Qed.

Lemma untouched_starts svc d d' : untouched d d' → starts svc d d'.
Proof.
  intros Hu. split; [by apply evolves_refines, untouched_evolves|].
  destruct Hu as (Hs & _). unfold only, pre_active. by rewrite Hs.
Qed.

Lemma move_refines d svc m s :
  dfind svc (services d) = Some m → lifecycle_edge (lm_kind m) (lm_state m) s = true →
  no_frame svc (gens d) → (lm_dependees m = [] ∨ s = ACTIVE ∨ s = UNINJECTING) →
  refines d (upd_services (dupdate svc (set_state s)) d).
Proof.
  intros Hm He Hn Hd. apply services_refines; [by eapply rtc_once, NMove|].
  intros k m'. rewrite dfind_dupdate. case_decide; [|eauto]. subst. rewrite Hm. simpl.
  intros [= <-]. eauto.
Qed.

Lemma scope_refines d pid t svc p c e ref :
  event_static Γ e →
  (Inv d → ∀ k st, frame_svc c = Some (k, st) →
     no_frame k (gens d) ∧ ∃ m, dfind k (services d) = Some m ∧ lm_state m = st) →
  wlp (scopeGenerator pid t svc p c e ref) (λ _ d', refines d d' ∧ services d' = services d) d.
Proof.
  intros He Hc. apply wlp_modify. split; [|done]. intros Hi. specialize (Hc Hi). revert Hi. apply gens_refines.
  - destruct (gens d !! pid) as [g|] eqn:Hg; [done|]. apply rtc_once. by apply NScope.
  - intros q g'. destruct (gens d !! pid) as [g|] eqn:Hg; [eauto|].
    intros [[<- <-]|[? Hq]]%lookup_insert_Some; eauto.
Qed.

(** Facts about an idle service. *)
Lemma inv_no_frame d svc m :
  Inv d → dfind svc (services d) = Some m → lm_state m ≠ STARTING → lm_state m ≠ STOPPING →
  no_frame svc (gens d).
Proof. intros [[_ Hf] _] Hm ??. by eapply no_frame_state. Qed.

Lemma inv_no_dependees d svc m :
  Inv d → dfind svc (services d) = Some m → lm_state m ≠ ACTIVE → lm_state m ≠ UNINJECTING →
  lm_dependees m = [].
Proof.
  intros [[Ht _] _] Hm ??. pose proof (ok_live _ _ (tab_lm _ Ht _ _ Hm)) as Hl.
  destruct (lm_dependees m); [done|]. destruct Hl; done.
Qed.

Lemma inv_not_internal d svc m :
  Inv d → dfind svc (services d) = Some m →
  lm_state m ≠ INSTALLED → lm_state m ≠ ACTIVE → lm_state m ≠ UNINJECTING → lm_kind m ≠ KInternal.
Proof.
  intros [[Ht _] _] Hm ??? Hk. pose proof (ok_history _ _ (tab_lm _ Ht _ _ Hm)) as Hh.
  rewrite Hk in Hh. destruct (internal_states m Hk Hh) as [|[|]]; done.
Qed.

(** From INSTALLED, through STARTING, to the outcome of a synchronous start. *)
Lemma started_refines d svc m s :
  Inv d → dfind svc (services d) = Some m → lm_state m = INSTALLED → lm_kind m ≠ KInternal →
  (s = INJECTING ∨ s = INSTALLED) →
  starts svc d (upd_services (dupdate svc (set_state STARTING)) d) ∧
  starts svc d (upd_services (dupdate svc (set_state s))
                 (upd_services (dupdate svc (set_state STARTING)) d)).
Proof.
  intros Hi Hm Hst Hk Hs.
  assert (no_frame svc (gens d)) as Hn by (eapply inv_no_frame; [done..| |]; congruence).
  assert (lm_dependees m = []) as Hd by (eapply inv_no_dependees; [done..| |]; congruence).
  assert (refines d (upd_services (dupdate svc (set_state STARTING)) d)) as H1.
  { eapply move_refines; [done| |done|auto]. rewrite Hst. by destruct (lm_kind m). }
  split; (split_and!; [|intros k Hne; simpl; rewrite ?dfind_dupdate, ?decide_False by done; done|]).
  - done.
  - intros _. eexists. simpl. rewrite dfind_dupdate, decide_True, Hm by done. simpl. eauto.
  - etransitivity; [exact H1|].
    eapply (move_refines _ svc (set_state STARTING m)); [|simpl|done|auto].
    + simpl. by rewrite dfind_dupdate, decide_True, Hm by done.
    + destruct Hs as [->| ->], (lm_kind m); done.
  - intros _. eexists. simpl. rewrite !dfind_dupdate, !decide_True, Hm by done. simpl.
    split; [done|]. destruct Hs as [->| ->]; simpl; auto.
Qed.

Lemma ended_untouched svc s d d' :
  ended svc s d d' → untouched (upd_services (dupdate svc (set_state s)) d) d'.
Proof. done. Qed.

(** After [begin()] of a start: done, or suspended in STARTING. *)
Definition start_post (svc : Z) (after : bool) (m : lm) (d : DM) (r : run_result) (d' : DM) : Prop :=
  match r with
  | inl _ => refines d d' ∧ (after = true → starts svc d d')
  | inr c => lm_state m = INSTALLED ∧ lm_kind m ≠ KInternal ∧
             ended svc STARTING d d' ∧ ∃ k', c = CStart svc after k'
  end.

Lemma beginStart_real d svc (after : bool) pid m :
  Inv d → dfind svc (services d) = Some m → lm_kind m ≠ KInternal →
  wlp (match internal_start_begin (if after then None else getDependencyRegistry m) m with
       | None => mret (inl (afterOnline_result after SB_DONE))
       | Some m' =>
           modService svc (λ _, m');; (k ← gets (uc_start uc svc); runStart qpush svc pid after k)
       end : M DM run_result) (start_post svc after m d) d.
Proof.
  intros Hi Hm Hk. destruct (internal_start_begin _ m) as [m'|] eqn:Hb.
  - unfold internal_start_begin in Hb.
    destruct (bool_decide (lm_state m = INSTALLED)) eqn:Hst; [|done]. bool_hyps. simpl in Hb.
    case_match; [done|]. injection Hb as <-.
    apply wlp_bind, wlp_modify, wlp_bind, wlp_gets.
    rewrite (upd_services_const d svc (set_state STARTING) m) by done.
    eapply wlp_mono, runStart_spec. simpl. intros [v|c] d' Hr; unfold start_post.
    + assert (starts svc d d') as Hs; [|split; [apply Hs|done]].
      destruct Hr as [Hr|Hr]; (etransitivity; [|by eapply untouched_starts, ended_untouched]);
        eapply started_refines; eauto.
    + destruct Hr as [(Hs & Hg & Hp) Hc]. unfold ended. rewrite Hs, Hg, Hp. done.
  - apply wlp_ret. split; [reflexivity|]. intros _. reflexivity.
Qed.

Lemma beginStart_spec d svc after pid m :
  Inv d → dfind svc (services d) = Some m → (after = false → lm_state m ≠ ACTIVE) →
  wlp (beginStart qpush uc svc after pid) (start_post svc after m d) d.
Proof.
  intros Hi Hm Hact. unfold beginStart. apply wlp_bind, wlp_gets. rewrite Hm.
  destruct (lm_kind m) eqn:Hk; [apply beginStart_real; [done..|congruence]| |].
  { apply beginStart_real; [done..|congruence]. }
  destruct after; [apply wlp_terminate|]. apply wlp_bind, wlp_modify, wlp_ret.
  split; [|done]. destruct Hi as [[Ht Hf] Hst].
  pose proof (ok_history _ _ (tab_lm _ Ht _ _ Hm)) as Hh. rewrite Hk in Hh.
  destruct (internal_states m Hk Hh) as [E|[E|E]]; [|naive_solver|];
    (eapply move_refines; [done|by rewrite Hk, E|eapply no_frame_state; [done..| |]; congruence|auto]).
Qed.

(** A suspended start put into [_scopedGenerators]. *)
Lemma scope_started d d1 svc m pid t p c e ref :
  Inv d → dfind svc (services d) = Some m → lm_state m = INSTALLED → lm_kind m ≠ KInternal →
  ended svc STARTING d d1 → frame_svc c = Some (svc, STARTING) → event_static Γ e →
  wlp (scopeGenerator pid t svc p c e ref) (λ _ d', starts svc d d') d1.
Proof.
  intros Hi Hm Hst Hk Hend Hc He.
  destruct (started_refines d svc m INJECTING) as [Hs _]; [by auto..|].
  assert (starts svc d d1) as Hs1.
  { etransitivity; [exact Hs|]. by apply untouched_starts, ended_untouched. }
  assert (dfind svc (services d1) = Some (set_state STARTING m)) as Hm1.
  { destruct Hend as (-> & _). by rewrite dfind_dupdate, decide_True, Hm by done. }
  assert (no_frame svc (gens d1)) as Hn.
  { destruct Hend as (_ & -> & _). eapply inv_no_frame; [done..| |]; congruence. }
  eapply wlp_mono, scope_refines; [|done|].
  - intros _ d2 [Hr Hsv]. etransitivity; [exact Hs1|]. split; [done|].
    unfold only, pre_active. by rewrite Hsv.
  - intros _ k st Hf. rewrite Hc in Hf. simplify_eq. eauto.
Qed.
End start_stop.

(** ** Offering dependencies *)

Section offers.
Context (Γ : Z → signature).
Context (qpush : list Event → Event → list Event) (uc : UserCode).
Notation evolves := (evolves Γ).
Notation refines := (refines Γ).
Notation Inv := (Inv Γ).

Lemma sinsert_idem (a : Z) l : sinsert a (sinsert a l) = sinsert a l.
Proof.
  unfold sinsert at 1. rewrite decide_True; [done|]. apply elem_of_sinsert. auto.
Qed.

(** Consumer [s] with provider [a] injected, compared to [self]. *)
Definition linked (a : Z) (self s : lm) : Prop :=
  quiet (set_injected (sinsert a (lm_injected self)) self) s.

Lemma dependencyOnline_step_linked prov self iface i s i' s' :
  dependencyOnline_step prov iface (i, s) = (i', s') →
  s = self ∨ linked (prov_id prov) self s → s' = self ∨ linked (prov_id prov) self s'.
Proof.
  unfold dependencyOnline_step. destruct (find_hash_sat _ _ _) as [n|]; [|naive_solver].
  destruct (lm_registry s !! n) as [node|] eqn:Hn; [|naive_solver].
  intros [= <- <-] Hs. right. unfold linked, quiet.
  assert (sig_of s = sig_of self ∧ lm_kind s = lm_kind self ∧ lm_id s = lm_id self ∧
          lm_state s = lm_state self ∧ lm_trace s = lm_trace self ∧
          lm_dependees s = lm_dependees self ∧
          sinsert (prov_id prov) (lm_injected s) = sinsert (prov_id prov) (lm_injected self))
    as (E1 & E2 & E3 & E4 & E5 & E6 & E7).
  { destruct Hs as [->|(?&?&?&?&?&Hi&?)]; [done|]. simpl in *. rewrite Hi, sinsert_idem. done. }
  split_and!; try done. transitivity (sig_of s); [|exact E1].
  by apply (sig_of_set_registry (add_call _ (set_injected _ s)) n node).
Qed.

Lemma dependencyOnline_links self prov b self' rec :
  dependencyOnline self prov = (b, self', rec) →
  (self' = self ∧ rec = false) ∨
  (lm_kind self = KDependency ∧ linked (prov_id prov) self self' ∧
   rec = prov_registers_dependees prov ∧ prov_interfaces prov ≠ []).
Proof.
  unfold dependencyOnline. destruct (lm_kind self) eqn:Hk; [|naive_solver..].
  destruct (scontains _ _) eqn:Hc; [naive_solver|].
  destruct (fold_left _ _ _) as [i s] eqn:Hf. intros [= <- <- <-].
  assert (s = self ∨ (linked (prov_id prov) self s ∧ prov_interfaces prov ≠ [])) as Hs.
  { assert (∀ l i0 s0, s0 = self ∨ linked (prov_id prov) self s0 →
      fold_left (λ acc iface, dependencyOnline_step prov iface acc) l (i0, s0) = (i, s) →
      s = self ∨ linked (prov_id prov) self s) as Hl.
    { induction l as [|x l IH]; cbn [fold_left]; intros i0 s0 H0 E; [by simplify_eq|].
      destruct (dependencyOnline_step prov x (i0, s0)) as [i1 s1] eqn:E1.
      eapply IH; [|exact E]. by eapply dependencyOnline_step_linked. }
    destruct (prov_interfaces prov) as [|x l] eqn:Hp; [left; by simplify_eq/=|].
    destruct (Hl _ _ _ (or_introl eq_refl) Hf); auto. }
  destruct Hs as [->|[Hs Hp]]; [left; rewrite Hc; done|right].
  split_and!; try done. destruct Hs as (_&_&_&_&_&Hi&_). simpl in Hi.
  unfold scontains. rewrite Hi, bool_decide_true; [done|]. apply elem_of_sinsert. auto.
Qed.

(** States (and presence) of all services are kept. *)
Definition states_kept (d d' : DM) : Prop :=
  ∀ k m, dfind k (services d) = Some m →
    ∃ m', dfind k (services d') = Some m' ∧ lm_state m' = lm_state m.

(** The providers a service may be offered. *)
Definition provider_ok (svc : Z) (prov : provider) (d : DM) : Prop :=
  (prov_id prov = SELF_SERVICE_ID ∧ prov_registers_dependees prov = false) ∨
  (∃ q p, prov = provider_of q ∧ lm_id q ≠ svc ∧
     dfind (lm_id q) (services d) = Some p ∧ lm_state p = ACTIVE).

Lemma link_refines d k a m m' p :
  dfind k (services d) = Some m → lm_kind m = KDependency → linked a m m' →
  a ≠ k → dfind a (services d) = Some p → lm_state p = ACTIVE →
  refines d (upd_services (dupdate a (insertSelfInto k)) (upd_services (dupdate k (λ _, m')) d)) ∧
  states_kept d (upd_services (dupdate a (insertSelfInto k)) (upd_services (dupdate k (λ _, m')) d)).
Proof.
  intros Hk Hkd Hl Hne Ha Hact. split.
  - apply (services_refines Γ d (λ S, dupdate a (insertSelfInto k) (dupdate k (λ _, m') S))).
    + by eapply rtc_once, NLink.
    + intros x mx Hx. assert (∀ y, y = m' → sig_of y = sig_of m) as Hsig by (intros ? ->; apply Hl).
      clear Hact Hkd Hl. dlookup; eexists; (split; [done|]); first [done|by apply Hsig].
  - intros x mx Hx. simpl. destruct Hl as (_&_&Hs&_). simpl in Hs. dlookup; eauto.
Qed.

Lemma offerDependency_spec d svc prov :
  provider_ok svc prov d →
  wlp (offerDependency svc prov) (λ _ d', refines d d' ∧ states_kept d d') d.
Proof.
  intros Hprov. unfold offerDependency. apply wlp_bind, wlp_gets.
  destruct (dfind svc (services d)) as [m|] eqn:Hm; [|apply wlp_terminate].
  destruct (dependencyOnline m prov) as [[b m'] rec] eqn:Hon.
  apply wlp_bind, wlp_modify, wlp_bind.
  destruct (dependencyOnline_links _ _ _ _ _ Hon) as [[-> ->]|(Hk & Hl & -> & Hne)].
  - apply wlp_ret, wlp_ret. split.
    + apply evolves_refines, quiet_update_evolves. intros m' Hm'. rewrite Hm in Hm'. by simplify_eq.
    + intros k mk Hmk. simpl. rewrite dfind_dupdate. case_decide; [|eauto].
      subst. rewrite Hm in *. simplify_eq/=. eauto.
  - destruct Hprov as [[Hid ->]|(q & p & -> & Hq & Hp & Hact)].
    + apply wlp_ret, wlp_ret. split.
      * apply services_refines.
        -- eapply rtc_once, NSelf; [done..|]. by rewrite <- Hid.
        -- intros x mx Hx.
           assert (∀ y, y = m' → sig_of y = sig_of m) as Hsig by (intros ? ->; apply Hl).
           clear Hl. dlookup; eexists; (split; [done|]); first [done|by apply Hsig].
      * intros x mx Hx. simpl. destruct Hl as (_&_&Hs&_). simpl in Hs. dlookup; eauto.
    + simpl in *. rewrite bool_decide_false by done. simpl. apply wlp_modify, wlp_ret.
      by eapply link_refines.
Qed.
End offers.
