(* ===== verification/Handlers.v ===== *)
(** * The event handlers refine the service network

    Second half of the refinement proof: every case of the event switch
    (Dispatch.v) keeps the invariant and is a sequence of network steps. *)

From S2P Require Import Prelude DenseMap Register Lifecycle Heap Events Manager Dispatch Network Refinement.
From stdpp Require Import base list gmap.
From Stdlib Require Import ZArith Lia.

Open Scope Z_scope.

Section handlers.
Context (Γ : Z → signature).
Context (qpush : list Event → Event → list Event) (uc : UserCode).
Notation evolves := (evolves Γ).
Notation refines := (refines Γ).
Notation Inv := (Inv Γ).
Notation static_edge := (static_edge Γ).
Notation event_static := (event_static Γ).

(** ** Sequencing under the invariant *)

Definition ok {A} (m : M DM A) : Prop := ∀ d, Inv d → wlp m (λ _ d', refines d d') d.

Lemma ok_pres {A} (m : M DM A) : ok m → pres refines m.
Proof.
  intros Hm d. unfold ok, wlp in *. specialize (Hm d). destruct (m d) as [[a d']|]; [|done].
  intros Hi. by apply Hm.
Qed.
Lemma pres_ok {A} (m : M DM A) : pres refines m → ok m.
Proof. intros Hm d _. apply Hm. Qed.

Lemma ref_bind {A B} d (m : M DM A) (f : A → M DM B) (Q : B → DM → Prop) :
  Inv d →
  wlp m (λ a d1, refines d d1 ∧ (Inv d1 → wlp (f a) (λ b d2, refines d1 d2 ∧ Q b d2) d1)) d →
  wlp (mbind f m) (λ b d2, refines d d2 ∧ Q b d2) d.
Proof.
  intros Hi Hm. apply wlp_bind. eapply wlp_mono, Hm. simpl. intros a d1 [Hr Hf].
  eapply wlp_mono, Hf; [|by apply Hr]. simpl. intros b d2 [Hr2 ?]. split; [by etransitivity|done].
Qed.

Lemma ok_bind {A B} (m : M DM A) (f : A → M DM B) : ok m → (∀ a, ok (f a)) → ok (mbind f m).
Proof. intros Hm Hf. apply pres_ok, pres_bind; [apply _|by apply ok_pres|]. intros a. by apply ok_pres. Qed.

(** A bind whose first part leaves the network alone and whose rest is judged
    with what is known of the state. *)
Lemma ok_bind_with {A B} d (m : M DM A) (f : A → M DM B) :
  Inv d → wlp m (λ a d1, refines d d1 ∧ (Inv d1 → wlp (f a) (λ _ d2, refines d1 d2) d1)) d →
  wlp (mbind f m) (λ _ d2, refines d d2) d.
Proof.
  intros Hi Hm. apply wlp_bind. eapply wlp_mono, Hm. simpl. intros a d1 [Hr Hf].
  eapply wlp_mono, Hf; [|by apply Hr]. simpl. intros b d2 Hr2. by etransitivity.
Qed.
Lemma ok_bind_silent {A B} d (m : M DM A) (f : A → M DM B) :
  Inv d → pres untouched m →
  (∀ a d1, untouched d d1 → Inv d1 → wlp (f a) (λ _ d2, refines d1 d2) d1) →
  wlp (mbind f m) (λ _ d2, refines d d2) d.
Proof.
  intros Hi Hm Hf. apply ok_bind_with; [done|]. eapply wlp_mono, Hm. simpl. intros a d1 Hu.
  split; [by apply evolves_refines, untouched_evolves|]. intros Hi1. by apply Hf.
Qed.
Lemma ok_find {B} d svc (f : option lm → M DM B) Q :
  wlp (f (dfind svc (services d))) Q d → wlp (mbind f (findService svc)) Q d.
Proof. intros Hf. apply wlp_bind, wlp_gets, Hf. Qed.

Lemma untouched_inv d d' : untouched d d' → Inv d → Inv d'.
Proof. intros Hu Hi. by apply (untouched_evolves Γ _ _ Hu). Qed.
Lemma untouched_services d d' : untouched d d' → services d' = services d.
Proof. by intros (? & _). Qed.

(** ** Starting a service because a dependency came online *)

Lemma startAndAnnounce_spec d svc prio :
  Inv d → wlp (startAndAnnounce qpush uc svc prio) (λ _ d', starts Γ svc d d') d.
Proof.
  intros Hi. unfold startAndAnnounce. apply ok_find.
  destruct (dfind svc (services d)) as [m|] eqn:Hm; [|apply wlp_terminate].
  apply wlp_bind. eapply wlp_mono, newPromiseId_silent. simpl. intros pid d1 Hu.
  assert (Inv d1) as Hi1 by by eapply untouched_inv.
  assert (dfind svc (services d1) = Some m) as Hm1 by by rewrite (untouched_services _ _ Hu).
  assert (∀ d', starts Γ svc d1 d' → starts Γ svc d d') as Htr.
  { intros d' Hs. etransitivity; [by apply untouched_starts|done]. }
  apply wlp_bind. eapply wlp_mono, beginStart_spec; [|done..]. simpl. intros [v|c] d2 Hr.
  - destruct Hr as [_ Hr]. specialize (Hr eq_refl).
    destruct v; try (apply wlp_ret; by apply Htr).
    eapply wlp_mono, push_silent. simpl. intros _ d3 Hu3. apply Htr.
    etransitivity; [done|by apply untouched_starts].
  - destruct Hr as (Hst & Hk & Hend & k' & ->).
    apply wlp_bind. eapply wlp_mono, getNextEventId_silent. simpl. intros id d3 Hu3.
    apply wlp_bind. eapply wlp_mono, newRef_silent. simpl. intros ref d4 Hu4.
    assert (ended svc STARTING d1 d4) as Hend4.
    { destruct Hu3 as (E1 & E2 & E3), Hu4 as (E4 & E5 & E6). unfold ended in *.
      rewrite E4, E5, E6, E1, E2, E3. done. }
    eapply wlp_mono; [|by eapply (scope_started Γ d1 d4 svc m)].
    simpl. intros _ d5. apply Htr.
Qed.

(** ** DependencyOnlineEvent *)

(** Service [a] is there and ACTIVE. *)
Definition active (a : Z) (d : DM) : Prop :=
  ∃ p, dfind a (services d) = Some p ∧ lm_state p = ACTIVE.

Lemma states_kept_active a d d' : states_kept d d' → active a d → active a d'.
Proof.
  intros Hs (p & Hp & Ha). destruct (Hs _ _ Hp) as (p' & ? & ?). exists p'. split; [done|congruence].
Qed.
Lemma starts_active svc a d d' : starts Γ svc d d' → a ≠ svc → active a d → active a d'.
Proof. intros (_ & Ho & _) Hne (p & Hp & Ha). exists p. by rewrite Ho. Qed.

(** Offer, then start: common to both loops. *)
Lemma offer_and_start d svc prov prio :
  Inv d → provider_ok svc prov d →
  wlp (b ← offerDependency svc prov;
       if bool_decide (b = SB_DONE) then mret () else startAndAnnounce qpush uc svc prio)
    (λ _ d', refines d d' ∧ (∀ a, a ≠ svc → active a d → active a d') ∧
             (pre_active svc d → pre_active svc d')) d.
Proof.
  intros Hi Hp. apply wlp_bind. eapply wlp_mono, offerDependency_spec, Hp. simpl.
  intros b d1 [Hr Hs].
  assert (pre_active svc d → pre_active svc d1) as Hpre.
  { intros (m & Hm & Hst). destruct (Hs _ _ Hm) as (m' & ? & E). exists m'. by rewrite E. }
  case_bool_decide.
  - apply wlp_ret. split_and!; [done| |done]. intros a _. by apply states_kept_active.
  - eapply wlp_mono, startAndAnnounce_spec; [|by apply Hr]. simpl. intros _ d2 Hst.
    pose proof Hst as (Hr2 & _ & Hp2). split_and!; [by etransitivity| |auto].
    intros a Hne Ha. eapply starts_active; [done..|]. by eapply states_kept_active.
Qed.

(** A loop whose iterations also keep a fact [P]. *)
Lemma for_each_refines {A} (P : DM → Prop) (l : list A) body d :
  Inv d → P d →
  (∀ x d1, x ∈ l → Inv d1 → P d1 → wlp (body x) (λ _ d2, refines d1 d2 ∧ P d2) d1) →
  wlp (for_each l body) (λ _ d', refines d d' ∧ P d') d.
Proof.
  intros Hi Hp Hb. apply (wlp_for_each l body (λ d', refines d d' ∧ P d')); [by split|].
  intros x d1 Hx [Hr Hp1]. eapply wlp_mono, Hb; [|done|by apply Hr|done].
  simpl. intros _ d2 [Hr2 ?]. split; [by etransitivity|done].
Qed.

Lemma onlineStep_spec d origin prio m flt svc :
  Inv d → lm_id m = origin → active origin d →
  wlp (onlineStep qpush uc origin prio m flt svc) (λ _ d', refines d d' ∧ active origin d') d.
Proof.
  intros Hi Hid Ha. unfold onlineStep. apply ok_find.
  destruct (dfind svc (services d)) as [c|]; [|by apply wlp_ret].
  destruct (_ || _) eqn:Hg; [by apply wlp_ret|]. bool_hyps.
  assert (svc ≠ origin) as Hne by (by apply Z.eqb_neq).
  eapply wlp_mono, offer_and_start; [|done|].
  - simpl. intros _ d' (Hr & Hact & _). split; [done|]. apply Hact; auto.
  - right. destruct Ha as (p & Hp & Hst). exists m, p. split_and!; [done|congruence|congruence|done].
Qed.

(** The service goes from [s] to a state in which it may have dependees. *)
Lemma move_live_refines d svc m s :
  dfind svc (services d) = Some m →
  (Inv d → lifecycle_edge (lm_kind m) (lm_state m) s = true) →
  lm_state m ≠ STARTING → lm_state m ≠ STOPPING → s = ACTIVE ∨ s = UNINJECTING →
  refines d (upd_services (dupdate svc (λ _, set_state s m)) d).
Proof.
  intros Hm He H1 H2 Hs Hi. pose proof Hi as Hi'. revert Hi'.
  rewrite upd_services_const by done. eapply move_refines; [done|auto| |auto].
  by eapply inv_no_frame.
Qed.

Lemma onDependencyOnline_ok e : ok (onDependencyOnline qpush uc e).
Proof.
  intros d Hi. unfold onDependencyOnline. apply ok_find.
  destruct (dfind (ev_origin e) (services d)) as [m|] eqn:Hm; [|by apply wlp_ret].
  unfold setInjected, internalSetInjected. case_bool_decide as Hst; [|by apply wlp_ret]. simpl.
  assert (lm_id m = ev_origin e) as Hid by (apply (tab_lm _ (proj1 (proj1 Hi)) _ _ Hm)).
  apply ok_bind_with; [done|]. apply wlp_modify. split.
  { apply move_live_refines; [done| |congruence..|auto]. intros _. rewrite Hst.
    assert (lm_kind m ≠ KInternal) by (eapply inv_not_internal; [done..| | |]; congruence).
    by destruct (lm_kind m). }
  intros Hi1. set (d1 := upd_services _ d) in *.
  assert (dfind (ev_origin e) (services d1) = Some (set_state ACTIVE m)) as Hm1.
  { simpl. by rewrite dfind_dupdate, decide_True, Hm by done. }
  apply ok_bind_with; [done|]. eapply wlp_mono, finishWaitingService_evolves. simpl. intros _ d2 He.
  split; [by apply evolves_refines|]. intros Hi2.
  assert (active (ev_origin e) d2) as Ha.
  { destruct (He Hi1) as [_ Hk]. destruct (Hk (ev_origin e) _ Hm1) as [(p & Hp & Hq) _].
    - by eapply inv_no_frame.
    - exists p. split; [done|]. by destruct Hq as (_ & _ & -> & _). }
  apply ok_bind_with; [done|].
  assert (wlp (if bool_decide (getInterfaces m = []) then mret ()
         else flt ← liftOutcome (filter_of m); keys ← gets (λ d, dkeys (services d));
              for_each keys (onlineStep qpush uc (ev_origin e) (ev_priority e) m flt))
    (λ _ d', refines d2 d') d2) as Hloop.
  { case_bool_decide; [by apply wlp_ret|]. apply wlp_bind.
    destruct (filter_of m) as [flt|]; [|apply wlp_terminate]. apply wlp_ret, wlp_bind, wlp_gets.
    eapply wlp_mono, (for_each_refines (active (ev_origin e))); [|done..|].
    - by intros _ d3 [Hr _].
    - intros svc d3 _ Hi3 Ha3. by apply onlineStep_spec. }
  eapply wlp_mono, Hloop. simpl. intros _ d3 Hr. split; [done|]. intros _.
  eapply wlp_mono; [|apply (silent_refines Γ)]; [done|pres_auto].
Qed.

(** ** Dependencies going offline *)

Lemma serase_absent (k : Z) l : k ∉ l → serase k l = l.
Proof.
  induction l as [|x l IH]; simpl; [done|]. intros Hk. rewrite decide_False by set_solver.
  rewrite IH by set_solver. done.
Qed.

(** The provider's side of one removed registration. *)
Lemma removeSelfInto_erases h k p :
  h ∈ lm_interfaces p → removeSelfInto h k p = set_dependees (serase k (lm_dependees p)) p.
Proof.
  intros Hh. unfold removeSelfInto. destruct (lm_kind p).
  - rewrite bool_decide_false; [done|]. intros E. rewrite E in Hh. set_solver.
  - rewrite bool_decide_false; [done|]. intros E. rewrite E in Hh. set_solver.
  - by rewrite bool_decide_true.
Qed.

Lemma finish_loop_more deps c p c' p' :
  (∀ i, i ∈ deps → ∃ node, lm_registry c !! i = Some node ∧
     interfaceNameHash (reg_dep node) ∈ lm_interfaces p) →
  lm_id c ∉ lm_dependees p →
  finish_loop deps c p = Done (c', p') → quiet c c' ∧ quiet p p'.
Proof.
  revert c p. induction deps as [|i deps IH]; simpl; intros c p Hd Hn; [by intros [= <- <-]|].
  destruct (Hd i) as (node & Hi & Hh); [set_solver|]. rewrite Hi, removeSelfInto_erases by done.
  rewrite serase_absent by done. intros Hf.
  set (c1 := if removeSelfInto_calls _ _ then _ else _) in Hf.
  assert (quiet c c1 ∧ lm_registry c1 = lm_registry c) as [Hq Hr]
    by (subst c1; by case_match).
  apply IH in Hf as [? ?]; [split; [by etransitivity|]; etransitivity; [|done]; done| |].
  - intros j Hj. rewrite Hr. apply Hd. set_solver.
  - destruct Hq as (_ & -> & _). done.
Qed.

Lemma finish_loop_spec deps c p c' p' :
  deps ≠ [] → NoDup (lm_dependees p) →
  (∀ i, i ∈ deps → ∃ node, lm_registry c !! i = Some node ∧
     interfaceNameHash (reg_dep node) ∈ lm_interfaces p) →
  finish_loop deps c p = Done (c', p') →
  quiet c c' ∧ quiet (set_dependees (serase (lm_id c) (lm_dependees p)) p) p'.
Proof.
  intros Hne Hnd Hd. destruct deps as [|i deps]; [done|]. simpl.
  destruct (Hd i) as (node & Hi & Hh); [set_solver|]. rewrite Hi, removeSelfInto_erases by done.
  intros Hf. set (c1 := if removeSelfInto_calls _ _ then _ else _) in Hf.
  assert (quiet c c1 ∧ lm_registry c1 = lm_registry c ∧ lm_id c1 = lm_id c) as (Hq & Hr & Hid)
    by (subst c1; by case_match).
  apply finish_loop_more in Hf as [? ?]; [split; [by etransitivity|done]| |].
  - intros j Hj. rewrite Hr. apply Hd. set_solver.
  - simpl. rewrite Hid, elem_of_serase by done. naive_solver.
Qed.

(** What a static edge says about two services in the table. *)
Lemma static_edge_registry d k a deps c p :
  static Γ d → static_edge k a deps →
  dfind k (services d) = Some c → dfind a (services d) = Some p →
  ∀ i, i ∈ deps → ∃ node, lm_registry c !! i = Some node ∧
    interfaceNameHash (reg_dep node) ∈ lm_interfaces p.
Proof.
  intros [Hsig _ _] (_ & _ & Hall) Hc Hp i Hi.
  rewrite Forall_forall in Hall. destruct (Hall i Hi) as (h & Hh & Hin).
  rewrite <- (Hsig _ _ Hc) in Hh. rewrite <- (Hsig _ _ Hp) in Hin. simpl in *.
  unfold sig_of in *. simpl in *. rewrite list_lookup_fmap in Hh.
  change (interfaceNameHash ∘ reg_dep <$> (lm_registry c !! i) = Some h) in Hh.
  destruct (lm_registry c !! i) as [node|]; simplify_eq/=. eauto.
Qed.

Lemma unlink_refines d k a m m' p p' :
  dfind k (services d) = Some m → dfind a (services d) = Some p → a ≠ k →
  quiet (set_injected (serase a (lm_injected m)) m) m' →
  quiet (set_dependees (serase k (lm_dependees p)) p) p' →
  refines d (upd_services (dupdate a (λ _, p')) (upd_services (dupdate k (λ _, m')) d)) ∧
  states_kept d (upd_services (dupdate a (λ _, p')) (upd_services (dupdate k (λ _, m')) d)).
Proof.
  intros Hk Ha Hne Hq Hq'. split.
  - apply (services_refines Γ d (λ S, dupdate a (λ _, p') (dupdate k (λ _, m') S))).
    + by eapply rtc_once, NUnlink.
    + assert (∀ y, y = m' → sig_of y = sig_of m) as Hs1 by (intros ? ->; apply Hq).
      assert (∀ y, y = p' → sig_of y = sig_of p) as Hs2 by (intros ? ->; apply Hq').
      clear Hq Hq'. intros x mx Hx. dlookup; eexists; (split; [done|]);
        first [done|by apply Hs1|by apply Hs2].
  - destruct Hq as (_ & _ & Hs & _), Hq' as (_ & _ & Hs' & _). simpl in *.
    intros x mx Hx. simpl. dlookup; eauto.
Qed.

Lemma finishOffline_spec d k a deps :
  Inv d → static_edge k a deps →
  wlp (finishOffline k a deps) (λ _ d', refines d d' ∧ states_kept d d') d.
Proof.
  intros Hi He. unfold finishOffline. do 2 apply ok_find.
  destruct (dfind k (services d)) as [c|] eqn:Hc; [|apply wlp_terminate].
  destruct (dfind a (services d)) as [p|] eqn:Hp; [|apply wlp_terminate].
  apply wlp_bind. unfold finishDependencyOffline.
  destruct (lm_kind c); [|apply wlp_terminate..]. unfold mbind, outcome_bind.
  destruct (finish_loop deps c p) as [[c' p']|] eqn:Hf; [|apply wlp_terminate]. simpl.
  apply wlp_ret, wlp_bind, wlp_modify, wlp_modify. simpl.
  pose proof Hi as [[Ht _] Hst]. pose proof (tab_lm _ Ht _ _ Hc) as Hokc.
  pose proof (tab_lm _ Ht _ _ Hp) as Hokp. simpl in *.
  pose proof He as (Hne & Hnil & _).
  apply finish_loop_spec in Hf as [Hqc Hqp];
    [|done|apply Hokp|by eapply static_edge_registry].
  rewrite (ok_id _ _ Hokc) in Hqp. rewrite (ok_id _ _ Hokp).
  eapply unlink_refines; [done..| |done].
  destruct Hqc as (E1&E2&E3&E4&E5&E6&E7). unfold quiet. simpl. rewrite E6.
  split_and!; try done.
Qed.

Lemma find_hash_sat_hash r h sat i :
  find_hash_sat r h sat = Some i → ∃ node, r !! i = Some node ∧ interfaceNameHash (reg_dep node) = h.
Proof.
  intros (x & Hx & Hp & _)%find_if_Some. exists x. split; [done|].
  unfold find_pred in Hp. bool_hyps. by apply Z.eqb_eq.
Qed.

Lemma interested_static d k a c p :
  static Γ d → k ≠ a → dfind k (services d) = Some c → dfind a (services d) = Some p →
  interestedInDependencyGoingOffline c p ≠ [] →
  static_edge k a (interestedInDependencyGoingOffline c p).
Proof.
  intros [Hsig _ _] Hne Hc Hp Hnil. split_and!; [done..|].
  rewrite <- (Hsig _ _ Hc), <- (Hsig _ _ Hp). apply Forall_forall.
  intros i. unfold interestedInDependencyGoingOffline in *.
  destruct (lm_kind c); [|by intros ?%elem_of_nil..].
  do 2 (case_match; [by intros ?%elem_of_nil|]).
  intros (h & Hh & Hf)%list_elem_of_omap. destruct (find_hash_sat_hash _ _ _ _ Hf) as (node & Hn & <-).
  eexists. split; [|exact Hh]. unfold sig_of. simpl. rewrite list_lookup_fmap.
  change (interfaceNameHash ∘ reg_dep <$> (lm_registry c !! i) = Some (interfaceNameHash (reg_dep node))).
  by rewrite Hn.
Qed.

Lemma addPendingStop_refines svc w :
  static_edge svc (ws_origin w) (ws_deps w) → pres refines (addPendingStop svc w).
Proof.
  intros Hw. apply pres_modify. intros d [Hn [H1 H2 H3]]. split; [|done]. split; [done|].
  split; [done| |done]. simpl. intros k ws [[<- <-]|[? Hk]]%lookup_insert_Some; [|eauto].
  apply Forall_app. split; [|by constructor].
  destruct (pendingDependencies d !! svc) eqn:E; simpl; [by eapply H2|constructor].
Qed.

(** A generator that is no [start()] or [stop()] put into [_scopedGenerators]. *)
Lemma scope_plain_refines pid t svc p c e ref :
  event_static e → frame_svc c = None → pres refines (scopeGenerator pid t svc p c e ref).
Proof.
  intros He Hc d. eapply wlp_mono, (scope_refines Γ d); [|done|].
  - by intros _ d' [? _].
  - rewrite Hc. done.
Qed.

Lemma finishOffline_ok k a deps : static_edge k a deps → ok (finishOffline k a deps).
Proof. intros He d Hi. eapply wlp_mono, finishOffline_spec; [|done..]. by intros _ d' [? _]. Qed.

Lemma offlineStep_ok origin r svc : svc ≠ origin → ok (offlineStep qpush origin r svc).
Proof.
  intros Hne d Hi. unfold offlineStep. do 2 apply ok_find.
  destruct (dfind svc (services d)) as [c|] eqn:Hc; [|apply wlp_terminate].
  destruct (dfind origin (services d)) as [p|] eqn:Hp; [|apply wlp_terminate].
  case_bool_decide as Hnil; [by apply wlp_ret|].
  pose proof (interested_static d svc origin c p (proj2 Hi) Hne Hc Hp Hnil) as He.
  set (deps := interestedInDependencyGoingOffline c p) in *.
  apply ok_bind_silent; [done|pres_auto|]. intros pid d1 _ Hi1.
  apply ok_bind_with; [done|]. eapply wlp_mono, (dependencyOffline_spec Γ). simpl.
  intros [v|k] d2 [Hev Hpl]; (split; [by apply evolves_refines|]); intros Hi2.
  - destruct v; [by apply finishOffline_ok|by apply wlp_ret|apply wlp_terminate|].
    apply ok_bind_silent; [done|pres_auto|]. intros w d3 _ Hi3.
    apply ok_bind_silent; [done|pres_auto|]. intros ? d4 _ Hi4.
    by apply addPendingStop_refines.
  - do 2 (apply ok_bind_silent; [done|pres_auto|]; intros ? ? _ ?). by apply scope_plain_refines.
Qed.

Lemma onDependencyOffline_ok e r : ok (onDependencyOffline qpush e r).
Proof.
  intros d Hi. unfold onDependencyOffline. apply ok_find.
  destruct (dfind (ev_origin e) (services d)) as [m|] eqn:Hm; [|by apply wlp_ret].
  unfold setUninjected, internalSetUninjected. case_bool_decide as Hst; [|by apply wlp_ret]. simpl.
  apply ok_bind_with; [done|]. apply wlp_modify. split.
  { apply move_live_refines; [done| |congruence..|auto]. intros _. rewrite Hst.
    by destruct (lm_kind m). }
  intros Hi1. revert Hi1. generalize (upd_services (dupdate (ev_origin e) (λ _, set_state UNINJECTING m)) d).
  intros d1. revert d1. apply ok_bind.
  - apply pres_ok, pres_for_each; [apply _|]. intros svc Hsvc. apply ok_pres, offlineStep_ok.
    apply (tab_dependees _ (proj1 (proj1 Hi)) _ _ _ Hm Hsvc).
  - intros _. apply ok_bind; [apply pres_ok, silent_refines; pres_auto|]. intros om.
    apply ok_bind; [|intros _; apply pres_ok, pres_ret, _].
    apply pres_ok, pres_when; [apply _|]. intros _.
    pres_step; [by apply evolves_pres_refines, finishWaitingService_evolves|].
    apply silent_refines. pres_auto.
Qed.

(** ** Callbacks *)

Lemma beginCallback_spec svc prio g :
  ev_spec Γ (beginCallback qpush svc prio g)
    (λ r, match r with Some (_, c) => frame_svc c = None | None => True end).
Proof.
  intros d. unfold beginCallback. apply ev_spec_silent; [pres_auto|]. intros pid d1.
  apply ev_spec_silent; [pres_auto|]. intros body d2. apply ev_spec_bind.
  eapply wlp_mono, (runGen_plain Γ). simpl. intros [v|c] d3 [He Hp]; (split; [done|]);
    by apply ev_spec_ret.
Qed.

(** A callback run, and scoped when it suspends. *)
Lemma callback_pres {A} (R : DM → DM → Prop) `{!PreOrder R} svc prio g (f : option (Z * cont) → M DM A) :
  (∀ d d', untouched d d' → R d d') →
  pres R (f None) → (∀ pid c, frame_svc c = None → pres R (f (Some (pid, c)))) →
  pres R (mbind f (beginCallback qpush svc prio g)).
Proof.
  intros HR H1 H2 d. apply wlp_bind.
  eapply wlp_mono, wlp_and, beginCallback_spec; [|apply beginCallback_silent]. simpl.
  intros [[pid c]|] d1 [Hu [_ Hc]]; (eapply wlp_mono; [|by (apply H2; done) || apply H1]); simpl;
    intros _ d2 Hr; (etransitivity; [by apply HR|done]).
Qed.

Lemma untouched_refines d d' : untouched d d' → refines d d'.
Proof. intros. by apply evolves_refines, untouched_evolves. Qed.

Lemma callback_refines {A} svc prio g (f : option (Z * cont) → M DM A) :
  pres refines (f None) → (∀ pid c, frame_svc c = None → pres refines (f (Some (pid, c)))) →
  pres refines (mbind f (beginCallback qpush svc prio g)).
Proof. apply callback_pres; [apply _|apply untouched_refines]. Qed.

Lemma scopeShared_refines e svc prio g ref :
  event_static e → pres refines (scopeShared qpush e svc prio g ref).
Proof.
  intros He. apply callback_refines; [apply pres_ret, _|]. intros pid c Hc.
  pres_step; [apply silent_refines; pres_auto|].
  pres_step; [by apply scope_plain_refines|]. apply pres_ret, _.
Qed.

Lemma onDependencyRequest_refines e dep :
  event_static e → pres refines (onDependencyRequest qpush uc e dep).
Proof.
  intros He. unfold onDependencyRequest. pres_step; [apply silent_refines; pres_auto|].
  pres_step; [|apply pres_ret, _]. generalize (None : option Z).
  match goal with |- ∀ o, pres _ (requestLoop _ _ _ ?l o) => induction l as [|t l IH] end; simpl;
    intros ref; [apply pres_ret, _|]. pres_step; [by apply scopeShared_refines|]. apply IH.
Qed.

Lemma broadcastEvent_refines e : event_static e → pres refines (broadcastEvent qpush uc e).
Proof.
  intros He. unfold broadcastEvent. pres_step; [apply silent_refines; pres_auto|].
  pres_step; [|apply pres_ret, _]. generalize (None : option Z).
  match goal with |- ∀ o, pres _ (broadcastLoop _ _ _ ?l o) => induction l as [|t l IH] end; simpl;
    intros ref; [apply pres_ret, _|]. pres_step; [apply silent_refines; pres_auto|].
  pres_step; [|apply IH]. repeat case_match; try apply pres_ret, _. by apply scopeShared_refines.
Qed.

Lemma onRunFunctionAsync_refines e f : event_static e → pres refines (onRunFunctionAsync qpush uc e f).
Proof.
  intros He. unfold onRunFunctionAsync. pres_step; [apply silent_refines; pres_auto|].
  case_match; [apply pres_ret, _|]. pres_step; [by apply scopeShared_refines|]. apply pres_ret, _.
Qed.

Lemma tracker_requests_static i d e : e ∈ tracker_requests i d → event_static e.
Proof.
  unfold tracker_requests. intros (p & He & _)%list_elem_of_bind.
  apply list_elem_of_bind in He as (r & He & _). case_match; [|set_solver].
  apply list_elem_of_singleton in He as ->. done.
Qed.

Lemma onAddTracker_refines e i : pres refines (onAddTracker qpush uc e i).
Proof.
  intros d. unfold onAddTracker. apply wlp_bind, wlp_gets.
  destruct (list_find _ _) as [[n t]|]; [|by apply wlp_ret]. apply wlp_bind, wlp_gets.
  revert d. intros d. assert (∀ x, x ∈ tracker_requests i d → event_static x) as Hst
    by apply tracker_requests_static. revert Hst. generalize (tracker_requests i d). intros l Hst.
  revert d. apply (pres_bind refines); [|intros _; apply pres_ret, _].
  apply pres_for_each; [apply _|]. intros x Hx. apply callback_refines; [apply pres_ret, _|].
  intros pid c Hc. pres_step; [apply silent_refines; pres_auto|]. apply scope_plain_refines; auto.
Qed.

(** ** Quitting *)

Lemma checkIfCanQuit_refines : pres refines checkIfCanQuit.
Proof.
  intros d. unfold checkIfCanQuit. apply wlp_bind, wlp_get.
  apply wlp_when; intros H1; [|done]. apply wlp_when; intros H2; [|done]. bool_hyps.
  case_match; [apply wlp_terminate|]. case_match; [apply wlp_terminate|].
  do 6 (apply wlp_bind, wlp_modify || apply wlp_modify). intros Hi. pose proof Hi as [Hn [S1 S2 S3]].
  assert (net_step (view d) (mkNet [] (gens d))) as Hstep.
  { apply NQuit; [done|]. apply Forall_forall. intros p Hp. unfold all_services_stopped in H2.
    rewrite forallb_forall in H2. specialize (H2 p (proj1 (list_elem_of_In _ _) Hp)).
    apply orb_true_iff in H2 as [?|?]; bool_hyps; auto. }
  split; [|by apply rtc_once]. split; [by eapply net_ok_step|]. by split.
Qed.

Lemma onQuit_refines e : pres refines (onQuit qpush e).
Proof.
  unfold onQuit. pres_step; [apply silent_refines; pres_auto|]. pres_step; [apply pres_gets, _|].
  pres_step.
  { apply silent_refines. unfold quitStep. pres_auto. }
  pres_step; [apply checkIfCanQuit_refines|apply pres_ret, _].
Qed.

(** ** Inserting and starting services *)

Lemma not_active_after_offer svc d d' :
  states_kept d d' → pre_active svc d → pre_active svc d'.
Proof. intros Hs (m & Hm & Hst). destruct (Hs _ _ Hm) as (m' & ? & E). exists m'. by rewrite E. Qed.

Lemma insertStep_spec d svc prio key :
  Inv d → pre_active svc d →
  wlp (insertStep qpush uc svc prio key) (λ _ d', refines d d' ∧ pre_active svc d') d.
Proof.
  intros Hi Hpre. unfold insertStep. do 2 apply ok_find.
  destruct (dfind svc (services d)) as [c|] eqn:Hc; [|by apply wlp_ret].
  destruct (dfind key (services d)) as [m|] eqn:Hm; [|by apply wlp_ret].
  destruct (_ || _) eqn:Hg; [by apply wlp_ret|]. bool_hyps.
  apply wlp_bind. destruct (filter_of m) as [flt|]; [|apply wlp_terminate]. apply wlp_ret.
  destruct (filtered_out flt c); [by apply wlp_ret|].
  eapply wlp_mono, offer_and_start; [|done|].
  - simpl. intros _ d' (Hr & _ & Hp). auto.
  - right. assert (lm_id m = key) as Hid by apply (tab_lm _ (proj1 (proj1 Hi)) _ _ Hm).
    exists m, m. split_and!; [done| |congruence|done]. rewrite Hid. intros ->.
    destruct Hpre as (c' & Hc' & Hst). rewrite Hm in Hc'. naive_solver congruence.
Qed.

(** An insertion of a new service with the signature of its id. *)
Definition insert_ok (svc : Z) (mgr : lm) (d : DM) : Prop :=
  pristine svc mgr ∧ sig_of mgr = Γ svc ∧ dfind svc (services d) = None.

Lemma insert_refines d svc mgr :
  insert_ok svc mgr d → refines d (upd_services (demplace svc mgr) d).
Proof.
  intros (Hp & Hs & Hn) [Hnet [S1 S2 S3]].
  assert (net_step (view d) (view (upd_services (demplace svc mgr) d))) as Hstep by by apply NInsert.
  split; [|by apply rtc_once]. split; [by eapply net_ok_step|]. split; [|done..]. simpl.
  intros k m. rewrite dfind_demplace. destruct (dfind k (services d)) eqn:E; [naive_solver|].
  case_decide; naive_solver.
Qed.

Lemma onInsertService_spec d e mgr :
  Inv d → insert_ok (ev_origin e) mgr d →
  wlp (onInsertService qpush uc e mgr) (λ _ d', refines d d') d.
Proof.
  intros Hi Hok. unfold onInsertService. apply ok_bind_with; [done|]. apply wlp_modify.
  split; [by apply insert_refines|]. intros Hi1.
  set (svc := ev_origin e) in *. set (d1 := upd_services _ d) in *.
  assert (pre_active svc d1) as Hp1.
  { exists mgr. destruct Hok as ((_ & Hst & _) & _ & Hn). simpl.
    rewrite dfind_demplace, Hn, decide_True by done. auto. }
  apply ok_bind_with; [done|]. eapply wlp_mono, offerDependency_spec; [|by left]. simpl.
  intros b d2 [Hr Hs]. split; [exact Hr|]. intros Hi2.
  assert (pre_active svc d2) as Hp2 by by eapply not_active_after_offer.
  apply ok_bind_with; [done|].
  assert (wlp (when (bool_decide (b = SB_STARTED)) (startAndAnnounce qpush uc svc (ev_priority e)))
            (λ _ d3, refines d2 d3 ∧ pre_active svc d3) d2) as Hstart.
  { apply wlp_when; intros _; [|done]. eapply wlp_mono, startAndAnnounce_spec; [|done]. simpl.
    intros _ d3 (? & _ & Hp). auto. }
  eapply wlp_mono, Hstart. simpl. intros _ d3 [Hr3 Hp3]. split; [done|]. intros Hi3.
  apply ok_find. destruct (dfind svc (services d3)) as [m|]; [|by apply wlp_ret].
  destruct (getDependencyRegistry m) as [[|]|]; [by apply wlp_ret| |by apply wlp_ret].
  apply wlp_bind, wlp_gets, wlp_bind.
  eapply wlp_mono, (for_each_refines (pre_active svc)); [|done..|].
  - simpl. intros _ d4 [? _]. by apply wlp_ret.
  - intros key d4 _ Hi4 Hp4. by apply insertStep_spec.
Qed.

Lemma onStartService_ok e svc : ev_body e = StartServiceEvent svc → ok (onStartService qpush uc e svc).
Proof.
  intros He d Hi. unfold onStartService. apply ok_find.
  destruct (dfind svc (services d)) as [m|] eqn:Hm; [|by apply wlp_ret].
  case_bool_decide as Hact; [by apply wlp_ret|]. destruct (_ || _); [by apply wlp_ret|].
  apply ok_bind_silent; [done|pres_auto|]. intros pid d1 Hu Hi1.
  assert (dfind svc (services d1) = Some m) as Hm1 by by rewrite (untouched_services _ _ Hu).
  apply wlp_bind. eapply wlp_mono, (beginStart_spec Γ); [|done..]. simpl. intros [v|c] d2 Hr.
  - destruct Hr as [Hr _].
    eapply wlp_mono; [|apply (silent_refines Γ); pres_auto]. simpl. intros _ d3 ?. by etransitivity.
  - destruct Hr as (Hst & Hk & Hend & k' & ->).
    apply wlp_bind. eapply wlp_mono, newRef_silent. simpl. intros ref d3 Hu3.
    assert (ended svc STARTING d1 d3) as Hend3.
    { destruct Hu3 as (E1 & E2 & E3). unfold ended in *. rewrite E1, E2, E3. done. }
    apply wlp_bind. eapply wlp_mono; [|eapply (scope_started Γ d1 d3 svc m); try done].
    + simpl. intros _ d4 (? & _). by apply wlp_ret.
    + unfold Refinement.event_static. by rewrite He.
Qed.

(** ** Removing services *)

(** Steps that leave the table alone. *)
Definition same_table (d d' : DM) : Prop := refines d d' ∧ services d' = services d.
#[local] Instance same_table_preorder : PreOrder same_table.
Proof.
  split; [done|]. intros d1 d2 d3 [R1 E1] [R2 E2]. split; [by etransitivity|congruence].
Qed.
Lemma untouched_same_table d d' : untouched d d' → same_table d d'.
Proof. intros Hu. split; [by apply untouched_refines|by apply untouched_services]. Qed.
Lemma silent_same_table {A} (m : M DM A) : pres untouched m → pres same_table m.
Proof. intros Hm d. eapply wlp_mono, Hm. simpl. intros _ d'. apply untouched_same_table. Qed.
Lemma scope_same_table pid t svc p c e ref :
  event_static e → frame_svc c = None → pres same_table (scopeGenerator pid t svc p c e ref).
Proof. intros He Hc d. eapply wlp_mono, (scope_refines Γ d); [done|done|]. rewrite Hc. done. Qed.

Lemma undoStep_same_table e t n : event_static e →
  (∀ d o p b, ev_body e = b → event_static (mkEvent d o p b)) →
  pres same_table (undoStep qpush uc e t n).
Proof.
  intros He He'. unfold undoStep. pres_step; [apply silent_same_table; pres_auto|].
  case_match; [|apply pres_terminate]. case_match; [apply pres_ret, _|].
  apply callback_pres; [apply _|apply untouched_same_table|apply pres_ret, _|].
  intros pid c Hc. do 2 (pres_step; [apply silent_same_table; pres_auto|]).
  pres_step; [apply scope_same_table; auto|apply pres_ret, _].
Qed.

Lemma undoRequest_same_table svc r : pres same_table (undoRequest qpush uc svc r).
Proof.
  unfold undoRequest. pres_step; [apply silent_same_table; pres_auto|].
  do 5 (pres_step; [apply silent_same_table; pres_auto|]).
  pres_step; [|apply silent_same_table; pres_auto].
  match goal with |- pres _ (undoLoop _ _ ?e ?l ?n) =>
    generalize n; induction l as [|t l IH]; intros n0; simpl end; [apply pres_ret, _|].
  pres_step; [|apply IH]. apply undoStep_same_table; [done|]. intros ? ? ? ? <-. done.
Qed.

(** Service [svc], if it is there, is INSTALLED. *)
Definition installed (svc : Z) (d : DM) : Prop :=
  ∀ m, dfind svc (services d) = Some m → lm_state m = INSTALLED.

Lemma remove_refines d svc m :
  dfind svc (services d) = Some m → lm_state m = INSTALLED → lm_dependees m = [] →
  getDependencies m = [] → refines d (upd_services (derase svc) d).
Proof.
  intros Hm Hst Hd Hi Hinv. pose proof (tab_wf _ (proj1 (proj1 Hinv))) as Hwf. revert Hinv.
  apply services_refines; [by eapply rtc_once, NRemove|].
  intros k m'. rewrite dfind_derase by done. case_decide; [done|eauto].
Qed.

Lemma removeInternalService_spec d svc :
  Inv d → installed svc d → wlp (removeInternalService qpush uc svc) (λ _ d', refines d d') d.
Proof.
  intros Hi Hins. unfold removeInternalService. apply ok_find.
  destruct (dfind svc (services d)) as [m|] eqn:Hm; [|apply wlp_terminate].
  apply wlp_bind, wlp_gets. case_bool_decide as Hd; [|apply wlp_terminate].
  case_bool_decide as Hg; [|apply wlp_terminate]. simpl.
  case_match; [apply wlp_terminate|]. apply wlp_bind.
  eapply wlp_mono; [|apply (pres_for_each same_table); intros r _; apply undoRequest_same_table].
  simpl. intros _ d1 [Hr Hs]. apply wlp_bind, wlp_modify, wlp_modify.
  etransitivity; [exact Hr|]. set (d2 := upd_trackers _ d1). etransitivity.
  - apply (untouched_refines d1 d2). done.
  - apply (remove_refines d2 svc m); [simpl; by rewrite Hs|by apply Hins|done..].
Qed.

Lemma onRemoveService_ok svc : ok (onRemoveService qpush uc svc).
Proof.
  intros d Hi. unfold onRemoveService. apply ok_find.
  destruct (dfind svc (services d)) as [m|] eqn:Hm; [|by apply wlp_ret].
  destruct (_ || _) eqn:Hg; [by apply wlp_ret|]. bool_hyps. apply wlp_bind.
  eapply wlp_mono, removeInternalService_spec; [|done|].
  - simpl. intros _ d' Hr. by apply wlp_ret.
  - intros m' Hm'. congruence.
Qed.

(** ** Stopping services *)

Lemma states_kept_installed svc d d' :
  states_kept d d' → is_Some (dfind svc (services d)) → installed svc d →
  is_Some (dfind svc (services d')) ∧ installed svc d'.
Proof.
  intros Hs [m Hm] Hi. destruct (Hs _ _ Hm) as (m' & Hm' & E). split; [by eexists|].
  intros m2 Hm2. assert (m2 = m') as -> by congruence. rewrite E. by apply Hi.
Qed.

Lemma leave_loop d k deps :
  wlp (for_each deps (λ a, modService a (λ p, set_dependees (serase k (lm_dependees p)) p)))
    (λ _ d', services d' = leave_deps k deps (services d) ∧ gens d' = gens d ∧
             pendingDependencies d' = pendingDependencies d) d.
Proof.
  revert d. induction deps as [|a deps IH]; intros d; [done|]. apply wlp_bind, wlp_modify.
  eapply wlp_mono, IH. simpl. done.
Qed.

Lemma leave_refines d d' k m :
  dfind k (services d) = Some m → lm_state m = INSTALLED →
  services d' = leave k m (services d) → gens d' = gens d →
  pendingDependencies d' = pendingDependencies d → refines d d'.
Proof.
  intros Hm Hst Hs Hg Hp. transitivity (upd_services (leave k m) d).
  - intros Hi. pose proof (tab_lm _ (proj1 (proj1 Hi)) _ _ Hm) as Hok.
    assert (NoDup (getDependencies m)) as Hnd
      by (erewrite getDependencies_injected by done; apply Hok).
    revert Hi. apply services_refines; [by eapply rtc_once, NLeave|].
    intros x mx. rewrite dfind_leave by done. destruct (dfind x (services d)) as [p|]; [|done].
    intros [= <-]. exists p. split; [done|]. unfold left_by. by repeat case_decide.
  - by apply untouched_refines.
Qed.

Lemma pendingStep_spec d e svc w :
  Inv d → static_edge svc (ws_origin w) (ws_deps w) →
  is_Some (dfind svc (services d)) ∧ installed svc d →
  wlp (pendingStep qpush e svc w)
    (λ _ d', refines d d' ∧ is_Some (dfind svc (services d')) ∧ installed svc d') d.
Proof.
  intros Hi He [Hsome Hins]. unfold pendingStep. apply ok_find.
  destruct (dfind (ws_origin w) (services d)); [|apply wlp_terminate].
  apply wlp_bind. eapply wlp_mono, finishOffline_spec; [|done..]. simpl. intros _ d1 [Hr Hs].
  apply wlp_bind, wlp_gets.
  eapply wlp_mono; [|apply (silent_same_table); pres_auto]. simpl. intros _ d2 [Hr2 Hs2].
  split; [by etransitivity|]. unfold installed. rewrite Hs2. by eapply states_kept_installed.
Qed.

Lemma finishStop_spec d e svc r :
  Inv d → is_Some (dfind svc (services d)) → installed svc d →
  wlp (finishStop qpush uc e svc r) (λ _ d', refines d d') d.
Proof.
  intros Hi Hsome Hins. unfold finishStop. apply wlp_bind, wlp_gets.
  apply ok_bind_with; [done|].
  eapply wlp_mono, (for_each_refines (λ d, is_Some (dfind svc (services d)) ∧ installed svc d));
    [|done|done|].
  2: { intros w d1 Hw Hi1 Hp1. apply pendingStep_spec; [done| |done].
       destruct (pendingDependencies d !! svc) as [ws|] eqn:Hws; simpl in Hw; [|set_solver].
       pose proof (st_pend _ _ (proj2 Hi) _ _ Hws) as Hall. rewrite Forall_forall in Hall. auto. }
  simpl. intros _ d1 [Hr [Hsome1 Hins1]]. split; [done|]. intros Hi1.
  apply ok_bind_with; [done|]. apply wlp_modify. split.
  { intros [Hn [S1 S2 S3]]. split; [|done]. split; [done|]. split; [done| |done]. simpl.
    intros k ws [_ Hk]%lookup_delete_Some. eauto. }
  intros Hi2. set (d2 := upd_pendingDependencies _ d1) in *. apply ok_find.
  destruct Hsome1 as [m Hm]. replace (dfind svc (services d2)) with (Some m) by done.
  apply wlp_bind. eapply wlp_mono, leave_loop. simpl. intros _ d3 (E1 & E2 & E3).
  apply wlp_bind, wlp_modify. set (d4 := upd_services _ d3).
  assert (refines d2 d4) as Hr4.
  { eapply (leave_refines d2 d4 svc m); [done|by apply Hins1| | |done]; simpl; unfold leave; congruence. }
  assert (Inv d4) as Hi4 by by apply Hr4.
  assert (installed svc d4) as Hins4.
  { intros m4. simpl. rewrite E1. fold (leave svc m (services d1)). rewrite dfind_leave.
    - rewrite Hm. intros [= <-]. unfold left_by. repeat case_decide; apply (Hins1 _ Hm).
    - pose proof (tab_lm _ (proj1 (proj1 Hi1)) _ _ Hm) as Hok.
      erewrite getDependencies_injected by done. apply Hok. }
  apply wlp_bind. eapply wlp_mono, clearServiceRegistrations_silent. simpl. intros _ d5 Hu.
  assert (refines d2 d5) as Hr5 by (etransitivity; [done|by apply untouched_refines]).
  apply wlp_when; intros _; [|done].
  eapply wlp_mono, removeInternalService_spec.
  - simpl. intros _ d6 Hr6. by etransitivity.
  - by eapply untouched_inv.
  - intros m5. rewrite (untouched_services _ _ Hu). apply Hins4.
Qed.

Lemma beginStop_spec d svc pid m :
  Inv d → dfind svc (services d) = Some m → lm_state m = UNINJECTING → lm_dependees m = [] →
  wlp (beginStop qpush uc svc pid)
    (λ r d', match r with
             | inl _ => refines d d'
             | inr c => lm_kind m ≠ KInternal ∧ ended svc STOPPING d d' ∧ ∃ k', c = CStop svc k'
             end) d.
Proof.
  intros Hi Hm Hst Hd. unfold beginStop. apply ok_find. rewrite Hm.
  assert (no_frame svc (gens d)) as Hn by (eapply inv_no_frame; [done..| |]; congruence).
  destruct (bool_decide (lm_kind m = KInternal)) eqn:Hk; bool_hyps.
  - rewrite Hk. apply wlp_bind, wlp_modify, wlp_ret.
    eapply move_refines; [done|by rewrite Hk, Hst|done|auto].
  - assert (wlp (m' ← liftOutcome (internal_stop_begin m); modService svc (λ _, m');;
                 (k ← gets (uc_stop uc svc); runStop qpush svc pid k))
      (λ r d', match r with
             | inl _ => refines d d'
             | inr c => lm_kind m ≠ KInternal ∧ ended svc STOPPING d d' ∧ ∃ k', c = CStop svc k'
             end) d) as Hreal.
    { unfold internal_stop_begin. rewrite bool_decide_true by done.
      apply wlp_bind, wlp_ret, wlp_bind, wlp_modify, wlp_bind, wlp_gets.
      rewrite (upd_services_const d svc (set_state STOPPING) m) by done.
      eapply wlp_mono, runStop_spec. simpl. intros [v|c] d' Hr.
      - transitivity (upd_services (dupdate svc (set_state STOPPING)) d).
        { eapply move_refines; [done| |done|auto]. rewrite Hst. by destruct (lm_kind m). }
        etransitivity; [|by apply untouched_refines, ended_untouched].
        eapply (move_refines _ _ _ (set_state STOPPING m)); [| |done|auto].
        + simpl. by rewrite dfind_dupdate, decide_True, Hm.
        + simpl. by destruct (lm_kind m).
      - destruct Hr as [(E1 & E2 & E3) Hc]. unfold ended. rewrite E1, E2, E3. done. }
    destruct (lm_kind m); [exact Hreal..|done].
Qed.

(** A suspended stop put into [_scopedGenerators]. *)
Lemma scope_stopping d d1 svc m pid t p k e ref :
  Inv d → dfind svc (services d) = Some m → lm_state m = UNINJECTING → lm_dependees m = [] →
  lm_kind m ≠ KInternal → ended svc STOPPING d d1 → event_static e →
  wlp (scopeGenerator pid t svc p (CStop svc k) e ref) (λ _ d', refines d d') d1.
Proof.
  intros Hi Hm Hst Hd Hk Hend He.
  assert (no_frame svc (gens d)) as Hn by (eapply inv_no_frame; [done..| |]; congruence).
  assert (refines d d1) as Hr1.
  { etransitivity; [|by apply untouched_refines, ended_untouched].
    eapply move_refines; [done| |done|auto]. rewrite Hst. by destruct (lm_kind m). }
  eapply wlp_mono, scope_refines; [|done|].
  - simpl. intros _ d2 [Hr _]. by etransitivity.
  - destruct Hend as (E1 & E2 & _). rewrite E1, E2. intros _ x st [= <- <-]. split; [done|].
    exists (set_state STOPPING m). by rewrite dfind_dupdate, decide_True, Hm.
Qed.

(** The part of the StopServiceEvent handler that calls [stop()]. *)
Lemma stop_now_ok d e svc r pid m :
  Inv d → dfind svc (services d) = Some m → lm_state m = UNINJECTING → lm_dependees m = [] →
  event_static e →
  wlp (res ← beginStop qpush uc svc pid;
       match res with
       | inr c => ref ← newRef;
           scopeGenerator pid GStartBehaviour svc (depPriority (getPriority m)) c e ref;; mret true
       | inl _ => om ← findService svc;
           if bool_decide (lm_state <$> om = Some INSTALLED)
           then finishStop qpush uc e svc r;; checkIfCanQuit;; mret false
           else terminate
       end) (λ _ d', refines d d') d.
Proof.
  intros Hi Hm Hst Hd He. apply wlp_bind. eapply wlp_mono, beginStop_spec; [|done..]. simpl.
  intros [v|c] d1 Hr.
  - apply ok_find. case_bool_decide as Hin; [|apply wlp_terminate].
    destruct (dfind svc (services d1)) as [m1|] eqn:Hm1; simplify_eq/=.
    assert (Inv d1) as Hi1 by by apply Hr.
    apply wlp_bind. eapply wlp_mono, finishStop_spec; [|done|by eexists|intros ?; congruence].
    simpl. intros _ d2 Hr2. apply wlp_bind. eapply wlp_mono, checkIfCanQuit_refines. simpl.
    intros _ d3 Hr3. apply wlp_ret. etransitivity; [done|]. by etransitivity.
  - destruct Hr as (Hk & Hend & k' & ->). apply wlp_bind. eapply wlp_mono, newRef_silent. simpl.
    intros ref d2 Hu. apply wlp_bind.
    assert (ended svc STOPPING d d2) as Hend2.
    { destruct Hu as (E1 & E2 & E3). unfold ended in *. rewrite E1, E2, E3. done. }
    eapply wlp_mono; [|by eapply (scope_stopping d d2 svc m)]. simpl. intros _ d3 ?. by apply wlp_ret.
Qed.

Lemma onStopService_ok e svc r : event_static e → ok (onStopService qpush uc e svc r).
Proof.
  intros He d Hi. unfold onStopService. apply ok_find.
  destruct (dfind svc (services d)) as [m|] eqn:Hm; [|by apply wlp_ret].
  destruct (_ || _); [by apply wlp_ret|]. apply wlp_bind, wlp_gets.
  destruct (_ && _); [by apply wlp_ret|]. apply ok_bind_with; [done|].
  eapply wlp_mono; [|apply pres_when; [apply evolves_preorder|]; intros _;
    apply pres_bind; [apply _|apply (finishWaitingService_evolves Γ)|]; intros _; apply pres_ret, _].
  simpl. intros _ d1 Hev. split; [by apply evolves_refines|]. intros Hi1.
  apply wlp_bind, wlp_gets. case_match.
  - apply (silent_refines Γ). pres_auto.
  - apply ok_find. destruct (dfind svc (services d1)) as [m'|] eqn:Hm'; [|apply wlp_terminate].
    destruct (_ && _) eqn:Hg; bool_hyps.
    + apply ok_bind_silent; [done|pres_auto|]. intros _ d2 Hu2 Hi2.
      apply ok_bind_silent; [done|pres_auto|]. intros pid d3 Hu3 Hi3.
      assert (dfind svc (services d3) = Some m') as Hm3
        by by rewrite (untouched_services _ _ Hu3), (untouched_services _ _ Hu2).
      by apply stop_now_ok.
    + apply (silent_refines Γ). pres_auto.
Qed.

(** ** Coroutines that have finished *)

Lemma collect_refines pid : pres refines (modify (upd_gens (delete pid))).
Proof.
  apply pres_modify. intros d. apply gens_refines; [apply rtc_once, NCollect|].
  intros q g [_ Hq]%lookup_delete_Some. eauto.
Qed.

Lemma collectGenerator_refines pid g : pres refines (collectGenerator qpush pid g).
Proof.
  unfold collectGenerator. pres_step; [apply silent_refines; pres_auto|].
  pres_step; [apply pres_when; [apply _|]; intros _;
    apply evolves_pres_refines, handleEventCompletion_evolves|].
  do 2 (pres_step; [apply silent_refines; pres_auto|]). apply collect_refines.
Qed.

Lemma onContinuable_refines pid : pres refines (onContinuable qpush pid).
Proof.
  intros d. unfold onContinuable. apply wlp_bind, wlp_gets.
  destruct (gens d !! pid) as [g|] eqn:Hg; [|by apply wlp_ret]. revert d Hg. intros d Hg.
  revert d Hg. cut (pres refines (match sg_cont g with
      | CDone _ => collectGenerator qpush pid g
      | CYielded _ => r ← runFrame qpush pid g; storeFrame qpush pid g r;;
                      match r with inl _ => collectGenerator qpush pid g | inr _ => mret () end
      | _ => mret () end)).
  - intros Hm d _. apply wlp_bind. eapply wlp_mono, Hm. simpl. intros _ d1 Hr.
    apply wlp_bind. eapply wlp_mono, checkIfCanQuit_refines. simpl. intros _ d2 Hr2.
    apply wlp_ret. by etransitivity.
  - destruct (sg_cont g) as [| | | |body|v] eqn:Hc; try apply pres_ret, _; [|apply collectGenerator_refines].
    intros d. unfold runFrame. rewrite Hc. apply wlp_bind. eapply wlp_mono, (runGen_plain Γ). simpl.
    intros r d1 [Hev Hpl]. apply wlp_bind. eapply wlp_mono, (storeFrame_plain Γ), Hpl. simpl.
    intros _ d2 Hev2. assert (refines d d2) as Hr by (apply evolves_refines; by etransitivity).
    destruct r; [|by apply wlp_ret]. eapply wlp_mono, collectGenerator_refines. simpl.
    intros _ d3 ?. by etransitivity.
Qed.

Lemma completion_refines id : pres refines (handleEventCompletion qpush id).
Proof. apply evolves_pres_refines, handleEventCompletion_evolves. Qed.

Lemma continueStop_ok orig pid svc r : ok (continueStop qpush uc orig pid svc r).
Proof.
  intros d Hi. unfold continueStop. apply ok_find.
  destruct (dfind svc (services d)) as [m|] eqn:Hm; [|apply wlp_terminate].
  case_bool_decide as Hst; [|apply wlp_terminate]. simpl. case_match; [apply wlp_terminate|].
  apply ok_bind_with; [done|].
  eapply wlp_mono, finishStop_spec; [|done|by eexists|intros ?; congruence].
  simpl. intros _ d1 Hr. split; [done|]. intros _. revert d1 Hr. intros d1 _. revert d1.
  apply (pres_bind refines); [apply completion_refines|]. intros _.
  apply (pres_bind refines); [apply collect_refines|]. intros _. apply checkIfCanQuit_refines.
Qed.

Lemma continueOffline_ok e orig v off r deps :
  static_edge (ev_origin orig) off deps → ok (continueOffline qpush e orig v off r deps).
Proof.
  intros He. unfold continueOffline.
  do 2 (apply ok_bind; [apply pres_ok, silent_refines; pres_auto|]; intros ?).
  case_match; [|apply pres_ok, pres_terminate]. case_match; [|apply pres_ok, pres_terminate].
  apply ok_bind; [|intros _; apply pres_ok, completion_refines]. case_bool_decide.
  - apply pres_ok. do 2 (pres_step; [apply silent_refines; pres_auto|]).
    by apply addPendingStop_refines.
  - apply ok_bind; [by apply finishOffline_ok|]. intros _. apply pres_ok.
    pres_step; [apply silent_refines; pres_auto|]. apply pres_when; [apply _|]. intros _.
    pres_step; [apply silent_refines; pres_auto|].
    pres_step; [apply evolves_pres_refines, finishWaitingService_evolves|apply pres_ret, _].
Qed.

Lemma onContinuableStart_ok e pid : ok (onContinuableStart qpush uc e pid).
Proof.
  intros d Hi. unfold onContinuableStart. apply wlp_bind, wlp_gets.
  destruct (gens d !! pid) as [g|] eqn:Hg; [|by apply wlp_ret].
  pose proof (st_gens _ _ (proj2 Hi) _ _ Hg) as Hst. unfold Refinement.event_static in Hst.
  revert d Hi Hg. intros d Hi _. revert d Hi. apply ok_bind; [|intros _; apply pres_ok, pres_ret, _].
  destruct (sg_cont g); try apply pres_ok, pres_ret, _.
  assert (∀ m : M DM (), ok m → ok (m;; modify (upd_gens (delete pid)))) as Hdel.
  { intros m Hm. apply ok_bind; [done|]. intros _. apply pres_ok, collect_refines. }
  destruct (ev_body (sg_event g)); try apply pres_ok, pres_terminate.
  - apply Hdel, pres_ok. unfold continueOnline.
    pres_step; [apply silent_refines; pres_auto|apply completion_refines].
  - apply continueStop_ok.
  - apply Hdel, pres_ok. unfold continueStart.
    do 3 (pres_step; [apply silent_refines; pres_auto|]). apply completion_refines.
  - by apply Hdel, continueOffline_ok.
Qed.

(** ** processEvent *)

(** What the manager relies on when it takes an event from the queue: an
    inserted service is new, and events that only the manager stores do not
    come from the outside. *)
Definition event_ok (e : Event) (d : DM) : Prop :=
  match ev_body e with
  | InsertServiceEvent mgr => insert_ok (ev_origin e) mgr d
  | _ => event_static e
  end.

Lemma event_ok_static e d : event_ok e d → event_static e.
Proof. unfold event_ok, Refinement.event_static. by destruct (ev_body e). Qed.

Lemma handled_wlp m Q d : wlp m (λ _, Q) d → wlp (handled m) (λ _, Q) d.
Proof. intros Hm. apply wlp_bind. eapply wlp_mono, Hm. simpl. auto. Qed.

Lemma dispatch_spec d e : Inv d → event_ok e d → wlp (dispatch qpush uc e) (λ _ d', refines d d') d.
Proof.
  intros Hi He. pose proof (event_ok_static _ _ He) as Hst. unfold dispatch.
  destruct (ev_body e) eqn:Hb; try apply handled_wlp.
  - by apply onDependencyOnline_ok.
  - by apply onDependencyOffline_ok.
  - by apply onDependencyRequest_refines.
  - by apply broadcastEvent_refines.
  - apply onQuit_refines.
  - by apply onStopService_ok.
  - by apply onStartService_ok.
  - by apply onRemoveService_ok.
  - by apply broadcastEvent_refines.
  - apply (silent_refines Γ). unfold onRemoveEventHandler. pres_auto.
  - apply (silent_refines Γ). unfold onRemoveEventInterceptor. pres_auto.
  - apply onAddTracker_refines.
  - apply (silent_refines Γ). unfold onRemoveTracker. pres_auto.
  - apply onContinuable_refines.
  - by apply onContinuableStart_ok.
  - by apply broadcastEvent_refines.
  - unfold event_ok in He. rewrite Hb in He. by apply onInsertService_spec.
  - apply (silent_refines Γ). unfold onRunFunction. pres_auto.
  - by apply onRunFunctionAsync_refines.
  - by apply broadcastEvent_refines.
Qed.

Lemma interceptGroup_silent present key store e allow :
  (∀ l d, untouched d (store l d)) → pres untouched (interceptGroup qpush uc present key store e allow).
Proof. intros Hs. unfold interceptGroup. pres_auto. Qed.

(** Interceptors cannot touch the table, so an event is still good after them. *)
Lemma event_ok_untouched e d d' : untouched d d' → event_ok e d → event_ok e d'.
Proof. intros (Hs & _). unfold event_ok, insert_ok. by rewrite Hs. Qed.

Lemma processEvent_refines e d :
  Inv d → event_ok e d → wlp (processEvent qpush uc e) (λ _ d', refines d d') d.
Proof.
  intros Hi He. unfold processEvent. apply wlp_bind, wlp_gets. case_match; [by apply wlp_ret|].
  case_match; [apply wlp_terminate|]. do 2 apply wlp_bind, wlp_gets.
  apply ok_bind_silent; [done|by apply interceptGroup_silent|]. intros allow1 d1 Hu1 Hi1.
  apply ok_bind_silent; [done|by apply interceptGroup_silent|]. intros allow d2 Hu2 Hi2.
  apply ok_bind_with; [done|].
  assert (wlp (if (allow : bool) then dispatch qpush uc e else mret (1, false))
            (λ _ d', refines d2 d') d2) as Hdis.
  { destruct allow; [|by apply wlp_ret]. apply dispatch_spec; [done|].
    by eapply event_ok_untouched, event_ok_untouched. }
  eapply wlp_mono, Hdis. simpl. intros r d3 Hr3. split; [done|]. intros _.
  revert d3 Hr3. intros d3 _. revert d3.
  do 4 (apply (pres_bind refines); [apply silent_refines; pres_auto|intros ?]).
  apply pres_when; [apply _|]. intros _. apply completion_refines.
Qed.
End handlers.
