(* ===== verification/Bookkeeping.v ===== *)
(** * Bookkeeping: what the manager pushes, and when it has quit

    A walk over all functions of the manager, once, for any relation between
    states that is kept by taking an event id, with or without pushing a
    well-formed event under it, and by every update that concerns neither the
    queue nor the ids nor the quit flag ([Bookkeeping]).  Instances: the events in
    the queue stay well-formed, their ids stay distinct, and only
    [checkIfCanQuit] sets [_quitDone]. *)

From S2P Require Import Prelude DenseMap Register Lifecycle Heap Events Manager Dispatch Network Refinement.
From stdpp Require Import base list gmap.
From Stdlib Require Import ZArith Lia.

Open Scope Z_scope.

(** Events the manager pushes: an inserted manager is fresh from its
    constructor; [ContinuableDependencyOfflineEvent]s are stored, never pushed. *)
Definition event_wf (e : Event) : Prop :=
  match ev_body e with
  | InsertServiceEvent mgr => pristine (ev_origin e) mgr
  | ContinuableDependencyOfflineEvent _ _ _ => False
  | _ => True
  end.

Class Bookkeeping (qpush : list Event → Event → list Event) (R : DM → DM → Prop) : Prop := {
  bk_preorder :: PreOrder R;
  bk_fields d d' :
    queue d' = queue d → quitDone d' = quitDone d → nextEventId d' = nextEventId d → R d d';
  bk_next d : R d (upd_nextEventId Z.succ d);
  bk_push d e : event_wf e → ev_id e = wrap64 (nextEventId d) →
    R d (upd_queue (λ q, qpush q e) (upd_nextEventId Z.succ d));
}.

Section walk.
Context (qpush : list Event → Event → list Event) (uc : UserCode).
Context (R : DM → DM → Prop) `{!Bookkeeping qpush R}.

Lemma bk_modify f :
  (∀ d, queue (f d) = queue d ∧ quitDone (f d) = quitDone d ∧ nextEventId (f d) = nextEventId d) →
  pres R (modify f).
Proof. intros Hf. apply pres_modify. intros d. destruct (Hf d) as (? & ? & ?). by apply bk_fields. Qed.

(** Takes a function apart; field updates are discharged by computation. *)
Ltac bk_auto :=
  repeat first [ match goal with |- pres _ (modify _) => apply bk_modify; by intros ? end
               | pres_step ].

Lemma pushPrioritisedEvent_bk origin priority b :
  (∀ id, event_wf (mkEvent id origin priority b)) → pres R (pushPrioritisedEvent qpush origin priority b).
Proof.
  intros Hb d. unfold pushPrioritisedEvent. unfold wlp. simpl. by apply bk_push; [apply Hb|].
Qed.
Lemma push_bk origin priority b :
  (∀ id, event_wf (mkEvent id origin priority b)) → pres R (Manager.push qpush origin priority b).
Proof. intros Hb. unfold Manager.push. pres_step; [by apply pushPrioritisedEvent_bk|]. bk_auto. Qed.

(** The functions that only read or count. *)
Lemma getNextEventId_bk : pres R getNextEventId.
Proof. intros d. unfold wlp. simpl. apply bk_next. Qed.
Lemma newPromiseId_bk : pres R newPromiseId.
Proof. intros d. unfold wlp. simpl. by apply bk_fields. Qed.
Lemma newRef_bk : pres R newRef.
Proof. intros d. unfold wlp. simpl. by apply bk_fields. Qed.
Lemma findService_bk id : pres R (findService id).
Proof. apply pres_gets, _. Qed.
Lemma modService_bk id f : pres R (modService id f).
Proof. unfold modService. bk_auto. Qed.
Lemma liftOutcome_bk {A} (o : outcome A) : pres R (liftOutcome o).
Proof. unfold liftOutcome. bk_auto. Qed.
Lemma take_waiters_bk svc ty : pres R (take_waiters svc ty).
Proof.
  intros d. unfold take_waiters, wlp. destruct (dependencyWaiters d !! svc); by apply bk_fields.
Qed.
Hint Resolve getNextEventId_bk newPromiseId_bk newRef_bk findService_bk modService_bk
  liftOutcome_bk take_waiters_bk : ichor_pres.
(** Pushes of events without conditions. *)
Hint Extern 1 (pres _ (Manager.push _ _ _ _)) =>
  apply push_bk; intros ?; exact I : ichor_pres.

Lemma spec_manager_pristine id spec : pristine id (spec_manager id spec).
Proof. unfold spec_manager. destruct (spec_deps spec); split_and!; done. Qed.

Lemma internalCreateServiceManager_bk spec : pres R (internalCreateServiceManager qpush spec).
Proof.
  unfold internalCreateServiceManager. pres_step; [apply pres_gets, _|].
  repeat first [ apply push_bk; intros ?; exact (spec_manager_pristine _ _)
               | match goal with |- pres _ (modify _) => apply bk_modify; by intros ? end
               | pres_step ].
Qed.
Lemma user_event_wf id origin priority u : event_wf (mkEvent id origin priority (user_event_body u)).
Proof. by destruct u. Qed.
Lemma runAction_bk a : pres R (runAction qpush a).
Proof.
  destruct a; simpl; unfold registerEventHandler, registerEventInterceptor, registerDependencyTracker;
    repeat first [ apply push_bk; intros ?; apply user_event_wf
                 | apply internalCreateServiceManager_bk
                 | match goal with |- pres _ (modify _) => apply bk_modify; by intros ? end
                 | pres_step ].
Qed.
Hint Resolve runAction_bk : ichor_pres.
Lemma runActions_bk l : pres R (runActions qpush l).
Proof. unfold runActions. bk_auto. Qed.
Lemma waitForService_bk pid svc ty : pres R (waitForService pid svc ty).
Proof. unfold waitForService. bk_auto. Qed.
Lemma pushPrioritisedEventAsync_bk pid origin priority coalesce u :
  pres R (pushPrioritisedEventAsync qpush pid origin priority coalesce (user_event_body u)).
Proof.
  unfold pushPrioritisedEventAsync.
  repeat first [ apply pushPrioritisedEvent_bk; intros ?; apply user_event_wf
               | match goal with |- pres _ (modify _) => apply bk_modify; by intros ? end
               | pres_step ].
Qed.
Hint Resolve runActions_bk waitForService_bk pushPrioritisedEventAsync_bk : ichor_pres.

(** Coroutines. *)
Lemma runUser_bk {A} pid (k : ucoro A) : pres R (runUser qpush pid k).
Proof. induction k; simpl; bk_auto. Qed.
Hint Resolve runUser_bk : ichor_pres.
Lemma runGen_bk svc priority pid g : pres R (runGen qpush svc priority pid g).
Proof. destruct g; simpl; bk_auto. Qed.
Lemma runStart_bk svc pid after k : pres R (runStart qpush svc pid after k).
Proof. unfold runStart. bk_auto. Qed.
Lemma runStop_bk svc pid k : pres R (runStop qpush svc pid k).
Proof. unfold runStop. bk_auto. Qed.
Hint Resolve runGen_bk runStart_bk runStop_bk : ichor_pres.
Lemma beginStart_bk svc after pid : pres R (beginStart qpush uc svc after pid).
Proof. unfold beginStart. bk_auto. Qed.
Lemma beginStop_bk svc pid : pres R (beginStop qpush uc svc pid).
Proof. unfold beginStop. bk_auto. Qed.
Lemma depOffline_decide_bk svc : pres R (depOffline_decide svc).
Proof. unfold depOffline_decide. bk_auto. Qed.
Hint Resolve depOffline_decide_bk : ichor_pres.
Lemma depOffline_stop_bk svc pid required rest interested ret next :
  (∀ i r, pres R (next i r)) →
  pres R (depOffline_stop qpush svc pid required rest interested ret next).
Proof. intros Hn. unfold depOffline_stop. bk_auto. Qed.
Lemma depOffline_loop_bk svc pid deps i r : pres R (depOffline_loop qpush svc pid deps i r).
Proof.
  revert i r. induction deps as [|n deps IH]; intros i r; simpl; bk_auto.
  apply depOffline_stop_bk. auto.
Qed.
Hint Resolve depOffline_stop_bk depOffline_loop_bk : ichor_pres.
Lemma dependencyOffline_bk svc p deps pid : pres R (dependencyOffline qpush svc p deps pid).
Proof. unfold dependencyOffline. bk_auto. Qed.
Lemma resumeDepOffline_bk svc pid stage rest i r :
  pres R (resumeDepOffline qpush svc pid stage rest i r).
Proof. unfold resumeDepOffline. bk_auto. Qed.
Hint Resolve beginStart_bk beginStop_bk dependencyOffline_bk resumeDepOffline_bk : ichor_pres.
Lemma runFrame_bk pid g : pres R (runFrame qpush pid g).
Proof. unfold runFrame. bk_auto. Qed.
Lemma storeFrame_bk pid g r : pres R (storeFrame qpush pid g r).
Proof. unfold storeFrame, continuation_event. bk_auto; apply push_bk; intros ?; by destruct (sg_type g). Qed.
Hint Resolve runFrame_bk storeFrame_bk : ichor_pres.
Lemma resume_bk pid : pres R (resume qpush pid).
Proof. unfold resume. bk_auto. Qed.
Hint Resolve resume_bk : ichor_pres.
Lemma scopeGenerator_bk pid t svc p c e ref : pres R (scopeGenerator pid t svc p c e ref).
Proof. unfold scopeGenerator. bk_auto. Qed.
Lemma handleEventCompletion_bk id : pres R (handleEventCompletion qpush id).
Proof. unfold handleEventCompletion. bk_auto. Qed.
Lemma finish_rounds_bk fuel svc ty ret : pres R (finish_rounds qpush fuel svc ty ret).
Proof. revert ret. induction fuel; intros ret; simpl; bk_auto. Qed.
Hint Resolve scopeGenerator_bk handleEventCompletion_bk finish_rounds_bk : ichor_pres.
Lemma finishWaitingService_bk svc ty : pres R (finishWaitingService qpush svc ty).
Proof. unfold finishWaitingService. bk_auto. Qed.
Lemma clearServiceRegistrations_bk svc : pres R (clearServiceRegistrations svc).
Proof. unfold clearServiceRegistrations. bk_auto. Qed.
Hint Resolve finishWaitingService_bk clearServiceRegistrations_bk : ichor_pres.

(** Handlers that cannot quit. *)
Lemma startAndAnnounce_bk svc prio : pres R (startAndAnnounce qpush uc svc prio).
Proof. unfold startAndAnnounce. bk_auto. Qed.
Lemma offerDependency_bk svc prov : pres R (offerDependency svc prov).
Proof. unfold offerDependency. bk_auto. Qed.
Hint Resolve startAndAnnounce_bk offerDependency_bk : ichor_pres.
Lemma onDependencyOnline_bk e : pres R (onDependencyOnline qpush uc e).
Proof. unfold onDependencyOnline, onlineStep. bk_auto. Qed.
Lemma finishOffline_bk k a deps : pres R (finishOffline k a deps).
Proof. unfold finishOffline. bk_auto. Qed.
Lemma addPendingStop_bk svc w : pres R (addPendingStop svc w).
Proof. unfold addPendingStop. bk_auto. Qed.
Hint Resolve finishOffline_bk addPendingStop_bk : ichor_pres.
Lemma onDependencyOffline_bk e r : pres R (onDependencyOffline qpush e r).
Proof. unfold onDependencyOffline, offlineStep. bk_auto. Qed.
Lemma beginCallback_bk svc prio g : pres R (beginCallback qpush svc prio g).
Proof. unfold beginCallback. bk_auto. Qed.
Hint Resolve beginCallback_bk : ichor_pres.
Lemma scopeShared_bk e svc prio g ref : pres R (scopeShared qpush e svc prio g ref).
Proof. unfold scopeShared. bk_auto. Qed.
Hint Resolve scopeShared_bk : ichor_pres.
Lemma requestLoop_bk e l ref : pres R (requestLoop qpush uc e l ref).
Proof. revert ref. induction l; intros ref; simpl; bk_auto. Qed.
Lemma broadcastLoop_bk e l ref : pres R (broadcastLoop qpush uc e l ref).
Proof. revert ref. induction l; intros ref; simpl; bk_auto. Qed.
Hint Resolve requestLoop_bk broadcastLoop_bk : ichor_pres.
Lemma onDependencyRequest_bk e dep : pres R (onDependencyRequest qpush uc e dep).
Proof. unfold onDependencyRequest. bk_auto. Qed.
Lemma broadcastEvent_bk e : pres R (broadcastEvent qpush uc e).
Proof. unfold broadcastEvent. bk_auto. Qed.
Lemma onRunFunction_bk e f : pres R (onRunFunction qpush uc e f).
Proof. unfold onRunFunction. bk_auto. Qed.
Lemma onRunFunctionAsync_bk e f : pres R (onRunFunctionAsync qpush uc e f).
Proof. unfold onRunFunctionAsync. bk_auto. Qed.
Lemma onInsertService_bk e mgr : pres R (onInsertService qpush uc e mgr).
Proof. unfold onInsertService, insertStep. bk_auto. Qed.
Lemma onStartService_bk e svc : pres R (onStartService qpush uc e svc).
Proof. unfold onStartService. bk_auto. Qed.
Lemma preIntercepts_bk infos e allow : pres R (preIntercepts qpush uc infos e allow).
Proof.
  unfold preIntercepts. generalize (pres_ret R allow). generalize (mret allow : M DM bool).
  induction infos as [|i infos IH]; simpl; [done|]. intros m Hm. apply IH. bk_auto.
Qed.
Lemma postIntercepts_bk infos e p : pres R (postIntercepts qpush uc infos e p).
Proof. unfold postIntercepts. bk_auto. Qed.
Hint Resolve preIntercepts_bk postIntercepts_bk : ichor_pres.
Lemma undoLoop_bk e l n : pres R (undoLoop qpush uc e l n).
Proof. revert n. induction l; intros n; simpl; unfold undoStep; bk_auto. Qed.
Hint Resolve undoLoop_bk : ichor_pres.
Lemma removeInternalService_bk svc : pres R (removeInternalService qpush uc svc).
Proof. unfold removeInternalService, undoRequest. bk_auto. Qed.
Hint Resolve removeInternalService_bk : ichor_pres.
Lemma onRemoveService_bk svc : pres R (onRemoveService qpush uc svc).
Proof. unfold onRemoveService. bk_auto. Qed.
Lemma finishStop_bk e svc r : pres R (finishStop qpush uc e svc r).
Proof. unfold finishStop, pendingStep. bk_auto. Qed.
Lemma onRemoveEventHandler_bk i t : pres R (onRemoveEventHandler i t).
Proof. unfold onRemoveEventHandler. bk_auto. Qed.
Lemma onRemoveEventInterceptor_bk i t : pres R (onRemoveEventInterceptor i t).
Proof. unfold onRemoveEventInterceptor. bk_auto. Qed.
Lemma onAddTracker_bk e i : pres R (onAddTracker qpush uc e i).
Proof. unfold onAddTracker, trackerStep. bk_auto. Qed.
Lemma onRemoveTracker_bk e i : pres R (onRemoveTracker e i).
Proof. unfold onRemoveTracker. bk_auto. Qed.
Lemma collectGenerator_bk pid g : pres R (collectGenerator qpush pid g).
Proof. unfold collectGenerator. bk_auto. Qed.
Lemma continueStart_bk e orig svc : pres R (continueStart qpush e orig svc).
Proof. unfold continueStart. bk_auto. Qed.
Lemma continueOnline_bk e orig v : pres R (continueOnline qpush e orig v).
Proof. unfold continueOnline. bk_auto. Qed.
Lemma continueOffline_bk e orig v off r deps : pres R (continueOffline qpush e orig v off r deps).
Proof. unfold continueOffline. bk_auto. Qed.
Lemma interceptGroup_bk present key store e allow :
  (∀ l d, queue (store l d) = queue d ∧ quitDone (store l d) = quitDone d ∧
          nextEventId (store l d) = nextEventId d) →
  pres R (interceptGroup qpush uc present key store e allow).
Proof.
  intros Hs. unfold interceptGroup.
  repeat first [apply bk_modify; by apply Hs|pres_step].
Qed.
Hint Resolve onDependencyOnline_bk onDependencyOffline_bk onDependencyRequest_bk broadcastEvent_bk
  onRunFunction_bk onRunFunctionAsync_bk onInsertService_bk onStartService_bk onRemoveService_bk
  finishStop_bk onRemoveEventHandler_bk onRemoveEventInterceptor_bk onAddTracker_bk onRemoveTracker_bk
  collectGenerator_bk continueStart_bk continueOnline_bk continueOffline_bk : ichor_pres.

(** The rest, for relations that also survive quitting. *)
Section quitting.
Hypothesis quit_bk : pres R checkIfCanQuit.
Hint Resolve quit_bk : ichor_pres.

Lemma onQuit_bk e : pres R (onQuit qpush e).
Proof. unfold onQuit, quitStep. bk_auto. Qed.
Lemma onStopService_bk e svc r : pres R (onStopService qpush uc e svc r).
Proof. unfold onStopService. bk_auto. Qed.
Lemma onContinuable_bk pid : pres R (onContinuable qpush pid).
Proof. unfold onContinuable. bk_auto. Qed.
Lemma continueStop_bk orig pid svc r : pres R (continueStop qpush uc orig pid svc r).
Proof. unfold continueStop. bk_auto. Qed.
Hint Resolve onQuit_bk onStopService_bk onContinuable_bk continueStop_bk : ichor_pres.
Lemma onContinuableStart_bk e pid : pres R (onContinuableStart qpush uc e pid).
Proof. unfold onContinuableStart. bk_auto. Qed.
Hint Resolve onContinuableStart_bk : ichor_pres.
Lemma dispatch_bk e : pres R (dispatch qpush uc e).
Proof. unfold dispatch, handled. bk_auto. Qed.
Hint Resolve dispatch_bk : ichor_pres.
Lemma processEvent_bk e : pres R (processEvent qpush uc e).
Proof.
  unfold processEvent. repeat first [by apply interceptGroup_bk|pres_step].
Qed.
End quitting.
End walk.

(** ** The queue holds well-formed events *)

Definition queue_wf (d : DM) : Prop := Forall event_wf (queue d).
Definition keeps_queue_wf (d d' : DM) : Prop := queue_wf d → queue_wf d'.

#[export] Instance queue_bookkeeping qpush `{!IEventQueue qpush} : Bookkeeping qpush keeps_queue_wf.
Proof.
  split; unfold keeps_queue_wf, queue_wf.
  - split; red; auto.
  - intros d d' Hq _ _ Hw. by rewrite Hq.
  - done.
  - intros d e He _ Hq. simpl. rewrite push_keeps. by constructor.
Qed.

Lemma processEvent_queue_wf qpush `{!IEventQueue qpush} uc e :
  pres keeps_queue_wf (processEvent qpush uc e).
Proof.
  apply (processEvent_bk qpush uc keeps_queue_wf). intros d. unfold checkIfCanQuit, keeps_queue_wf.
  repeat wlp_step; done.
Qed.

(** ** Who sets [_quitDone] *)

Definition same_quit (d d' : DM) : Prop := quitDone d' = quitDone d.
#[export] Instance same_quit_bookkeeping qpush : Bookkeeping qpush same_quit.
Proof.
  split; unfold same_quit; [|done..]. split; [done|]. intros d1 d2 d3. congruence.
Qed.

(** ** Event ids are not given out twice *)

Definition ids_ok (d : DM) : Prop :=
  0 ≤ nextEventId d ∧ NoDup (ev_id <$> queue d) ∧ Forall (λ e, ev_id e < nextEventId d) (queue d).

(** Until the 64-bit counter has wrapped around. *)
Definition keeps_ids (d d' : DM) : Prop :=
  nextEventId d ≤ nextEventId d' ∧ (nextEventId d' ≤ u64_mod → ids_ok d → ids_ok d').

#[export] Instance ids_bookkeeping qpush `{!IEventQueue qpush} : Bookkeeping qpush keeps_ids.
Proof.
  split; unfold keeps_ids.
  - split; [by split|]. intros d1 d2 d3 [L1 H1] [L2 H2]. split; [lia|]. intros L H. apply H2, H1; [lia..|done].
  - intros d d' Hq _ Hn. rewrite Hn. split; [lia|]. unfold ids_ok. by rewrite Hq, Hn.
  - intros d. simpl. split; [lia|]. intros _ (H0 & Hn & Hl). split_and!; simpl; [lia|done|].
    eapply Forall_impl; [exact Hl|]. simpl. lia.
  - intros d e _ Hid. simpl. split; [lia|]. intros Hw (H0 & Hn & Hl).
    rewrite wrap64_small in Hid by lia. split_and!; simpl; [lia| |].
    + rewrite push_keeps. simpl. constructor; [|done]. rewrite Hid. intros Hin.
      apply list_elem_of_fmap in Hin as (x & Hx & Hin). rewrite Forall_forall in Hl.
      specialize (Hl x Hin). lia.
    + rewrite push_keeps. constructor; [lia|]. eapply Forall_impl; [exact Hl|]. simpl. lia.
Qed.

Lemma processEvent_ids qpush `{!IEventQueue qpush} uc e : pres keeps_ids (processEvent qpush uc e).
Proof.
  apply (processEvent_bk qpush uc keeps_ids). intros d. unfold checkIfCanQuit.
  repeat wlp_step; split; try done; simpl; lia.
Qed.
