(* ===== verification/EventLoop.v ===== *)
(** * The priority event loop

    [TemplatePriorityQueue] of src/ichor/event_queues/PriorityQueue.cpp on top of
    the heap of Heap.v, with the parts of src/ichor/event_queues/EventQueue.cpp
    it uses.  One pass of the [while] of [start()] is [loop_step]; the clock and
    the SIGINT flag it reads are its arguments, waiting on the condition variable
    is the result [Idle].  A run of the loop is [run_loop] over the readings. *)

From S2P Require Import Prelude DenseMap Register Lifecycle Heap Events Manager Dispatch Network Refinement Bookkeeping.
From stdpp Require Import base list gmap sorting.
From Stdlib Require Import ZArith Lia.

Open Scope Z_scope.

(** [TemplatePriorityQueue]: the events and [_quit] are part of the manager
    state ([queue], [queueQuit]). *)
Record PriorityQueue := mkPQ {
  pq_dm : DM;
  pq_quitEventSent : bool;
  pq_whenQuitEventWasSent : Z;
  pq_quitTimeoutMs : Z;
  pq_processingEvt : bool;
}.
Definition set_dm (d : DM) (q : PriorityQueue) : PriorityQueue :=
  mkPQ d (pq_quitEventSent q) (pq_whenQuitEventWasSent q) (pq_quitTimeoutMs q) (pq_processingEvt q).
Definition set_processing (b : bool) (q : PriorityQueue) : PriorityQueue :=
  mkPQ (pq_dm q) (pq_quitEventSent q) (pq_whenQuitEventWasSent q) (pq_quitTimeoutMs q) b.

Section event_loop.
Context (comp : Event → Event → bool) `{!StrictWeak comp} (uc : UserCode).
Notation qpush := (Heap.push comp).

(** [createManager]: the manager, with itself and the queue as services. *)
Definition createManager (id dm_iface queue_iface quitTimeoutMs : Z) : PriorityQueue :=
  let d := new_DependencyManager id dm_iface in
  let qid := nextServiceId d in
  mkPQ (upd_nextServiceId (λ n, wrap64 (n + 1))
         (upd_services (demplace qid (new_internal_manager qid queue_iface)) d))
       false 0 quitTimeoutMs false.

Definition pushEventInternal (e : Event) (q : PriorityQueue) : PriorityQueue :=
  set_dm (upd_queue (λ c, qpush c e) (pq_dm q)) q.

Definition pq_empty (q : PriorityQueue) : bool :=
  Heap.empty (queue (pq_dm q)) && negb (pq_processingEvt q).
Definition pq_size (q : PriorityQueue) : Z :=
  Z.of_nat (Heap.size (queue (pq_dm q))) + Z.b2z (pq_processingEvt q).
Definition is_running (q : PriorityQueue) : bool := negb (queueQuit (pq_dm q)).
Definition pq_quit (q : PriorityQueue) : PriorityQueue :=
  set_dm (upd_queueQuit (λ _, true) (pq_dm q)) q.

(** The loop's readings of the world in one pass. *)
Record reading := mkReading { sigintQuit : bool; now : Z }.

Definition shouldQuit (r : reading) (q : PriorityQueue) : bool * PriorityQueue :=
  let q' := if sigintQuit r && pq_quitEventSent q
               && (pq_quitTimeoutMs q <=? now r - pq_whenQuitEventWasSent q)
            then pq_quit q else q in
  (queueQuit (pq_dm q'), q').

Definition shouldAddQuitEvent (r : reading) (q : PriorityQueue) : PriorityQueue :=
  if sigintQuit r && negb (pq_quitEventSent q) then
    let d := pq_dm q in
    let q1 := set_dm (upd_nextEventId Z.succ d) q in
    let q2 := pushEventInternal (mkEvent (wrap64 (nextEventId d)) 0 INTERNAL_EVENT_PRIORITY QuitEvent) q1 in
    mkPQ (pq_dm q2) true (now r) (pq_quitTimeoutMs q2) (pq_processingEvt q2)
  else q.

Inductive loop_result :=
| Quit (q : PriorityQueue)         (* left the loop *)
| Idle (q : PriorityQueue)         (* nothing to do, sleeping *)
| Processed (e : Event) (q : PriorityQueue)
| Crashed (e : Event).             (* std::terminate() in a handler *)

Definition loop_step (r : reading) (q : PriorityQueue) : loop_result :=
  let '(quit1, q1) := shouldQuit r q in
  if quit1 then Quit q1
  else
    let q2 := shouldAddQuitEvent r q1 in
    let '(quit2, q3) := shouldQuit r q2 in
    if quit2 then Quit q3
    else
      match Heap.pop comp (queue (pq_dm q3)) with
      | None => Idle q3
      | Some (e, c) =>
          let q4 := set_processing true (set_dm (upd_queue (λ _, c) (pq_dm q3)) q3) in
          match processEvent qpush uc e (pq_dm q4) with
          | Done (_, d) => Processed e (set_processing false (set_dm d q4))
          | Terminated => Crashed e
          end
      end.

(** [start()] from [startDm()] on: the events processed, and the queue after
    [stopDm()] if the loop was left, or where it stands. *)
Fixpoint run_loop (rs : list reading) (q : PriorityQueue) : list Event * outcome (bool * PriorityQueue) :=
  match rs with
  | [] => ([], Done (false, q))
  | r :: rs' =>
      match loop_step r q with
      | Quit q' =>
          ([], match dm_stop qpush uc (pq_dm q') with
               | Done (_, d) => Done (true, set_dm d q')
               | Terminated => Terminated
               end)
      | Idle q' => run_loop rs' q'
      | Processed e q' => let '(l, o) := run_loop rs' q' in (e :: l, o)
      | Crashed e => ([e], Terminated)
      end
  end.

Definition start (rs : list reading) (q : PriorityQueue) : list Event * outcome (bool * PriorityQueue) :=
  match dm_start (pq_dm q) with
  | Done (_, d) => run_loop rs (set_dm d q)
  | Terminated => ([], Terminated)
  end.

(** ** The events stay a heap *)

Definition heap_ok (d : DM) : Prop := is_heap comp (queue d).
Definition keeps_heap (d d' : DM) : Prop := heap_ok d → heap_ok d'.

#[export] Instance heap_bookkeeping : Bookkeeping qpush keeps_heap.
Proof.
  split; unfold keeps_heap, heap_ok.
  - split; red; auto.
  - intros d d' Hq _ _ Hh. by rewrite Hq.
  - done.
  - intros d e _ _ Hh. simpl. by apply push_is_heap.
Qed.

Lemma processEvent_heap e : pres keeps_heap (processEvent qpush uc e).
Proof.
  apply (processEvent_bk qpush uc keeps_heap). intros d. unfold checkIfCanQuit, keeps_heap.
  repeat wlp_step; done.
Qed.

(** Not quitting changes nothing. *)
Lemma shouldQuit_stays r q q' : shouldQuit r q = (false, q') → q' = q.
Proof. unfold shouldQuit. case_match; by intros [= ? ?]. Qed.

Lemma shouldAddQuitEvent_heap r q :
  heap_ok (pq_dm q) → heap_ok (pq_dm (shouldAddQuitEvent r q)).
Proof. unfold shouldAddQuitEvent, heap_ok. case_match; [|done]. simpl. intros Hh. by apply push_is_heap. Qed.

(** The queue a pass pops from: the old one, and the QuitEvent of a SIGINT. *)
Definition offered (r : reading) (q : PriorityQueue) : list Event :=
  queue (pq_dm (shouldAddQuitEvent r q)).

Lemma loop_step_inv r q q' :
  heap_ok (pq_dm q) →
  (∃ e, loop_step r q = Processed e q') ∨ loop_step r q = Idle q' → heap_ok (pq_dm q').
Proof.
  intros Hh. unfold loop_step. destruct (shouldQuit r q) as [b1 q1] eqn:E1.
  destruct b1; [naive_solver|]. apply shouldQuit_stays in E1 as ->.
  pose proof (shouldAddQuitEvent_heap r q Hh) as H3.
  destruct (shouldQuit r (shouldAddQuitEvent r q)) as [b3 q3] eqn:E3.
  destruct b3; [naive_solver|]. apply shouldQuit_stays in E3 as ->. set (q3 := shouldAddQuitEvent r q) in *.
  destruct (Heap.pop comp _) as [[e c]|] eqn:Ep; [|naive_solver].
  cbn zeta. simpl (pq_dm (set_processing _ _)).
  assert (heap_ok (upd_queue (λ _, c) (pq_dm q3))) as Hc.
  { destruct (decide (queue (pq_dm q3) = [])) as [E|Hne]; [by rewrite E in Ep|].
    destruct (pop_spec comp _ H3 Hne) as (t & c' & Hp & Hc' & _). naive_solver. }
  pose proof (processEvent_heap e (upd_queue (λ _, c) (pq_dm q3))) as Hw. unfold wlp in Hw.
  destruct (processEvent _ _ _ _) as [[u d]|]; [|naive_solver].
  intros [[e' [= -> <-]]|]; [|done]. by apply Hw.
Qed.

(** A pass that processes an event took a first one of what was offered. *)
Lemma loop_step_pops r q e q' :
  heap_ok (pq_dm q) → loop_step r q = Processed e q' →
  e ∈ offered r q ∧ ∀ x, x ∈ offered r q → comp e x = false.
Proof.
  intros Hh. unfold loop_step. destruct (shouldQuit r q) as [b1 q1] eqn:E1.
  destruct b1; [done|]. apply shouldQuit_stays in E1 as ->.
  pose proof (shouldAddQuitEvent_heap r q Hh) as H2.
  destruct (shouldQuit r (shouldAddQuitEvent r q)) as [b3 q3] eqn:E3. destruct b3; [done|].
  apply shouldQuit_stays in E3 as ->. change (queue (pq_dm (shouldAddQuitEvent r q))) with (offered r q).
  destruct (decide (offered r q = [])) as [E|Hne]; [by rewrite E|].
  destruct (pop_spec comp (offered r q) H2 Hne) as (t & c & -> & _ & Hp & Hmin).
  case_match; [|done]. case_match. intros [= <- _]. split; [|done]. rewrite Hp. set_solver.
Qed.

(** Pushing a list of events, and taking them all out again. *)
Definition push_all (l : list Event) : list Event := fold_left qpush l [].

Lemma push_all_spec l : is_heap comp (push_all l) ∧ push_all l ≡ₚ l.
Proof.
  unfold push_all. assert (∀ c, is_heap comp c →
    is_heap comp (fold_left qpush l c) ∧ fold_left qpush l c ≡ₚ l ++ c) as Hl.
  { induction l as [|e l IH]; simpl; intros c Hc; [done|].
    destruct (IH (qpush c e)) as [? Hp]; [by apply push_is_heap|]. split; [done|].
    rewrite Hp, push_perm. symmetry. apply Permutation_middle. }
  destruct (Hl []) as [? Hp]; [by intros i p x _ Hx|]. split; [done|]. by rewrite Hp, app_nil_r.
Qed.

Lemma drain_push_all l :
  drain comp (length l) (push_all l) ≡ₚ l ∧
  StronglySorted (λ x y, comp x y = false) (drain comp (length l) (push_all l)).
Proof.
  destruct (push_all_spec l) as [Hh Hp].
  destruct (drain_spec comp (length l) (push_all l) Hh) as [Hd Hs]; [by rewrite Hp|].
  split; [by rewrite Hd|]. apply Sorted_StronglySorted; [|done].
  intros x y z. apply sw_negtrans.
Qed.
End event_loop.

(** ** Properties of the loop *)

(** The loop of the [OrderedPriorityQueue] always takes the most urgent event,
    and the oldest among equally urgent ones: whatever a pass processes has the
    smallest priority value of everything in the queue, ties broken by event id. *)
Theorem ordered_loop_takes_first uc r q e q' :
  heap_ok OrderedPriorityQueueCompare (pq_dm q) →
  loop_step OrderedPriorityQueueCompare uc r q = Processed e q' →
  e ∈ offered OrderedPriorityQueueCompare r q ∧
  ∀ x, x ∈ offered OrderedPriorityQueueCompare r q →
    ev_priority e < ev_priority x ∨ (ev_priority e = ev_priority x ∧ ev_id e ≤ ev_id x).
Proof.
  intros Hh Hs. destruct (loop_step_pops _ uc r q e q' Hh Hs) as [Hin Hmin]. split; [done|].
  intros x Hx. specialize (Hmin x Hx). unfold OrderedPriorityQueueCompare in Hmin.
  destruct (Z.eqb_spec (ev_priority e) (ev_priority x)); lia.
Qed.

(** C9: the order in which the [OrderedPriorityQueue] hands out events does not
    depend on the order they were pushed in: any two orders of the same events,
    with distinct ids, come out the same. *)
Theorem ordered_queue_deterministic l1 l2 :
  l1 ≡ₚ l2 → NoDup (ev_id <$> l1) →
  drain OrderedPriorityQueueCompare (length l1) (push_all OrderedPriorityQueueCompare l1) =
  drain OrderedPriorityQueueCompare (length l2) (push_all OrderedPriorityQueueCompare l2).
Proof.
  intros Hp Hnd.
  destruct (drain_push_all OrderedPriorityQueueCompare l1) as [P1 S1].
  destruct (drain_push_all OrderedPriorityQueueCompare l2) as [P2 S2].
  eapply StronglySorted_unique_strong; [|exact S1|exact S2|by rewrite P1, P2].
  intros x y Hx Hy. rewrite P1 in Hx. rewrite P2, <- Hp in Hy.
  unfold OrderedPriorityQueueCompare. intros Hxy Hyx.
  assert (ev_id x = ev_id y) as Hid.
  { destruct (Z.eqb_spec (ev_priority x) (ev_priority y)), (Z.eqb_spec (ev_priority y) (ev_priority x)); lia. }
  apply list_elem_of_lookup in Hx as [i Hi], Hy as [j Hj].
  assert (i = j) as ->; [|congruence].
  eapply (NoDup_lookup (ev_id <$> l1)); [done|by rewrite list_lookup_fmap, Hi|].
  rewrite list_lookup_fmap, Hj. simpl. congruence.
Qed.

(** ** Shutting down on SIGINT *)

Section sigint.
Context (comp : Event → Event → bool) (uc : UserCode).

(** Several passes that stay in the loop. *)
Fixpoint passes (rs : list reading) (q : PriorityQueue) : option PriorityQueue :=
  match rs with
  | [] => Some q
  | r :: rs' =>
      match loop_step comp uc r q with
      | Idle q' | Processed _ q' => passes rs' q'
      | Quit _ | Crashed _ => None
      end
  end.

(** The QuitEvent was sent at [t] or earlier. *)
Definition told_by (t : Z) (q : PriorityQueue) : Prop :=
  pq_quitEventSent q = true ∧ pq_whenQuitEventWasSent q ≤ t.

(** A pass that stays in the loop sends the QuitEvent if it sees a SIGINT, and
    leaves the rest of the bookkeeping as it is. *)
Lemma loop_step_sent r q q' :
  (∃ e, loop_step comp uc r q = Processed e q') ∨ loop_step comp uc r q = Idle q' →
  pq_quitTimeoutMs q' = pq_quitTimeoutMs q ∧
  pq_quitEventSent q' = pq_quitEventSent q || sigintQuit r ∧
  pq_whenQuitEventWasSent q' =
    (if sigintQuit r && negb (pq_quitEventSent q) then now r else pq_whenQuitEventWasSent q).
Proof.
  intros Hs. cut (∃ d, q' = set_processing (pq_processingEvt q') (set_dm d (shouldAddQuitEvent comp r q))).
  { intros [d E]. rewrite E. clear. unfold shouldAddQuitEvent. simpl.
    destruct (sigintQuit r), (pq_quitEventSent q) eqn:E; simpl; by rewrite ?E. }
  revert Hs. unfold loop_step. destruct (shouldQuit r q) as [b1 q1] eqn:E1.
  destruct b1; [naive_solver|]. apply shouldQuit_stays in E1 as ->.
  destruct (shouldQuit r _) as [b3 q3] eqn:E3. destruct b3; [naive_solver|].
  apply shouldQuit_stays in E3 as ->. set (q1 := shouldAddQuitEvent comp r q).
  destruct (Heap.pop _ _) as [[e c]|]; [|intros [[? ?]|[= <-]]; [done|]; exists (pq_dm q1); by destruct q1].
  cbn zeta. case_match; [|naive_solver]. case_match. intros [[? [= _ <-]]|]; [|done]. by eexists.
Qed.

Lemma passes_cons r rs q q' :
  passes (r :: rs) q = Some q' →
  ∃ q1, passes rs q1 = Some q' ∧ pq_quitTimeoutMs q1 = pq_quitTimeoutMs q ∧
    pq_quitEventSent q1 = pq_quitEventSent q || sigintQuit r ∧
    pq_whenQuitEventWasSent q1 =
      (if sigintQuit r && negb (pq_quitEventSent q) then now r else pq_whenQuitEventWasSent q).
Proof.
  cbn [passes]. destruct (loop_step comp uc r q) as [|q1|e q1|] eqn:E; try done; intros Hp;
    exists q1; (split; [done|]); apply loop_step_sent; eauto.
Qed.

Lemma passes_told rs q q' t :
  passes rs q = Some q' → told_by t q → told_by t q' ∧ pq_quitTimeoutMs q' = pq_quitTimeoutMs q.
Proof.
  revert q. induction rs as [|r rs IH]; intros q Hp [Hs Hw]; [by injection Hp as <-|].
  apply passes_cons in Hp as (q1 & Hp & Et & E1 & E2). rewrite <- Et. apply IH; [done|].
  rewrite Hs, andb_false_r in *. split; [done|lia].
Qed.

Lemma passes_sigint rs q q' r :
  passes rs q = Some q' → pq_quitEventSent q = false →
  StronglySorted (λ a b, now a ≤ now b) rs → r ∈ rs → sigintQuit r = true →
  told_by (now r) q' ∧ pq_quitTimeoutMs q' = pq_quitTimeoutMs q.
Proof.
  revert q. induction rs as [|r0 rs IH]; intros q Hp Hs Hord Hin Hr; [set_solver|].
  apply passes_cons in Hp as (q1 & Hp & Et & E1 & E2). rewrite <- Et. rewrite Hs in E1, E2. simpl in E1.
  apply StronglySorted_inv in Hord as [Hord Hall].
  destruct (sigintQuit r0) eqn:Er0; simpl in E2.
  - eapply passes_told; [done|]. split; [done|]. rewrite E2.
    apply elem_of_cons in Hin as [->|Hin]; [lia|]. rewrite Forall_forall in Hall. by apply Hall.
  - apply elem_of_cons in Hin as [->|Hin]; [congruence|]. by apply IH.
Qed.

(** C10: a SIGINT ends the loop in bounded time.  Whatever the services do, and
    even if they never stop, once a pass has seen the SIGINT, a pass that sees it
    [quitTimeoutMs] later leaves the loop. *)
Theorem sigint_forces_quit rs q q' r r' :
  passes rs q = Some q' → pq_quitEventSent q = false →
  StronglySorted (λ a b, now a ≤ now b) rs → r ∈ rs → sigintQuit r = true →
  sigintQuit r' = true → now r + pq_quitTimeoutMs q ≤ now r' →
  ∃ qe, loop_step comp uc r' q' = Quit qe ∧ is_running qe = false.
Proof.
  intros Hp Hs Hord Hin Hr Hr' Ht.
  destruct (passes_sigint rs q q' r Hp Hs Hord Hin Hr) as [[Hsent Hwhen] Etime].
  unfold loop_step, shouldQuit. rewrite Hr', Hsent.
  assert (pq_quitTimeoutMs q' <=? now r' - pq_whenQuitEventWasSent q' = true) as -> by lia.
  simpl. by eexists.
Qed.
End sigint.
