(* ===== verification/Scenarios.v ===== *)
(** * Concrete systems

    Small sets of services, run through the event loop: the inputs at which the
    theorems are instantiated. *)

From S2P Require Import Prelude DenseMap Register Lifecycle Heap Events Manager Dispatch EventLoop.
From stdpp Require Import base list gmap.
From Stdlib Require Import ZArith Lia.

Open Scope Z_scope.

(** Services whose code does nothing. *)
Definition idle_code : UserCode := {|
  uc_start := λ _ _, CoReturn [] true;
  uc_stop := λ _ _, CoReturn [] ();
  uc_handle := λ _ _ _, GenLast (CoReturn [] ());
  uc_track := λ _ _ _, GenLast (CoReturn [] ());
  uc_run := λ _ _, [];
  uc_runAsync := λ _ _, GenLast (CoReturn [] ());
  uc_preIntercept := λ _ _ _, ([], true);
  uc_postIntercept := λ _ _ _ _, [];
|}.

(** The interface hashes used below. *)
Definition IFACE_DM : Z := 90.
Definition IFACE_QUEUE : Z := 91.
Definition IFACE_A : Z := 10.

(** Service 3 provides [IFACE_A], service 4 requires it. *)
Definition spec_provider : service_spec := mkSpec [IFACE_A] None [] 1000 false.
Definition spec_consumer : service_spec :=
  mkSpec [] (Some [(IFACE_A, FLAG_REQUIRED, None)]) [] 1000 false.

Definition quiet_reading : reading := mkReading false 0.

(** A manager with actions performed before the loop, run for [n] passes. *)
Definition boot (uc : UserCode) (acts : list action) : outcome PriorityQueue :=
  let q := createManager 1 IFACE_DM IFACE_QUEUE 5000 in
  '(_, d) ← runActions (Heap.push OrderedPriorityQueueCompare) acts (pq_dm q);
  Done (set_dm d q).

Definition run (uc : UserCode) (acts : list action) (n : nat) : list Event * outcome (bool * PriorityQueue) :=
  match boot uc acts with
  | Done q => start OrderedPriorityQueueCompare uc (replicate n quiet_reading) q
  | Terminated => ([], Terminated)
  end.

(** What a finished run shows of the services. *)
Definition summary (r : list Event * outcome (bool * PriorityQueue)) : option (bool * list (Z * ServiceState * list Z * list Z)) :=
  match r.2 with
  | Done (b, q) => Some (b, (λ p : Z * lm, (p.1, lm_state p.2, lm_injected p.2, lm_dependees p.2)) <$> services (pq_dm q))
  | Terminated => None
  end.


(** ** The properties of the loop at concrete queues *)

(** A queue with three events, two of them equally urgent. *)
Definition demo_events : list Event :=
  [mkEvent 7 0 500 DoWorkEvent; mkEvent 9 0 100 QuitEvent; mkEvent 8 0 100 DoWorkEvent].
Definition demo_queue : PriorityQueue :=
  set_dm (upd_queue (λ _, push_all OrderedPriorityQueueCompare demo_events)
            (pq_dm (createManager 1 IFACE_DM IFACE_QUEUE 5000)))
    (createManager 1 IFACE_DM IFACE_QUEUE 5000).

Lemma ordered_loop_takes_first_witness :
  ∃ q', loop_step OrderedPriorityQueueCompare idle_code quiet_reading demo_queue
          = Processed (mkEvent 8 0 100 DoWorkEvent) q' ∧
  mkEvent 8 0 100 DoWorkEvent ∈ offered OrderedPriorityQueueCompare quiet_reading demo_queue ∧
  ∀ x, x ∈ offered OrderedPriorityQueueCompare quiet_reading demo_queue →
    100 < ev_priority x ∨ (100 = ev_priority x ∧ 8 ≤ ev_id x).
Proof.
  eexists. split; [vm_compute; reflexivity|].
  eapply (ordered_loop_takes_first idle_code quiet_reading demo_queue (mkEvent 8 0 100 DoWorkEvent)).
  - apply (push_all_spec OrderedPriorityQueueCompare demo_events).
  - vm_compute. reflexivity.
Defined.

Lemma ordered_queue_deterministic_witness :
  drain OrderedPriorityQueueCompare 3 (push_all OrderedPriorityQueueCompare demo_events) =
  drain OrderedPriorityQueueCompare 3 (push_all OrderedPriorityQueueCompare (rev demo_events)).
Proof.
  apply (ordered_queue_deterministic demo_events (rev demo_events)).
  - apply Permutation_rev.
  - apply (bool_decide_eq_true_1 (NoDup (ev_id <$> demo_events))). vm_compute. reflexivity.
Defined.

(** A SIGINT at time 10, seen again 5 seconds later, with an interceptor-free
    manager that has nothing else to do. *)
Lemma sigint_forces_quit_witness :
  ∃ q' qe,
    passes OrderedPriorityQueueCompare idle_code [mkReading false 0; mkReading true 10] demo_queue = Some q' ∧
    loop_step OrderedPriorityQueueCompare idle_code (mkReading true 5010) q' = Quit qe ∧
    is_running qe = false.
Proof.
  destruct (passes OrderedPriorityQueueCompare idle_code [mkReading false 0; mkReading true 10] demo_queue)
    as [q'|] eqn:E; [|vm_compute in E; discriminate].
  destruct (sigint_forces_quit OrderedPriorityQueueCompare idle_code
    [mkReading false 0; mkReading true 10] demo_queue q' (mkReading true 10) (mkReading true 5010))
    as [qe [H1 H2]].
  - exact E.
  - reflexivity.
  - repeat constructor; simpl; lia.
  - apply list_elem_of_further, list_elem_of_here.
  - reflexivity.
  - reflexivity.
  - vm_compute. discriminate.
  - exists q', qe. split_and!; [reflexivity|exact H1|exact H2].
Defined.
