(* ===== verification/Runs.v ===== *)
(** * Runs of a manager

    The states a manager can be in: events are taken from its queue in any order
    the queue likes, other threads and timers push events and resume suspended
    coroutines in between.  The invariants of the service network hold in all of
    them, for every queue that keeps its events and for all service code. *)

From S2P Require Import Prelude DenseMap Register Lifecycle Heap Events Manager Dispatch Network.
From S2P Require Import Refinement Handlers Bookkeeping EventLoop Scenarios.
From stdpp Require Import base list gmap.
From Stdlib Require Import ZArith Lia.

Open Scope Z_scope.

Section runs.
Context (qpush : list Event → Event → list Event) `{!IEventQueue qpush}.
Context (uc : UserCode).
(** The signature of every service id that is used. *)
Context (Γ : Z → signature).

(** Service ids come from a counter and are not reused: an inserted service is
    not in the table yet. *)
Definition insert_fresh (e : Event) (d : DM) : Prop :=
  match ev_body e with
  | InsertServiceEvent mgr => sig_of mgr = Γ (ev_origin e) ∧ dfind (ev_origin e) (services d) = None
  | _ => True
  end.

Inductive dm_step : DM → DM → Prop :=
| step_event d e q d' :
    queue d ≡ₚ e :: q → insert_fresh e d →
    processEvent qpush uc e (upd_queue (λ _, q) d) = Done ((), d') → dm_step d d'
| step_action d a d' : runAction qpush a d = Done ((), d') → dm_step d d'
| step_resume d pid d' : resume qpush pid d = Done ((), d') → dm_step d d'.

Definition fresh_manager (id dm_iface queue_iface t : Z) : DM :=
  pq_dm (createManager id dm_iface queue_iface t).

Definition reachable (id dm_iface queue_iface t : Z) (d : DM) : Prop :=
  rtc dm_step (fresh_manager id dm_iface queue_iface t) d.

(** The two internal services have the signatures of their ids. *)
Definition internals_typed (id dm_iface queue_iface : Z) : Prop :=
  0 ≤ id < u64_mod - 1 ∧
  Γ id = sig_of (new_internal_manager id dm_iface) ∧
  Γ (id + 1) = sig_of (new_internal_manager (id + 1) queue_iface).

Definition good (d : DM) : Prop := Inv Γ d ∧ queue_wf d.

Lemma fresh_manager_services id dm_iface queue_iface t :
  0 ≤ id < u64_mod - 1 →
  services (fresh_manager id dm_iface queue_iface t) =
  demplace (id + 1) (new_internal_manager (id + 1) queue_iface)
    (demplace id (new_internal_manager id dm_iface) []).
Proof. intros Hid. simpl. by rewrite wrap64_small by lia. Qed.

Lemma good_fresh id dm_iface queue_iface t :
  internals_typed id dm_iface queue_iface → good (fresh_manager id dm_iface queue_iface t).
Proof.
  intros (Hid & H1 & H2). split; [|constructor]. split; [split; [|apply frames_ok_none]|split; try done].
  - change (table_ok (services (fresh_manager id dm_iface queue_iface t))).
    rewrite fresh_manager_services by done.
    apply table_ok_add; [|simpl; rewrite decide_False by lia; done|apply new_internal_ok|done..].
    apply table_ok_add; [apply table_ok_nil|done|apply new_internal_ok|done..].
  - intros k m. rewrite fresh_manager_services by done. rewrite !dfind_demplace.
    simpl. repeat case_decide; naive_solver.
Qed.

Lemma step_good d d' : dm_step d d' → good d → good d'.
Proof.
  intros Hs [Hi Hq]. destruct Hs as [d e q d' Hpop Hf Hp|d a d' Ha|d pid d' Hr].
  - set (d0 := upd_queue (λ _, q) d) in *.
    assert (event_wf e ∧ queue_wf d0) as [He Hq0].
    { unfold queue_wf in Hq. rewrite Hpop in Hq. by apply Forall_cons in Hq. }
    assert (Inv Γ d0) as Hi0 by (eapply untouched_inv; [|exact Hi]; done).
    assert (event_ok Γ e d0) as Hok.
    { unfold event_ok, insert_ok, insert_fresh, event_wf, event_static in *.
      destruct (ev_body e); naive_solver. }
    pose proof (processEvent_refines Γ qpush uc e d0 Hi0 Hok) as Hw.
    pose proof (processEvent_queue_wf qpush uc e d0) as Hw2. unfold wlp in Hw, Hw2.
    rewrite Hp in Hw, Hw2. split; [by apply Hw|by apply Hw2].
  - pose proof (runAction_silent qpush a d) as Hw.
    pose proof (runAction_bk qpush keeps_queue_wf a d) as Hw2. unfold wlp in Hw, Hw2.
    rewrite Ha in Hw, Hw2. split; [by eapply untouched_inv|by apply Hw2].
  - pose proof (resume_evolves Γ qpush pid d) as Hw.
    pose proof (resume_bk qpush keeps_queue_wf pid d) as Hw2. unfold wlp in Hw, Hw2.
    rewrite Hr in Hw, Hw2. split; [by apply Hw|by apply Hw2].
Qed.

Lemma step_ids d d' : dm_step d d' → keeps_ids d d'.
Proof.
  intros Hs. destruct Hs as [d e q d' Hpop Hf Hp|d a d' Ha|d pid d' Hr].
  - pose proof (processEvent_ids qpush uc e (upd_queue (λ _, q) d)) as Hw. unfold wlp in Hw.
    rewrite Hp in Hw. destruct Hw as [Hle Hk]. split; [done|]. intros Hw (H0 & Hn & Hl). apply Hk; [done|].
    rewrite Hpop in Hn, Hl. simpl in Hn. apply NoDup_cons in Hn as [_ ?]. by apply Forall_cons in Hl as [_ ?].
  - pose proof (runAction_bk qpush keeps_ids a d) as Hw. unfold wlp in Hw. by rewrite Ha in Hw.
  - pose proof (resume_bk qpush keeps_ids pid d) as Hw. unfold wlp in Hw. by rewrite Hr in Hw.
Qed.

Lemma reachable_ids id dm_iface queue_iface t d :
  reachable id dm_iface queue_iface t d → nextEventId d ≤ u64_mod → ids_ok d.
Proof.
  intros Hr Hw. assert (keeps_ids (fresh_manager id dm_iface queue_iface t) d) as [_ Hk].
  { revert Hr. clear Hw. unfold reachable. induction 1 as [|d1 d2 d3 Hs _ IH]; [reflexivity|].
    etransitivity; [by apply step_ids|done]. }
  apply Hk; [done|]. split_and!; simpl; [done|apply NoDup_nil_2|constructor].
Qed.

Lemma reachable_good id dm_iface queue_iface t d :
  internals_typed id dm_iface queue_iface → reachable id dm_iface queue_iface t d → good d.
Proof.
  intros Hty Hr. assert (good (fresh_manager id dm_iface queue_iface t)) as Hg by by apply good_fresh.
  induction Hr; eauto using step_good.
Qed.
End runs.

(** ** Driving a manager with a priority queue *)

Section drive.
Context (comp : Event → Event → bool) `{!StrictWeak comp} (uc : UserCode) (Γ : Z → signature).
Notation qpush := (Heap.push comp).

Definition insert_freshb (e : Event) (d : DM) : bool :=
  match ev_body e with
  | InsertServiceEvent mgr =>
      bool_decide (sig_of mgr = Γ (ev_origin e)) && bool_decide (dfind (ev_origin e) (services d) = None)
  | _ => true
  end.

Lemma insert_freshb_spec e d : insert_freshb e d = true → insert_fresh Γ e d.
Proof. unfold insert_freshb, insert_fresh. destruct (ev_body e); try done. intros ?. by bool_hyps. Qed.

(** Processes up to [n] events. *)
Fixpoint drive (n : nat) (d : DM) : option DM :=
  match n with
  | O => Some d
  | S n' =>
      match Heap.pop comp (queue d) with
      | None => Some d
      | Some (e, c) =>
          if insert_freshb e d then
            match processEvent qpush uc e (upd_queue (λ _, c) d) with
            | Done (_, d') => drive n' d'
            | Terminated => None
            end
          else None
      end
  end.

Lemma drive_steps n d d' :
  heap_ok comp d → drive n d = Some d' → rtc (dm_step qpush uc Γ) d d' ∧ heap_ok comp d'.
Proof.
  revert d. induction n as [|n IH]; simpl; intros d Hh; [by intros [= ->]|].
  destruct (decide (queue d = [])) as [E|Hne]; [rewrite E; by intros [= ->]|].
  destruct (pop_spec comp _ Hh Hne) as (e & c & -> & Hc & Hperm & _).
  destruct (insert_freshb e d) eqn:Hf; [|done].
  pose proof (processEvent_heap comp uc e (upd_queue (λ _, c) d)) as Hw. unfold wlp in Hw.
  destruct (processEvent _ _ _ _) as [[[] d1]|] eqn:Hp; [|done]. intros Hd.
  destruct (IH d1) as [Hr ?]; [by apply Hw|done|]. split; [|done].
  eapply rtc_l; [|exact Hr]. eapply step_event; [done|by apply insert_freshb_spec|done].
Qed.

Lemma actions_steps acts d d' :
  heap_ok comp d → runActions qpush acts d = Done ((), d') →
  rtc (dm_step qpush uc Γ) d d' ∧ heap_ok comp d'.
Proof.
  revert d. induction acts as [|a acts IH]; intros d Hh Hr; [by injection Hr as <-|].
  unfold runActions in *. cbn [for_each] in Hr. unfold mbind, M_bind in Hr.
  pose proof (runAction_bk qpush (keeps_heap comp) a d) as Hw. unfold wlp in Hw.
  destruct (runAction qpush a d) as [[[] d1]|] eqn:Ha; [|done].
  destruct (IH d1) as [Hrtc ?]; [by apply Hw|done|]. split; [|done].
  eapply rtc_l; [|exact Hrtc]. by apply step_action with a.
Qed.

(** Actions, then [n] events, on a new manager. *)
Definition driven (id dm_iface queue_iface t : Z) (acts : list action) (n : nat) : option DM :=
  match runActions qpush acts (fresh_manager id dm_iface queue_iface t) with
  | Done (_, d) => drive n d
  | Terminated => None
  end.

Lemma driven_reachable id dm_iface queue_iface t acts n d :
  driven id dm_iface queue_iface t acts n = Some d →
  reachable qpush uc Γ id dm_iface queue_iface t d.
Proof.
  unfold driven. destruct (runActions _ _ _) as [[[] d1]|] eqn:Ha; [|done]. intros Hd.
  apply actions_steps in Ha as [Hr Hh]; [|by intros i p x _ Hp].
  apply drive_steps in Hd as [Hr2 _]; [|done]. unfold reachable. by etransitivity.
Qed.
End drive.

(** ** The properties *)

Section properties.
Context (qpush : list Event → Event → list Event) `{!IEventQueue qpush}.
Context (uc : UserCode) (Γ : Z → signature).
Context (id dm_iface queue_iface t : Z) (Hty : internals_typed Γ id dm_iface queue_iface).
Notation reachable := (reachable qpush uc Γ id dm_iface queue_iface t).

Lemma reachable_table d : reachable d → table_ok (services d).
Proof. intros Hr. by destruct (reachable_good _ _ _ _ _ _ _ _ Hty Hr) as [[[? _] _] _]. Qed.
Lemma reachable_frames d : reachable d → frames_ok (services d) (gens d).
Proof. intros Hr. by destruct (reachable_good _ _ _ _ _ _ _ _ Hty Hr) as [[[_ ?] _] _]. Qed.

(** C1: no service ever has a stopped or removed service recorded as injected.
    In every reachable state, each provider in the list of injected services of a
    service is in the table, knows the service as its dependee, and is ACTIVE or
    UNINJECTING. *)
Theorem services_use_live_dependencies d k m a :
  reachable d → dfind k (services d) = Some m → a ∈ lm_injected m → a ≠ SELF_SERVICE_ID →
  ∃ p, dfind a (services d) = Some p ∧ k ∈ lm_dependees p ∧
       (lm_state p = ACTIVE ∨ lm_state p = UNINJECTING).
Proof.
  intros Hr Hm Ha Hne. pose proof (reachable_table d Hr) as Ht.
  destruct (tab_injected _ Ht _ _ _ Hm Ha) as [|(p & Hp & Hk)]; [done|].
  exists p. split_and!; [done..|]. apply (ok_live _ _ (tab_lm _ Ht _ _ Hp)).
  intros E. rewrite E in Hk. set_solver.
Qed.

(** C2: the other direction of the dependency graph: whoever a provider lists as
    a dependee is another service of the table that has the provider injected. *)
Theorem dependees_hold_their_provider d a p k :
  reachable d → dfind a (services d) = Some p → k ∈ lm_dependees p →
  k ≠ a ∧ ∃ m, dfind k (services d) = Some m ∧ lm_kind m = KDependency ∧ a ∈ lm_injected m.
Proof.
  intros Hr Hp Hk. pose proof (reachable_table d Hr) as Ht.
  destruct (tab_dependees _ Ht _ _ _ Hp Hk) as [? (m & Hm & Ha)]. split; [done|].
  exists m. split_and!; [done| |done].
  destruct (decide (lm_kind m = KDependency)) as [|Hn]; [done|].
  rewrite (ok_kind _ _ (tab_lm _ Ht _ _ Hm) Hn) in Ha. set_solver.
Qed.

(** C3: services only ever move along the lifecycle.  The whole history of the
    state of every service in a reachable manager starts INSTALLED and follows
    the edges INSTALLED, STARTING, INJECTING, ACTIVE, UNINJECTING, STOPPING,
    INSTALLED (or STARTING, INSTALLED when [start()] fails). *)
Theorem service_histories_legal d k m :
  reachable d → dfind k (services d) = Some m → legal_history (lm_kind m) (history m) = true.
Proof. intros Hr Hm. by apply (tab_lm _ (reachable_table d Hr) _ _ Hm). Qed.

(** C4: a suspended [start()] or [stop()] coroutine belongs to a service that is
    in the table, STARTING or STOPPING accordingly, and it is the only such
    coroutine of that service. *)
Theorem one_start_or_stop_at_a_time d pid g k st :
  reachable d → gens d !! pid = Some g → frame_svc (sg_cont g) = Some (k, st) →
  (∃ m, dfind k (services d) = Some m ∧ lm_state m = st ∧ lm_dependees m = []) ∧
  ∀ pid' g' st', gens d !! pid' = Some g' → frame_svc (sg_cont g') = Some (k, st') → pid' = pid.
Proof.
  intros Hr Hg Hf. pose proof (reachable_frames d Hr) as Hfr. split.
  - destruct (frm_state _ _ Hfr _ _ _ _ Hg Hf) as (m & Hm & Hst). exists m. split_and!; [done..|].
    destruct (reachable_good _ _ _ _ _ _ _ _ Hty Hr) as [Hi _].
    assert (st = STARTING ∨ st = STOPPING) as Hs by (destruct (sg_cont g); simplify_eq/=; auto).
    eapply inv_no_dependees; [done..| |]; destruct Hs; congruence.
  - intros pid' g' st' Hg' Hf'. eapply (frm_unique _ _ Hfr); [done..| |]; by eexists.
Qed.

(** C5: refinement.  Processing an event in a reachable state is a sequence of
    steps of the service network: each lifecycle move, link, unlink, insertion,
    removal and coroutine step happens under the guard the network gives it. *)
Theorem processEvent_refines_network d e q d' :
  reachable d → queue d ≡ₚ e :: q → insert_fresh Γ e d →
  processEvent qpush uc e (upd_queue (λ _, q) d) = Done ((), d') →
  rtc net_step (view d) (view d').
Proof.
  intros Hr Hq Hf Hp. destruct (reachable_good _ _ _ _ _ _ _ _ Hty Hr) as [Hi Hw].
  set (d0 := upd_queue (λ _, q) d) in *.
  assert (event_wf e) as He.
  { unfold queue_wf in Hw. rewrite Hq in Hw. by apply Forall_cons in Hw as [? _]. }
  assert (Inv Γ d0) as Hi0 by (eapply untouched_inv; [|exact Hi]; done).
  pose proof (processEvent_refines Γ qpush uc e d0 Hi0) as Hr0. unfold wlp in Hr0. rewrite Hp in Hr0.
  apply Hr0; [|done]. unfold event_ok, insert_ok, insert_fresh, event_wf, event_static in *.
  destruct (ev_body e); naive_solver.
Qed.

(** event ids are unique.  As long as fewer than 2^64 ids have been handed
    out, all events in the queue of a reachable manager have different ids; so the
    order of the ordered queue is total on them. *)
Theorem queued_event_ids_distinct d :
  reachable d → nextEventId d ≤ u64_mod → NoDup (ev_id <$> queue d).
Proof. intros Hr Hw. by destruct (reachable_ids _ _ _ _ _ _ _ _ Hr Hw) as (_ & ? & _). Qed.
End properties.

(** ** The properties at concrete managers *)

Definition demo_sigs (k : Z) : signature :=
  if k =? 1 then mkSig KInternal [] [IFACE_DM]
  else if k =? 2 then mkSig KInternal [] [IFACE_QUEUE]
  else if k =? 3 then mkSig KDependency [IFACE_A] []
  else mkSig KPlain [] [IFACE_A].

Lemma demo_typed : internals_typed demo_sigs 1 IFACE_DM IFACE_QUEUE.
Proof. split_and!; done. Qed.

(** Like [idle_code], but [start()] of service 4 waits for something. *)
Definition slow_start_code : UserCode :=
  mkUserCode (λ svc _, if svc =? 4 then CoSuspend [] (CoReturn [] true) else CoReturn [] true)
    (uc_stop idle_code) (uc_handle idle_code) (uc_track idle_code) (uc_run idle_code)
    (uc_runAsync idle_code) (uc_preIntercept idle_code) (uc_postIntercept idle_code).

Definition demo_actions : list action :=
  [CreateServiceManager spec_consumer; CreateServiceManager spec_provider].
Notation demo_driven uc := (driven OrderedPriorityQueueCompare uc demo_sigs 1 IFACE_DM IFACE_QUEUE 5000 demo_actions).

Definition demo_up : DM := default (fresh_manager 1 IFACE_DM IFACE_QUEUE 5000) (demo_driven idle_code 20%nat).
Definition demo_starting : DM :=
  default (fresh_manager 1 IFACE_DM IFACE_QUEUE 5000) (demo_driven slow_start_code 20%nat).
(** Before the first event. *)
Definition demo_begin : DM :=
  default (fresh_manager 1 IFACE_DM IFACE_QUEUE 5000) (demo_driven idle_code 0%nat).

Lemma demo_reachable uc n d :
  demo_driven uc n = Some d →
  reachable (Heap.push OrderedPriorityQueueCompare) uc demo_sigs 1 IFACE_DM IFACE_QUEUE 5000 d.
Proof. apply driven_reachable, _. Qed.

Definition no_lm : lm := new_plain_manager 0 [] [].
Definition demo_lm (d : DM) (k : Z) : lm := default no_lm (dfind k (services d)).

Lemma services_use_live_dependencies_witness :
  4 ∈ lm_injected (demo_lm demo_up 3) ∧
  ∃ p, dfind 4 (services demo_up) = Some p ∧ 3 ∈ lm_dependees p ∧
       (lm_state p = ACTIVE ∨ lm_state p = UNINJECTING).
Proof.
  assert (4 ∈ lm_injected (demo_lm demo_up 3)) as Hin by (vm_compute; apply list_elem_of_here).
  split; [exact Hin|].
  apply (services_use_live_dependencies (Heap.push OrderedPriorityQueueCompare) idle_code demo_sigs
           1 IFACE_DM IFACE_QUEUE 5000 demo_typed demo_up 3 (demo_lm demo_up 3) 4).
  - apply (demo_reachable idle_code 20). vm_compute. reflexivity.
  - vm_compute. reflexivity.
  - exact Hin.
  - discriminate.
Defined.

Lemma dependees_hold_their_provider_witness :
  3 ≠ 4 ∧ ∃ m, dfind 3 (services demo_up) = Some m ∧ lm_kind m = KDependency ∧ 4 ∈ lm_injected m.
Proof.
  apply (dependees_hold_their_provider (Heap.push OrderedPriorityQueueCompare) idle_code demo_sigs
           1 IFACE_DM IFACE_QUEUE 5000 demo_typed demo_up 4 (demo_lm demo_up 4) 3).
  - apply (demo_reachable idle_code 20). vm_compute. reflexivity.
  - vm_compute. reflexivity.
  - vm_compute. apply list_elem_of_here.
Defined.

Lemma service_histories_legal_witness :
  lm_trace (demo_lm demo_up 3) = [INJECTING; STARTING; INSTALLED] ∧
  legal_history KDependency (history (demo_lm demo_up 3)) = true.
Proof.
  split; [vm_compute; reflexivity|].
  apply (service_histories_legal (Heap.push OrderedPriorityQueueCompare) idle_code demo_sigs
           1 IFACE_DM IFACE_QUEUE 5000 demo_typed demo_up 3 (demo_lm demo_up 3)).
  - apply (demo_reachable idle_code 20). vm_compute. reflexivity.
  - vm_compute. reflexivity.
Defined.

Definition demo_gen : scoped_generator :=
  default (mkScoped GIchorBehaviour 0 0 (CDone SB_DONE) (mkEvent 0 0 0 DoWorkEvent) 0)
    (gens demo_starting !! 1).

Lemma one_start_or_stop_at_a_time_witness :
  (∃ m, dfind 4 (services demo_starting) = Some m ∧ lm_state m = STARTING ∧ lm_dependees m = []) ∧
  ∀ pid' g' st', gens demo_starting !! pid' = Some g' →
    frame_svc (sg_cont g') = Some (4, st') → pid' = 1.
Proof.
  apply (one_start_or_stop_at_a_time (Heap.push OrderedPriorityQueueCompare) slow_start_code demo_sigs
           1 IFACE_DM IFACE_QUEUE 5000 demo_typed demo_starting 1 demo_gen 4 STARTING).
  - apply (demo_reachable slow_start_code 20). vm_compute. reflexivity.
  - vm_compute. reflexivity.
  - vm_compute. reflexivity.
Defined.

(** The first event of the demo: the insertion of the consumer. *)
Definition demo_popped : Event * list Event :=
  default (mkEvent 0 0 0 DoWorkEvent, []) (Heap.pop OrderedPriorityQueueCompare (queue demo_begin)).
Definition demo_second : DM :=
  default (fresh_manager 1 IFACE_DM IFACE_QUEUE 5000) (demo_driven idle_code 1%nat).

Lemma processEvent_refines_network_witness :
  queue demo_begin ≡ₚ demo_popped.1 :: demo_popped.2 ∧
  rtc net_step (view demo_begin) (view demo_second).
Proof.
  assert (queue demo_begin ≡ₚ demo_popped.1 :: demo_popped.2) as Hq.
  { vm_compute. repeat (apply perm_skip || apply perm_nil) || (etransitivity; [apply perm_swap|reflexivity]). }
  split; [exact Hq|].
  apply (processEvent_refines_network (Heap.push OrderedPriorityQueueCompare) idle_code demo_sigs
           1 IFACE_DM IFACE_QUEUE 5000 demo_typed demo_begin demo_popped.1 demo_popped.2 demo_second).
  - apply (demo_reachable idle_code 0). vm_compute. reflexivity.
  - exact Hq.
  - vm_compute. split; reflexivity.
  - vm_compute. reflexivity.
Defined.

Lemma queued_event_ids_distinct_witness :
  length (queue demo_begin) = 4%nat ∧ NoDup (ev_id <$> queue demo_begin).
Proof.
  split; [vm_compute; reflexivity|].
  apply (queued_event_ids_distinct (Heap.push OrderedPriorityQueueCompare) idle_code demo_sigs
           1 IFACE_DM IFACE_QUEUE 5000 demo_begin).
  - apply (demo_reachable idle_code 0). vm_compute. reflexivity.
  - vm_compute. discriminate.
Defined.
