(* ===== verification/Quit.v ===== *)
(** * Quitting

    When [checkIfCanQuit] declares the manager done, nothing is left behind, and
    nothing happens afterwards. *)

From S2P Require Import Prelude DenseMap Register Lifecycle Heap Events Manager Dispatch Network.
From S2P Require Import Refinement Bookkeeping EventLoop Scenarios Runs.
From stdpp Require Import base list gmap.
From Stdlib Require Import ZArith Lia.

Open Scope Z_scope.

(** No service, no coroutine, no waiter; a QuitEvent was seen and the queue told. *)
Definition quit_state (d : DM) : Prop :=
  services d = [] ∧ gens d = ∅ ∧ eventWaiters d = [] ∧ dependencyWaiters d = ∅ ∧
  quitEventReceived d = true ∧ queueQuit d = true ∧ localAll d = [] ∧ localEvt d = [].

Definition quits_cleanly (d : DM) : Prop := quitDone d = true → quit_state d.

Section quit.
Context (qpush : list Event → Event → list Event) (uc : UserCode).

Definition may_quit {A} (m : M DM A) : Prop :=
  ∀ d, quitDone d = false → wlp m (λ _ d', quits_cleanly d') d.

Lemma may_quit_same {A} (m : M DM A) : pres same_quit m → may_quit m.
Proof.
  intros Hm d Hd. eapply wlp_mono, Hm. simpl. intros _ d' E Hd'. unfold same_quit in E. congruence.
Qed.

Lemma may_quit_bind {A B} (m : M DM A) (f : A → M DM B) :
  pres same_quit m → (∀ a, may_quit (f a)) → may_quit (mbind f m).
Proof.
  intros Hm Hf d Hd. apply wlp_bind. eapply wlp_mono, Hm. simpl. intros a d' E. apply Hf.
  unfold same_quit in E. congruence.
Qed.

Lemma may_quit_ret {A B} (m : M DM A) (b : B) : may_quit m → may_quit (m;; mret b).
Proof. intros Hm d Hd. apply wlp_bind. eapply wlp_mono, Hm, Hd. simpl. done. Qed.

Lemma checkIfCanQuit_clean : may_quit checkIfCanQuit.
Proof.
  intros d Hd. unfold checkIfCanQuit. apply wlp_bind, wlp_get.
  apply wlp_when; intros H1; [|intros ?; congruence]. apply wlp_when; intros H2; [|intros ?; congruence].
  bool_hyps. case_bool_decide; [|apply wlp_terminate]. case_bool_decide; [|apply wlp_terminate]. simpl.
  do 6 (apply wlp_bind, wlp_modify || apply wlp_modify). intros _. split_and!; done.
Qed.

(** The functions that do not quit, from Bookkeeping.v. *)
Ltac same_leaf :=
  first
    [ apply (bk_modify qpush same_quit); by intros ?
    | apply (push_bk qpush same_quit); by intros ?
    | apply (handleEventCompletion_bk qpush same_quit)
    | apply (runFrame_bk qpush same_quit) | apply (storeFrame_bk qpush same_quit)
    | apply (collectGenerator_bk qpush same_quit) | apply (finishStop_bk qpush uc same_quit)
    | apply (finishWaitingService_bk qpush same_quit) | apply (beginStop_bk qpush uc same_quit)
    | apply (findService_bk qpush same_quit) | apply (newPromiseId_bk qpush same_quit)
    | apply (newRef_bk qpush same_quit) | apply (scopeGenerator_bk qpush same_quit)
    | apply (continueStart_bk qpush same_quit) | apply (continueOnline_bk qpush same_quit)
    | apply (continueOffline_bk qpush same_quit) ].
#[local] Instance same_quit_preorder : PreOrder same_quit := bk_preorder (qpush := qpush).
Ltac same_auto := repeat first [same_leaf|pres_step].

Lemma onQuit_clean e : may_quit (onQuit qpush e).
Proof.
  unfold onQuit, quitStep. do 2 (apply may_quit_bind; [same_auto|intros ?]).
  apply may_quit_bind; [same_auto|]. intros _. apply may_quit_ret, checkIfCanQuit_clean.
Qed.

Lemma onContinuable_clean pid : may_quit (onContinuable qpush pid).
Proof.
  unfold onContinuable. apply may_quit_bind; [same_auto|]. intros [g|]; [|apply may_quit_same; same_auto].
  apply may_quit_bind; [same_auto|]. intros _. apply may_quit_ret, checkIfCanQuit_clean.
Qed.

Lemma continueStop_clean orig pid svc r : may_quit (continueStop qpush uc orig pid svc r).
Proof.
  unfold continueStop. apply may_quit_bind; [same_auto|]. intros [m|]; [|apply may_quit_same; same_auto].
  do 2 (case_match; [apply may_quit_same; same_auto|]).
  do 3 (apply may_quit_bind; [same_auto|intros _]). apply checkIfCanQuit_clean.
Qed.

Lemma onContinuableStart_clean e pid : may_quit (onContinuableStart qpush uc e pid).
Proof.
  unfold onContinuableStart. apply may_quit_bind; [same_auto|]. intros [g|]; [|apply may_quit_same; same_auto].
  apply may_quit_ret. destruct (sg_cont g); try by (apply may_quit_same; same_auto).
  destruct (ev_body (sg_event g)); first [apply continueStop_clean|by (apply may_quit_same; same_auto)].
Qed.

Lemma onStopService_clean e svc r : may_quit (onStopService qpush uc e svc r).
Proof.
  unfold onStopService. apply may_quit_bind; [same_auto|]. intros [m|]; [|apply may_quit_same; same_auto].
  case_match; [apply may_quit_same; same_auto|]. apply may_quit_bind; [same_auto|]. intros waiting.
  case_match; [apply may_quit_same; same_auto|]. apply may_quit_bind; [same_auto|]. intros _.
  apply may_quit_bind; [same_auto|]. intros running. case_match; [apply may_quit_same; same_auto|].
  apply may_quit_bind; [same_auto|]. intros [m'|]; [|apply may_quit_same; same_auto].
  case_match; [|apply may_quit_same; same_auto]. do 2 (apply may_quit_bind; [same_auto|intros ?]).
  apply may_quit_bind; [same_auto|]. intros [v|c]; [|apply may_quit_same; same_auto].
  apply may_quit_bind; [same_auto|]. intros om.
  destruct (bool_decide (lm_state <$> om = Some INSTALLED)); [|apply may_quit_same; same_auto].
  apply may_quit_bind; [same_auto|]. intros _. apply may_quit_ret, checkIfCanQuit_clean.
Qed.

Lemma handled_clean m : may_quit m → may_quit (handled m).
Proof. intros Hm d Hd. apply wlp_bind. eapply wlp_mono, Hm, Hd. simpl. done. Qed.

Lemma dispatch_clean e : may_quit (dispatch qpush uc e).
Proof.
  unfold dispatch. destruct (ev_body e); try apply handled_clean;
    first [ apply onQuit_clean | apply onStopService_clean | apply onContinuable_clean
          | apply onContinuableStart_clean | apply may_quit_same ].
  - apply (onDependencyOnline_bk qpush uc same_quit).
  - apply (onDependencyOffline_bk qpush same_quit).
  - apply (onDependencyRequest_bk qpush uc same_quit).
  - apply (broadcastEvent_bk qpush uc same_quit).
  - apply (onStartService_bk qpush uc same_quit).
  - apply (onRemoveService_bk qpush uc same_quit).
  - apply (broadcastEvent_bk qpush uc same_quit).
  - apply (onRemoveEventHandler_bk qpush same_quit).
  - apply (onRemoveEventInterceptor_bk qpush same_quit).
  - apply (onAddTracker_bk qpush uc same_quit).
  - apply (onRemoveTracker_bk qpush same_quit).
  - apply (broadcastEvent_bk qpush uc same_quit).
  - apply (onInsertService_bk qpush uc same_quit).
  - apply (onRunFunction_bk qpush uc same_quit).
  - apply (onRunFunctionAsync_bk qpush uc same_quit).
  - apply (broadcastEvent_bk qpush uc same_quit).
Qed.

(** What [processEvent] does after the switch. *)
Lemma epilogue_clean e d b moved :
  quits_cleanly d →
  wlp (all ← gets localAll; postIntercepts qpush uc all e b;;
       evs ← gets localEvt; postIntercepts qpush uc evs e b;;
       when (negb moved) (handleEventCompletion qpush (ev_id e))) (λ _ d', quits_cleanly d') d.
Proof.
  intros Hd. destruct (quitDone d) eqn:Hq.
  - destruct (Hd Hq) as (H1 & H2 & H3 & H4 & H5 & H6 & H7 & H8).
    apply wlp_bind, wlp_gets. rewrite H7. apply wlp_bind, wlp_ret, wlp_bind, wlp_gets. rewrite H8.
    apply wlp_bind, wlp_ret. apply wlp_when; intros _; [|done].
    unfold handleEventCompletion. apply wlp_bind, wlp_gets. rewrite H3. done.
  - revert d Hq Hd. assert (∀ m : M DM (), pres same_quit m →
      ∀ d, quitDone d = false → quits_cleanly d → wlp m (λ _ d', quits_cleanly d') d) as Hm.
    { intros m Hm d Hq _. by apply may_quit_same. }
    apply Hm. repeat first [apply (postIntercepts_bk qpush uc same_quit)|same_leaf|pres_step].
Qed.

Lemma processEvent_clean e d : quits_cleanly d → wlp (processEvent qpush uc e) (λ _ d', quits_cleanly d') d.
Proof.
  intros Hd.
  unfold processEvent. apply wlp_bind, wlp_gets. destruct (quitDone d) eqn:Hq; [by apply wlp_ret|].
  case_match; [apply wlp_terminate|]. do 2 apply wlp_bind, wlp_gets.
  apply wlp_bind. eapply wlp_mono; [|by apply (interceptGroup_bk qpush uc same_quit)].
  simpl. intros allow1 d1 E1. apply wlp_bind.
  eapply wlp_mono; [|by apply (interceptGroup_bk qpush uc same_quit)].
  simpl. intros allow d2 E2. unfold same_quit in E1, E2. apply wlp_bind.
  assert (wlp (if (allow : bool) then dispatch qpush uc e else mret (1, false))
            (λ _ d', quits_cleanly d') d2) as Hdis.
  { destruct allow; [apply dispatch_clean; congruence|apply wlp_ret; intros ?; congruence]. }
  eapply wlp_mono, Hdis. simpl. intros [n moved] d3. apply epilogue_clean.
Qed.

(** Actions of service code leave all this alone. *)
Definition same_rest (d d' : DM) : Prop :=
  services d' = services d ∧ gens d' = gens d ∧ eventWaiters d' = eventWaiters d ∧
  dependencyWaiters d' = dependencyWaiters d ∧ quitEventReceived d' = quitEventReceived d ∧
  queueQuit d' = queueQuit d ∧ localAll d' = localAll d ∧ localEvt d' = localEvt d ∧ quitDone d' = quitDone d.
#[local] Instance same_rest_preorder : PreOrder same_rest.
Proof.
  split; [intros d; unfold same_rest; by split_and!|].
  intros d1 d2 d3 (?&?&?&?&?&?&?&?&?) (?&?&?&?&?&?&?&?&?). unfold same_rest. split_and!; congruence.
Qed.
Lemma push_rest origin priority b : pres same_rest (Manager.push qpush origin priority b).
Proof. intros d. done. Qed.
Hint Resolve push_rest : ichor_pres.
Lemma runAction_rest a : pres same_rest (runAction qpush a).
Proof.
  destruct a; simpl; unfold registerEventHandler, registerEventInterceptor, registerDependencyTracker,
    internalCreateServiceManager, findService; pres_auto.
Qed.

Lemma same_rest_clean d d' : same_rest d d' → quits_cleanly d → quits_cleanly d'.
Proof.
  intros (E1&E2&E3&E4&E5&E6&E7&E8&E9). unfold quits_cleanly, quit_state.
  by rewrite E1, E2, E3, E4, E5, E6, E7, E8, E9.
Qed.

(** Resuming: before the manager has quit it cannot make it quit, afterwards there
    is nothing to resume. *)
Lemma resume_clean pid d : quits_cleanly d → wlp (resume qpush pid) (λ _ d', quits_cleanly d') d.
Proof.
  intros Hd. destruct (quitDone d) eqn:Hq.
  - destruct (Hd Hq) as (_ & Hg & _). unfold resume. apply wlp_bind, wlp_gets. rewrite Hg, lookup_empty.
    by apply wlp_ret.
  - eapply wlp_mono, (resume_bk qpush same_quit). simpl. intros _ d' E Hd'. unfold same_quit in E. congruence.
Qed.

Context (Γ : Z → signature).
Lemma step_clean d d' : dm_step qpush uc Γ d d' → quits_cleanly d → quits_cleanly d'.
Proof.
  intros Hs Hd. destruct Hs as [d e q d' Hpop Hf Hp|d a d' Ha|d pid d' Hr].
  - pose proof (processEvent_clean e (upd_queue (λ _, q) d) Hd) as Hw. unfold wlp in Hw. by rewrite Hp in Hw.
  - pose proof (runAction_rest a d) as Hw. unfold wlp in Hw. rewrite Ha in Hw. by eapply same_rest_clean.
  - pose proof (resume_clean pid d Hd) as Hw. unfold wlp in Hw. by rewrite Hr in Hw.
Qed.

(** C6: when the manager has quit, nothing is left: in every reachable state with
    [_quitDone], whatever the events, the queue and the service code, there is no
    service in the table, no suspended coroutine, no waiter on an event or a
    dependency and no interceptor of the running event; a QuitEvent has been
    received and the queue has been told to stop. *)
Theorem quitting_leaves_nothing_behind id dm_iface queue_iface t d :
  reachable qpush uc Γ id dm_iface queue_iface t d → quitDone d = true → quit_state d.
Proof.
  intros Hr. change (quits_cleanly d). assert (quits_cleanly (fresh_manager id dm_iface queue_iface t)) as H0 by done.
  revert H0 Hr. unfold reachable. generalize (fresh_manager id dm_iface queue_iface t). intros d0 H0 Hr.
  induction Hr; eauto using step_clean.
Qed.
End quit.

(** The demo, told to quit, after [n] events. *)
Definition demo_quitting (n : nat) : DM :=
  default (fresh_manager 1 IFACE_DM IFACE_QUEUE 5000)
    (driven OrderedPriorityQueueCompare idle_code demo_sigs 1 IFACE_DM IFACE_QUEUE 5000
       (demo_actions ++ [PushEvent 0 2000 UQuit]) n).

Lemma quitting_leaves_nothing_behind_witness :
  quitDone (demo_quitting 15) = true ∧ quit_state (demo_quitting 15).
Proof.
  split; [vm_compute; reflexivity|].
  apply (quitting_leaves_nothing_behind (Heap.push OrderedPriorityQueueCompare) idle_code demo_sigs
           1 IFACE_DM IFACE_QUEUE 5000 (demo_quitting 15)).
  - apply (driven_reachable OrderedPriorityQueueCompare idle_code demo_sigs 1 IFACE_DM IFACE_QUEUE 5000
             (demo_actions ++ [PushEvent 0 2000 UQuit]) 15). vm_compute. reflexivity.
  - vm_compute. reflexivity.
Defined.
