(* ===== verification/Waiting.v ===== *)
(** * Waking the services that wait for a dependency

    [finishWaitingService] resumes, round after round, the coroutines that wait
    for an event of a service; a resumed [dependencyOffline] may wait again.  The
    rounds end, the bound used in the model is enough, and nobody is forgotten. *)

From S2P Require Import Prelude DenseMap Register Lifecycle Heap Events Manager Dispatch Network.
From S2P Require Import Refinement Bookkeeping EventLoop Scenarios Runs.
From stdpp Require Import base list gmap.
From Stdlib Require Import ZArith Lia.

Open Scope Z_scope.

(** ** The measure: how often the suspended frames can still wait *)

Definition weight (G : gmap Z scoped_generator) : nat :=
  map_fold (λ _ g n, (frame_fuel (sg_cont g) + n)%nat) 0%nat G.

Lemma weight_delete pid g G :
  G !! pid = Some g → weight G = (frame_fuel (sg_cont g) + weight (delete pid G))%nat.
Proof.
  intros Hg. apply (map_fold_delete_L (λ _ g n, (frame_fuel (sg_cont g) + n)%nat)); [|done].
  intros. lia.
Qed.

Lemma weight_set_cont pid g c G :
  G !! pid = Some g →
  (weight (alter (set_cont c) pid G) + frame_fuel (sg_cont g) = weight G + frame_fuel c)%nat.
Proof.
  intros Hg. rewrite (weight_delete pid g G) by done.
  rewrite (weight_delete pid (set_cont c g) (alter (set_cont c) pid G))
    by (rewrite lookup_alter, decide_True, Hg; done).
  rewrite delete_alter_eq. simpl. lia.
Qed.

Section waiting.
Context (qpush : list Event → Event → list Event).

(** The two events dependencies are waited for. *)
Definition dep_event (ty : Z) : Prop :=
  ty = TYPE_DependencyOnlineEvent ∨ ty = TYPE_DependencyOfflineEvent.

(** ** Service code cannot wait for them *)

Definition same_waiters (d d' : DM) : Prop :=
  gens d' = gens d ∧
  ∀ svc ty, dep_event ty → hasDependencyWaiter svc ty d' = hasDependencyWaiter svc ty d.
#[local] Instance same_waiters_preorder : PreOrder same_waiters.
Proof.
  split; [done|]. intros d1 d2 d3 [E1 H1] [E2 H2]. split; [congruence|].
  intros svc ty Hty. by rewrite H2, H1.
Qed.

Lemma wait_other_same pid svc ty :
  ¬ dep_event ty → pres same_waiters (waitForService pid svc ty).
Proof.
  intros Hty d. split; [done|]. intros svc' ty' Hty'. unfold hasDependencyWaiter. simpl.
  assert (ty ≠ ty') as Hne by naive_solver.
  destruct (decide (svc = svc')) as [->|Hs].
  - destruct (dependencyWaiters d !! svc') as [w|]; rewrite lookup_insert, decide_True by done; simpl.
    + apply bool_decide_ext. rewrite Exists_app, Exists_cons, Exists_nil. naive_solver.
    + apply bool_decide_false. rewrite Exists_cons, Exists_nil. naive_solver.
  - destruct (dependencyWaiters d !! svc); by rewrite lookup_insert_ne.
Qed.

Lemma same_push origin priority b : pres same_waiters (Manager.push qpush origin priority b).
Proof. intros d. done. Qed.
#[local] Hint Resolve same_push : ichor_pres.

Lemma runActions_same l : pres same_waiters (runActions qpush l).
Proof.
  unfold runActions. apply pres_for_each; [apply _|]. intros a _.
  destruct a; simpl; unfold registerEventHandler, registerEventInterceptor, registerDependencyTracker,
    internalCreateServiceManager, findService; pres_auto.
Qed.

Lemma runUser_same {R} pid (k : ucoro R) : pres same_waiters (runUser qpush pid k).
Proof.
  assert (¬ dep_event TYPE_StartServiceEvent ∧ ¬ dep_event TYPE_StopServiceEvent) as [H1 H2].
  { split; intros [E|E]; discriminate. }
  induction k as [acts r|acts k IH|acts o p c e k IH|acts svc started kq IHq k IH]; simpl;
    (pres_step; [apply runActions_same|]).
  - apply pres_ret, _.
  - apply pres_ret, _.
  - pres_step; [|apply pres_ret, _]. unfold pushPrioritisedEventAsync, findService, pushPrioritisedEvent.
    pres_auto.
  - pres_step; [apply pres_gets, _|]. case_match; [done..|].
    pres_step; [|apply pres_ret, _]. destruct started; by apply wait_other_same.
Qed.

(** ** A resumed [dependencyOffline] has less to wait for *)

(** It suspends again with a smaller frame, or has not waited. *)
Definition less_than (n : nat) (d : DM) (r : run_result) (d' : DM) : Prop :=
  gens d' = gens d ∧
  match r with
  | inl _ => dependencyWaiters d' = dependencyWaiters d
  | inr c => (frame_fuel c < n)%nat ∧ frame_svc c = None
  end.

Lemma less_mono n n' d r d' : (n ≤ n')%nat → less_than n d r d' → less_than n' d r d'.
Proof. intros Hn [Hg Hr]. split; [done|]. destruct r; [done|]. destruct Hr. split; [lia|done]. Qed.

Lemma depOffline_stop_less svc pid required rest i ret next d :
  (∀ i' r' d1, gens d1 = gens d → dependencyWaiters d1 = dependencyWaiters d →
     wlp (next i' r') (less_than (2 * length rest + 1) d) d1) →
  wlp (depOffline_stop qpush svc pid required rest i ret next) (less_than (2 * length rest + 2) d) d.
Proof.
  intros Hnext. unfold depOffline_stop, findService. apply wlp_bind, wlp_gets.
  destruct (dfind svc (services d)) as [m|]; [|apply wlp_terminate].
  assert (∀ i' r', wlp (next i' r') (less_than (2 * length rest + 2) d) d) as Hn.
  { intros i' r'. eapply wlp_mono, Hnext; [|done..]. intros r d'. apply less_mono. lia. }
  destruct (_ && _); [|apply Hn]. apply wlp_bind, wlp_gets. case_bool_decide.
  - apply wlp_bind. destruct (hasDependencyWaiter _ _ _); cbn [negb];
      (apply wlp_bind || idtac); repeat wlp_step; unfold wlp, less_than; simpl; (split; [done|]); lia || (split; [lia|done]).
  - destruct (hasDependencyWaiter _ _ _).
    + apply wlp_bind, wlp_modify, wlp_ret. split; [done|]. simpl. split; [lia|done].
    + apply wlp_bind. unfold depOffline_decide, findService. apply wlp_bind, wlp_gets.
      destruct (dfind svc (services d)); [|apply wlp_terminate].
      case_bool_decide; apply wlp_ret, Hn.
Qed.

Lemma depOffline_loop_less svc pid deps i ret d :
  wlp (depOffline_loop qpush svc pid deps i ret) (less_than (2 * length deps + 1) d) d.
Proof.
  assert (∀ d1, gens d1 = gens d → dependencyWaiters d1 = dependencyWaiters d →
    wlp (depOffline_loop qpush svc pid deps i ret) (less_than (2 * length deps + 1) d) d1) as Hall;
    [|by apply Hall].
  revert i ret. induction deps as [|n deps IH]; intros i ret d1 Hg Hw; cbn [depOffline_loop].
  { by apply wlp_ret. }
  unfold findService. apply wlp_bind, wlp_gets.
  destruct (dfind svc (services d1)) as [m|]; [|apply wlp_terminate].
  destruct (lm_registry m !! n) as [node|]; [|apply wlp_terminate].
  apply wlp_bind, wlp_modify. set (d2 := upd_services _ d1).
  case_match; [apply wlp_terminate|]. case_match.
  - apply wlp_bind, wlp_modify, wlp_ret. split; [done|]. simpl. split; [lia|done].
  - assert (∀ r d', less_than (2 * length deps + 2) d2 r d' → less_than (2 * length (n :: deps) + 1) d r d') as Hl.
    { intros r d' [E1 E2]. split; [by rewrite E1|]. destruct r as [v|c]; [by rewrite E2|].
      simpl in *. destruct E2. split; [lia|done]. }
    eapply wlp_mono; [exact Hl|]. apply depOffline_stop_less. intros i' r' d3 Hg3 Hw3.
    eapply wlp_mono, (IH i' r' d3); [| by rewrite Hg3 | by rewrite Hw3].
    intros r d' [E1 E2]. split; [by rewrite E1|]. destruct r; [by rewrite E2|done].
Qed.

Lemma resumeDepOffline_less svc pid stage rest i ret d :
  wlp (resumeDepOffline qpush svc pid stage rest i ret)
    (less_than (frame_fuel (CDepOffline svc stage rest i ret)) d) d.
Proof.
  unfold resumeDepOffline, findService. apply wlp_bind, wlp_gets.
  destruct (dfind svc (services d)) as [m|]; [|apply wlp_terminate].
  assert (∀ i' r' d1, gens d1 = gens d → dependencyWaiters d1 = dependencyWaiters d →
    wlp (depOffline_loop qpush svc pid rest i' r') (less_than (2 * length rest + 1) d) d1) as Hloop.
  { intros i' r' d1 E1 E2. eapply wlp_mono, depOffline_loop_less. intros r d' [F1 F2].
    split; [by rewrite F1|]. destruct r; [by rewrite F2|done]. }
  assert (wlp (x ← depOffline_decide svc; depOffline_loop qpush svc pid rest x.1 (default ret x.2))
    (less_than (2 * length rest + 1) d) d) as Hdec.
  { apply wlp_bind. unfold depOffline_decide, findService. apply wlp_bind, wlp_gets.
    destruct (dfind svc (services d)); [|apply wlp_terminate].
    case_bool_decide; by apply wlp_ret, Hloop. }
  destruct stage; simpl.
  - case_bool_decide; [|apply wlp_terminate]. by apply depOffline_stop_less.
  - case_bool_decide; [done|apply wlp_terminate].
  - done.
Qed.

(** ** Resuming: a new waiter costs weight *)

Section rounds.
Context (svc ty : Z) (Hty : dep_event ty).

Definition waits (d : DM) : Prop := hasDependencyWaiter svc ty d = true.
Definition costs (d d' : DM) : Prop :=
  (weight (gens d') ≤ weight (gens d))%nat ∧
  (waits d' → waits d ∨ (weight (gens d') < weight (gens d))%nat).

#[local] Instance costs_preorder : PreOrder costs.
Proof.
  split; [by split; [lia|auto]|]. intros d1 d2 d3 [W1 H1] [W2 H2]. split; [lia|].
  intros H. destruct (H2 H) as [H'|]; [|right; lia]. destruct (H1 H'); [auto|right; lia].
Qed.

Lemma same_waiters_costs d d' : same_waiters d d' → costs d d'.
Proof. intros [E H]. unfold costs, waits. rewrite E, H by done. auto. Qed.

(** Storing what a frame that cannot wait for dependencies came to. *)
Lemma storeFrame_costs d d1 pid g r :
  gens d !! pid = Some g → same_waiters d d1 →
  match r with inl _ => True | inr c => (frame_fuel c ≤ frame_fuel (sg_cont g))%nat end →
  wlp (storeFrame qpush pid g r) (λ _ d2, costs d d2) d1.
Proof.
  intros Hg [E H] Hr.
  assert (∀ c d2, (frame_fuel c ≤ frame_fuel (sg_cont g))%nat → same_waiters d1 d2 →
    costs d (upd_gens (alter (set_cont c) pid) d2)) as Hset.
  { intros c d2 Hc [E2 H2]. unfold costs, waits.
    change (hasDependencyWaiter svc ty (upd_gens (alter (set_cont c) pid) d2))
      with (hasDependencyWaiter svc ty d2).
    rewrite H2, H by done. simpl. rewrite E2, E. pose proof (weight_set_cont pid g c (gens d) Hg).
    split; [lia|auto]. }
  destruct r as [v|c]; simpl.
  - apply wlp_bind. eapply wlp_mono, same_push. simpl. intros _ d2 Hs. apply wlp_modify, Hset; [simpl; lia|done].
  - by apply wlp_modify, Hset.
Qed.

(** Storing the result of a resumed [dependencyOffline]. *)
Lemma storeFrame_less d d1 pid g r :
  gens d !! pid = Some g → less_than (frame_fuel (sg_cont g)) d r d1 →
  wlp (storeFrame qpush pid g r) (λ _ d2, costs d d2) d1.
Proof.
  intros Hg [E Hr]. destruct r as [v|c].
  - apply storeFrame_costs; [done| |done]. split; [done|]. intros x y _.
    unfold hasDependencyWaiter. by rewrite Hr.
  - apply wlp_modify. destruct Hr as [Hlt _]. unfold costs. simpl. rewrite E.
    pose proof (weight_set_cont pid g c (gens d) Hg). split; [lia|]. right. lia.
Qed.

Lemma runGen_costs d pid g body :
  gens d !! pid = Some g →
  wlp (runGen qpush (sg_svc g) (sg_priority g) pid body)
    (λ r d1, wlp (storeFrame qpush pid g r) (λ _ d2, costs d d2) d1) d.
Proof.
  intros Hg. destruct body as [b|b rest]; cbn [runGen]; apply wlp_bind;
    (eapply wlp_mono, runUser_same); simpl; intros [u|b'] d1 Hs.
  - by apply wlp_ret, storeFrame_costs.
  - apply wlp_ret, storeFrame_costs; [done..|]. simpl. lia.
  - apply wlp_bind. eapply wlp_mono, same_push. simpl. intros _ d2 Hs2. apply wlp_ret.
    apply storeFrame_costs; [done|by etransitivity|]. simpl. lia.
  - apply wlp_ret, storeFrame_costs; [done..|]. simpl. lia.
Qed.

Lemma resume_costs pid : pres costs (resume qpush pid).
Proof.
  intros d. unfold resume. apply wlp_bind, wlp_gets.
  destruct (gens d !! pid) as [g|] eqn:Hg; [|apply wlp_ret; reflexivity].
  unfold runFrame.
  destruct (sg_cont g) as [s after k|s k|s stage rest i r|body|body|v] eqn:Hc;
    [| | | | |apply wlp_ret; reflexivity]; apply wlp_bind.
  - unfold runStart. apply wlp_bind. eapply wlp_mono, runUser_same. simpl. intros [ok|k'] d1 Hs.
    + apply wlp_bind, wlp_modify, wlp_ret. by apply storeFrame_costs.
    + apply wlp_ret, storeFrame_costs; [done..|]. simpl. lia.
  - unfold runStop. apply wlp_bind. eapply wlp_mono, runUser_same. simpl. intros [ok|k'] d1 Hs.
    + apply wlp_bind, wlp_modify, wlp_ret. by apply storeFrame_costs.
    + apply wlp_ret, storeFrame_costs; [done..|]. simpl. lia.
  - eapply wlp_mono, resumeDepOffline_less. intros x d1 Hl. apply storeFrame_less; [done|].
    by rewrite Hc.
  - by apply runGen_costs.
  - by apply runGen_costs.
Qed.

(** ** The rounds *)

Lemma take_waiters_none d :
  wlp (take_waiters svc ty) (λ l d', gens d' = gens d ∧ ¬ waits d' ∧ (l ≠ [] → waits d)) d.
Proof.
  unfold take_waiters, wlp, waits, hasDependencyWaiter.
  destruct (dependencyWaiters d !! svc) as [w|] eqn:Hw; [|by rewrite Hw]. split_and!; [done| |].
  - simpl. rewrite lookup_insert, decide_True by done. simpl. rewrite bool_decide_eq_true.
    intros Hx. apply Exists_exists in Hx as (p & Hp & E). apply list_elem_of_filter in Hp. naive_solver.
  - intros Hne. apply bool_decide_eq_true. apply Exists_exists.
    destruct (filter (λ p, p.1 = ty) (ew_events w)) as [|p l] eqn:Hf; [done|].
    exists p. assert (p ∈ filter (λ p, p.1 = ty) (ew_events w)) as Hp by (rewrite Hf; set_solver).
    apply list_elem_of_filter in Hp. naive_solver.
Qed.

(** With at least as much fuel as weight, or nobody waiting, nobody waits at
    the end. *)
Lemma finish_rounds_done fuel ret d :
  ¬ waits d ∨ (weight (gens d) < fuel)%nat →
  wlp (finish_rounds qpush fuel svc ty ret) (λ _ d', ¬ waits d') d.
Proof.
  revert ret d. induction fuel as [|fuel IH]; intros ret d Hd; simpl.
  { apply wlp_ret. destruct Hd; [done|lia]. }
  apply wlp_bind. eapply wlp_mono, take_waiters_none. simpl. intros l d1 (Hg & Hn & Hl).
  apply wlp_bind. destruct l as [|x l]; [by apply wlp_ret|].
  assert (pres costs (for_each (x :: l) (resume qpush))) as Hres.
  { apply pres_for_each; [apply _|]. intros y _. apply resume_costs. }
  eapply wlp_mono, Hres. cbn [bool_decide]. intros _ d2 [Hw Hc].
  rewrite bool_decide_false by done. apply IH.
  destruct Hd as [Hd|Hd]; [naive_solver|]. rewrite Hg in *.
  destruct (decide (weight (gens d2) < weight (gens d))%nat); [right; lia|].
  left. intros H2. destruct (Hc H2); [done|lia].
Qed.
End rounds.

(** ** Everybody who waited has been resumed *)

(** The frames stay, and none has more to wait for. *)
Definition moves_on (d d' : DM) : Prop :=
  ∀ pid g, gens d !! pid = Some g →
    ∃ g', gens d' !! pid = Some g' ∧ (frame_fuel (sg_cont g') ≤ frame_fuel (sg_cont g))%nat.
#[local] Instance moves_on_preorder : PreOrder moves_on.
Proof.
  split; [intros d pid g Hg; by exists g|]. intros d1 d2 d3 H1 H2 pid g Hg.
  destruct (H1 pid g Hg) as (g1 & Hg1 & L1). destruct (H2 pid g1 Hg1) as (g2 & Hg2 & L2). exists g2. split; [done|lia].
Qed.

(** A suspended [dependencyOffline], the only frame that has something to wait for, is
    finished or waits at a later place. *)
Definition resumed (pid : Z) (d d' : DM) : Prop :=
  ∀ g, gens d !! pid = Some g → (0 < frame_fuel (sg_cont g))%nat →
    ∃ g', gens d' !! pid = Some g' ∧ (frame_fuel (sg_cont g') < frame_fuel (sg_cont g))%nat.

Lemma resumed_moves pid d1 d2 d3 : resumed pid d1 d2 → moves_on d2 d3 → resumed pid d1 d3.
Proof.
  intros H1 H2 g Hg H0. destruct (H1 g Hg H0) as (g' & Hg' & L).
  destruct (H2 pid g' Hg') as (g2 & ? & ?). exists g2. split; [done|lia].
Qed.
Lemma moves_resumed pid d1 d2 d3 :
  moves_on d1 d2 → moves_on d2 d3 → resumed pid d2 d3 → resumed pid d1 d3.
Proof.
  intros H1 H2 H3 g Hg H0. destruct (H1 pid g Hg) as (g1 & Hg1 & L).
  destruct (decide (0 < frame_fuel (sg_cont g1))%nat) as [Hp|Hp].
  - destruct (H3 g1 Hg1 Hp) as (g2 & ? & ?). exists g2. split; [done|lia].
  - destruct (H2 pid g1 Hg1) as (g2 & ? & ?). exists g2. split; [done|lia].
Qed.

(** What running a frame leaves to be stored. *)
Definition leftover (r : run_result) : cont := match r with inl v => CDone v | inr c => c end.
Definition runs_less (g : scoped_generator) (d : DM) (r : run_result) (d' : DM) : Prop :=
  gens d' = gens d ∧ (frame_fuel (leftover r) ≤ frame_fuel (sg_cont g))%nat ∧
  ((0 < frame_fuel (sg_cont g))%nat → (frame_fuel (leftover r) < frame_fuel (sg_cont g))%nat).

Lemma runGen_less g d pid body :
  frame_fuel (sg_cont g) = 0%nat →
  wlp (runGen qpush (sg_svc g) (sg_priority g) pid body) (runs_less g d) d.
Proof.
  intros H0. unfold runs_less. rewrite H0. destruct body as [b|b rest]; cbn [runGen]; apply wlp_bind;
    (eapply wlp_mono, runUser_same); simpl; intros [u|b'] d1 [Hs _].
  - apply wlp_ret. simpl. split_and!; [done|lia|lia].
  - apply wlp_ret. simpl. split_and!; [done|lia|lia].
  - apply wlp_bind. eapply wlp_mono, same_push. simpl. intros _ d2 [Hs2 _]. apply wlp_ret. simpl.
    split_and!; [congruence|lia|lia].
  - apply wlp_ret. simpl. split_and!; [done|lia|lia].
Qed.

Lemma runFrame_less pid g d : wlp (runFrame qpush pid g) (runs_less g d) d.
Proof.
  unfold runFrame. destruct (sg_cont g) as [s after k|s k|s stage rest i r|body|body|v] eqn:Hc.
  - unfold runStart, runs_less. rewrite Hc. apply wlp_bind. eapply wlp_mono, runUser_same.
    simpl. intros [ok|k'] d1 [Hs _]; repeat (apply wlp_bind || apply wlp_modify); apply wlp_ret; simpl; split_and!; (done || lia).
  - unfold runStop, runs_less. rewrite Hc. apply wlp_bind. eapply wlp_mono, runUser_same.
    simpl. intros [ok|k'] d1 [Hs _]; repeat (apply wlp_bind || apply wlp_modify); apply wlp_ret; simpl; split_and!; (done || lia).
  - eapply wlp_mono, resumeDepOffline_less. intros x d1 [Hg Hl]. unfold runs_less. rewrite Hc. split; [done|].
    destruct x as [v|c]; [destruct stage; simpl; lia|]. destruct Hl as [Hl _]. simpl leftover. lia.
  - apply runGen_less. by rewrite Hc.
  - apply runGen_less. by rewrite Hc.
  - apply wlp_ret. unfold runs_less. rewrite Hc. simpl. split_and!; [done|lia|lia].
Qed.

Lemma storeFrame_gens pid g r d :
  wlp (storeFrame qpush pid g r) (λ _ d', gens d' = alter (set_cont (leftover r)) pid (gens d)) d.
Proof. by destruct r. Qed.

Lemma resume_resumes pid d : wlp (resume qpush pid) (λ _ d', moves_on d d' ∧ resumed pid d d') d.
Proof.
  unfold resume. apply wlp_bind, wlp_gets.
  destruct (gens d !! pid) as [g|] eqn:Hg; [|apply wlp_ret; split; [reflexivity|intros g; congruence]].
  assert (wlp (r ← runFrame qpush pid g; storeFrame qpush pid g r) (λ _ d', moves_on d d' ∧ resumed pid d d') d) as Hrun.
  { apply wlp_bind. eapply wlp_mono, runFrame_less. intros r d1 (E & L & S).
    eapply wlp_mono, storeFrame_gens. intros ? d2 E2. rewrite E in E2.
    assert (gens d2 !! pid = Some (set_cont (leftover r) g)) as Hg2 by (rewrite E2, lookup_alter, decide_True, Hg; done).
    split.
    - intros pid' g' Hg'. destruct (decide (pid' = pid)) as [->|Hne]; [simplify_eq; by eexists|].
      exists g'. by rewrite E2, lookup_alter_ne.
    - intros g' Hg' H0. simplify_eq. eexists. split; [done|]. by apply S. }
  destruct (sg_cont g) eqn:Hc; try exact Hrun.
  apply wlp_ret. split; [reflexivity|]. intros g' Hg' H0. simplify_eq. rewrite Hc in H0. simpl in H0. lia.
Qed.

Lemma resume_all l d :
  wlp (for_each l (resume qpush)) (λ _ d', moves_on d d' ∧ ∀ pid, pid ∈ l → resumed pid d d') d.
Proof.
  revert d. induction l as [|x l IH]; intros d; [apply wlp_ret; split; [reflexivity|set_solver]|].
  apply wlp_bind. eapply wlp_mono, resume_resumes. intros ? d1 [M1 R1].
  eapply wlp_mono, IH. intros ? d2 [M2 R2]. split; [by transitivity d1|].
  intros pid [->|Hin]%elem_of_cons; [by eapply resumed_moves|]. eapply moves_resumed; eauto.
Qed.

(** The promises of the coroutines that wait for an event of a service. *)
Definition waiters (svc ty : Z) (d : DM) : list Z :=
  match dependencyWaiters d !! svc with
  | Some w => (filter (λ p, p.1 = ty) (ew_events w)).*2
  | None => []
  end.

Lemma take_waiters_waiters svc ty d :
  wlp (take_waiters svc ty) (λ l d1, l = waiters svc ty d ∧ gens d1 = gens d) d.
Proof. unfold take_waiters, wlp, waiters. by destruct (dependencyWaiters d !! svc). Qed.

Lemma finish_rounds_moves fuel svc ty ret d :
  wlp (finish_rounds qpush fuel svc ty ret) (λ _ d', moves_on d d') d.
Proof.
  revert ret d. induction fuel as [|fuel IH]; intros ret d; simpl; [by apply wlp_ret|].
  apply wlp_bind. eapply wlp_mono, take_waiters_waiters. intros l d1 [_ Hg].
  apply wlp_bind. eapply wlp_mono, resume_all. intros ? d2 [M _].
  assert (moves_on d d2) by (intros pid g; rewrite <- Hg; apply M).
  case_bool_decide; [by apply wlp_ret|]. eapply wlp_mono, IH. intros ? d3 M3. by transitivity d2.
Qed.

Lemma finish_rounds_resumes fuel svc ty ret d :
  wlp (finish_rounds qpush (S fuel) svc ty ret) (λ _ d', ∀ pid, pid ∈ waiters svc ty d → resumed pid d d') d.
Proof.
  cbn [finish_rounds]. apply wlp_bind.
  eapply wlp_mono, take_waiters_waiters. intros l d1 [-> Hg]. apply wlp_bind. eapply wlp_mono, resume_all. intros ? d2 [_ R].
  assert (∀ pid, pid ∈ waiters svc ty d → resumed pid d d2) as R'.
  { intros pid Hin g. rewrite <- Hg. by apply R. }
  case_bool_decide; [by apply wlp_ret|]. eapply wlp_mono, finish_rounds_moves.
  intros ? d3 M3 pid Hin. eapply resumed_moves; eauto.
Qed.

(** C8: when a service has come online or gone offline, [finishWaitingService]
    leaves nobody waiting for it and forgets nobody: its loop ends, no coroutine waits
    for that event of the service any more, also none that was resumed and waited
    again, and every [dependencyOffline] that was suspended for it (no other coroutine
    waits for these events) has been resumed: it is finished, or suspended at a later
    place, with less left to wait for. *)
Theorem finishing_wakes_everyone svc ty d b d' :
  dep_event ty → finishWaitingService qpush svc ty d = Done (b, d') →
  hasDependencyWaiter svc ty d' = false ∧
  ∀ pid g svc' stage rest i r,
    pid ∈ waiters svc ty d → gens d !! pid = Some g → sg_cont g = CDepOffline svc' stage rest i r →
    ∃ g', gens d' !! pid = Some g' ∧ (frame_fuel (sg_cont g') < frame_fuel (sg_cont g))%nat.
Proof.
  intros Hty Hf.
  cut (wlp (finishWaitingService qpush svc ty)
         (λ _ d', ¬ waits svc ty d' ∧ ∀ pid, pid ∈ waiters svc ty d → resumed pid d d') d).
  { unfold wlp. rewrite Hf. intros [Hn Hr]. split; [by apply not_true_is_false|].
    intros pid g svc' stage rest i r Hin Hg Hc. apply (Hr pid Hin g Hg). rewrite Hc. destruct stage; simpl; lia. }
  unfold finishWaitingService. apply wlp_bind, wlp_gets. case_bool_decide as Hp.
  - apply wlp_bind, wlp_gets, wlp_bind.
    eapply wlp_mono, wlp_and, finish_rounds_resumes;
      [|apply (finish_rounds_done svc ty Hty); right; unfold finish_fuel, weight; lia].
    simpl. intros ret d1 [Hn Hr]. apply wlp_bind, wlp_gets. case_match; [|by apply wlp_ret].
    apply wlp_bind, wlp_modify, wlp_ret. split; [|done]. unfold waits, hasDependencyWaiter. simpl.
    by rewrite lookup_delete, decide_True.
  - apply wlp_ret. unfold waits, hasDependencyWaiter, waiters.
    destruct (dependencyWaiters d !! svc); [|by split; [|set_solver]]. destruct Hp. by eexists.
Qed.
End waiting.

(** A consumer with a slow [start()], whose provider goes away meanwhile. *)
Definition slow_consumer_code : UserCode :=
  mkUserCode (λ svc _, if svc =? 3 then CoSuspend [] (CoReturn [] true) else CoReturn [] true)
    (uc_stop idle_code) (uc_handle idle_code) (uc_track idle_code) (uc_run idle_code)
    (uc_runAsync idle_code) (uc_preIntercept idle_code) (uc_postIntercept idle_code).
Definition demo_waiting : DM :=
  default (fresh_manager 1 IFACE_DM IFACE_QUEUE 5000)
    (driven OrderedPriorityQueueCompare slow_consumer_code demo_sigs 1 IFACE_DM IFACE_QUEUE 5000
       (demo_actions ++ [PushEvent 0 2000 (UStop 4 false)]) 12%nat).
(** The consumer has just come online. *)
Definition demo_woken : DM := upd_services (dupdate 3 (set_state ACTIVE)) demo_waiting.

Lemma finishing_wakes_everyone_witness :
  hasDependencyWaiter 3 TYPE_DependencyOnlineEvent demo_woken = true ∧
  ∃ b d', finishWaitingService (Heap.push OrderedPriorityQueueCompare) 3 TYPE_DependencyOnlineEvent demo_woken = Done (b, d') ∧
    hasDependencyWaiter 3 TYPE_DependencyOnlineEvent d' = false ∧
    ∀ pid g svc' stage rest i r,
      pid ∈ waiters 3 TYPE_DependencyOnlineEvent demo_woken → gens demo_woken !! pid = Some g →
      sg_cont g = CDepOffline svc' stage rest i r →
      ∃ g', gens d' !! pid = Some g' ∧ (frame_fuel (sg_cont g') < frame_fuel (sg_cont g))%nat.
Proof.
  split; [vm_compute; reflexivity|]. eexists _, _. split; [vm_compute; reflexivity|].
  eapply (finishing_wakes_everyone (Heap.push OrderedPriorityQueueCompare) 3
            TYPE_DependencyOnlineEvent demo_woken).
  - left. reflexivity.
  - vm_compute. reflexivity.
Defined.
(** There is such a coroutine: the withdrawal of the provider of service 3. *)
Lemma someone_waits :
  ∃ pid g rest i r, waiters 3 TYPE_DependencyOnlineEvent demo_woken = [pid] ∧
    gens demo_woken !! pid = Some g ∧ sg_cont g = CDepOffline 3 WaitOnline rest i r.
Proof. eexists _, _, _, _, _. split_and!; vm_compute; reflexivity. Qed.
