(* ===== verification/Starting.v ===== *)
(** * Starting a service

    What a StartServiceEvent does to an installed service whose [start()] does
    not suspend, on every branch. *)

From S2P Require Import Prelude DenseMap Register Lifecycle Heap Events Manager Dispatch Network Refinement.
From S2P Require Import EventLoop Scenarios Runs.
From stdpp Require Import base list gmap.
From Stdlib Require Import ZArith Lia.

Open Scope Z_scope.

Section starting.
Context (qpush : list Event → Event → list Event) `{!IEventQueue qpush} (uc : UserCode).

(** [start()] of the service runs to its end, with this result. *)
Definition starts_at_once (svc : Z) (ok : bool) : Prop :=
  ∀ d, ∃ acts, uc_start uc svc d = CoReturn acts ok.

(** All required dependencies of the service are there. *)
Definition ready (m : lm) : bool :=
  match getDependencyRegistry m with Some r => allSatisfied r | None => true end.

(** The event that tells the others. *)
Definition announced (svc prio : Z) (q : list Event) : Prop :=
  ∃ e, e ∈ q ∧ ev_body e = DependencyOnlineEvent ∧ ev_origin e = svc ∧ ev_priority e = prio.

Lemma push_announces svc prio d :
  wlp (Manager.push qpush svc prio DependencyOnlineEvent)
    (λ _ d', services d' = services d ∧ announced svc prio (queue d')) d.
Proof.
  unfold wlp, Manager.push. simpl. split; [done|]. eexists. rewrite push_keeps.
  split; [apply list_elem_of_here|done].
Qed.

Lemma push_keeps_announced svc prio origin p b d :
  announced svc prio (queue d) →
  wlp (Manager.push qpush origin p b) (λ _ d', services d' = services d ∧ announced svc prio (queue d')) d.
Proof.
  intros (e & Hin & He). unfold wlp, Manager.push. simpl. split; [done|]. exists e. rewrite push_keeps.
  split; [by apply list_elem_of_further|done].
Qed.

(** No DependencyOnlineEvent was added. *)
Definition none_announced (d d' : DM) : Prop :=
  ∀ x, x ∈ queue d' → ev_body x = DependencyOnlineEvent → x ∈ queue d.
#[local] Instance none_announced_preorder : PreOrder none_announced.
Proof. split; [by intros d x|]. intros d1 d2 d3 H1 H2 x Hx Hb. auto. Qed.

Lemma push_none_announced origin p b :
  b ≠ DependencyOnlineEvent → pres none_announced (Manager.push qpush origin p b).
Proof.
  intros Hb d. unfold wlp, Manager.push. simpl. intros x. simpl. rewrite push_keeps.
  intros [->|Hx]%elem_of_cons Hx'; [done|exact Hx].
Qed.

(** Service code cannot announce services. *)
Lemma runActions_none_announced l : pres none_announced (runActions qpush l).
Proof.
  unfold runActions. apply pres_for_each; [apply _|]. intros a _.
  destruct a as [o p u|self t g cb|self t fn|self i fn|spec]; simpl;
    unfold registerEventHandler, registerEventInterceptor, registerDependencyTracker, internalCreateServiceManager, findService;
    repeat first [apply push_none_announced; first [discriminate|by destruct u]|pres_step].
  all: apply pres_modify; intros d; by intros x.
Qed.

(** [ILifecycleManager::start] of a service that is ready. *)
Lemma beginStart_at_once svc pid m ok d :
  dfind svc (services d) = Some m → lm_kind m ≠ KInternal → lm_state m = INSTALLED →
  starts_at_once svc ok → ready m = true →
  wlp (beginStart qpush uc svc false pid)
    (λ r d', (∃ v, r = inl v) ∧ none_announced d d' ∧
       services d' = dupdate svc (set_state (if ok then INJECTING else INSTALLED)) (dupdate svc (set_state STARTING) (services d))) d.
Proof.
  intros Hm Hk Hst Hs Hr. unfold beginStart, findService. apply wlp_bind, wlp_gets. rewrite Hm.
  assert (internal_start_begin (getDependencyRegistry m) m = Some (set_state STARTING m)) as Hb.
  { unfold internal_start_begin, ready in *. rewrite Hst. simpl.
    destruct (getDependencyRegistry m); [by rewrite Hr|done]. }
  destruct (lm_kind m) eqn:Ek; try done;
    (rewrite Hb; apply wlp_bind, wlp_modify, wlp_bind, wlp_gets;
     rewrite (upd_services_const d svc (set_state STARTING) m) by done;
     destruct (Hs (upd_services (dupdate svc (set_state STARTING)) d)) as [acts ->];
     unfold runStart; cbn [runUser]; apply wlp_bind, wlp_bind;
     (eapply wlp_mono, wlp_and, (runActions_none_announced acts); [|apply runActions_silent]);
     simpl; intros _ d1 [(E & _) Ha];
     apply wlp_ret, wlp_bind, wlp_modify, wlp_ret; split_and!; [by eexists|exact Ha|]; simpl; rewrite E; simpl;
     by destruct ok).
Qed.

(** C7: a StartServiceEvent for an installed service whose [start()] does not
    suspend.  If a required dependency is missing nothing happens; if [start()]
    fails the service is INSTALLED again and no DependencyOnlineEvent is queued,
    neither for it nor for another service; otherwise it is INJECTING and a
    DependencyOnlineEvent is queued for it.  The other services are left alone. *)
Theorem start_service_functional e svc m ok d b d' :
  dfind svc (services d) = Some m → lm_kind m ≠ KInternal → lm_state m = INSTALLED →
  starts_at_once svc ok → onStartService qpush uc e svc d = Done (b, d') →
  b = false ∧
  (∀ k, k ≠ svc → dfind k (services d') = dfind k (services d)) ∧
  lm_state <$> dfind svc (services d') = Some (if ready m && ok then INJECTING else INSTALLED) ∧
  (ready m && ok = true → announced svc (Z.min (ev_priority e) INTERNAL_DEPENDENCY_EVENT_PRIORITY) (queue d')) ∧
  (ready m && ok = false → none_announced d d') ∧
  (ready m = false → services d' = services d ∧ queue d' = queue d).
Proof.
  intros Hm Hk Hst Hs Hp. revert Hp.
  cut (wlp (onStartService qpush uc e svc) (λ b d', b = false ∧
    (∀ k, k ≠ svc → dfind k (services d') = dfind k (services d)) ∧
    lm_state <$> dfind svc (services d') = Some (if ready m && ok then INJECTING else INSTALLED) ∧
    (ready m && ok = true → announced svc (Z.min (ev_priority e) INTERNAL_DEPENDENCY_EVENT_PRIORITY) (queue d')) ∧
    (ready m && ok = false → none_announced d d') ∧
    (ready m = false → services d' = services d ∧ queue d' = queue d)) d).
  { unfold wlp. intros H E. by rewrite E in H. }
  unfold onStartService, findService. apply wlp_bind, wlp_gets. rewrite Hm. rewrite !Hst. simpl.
  apply wlp_bind. unfold newPromiseId at 1. unfold wlp at 1. simpl.
  set (d0 := upd_nextPromiseId _ d).
  apply wlp_bind. destruct (ready m) eqn:Hr.
  - eapply wlp_mono, beginStart_at_once; [|done..]. simpl. intros r d1 ([v ->] & Ha & Hd1).
    assert (∀ k, k ≠ svc → dfind k (services d1) = dfind k (services d0)) as Hother.
    { intros k Hne. rewrite Hd1, !dfind_dupdate, !decide_False by done. done. }
    assert (lm_state <$> dfind svc (services d1) = Some (if ok then INJECTING else INSTALLED)) as Hself.
    { rewrite Hd1, dfind_dupdate, decide_True by done. rewrite dfind_dupdate, decide_True by done.
      change (services d0) with (services d). by rewrite Hm. }
    apply wlp_bind, wlp_gets. rewrite Hself. destruct ok; simpl.
    + apply wlp_bind. eapply wlp_mono, push_announces. simpl. intros _ d2 [E2 A2].
      apply wlp_bind, wlp_gets, wlp_bind.
      apply wlp_when; intros _; [eapply wlp_mono, push_keeps_announced, A2; simpl; intros _ d3 [E3 A3]|];
        apply wlp_ret; rewrite ?E3, ?E2; split_and!; done.
    + apply wlp_ret. by split_and!.
  - unfold beginStart, findService. apply wlp_bind, wlp_gets.
    change (services d0) with (services d). rewrite Hm.
    assert (internal_start_begin (getDependencyRegistry m) m = None) as Hb.
    { unfold internal_start_begin, ready in *. rewrite Hst. simpl.
      destruct (getDependencyRegistry m); [by rewrite Hr|done]. }
    destruct (lm_kind m) eqn:Ek; try done; rewrite Hb; apply wlp_ret; apply wlp_bind, wlp_gets;
      change (services d0) with (services d); rewrite Hm; simpl; rewrite Hst; simpl; apply wlp_ret;
      change (services d0) with (services d); rewrite Hm; simpl; rewrite Hst; split_and!; try done; by intros _ x.
Qed.
End starting.

(** A manager with an installed provider, and the event that starts it. *)
Definition demo_installed : DM :=
  upd_services (λ s, demplace 4 (new_plain_manager 4 [IFACE_A] []) s) (fresh_manager 1 IFACE_DM IFACE_QUEUE 5000).
Definition demo_start : Event := mkEvent 0 4 1000 (StartServiceEvent 4).
Definition demo_started : DM :=
  match onStartService (Heap.push OrderedPriorityQueueCompare) idle_code demo_start 4 demo_installed with
  | Done (_, d) => d
  | Terminated => demo_installed
  end.

Lemma start_service_functional_witness :
  false = false ∧
  (∀ k, k ≠ 4 → dfind k (services demo_started) = dfind k (services demo_installed)) ∧
  lm_state <$> dfind 4 (services demo_started) = Some INJECTING ∧
  (true = true → announced 4 (Z.min 1000 INTERNAL_DEPENDENCY_EVENT_PRIORITY) (queue demo_started)) ∧
  (true = false → none_announced demo_installed demo_started) ∧
  (ready (new_plain_manager 4 [IFACE_A] []) = false →
     services demo_started = services demo_installed ∧ queue demo_started = queue demo_installed).
Proof.
  apply (start_service_functional (Heap.push OrderedPriorityQueueCompare) idle_code demo_start 4
           (new_plain_manager 4 [IFACE_A] []) true demo_installed false demo_started).
  - vm_compute. reflexivity.
  - discriminate.
  - reflexivity.
  - intros d. exists []. reflexivity.
  - vm_compute. reflexivity.
Defined.
