(* ===== verification/Anomalies.v ===== *)
(** * Runs that end badly

    Concrete runs of the event loop, evaluated, in which the bookkeeping of
    dependencies goes wrong although every invariant of Network.v holds: the
    counters of the registrations and the list of injected services are two
    records of the same thing, and they can disagree. *)

From S2P Require Import Prelude DenseMap Register Lifecycle Heap Events Manager Dispatch EventLoop Scenarios.
From stdpp Require Import base list gmap.
From Stdlib Require Import ZArith.

Open Scope Z_scope.

Definition IFACE_B : Z := 11.
(** Requires [IFACE_A], can use [IFACE_B]. *)
Definition spec_picky : service_spec :=
  mkSpec [] (Some [(IFACE_A, FLAG_REQUIRED, None); (IFACE_B, FLAG_NONE, None)]) [] 1000 false.
Definition spec_both : service_spec := mkSpec [IFACE_A; IFACE_B] None [] 1000 false.

(** Service 3 is the consumer, 4 provides [IFACE_A], 5 both interfaces. *)
Definition disputed_actions : list action :=
  [CreateServiceManager spec_picky; CreateServiceManager spec_provider; CreateServiceManager spec_both].

(** The counters of the registrations of a service after a run. *)
Definition counters (svc : Z) (r : list Event * outcome (bool * PriorityQueue)) : option (list Z) :=
  match r.2 with
  | Done (_, q) => (λ m : lm, (λ n, satisfied (reg_dep n)) <$> lm_registry m) <$> dfind svc (services (pq_dm q))
  | Terminated => None
  end.

(** Where a provider of two interfaces is injected for one of them only, because
    the other is taken, it still counts down both registrations when it leaves:
    the consumer is stopped for want of [IFACE_A], which service 4 provides all
    the time, and is not started again. *)
Theorem leaving_provider_counts_twice :
  summary (run idle_code disputed_actions 60) =
    Some (false, [(1, ACTIVE, [], []); (2, ACTIVE, [], []); (3, ACTIVE, [4; 5], []);
                  (4, ACTIVE, [], [3]); (5, ACTIVE, [], [3])]) ∧
  counters 3 (run idle_code disputed_actions 60) = Some [1; 1] ∧
  let r := run idle_code (disputed_actions ++ [PushEvent 0 2000 (UStop 5 false)]) 60 in
  summary r =
    Some (false, [(1, ACTIVE, [], []); (2, ACTIVE, [], []); (3, INSTALLED, [], []);
                  (4, ACTIVE, [], []); (5, INSTALLED, [], [])]) ∧
  counters 3 r = Some [0; 0].
Proof. vm_compute. split_and!; reflexivity. Qed.

(** A consumer that is stopped and started again keeps its counters but not its
    list of injected services: it is ACTIVE, and the service it depends on is
    stopped and removed without it being told. *)
Theorem restarted_consumer_is_not_told :
  let r := run idle_code
    [CreateServiceManager spec_consumer; CreateServiceManager spec_provider;
     PushEvent 0 1001 (UStop 3 false); PushEvent 0 2000 (UStart 3); PushEvent 0 3000 (UStop 4 true)] 60 in
  summary r = Some (false, [(1, ACTIVE, [], []); (2, ACTIVE, [], []); (3, ACTIVE, [], [])]) ∧
  counters 3 r = Some [1].
Proof. vm_compute. split; reflexivity. Qed.
