(* ===== verification/AutoResetEvent.v ===== *)
(** * [AsyncAutoResetEvent], with any number of threads

    src/ichor/coroutines/AsyncAutoResetEvent.cpp: an event that coroutines on
    several threads wait for, without locks.  Every atomic operation of the code
    is one step of a thread; steps of the threads interleave freely, and a weak
    compare-exchange may fail for no reason.  Memory is sequentially consistent.
    The coroutine a waiter belongs to is resumed by being put in [g_ran].

    The fields [g_...] record what happened and do not influence the steps. *)

From S2P Require Import Prelude.
From stdpp Require Import base list gmap.
From Stdlib Require Import ZArith Lia.

Open Scope Z_scope.

(** ** The state word: set count in bits 0-31, waiter count in bits 32-63 *)

Definition u32_mod : Z := 2 ^ 32.
Definition set_increment : Z := 1.
Definition waiter_increment : Z := Z.shiftl 1 32.

Definition get_set_count (state : Z) : Z := state mod u32_mod.
Definition get_waiter_count (state : Z) : Z := Z.shiftr state 32 mod u32_mod.
Definition get_resumable_waiter_count (state : Z) : Z :=
  Z.min (get_set_count state) (get_waiter_count state).

(** ** The event *)

Record AsyncAutoResetEvent := mkEv {
  m_state : Z;
  m_newWaiters : list nat;        (* linked list of operations, newest first *)
  m_waiters : list nat;           (* oldest first *)
  m_refCount : gmap nat Z;        (* of the operations alive *)
  g_sets : nat;                   (* increments of the set count *)
  g_resets : nat;
  g_ran : list nat;               (* coroutines that got past their co_await *)
  g_early : list nat;             (* released before they were suspended *)
  g_pushed : list nat;            (* operations in the order they queued up *)
  g_dequeued : list nat;          (* and in the order they were taken off *)
}.

Definition new_event (initiallySet : bool) : AsyncAutoResetEvent :=
  mkEv (if initiallySet then set_increment else 0) [] [] ∅ 0 0 [] [] [] [].

(** ** Threads *)

(** Where [resume_waiters] returns to. *)
Inductive after :=
| ThenReturn
| ThenSetAll                      (* next round of set_all() *)
| ThenSuspend (op : nat).         (* rest of await_suspend() *)

(** The next atomic operation of a thread, with its local variables. *)
Inductive pc :=
| Idle
| SetLoad (all : bool)
| SetTry (all : bool) (oldState : Z)
| ResetLoad
| ResetTry (oldState : Z)
| AwaitLoad (op : nat)
| AwaitTry (op : nat) (oldState : Z)
| SuspendLoad (op : nat)
| SuspendPush (op : nat) (head : option nat)
| SuspendCount (op : nat)
| SuspendFinish (op : nat)
| ResumePop (waiterCountToResume i : nat) (toResume : list nat) (k : after)
| ResumeRun (toResume : list nat) (k : after).

#[export] Instance after_eq_dec : EqDecision after.
Proof. solve_decision. Defined.
#[export] Instance pc_eq_dec : EqDecision pc.
Proof. solve_decision. Defined.

Definition upd_state (f : Z → Z) (e : AsyncAutoResetEvent) : AsyncAutoResetEvent :=
  mkEv (wrap64 (f (m_state e))) (m_newWaiters e) (m_waiters e) (m_refCount e) (g_sets e) (g_resets e)
    (g_ran e) (g_early e) (g_pushed e) (g_dequeued e).
Definition count_set (e : AsyncAutoResetEvent) : AsyncAutoResetEvent :=
  mkEv (m_state e) (m_newWaiters e) (m_waiters e) (m_refCount e) (S (g_sets e)) (g_resets e)
    (g_ran e) (g_early e) (g_pushed e) (g_dequeued e).
Definition count_reset (e : AsyncAutoResetEvent) : AsyncAutoResetEvent :=
  mkEv (m_state e) (m_newWaiters e) (m_waiters e) (m_refCount e) (g_sets e) (S (g_resets e))
    (g_ran e) (g_early e) (g_pushed e) (g_dequeued e).
Definition set_refs (f : gmap nat Z → gmap nat Z) (e : AsyncAutoResetEvent) : AsyncAutoResetEvent :=
  mkEv (m_state e) (m_newWaiters e) (m_waiters e) (f (m_refCount e)) (g_sets e) (g_resets e)
    (g_ran e) (g_early e) (g_pushed e) (g_dequeued e).
(** The coroutine of [op] goes on. *)
Definition run_op (op : nat) (e : AsyncAutoResetEvent) : AsyncAutoResetEvent :=
  mkEv (m_state e) (m_newWaiters e) (m_waiters e) (delete op (m_refCount e)) (g_sets e) (g_resets e)
    (g_ran e ++ [op]) (filter (λ o, o ≠ op) (g_early e)) (g_pushed e) (g_dequeued e).
Definition set_early (op : nat) (e : AsyncAutoResetEvent) : AsyncAutoResetEvent :=
  mkEv (m_state e) (m_newWaiters e) (m_waiters e) (m_refCount e) (g_sets e) (g_resets e)
    (g_ran e) (op :: g_early e) (g_pushed e) (g_dequeued e).
Definition push_op (op : nat) (e : AsyncAutoResetEvent) : AsyncAutoResetEvent :=
  mkEv (m_state e) (op :: m_newWaiters e) (m_waiters e) (m_refCount e) (g_sets e) (g_resets e)
    (g_ran e) (g_early e) (g_pushed e ++ [op]) (g_dequeued e).
Definition take_op (op : nat) (news ws : list nat) (e : AsyncAutoResetEvent) : AsyncAutoResetEvent :=
  mkEv (m_state e) news ws (m_refCount e) (g_sets e) (g_resets e)
    (g_ran e) (g_early e) (g_pushed e) (g_dequeued e ++ [op]).

(** Entering [resume_waiters(initialState)]: the first assertion. *)
Definition resume_waiters (initialState : Z) (k : after) : option pc :=
  let n := get_resumable_waiter_count initialState in
  if 0 <? n then Some (ResumePop (Z.to_nat n) 0 [] k) else None.

Definition resume_return (k : after) : pc :=
  match k with
  | ThenReturn => Idle
  | ThenSetAll => SetLoad true
  | ThenSuspend op => SuspendFinish op
  end.

(** Taking the next waiter off [m_waiters], refilled with the reversed
    [m_newWaiters] when it is empty; nothing to take is a failed assertion. *)
Definition next_waiter (e : AsyncAutoResetEvent) : option (nat * AsyncAutoResetEvent) :=
  match m_waiters e with
  | op :: ws => Some (op, take_op op (m_newWaiters e) ws e)
  | [] =>
      match rev (m_newWaiters e) with
      | op :: ws => Some (op, take_op op [] ws e)
      | [] => None
      end
  end.

(** [m_refCount.fetch_sub(1)]; at 1 the coroutine is released. *)
Definition drop_ref (op : nat) (released : AsyncAutoResetEvent → AsyncAutoResetEvent)
    (e : AsyncAutoResetEvent) : option AsyncAutoResetEvent :=
  match m_refCount e !! op with
  | Some n => Some (if n =? 1 then run_op op e else released (set_refs (<[op := n - 1]>) e))
  | None => None
  end.

Definition micro_result : Type := option (pc * AsyncAutoResetEvent).

(** The operations, one atomic access each; [spurious] makes a weak
    compare-exchange fail.  [None] is a failed assertion or an access to an
    operation that is gone. *)

(** The loop of [set()] and, with [all], of [set_all()]: [oldState] is checked,
    then exchanged. *)
Definition set_try (spurious all : bool) (oldState : Z) (e : AsyncAutoResetEvent) : micro_result :=
  if get_waiter_count oldState <? get_set_count oldState then Some (Idle, e)
  else if negb spurious && (m_state e =? oldState) then
    let e' := count_set (upd_state (λ s, s + set_increment) e) in
    if negb (oldState =? 0) && (get_set_count oldState =? 0)
    then p' ← resume_waiters (oldState + set_increment) (if all then ThenSetAll else ThenReturn); Some (p', e')
    else Some (if all then SetLoad true else Idle, e')
  else Some (SetTry all (m_state e), e).

Definition reset_try (spurious : bool) (oldState : Z) (e : AsyncAutoResetEvent) : micro_result :=
  if get_waiter_count oldState <? get_set_count oldState then
    if negb spurious && (m_state e =? oldState)
    then Some (Idle, count_reset (upd_state (λ s, s - set_increment) e))
    else Some (ResetTry (m_state e), e)
  else Some (Idle, e).

(** [operator co_await]: load, then the strong compare-exchange. *)
Definition await_load (op : nat) (e : AsyncAutoResetEvent) : micro_result :=
  let oldState := m_state e in
  if get_waiter_count oldState <? get_set_count oldState then Some (AwaitTry op oldState, e)
  else Some (SuspendLoad op, set_refs (<[op := 2]>) e).
Definition await_try (op : nat) (oldState : Z) (e : AsyncAutoResetEvent) : micro_result :=
  if m_state e =? oldState
  then Some (Idle, run_op op (upd_state (λ s, s - set_increment) e))
  else Some (SuspendLoad op, set_refs (<[op := 2]>) e).

(** [await_suspend]: queue up, be counted, drop the reference. *)
Definition suspend_push (spurious : bool) (op : nat) (h : option nat) (e : AsyncAutoResetEvent) : micro_result :=
  if negb spurious && bool_decide (head (m_newWaiters e) = h)
  then Some (SuspendCount op, push_op op e)
  else Some (SuspendPush op (head (m_newWaiters e)), e).
Definition suspend_count (op : nat) (e : AsyncAutoResetEvent) : micro_result :=
  let oldState := m_state e in
  let e' := upd_state (λ s, s + waiter_increment) e in
  if negb (oldState =? 0) && (get_waiter_count oldState =? 0)
  then p' ← resume_waiters (oldState + waiter_increment) (ThenSuspend op); Some (p', e')
  else Some (SuspendFinish op, e').
Definition suspend_finish (op : nat) (e : AsyncAutoResetEvent) : micro_result :=
  e' ← drop_ref op (λ e, e) e; Some (Idle, e').

(** [resume_waiters]: a turn of the [for] loop, or the subtraction that ends a
    round; then the resuming loop. *)
Definition resume_pop (n i : nat) (l : list nat) (k : after) (e : AsyncAutoResetEvent) : micro_result :=
  if (i <? n)%nat then
    '(op, e') ← next_waiter e; Some (ResumePop n (S i) (l ++ [op]) k, e')
  else
    let delta := Z.lor (Z.of_nat n) (Z.shiftl (Z.of_nat n) 32) in
    let newState := wrap64 (m_state e - delta) in
    let n' := get_resumable_waiter_count newState in
    Some (if 0 <? n' then ResumePop (Z.to_nat n') 0 l k else ResumeRun l k,
          upd_state (λ s, s - delta) e).
Definition resume_run (l : list nat) (k : after) (e : AsyncAutoResetEvent) : micro_result :=
  match l with
  | [] => None
  | op :: rest =>
      e' ← drop_ref op (set_early op) e;
      Some (match rest with [] => resume_return k | _ => ResumeRun rest k end, e')
  end.

Definition micro (spurious : bool) (p : pc) (e : AsyncAutoResetEvent) : micro_result :=
  match p with
  | Idle => Some (Idle, e)
  | SetLoad all => Some (SetTry all (m_state e), e)
  | SetTry all old => set_try spurious all old e
  | ResetLoad => Some (ResetTry (m_state e), e)
  | ResetTry old => reset_try spurious old e
  | AwaitLoad op => await_load op e
  | AwaitTry op old => await_try op old e
  | SuspendLoad op => Some (SuspendPush op (head (m_newWaiters e)), e)
  | SuspendPush op h => suspend_push spurious op h e
  | SuspendCount op => suspend_count op e
  | SuspendFinish op => suspend_finish op e
  | ResumePop n i l k => resume_pop n i l k e
  | ResumeRun l k => resume_run l k e
  end.

(** ** The system: the event and its threads *)

Inductive call := CSet | CSetAll | CReset | CAwait (op : nat).

Definition begin_call (c : call) : pc :=
  match c with
  | CSet => SetLoad false
  | CSetAll => SetLoad true
  | CReset => ResetLoad
  | CAwait op => AwaitLoad op
  end.

Record system := mkSys {
  ev : AsyncAutoResetEvent;
  threads : list pc;
  g_used : list nat;              (* operations ever started *)
}.

(** Sums over the threads. *)
Definition total (f : pc → nat) (ts : list pc) : nat := sum_list_with f ts.

(** Waiters taken off the queue in this round, not yet subtracted. *)
Definition popped (p : pc) : nat := match p with ResumePop _ i _ _ => i | _ => 0%nat end.
(** Queued up, not yet counted in the state word. *)
Definition uncounted (p : pc) : nat := match p with SuspendCount _ => 1%nat | _ => 0%nat end.
(** About to queue up. *)
Definition arriving (p : pc) : nat :=
  match p with
  | AwaitLoad _ | AwaitTry _ _ | SuspendLoad _ | SuspendPush _ _ => 1%nat
  | _ => 0%nat
  end.

(** Coroutines waiting or about to. *)
Definition waiting (σ : system) : nat :=
  (length (m_newWaiters (ev σ)) + length (m_waiters (ev σ))
   + total popped (threads σ) + total arriving (threads σ))%nat.

(** The counters have 32 bits: no more coroutines than that. *)
Definition capacity : Z := u32_mod - 2.

(** A call starts on an idle thread; every [co_await] has its own operation. *)
Definition may_call (c : call) (σ : system) : bool :=
  match c with
  | CAwait op => bool_decide (op ∉ g_used σ) && (Z.of_nat (waiting σ) <? capacity)
  | _ => true
  end.
Definition use (c : call) (l : list nat) : list nat :=
  match c with CAwait op => op :: l | _ => l end.

Inductive label := Call (c : call) | Run (spurious : bool).

Definition step (t : nat) (a : label) (σ : system) : option system :=
  p ← threads σ !! t;
  match a with
  | Call c =>
      if bool_decide (p = Idle) && may_call c σ
      then Some (mkSys (ev σ) (<[t := begin_call c]> (threads σ)) (use c (g_used σ)))
      else None
  | Run spurious =>
      '(p', e') ← micro spurious p (ev σ);
      Some (mkSys e' (<[t := p']> (threads σ)) (g_used σ))
  end.

Definition init (initiallySet : bool) (n : nat) : system :=
  mkSys (new_event initiallySet) (replicate n Idle) [].

Inductive reachable (initiallySet : bool) (n : nat) : system → Prop :=
| reach_init : reachable initiallySet n (init initiallySet n)
| reach_step σ t a σ' :
    reachable initiallySet n σ → step t a σ = Some σ' → reachable initiallySet n σ'.

(** ** Counting *)

Lemma total_insert f ts t p p' :
  ts !! t = Some p → (total f (<[t := p']> ts) + f p = total f ts + f p')%nat.
Proof.
  unfold total. revert t. induction ts as [|q ts IH]; intros [|t] Ht; simplify_eq/=; [lia|].
  specialize (IH t Ht). lia.
Qed.
Lemma total_ge f ts t p : ts !! t = Some p → (f p ≤ total f ts)%nat.
Proof.
  unfold total. revert t. induction ts as [|q ts IH]; intros [|t] Ht; simplify_eq/=; [lia|].
  specialize (IH t Ht). lia.
Qed.
Lemma total_idle f n : f Idle = 0%nat → total f (replicate n Idle) = 0%nat.
Proof. intros Hf. unfold total. induction n; simpl; lia. Qed.

(** Occurrences of an operation. *)
Definition occ (o : nat) (l : list nat) : nat := sum_list_with (λ x, if decide (x = o) then 1%nat else 0%nat) l.

Lemma occ_cons o x l : occ o (x :: l) = ((if decide (x = o) then 1 else 0) + occ o l)%nat.
Proof. done. Qed.
Lemma occ_app o l1 l2 : occ o (l1 ++ l2) = (occ o l1 + occ o l2)%nat.
Proof. unfold occ. induction l1; simpl; lia. Qed.
Lemma occ_rev o l : occ o (rev l) = occ o l.
Proof. induction l as [|x l IH]; [done|]. simpl. rewrite occ_app, IH. unfold occ. simpl. lia. Qed.
Lemma occ_filter o op l : occ o (filter (λ x, x ≠ op) l) = if decide (o = op) then 0%nat else occ o l.
Proof.
  induction l as [|x l IH]; [by destruct (decide _)|]. rewrite filter_cons, occ_cons.
  destruct (decide (x ≠ op)) as [Hx|Hx]; [rewrite occ_cons, IH|rewrite IH]; repeat case_decide; subst; try lia; done.
Qed.
Lemma occ_zero o l : occ o l = 0%nat ↔ o ∉ l.
Proof.
  induction l as [|x l IH]; [split; [set_solver|done]|]. rewrite occ_cons, not_elem_of_cons.
  case_decide; subst; [split; [lia|naive_solver]|]. rewrite <- IH. split; [intros; split; [done|lia]|lia].
Qed.
Lemma occ_nil l : (∀ o, occ o l = 0%nat) → l = [].
Proof. intros H. destruct l as [|x l]; [done|]. specialize (H x). rewrite occ_cons, decide_True in H by done. lia. Qed.
Lemma occ_NoDup l : (∀ o, occ o l ≤ 1)%nat → NoDup l.
Proof.
  induction l as [|x l IH]; intros H; [apply NoDup_nil_2|]. constructor.
  - apply occ_zero. specialize (H x). rewrite occ_cons, decide_True in H by done. lia.
  - apply IH. intros o. specialize (H o). rewrite occ_cons in H. lia.
Qed.

#[global] Arguments occ : simpl never.
#[global] Arguments total : simpl never.

(** ** The invariant *)

(** The thread has the right to take waiters off the queue. *)
Definition locked (p : pc) : nat := match p with ResumePop _ _ _ _ => 1%nat | _ => 0%nat end.
(** The thread is in [await_suspend] of the operation. *)
Definition holds (o : nat) (p : pc) : nat :=
  let me x := if decide (x = o) then 1%nat else 0%nat in
  match p with
  | SuspendLoad x | SuspendPush x _ | SuspendCount x | SuspendFinish x => me x
  | ResumePop _ _ _ (ThenSuspend x) | ResumeRun _ (ThenSuspend x) => me x
  | _ => 0%nat
  end.
(** The thread will have the operation resumed, or queue it up. *)
Definition owes (o : nat) (p : pc) : nat :=
  match p with
  | SuspendLoad x | SuspendPush x _ => if decide (x = o) then 1%nat else 0%nat
  | ResumePop _ _ l _ | ResumeRun l _ => occ o l
  | _ => 0%nat
  end.
(** The thread is in [operator co_await] of the operation. *)
Definition begins (o : nat) (p : pc) : nat :=
  match p with AwaitLoad x | AwaitTry x _ => if decide (x = o) then 1%nat else 0%nat | _ => 0%nat end.
(** Waiters with a permit that have not been resumed. *)
Definition granted (p : pc) : nat :=
  match p with ResumePop _ i l _ => (length l - i)%nat | ResumeRun l _ => length l | _ => 0%nat end.

(** What a thread knows, with [s] permits and [w] waiters. *)
Definition pc_ok (s w : Z) (p : pc) : Prop :=
  match p with
  | AwaitTry _ old => get_waiter_count old < get_set_count old
  | ResumePop n i l _ => (i ≤ n)%nat ∧ (0 < n)%nat ∧ Z.of_nat n ≤ s ∧ Z.of_nat n ≤ w ∧ (i ≤ length l)%nat
  | ResumeRun l _ => l ≠ []
  | _ => True
  end.

Definition live (o : nat) (e : AsyncAutoResetEvent) : nat :=
  match m_refCount e !! o with Some _ => 1%nat | None => 0%nat end.
Definition pending (o : nat) (σ : system) : nat :=
  (total (owes o) (threads σ) + occ o (m_newWaiters (ev σ)) + occ o (m_waiters (ev σ)))%nat.

(** An operation: who will resume it. *)
Definition op_ok (σ : system) (o : nat) : Prop :=
  default 0 (m_refCount (ev σ) !! o) = Z.of_nat (total (holds o) (threads σ) + pending o σ) ∧
  (pending o σ + occ o (g_early (ev σ)) = live o (ev σ))%nat ∧
  (occ o (g_early (ev σ)) ≤ total (holds o) (threads σ) ≤ live o (ev σ))%nat ∧
  (total (begins o) (threads σ) + live o (ev σ) + occ o (g_ran (ev σ)) = occ o (g_used σ))%nat ∧
  (occ o (g_used σ) ≤ 1)%nat.

Record inv (start : nat) (σ : system) (s w : Z) : Prop := {
  inv_state : m_state (ev σ) = s + w * u32_mod;
  inv_set : 0 ≤ s ≤ w + 1;
  inv_wait : 0 ≤ w;
  inv_queue : Z.of_nat (length (m_newWaiters (ev σ)) + length (m_waiters (ev σ)) + total popped (threads σ))
              = w + Z.of_nat (total uncounted (threads σ));
  inv_room : Z.of_nat (waiting σ) ≤ capacity;
  inv_lock : total locked (threads σ) = if decide (0 < s ∧ 0 < w) then 1%nat else 0%nat;
  inv_pcs : Forall (pc_ok s w) (threads σ);
  inv_ops : ∀ o, op_ok σ o;
  inv_permits : (start + g_sets (ev σ))%nat =
    (Z.to_nat s + g_resets (ev σ) + length (g_ran (ev σ)) + total granted (threads σ) + length (g_early (ev σ)))%nat;
  inv_fifo : g_pushed (ev σ) = g_dequeued (ev σ) ++ m_waiters (ev σ) ++ rev (m_newWaiters (ev σ));
}.

(** ** The state word *)

Lemma u32_mod_pos : 0 < u32_mod.
Proof. done. Qed.
Lemma counts_decode s w :
  0 ≤ s < u32_mod → 0 ≤ w < u32_mod →
  get_set_count (s + w * u32_mod) = s ∧ get_waiter_count (s + w * u32_mod) = w.
Proof.
  intros Hs Hw. unfold get_set_count, get_waiter_count. rewrite Z.shiftr_div_pow2 by lia.
  change (2 ^ 32) with u32_mod. rewrite Z.mod_add, Z.div_add by done.
  rewrite (Z.mod_small s), (Z.div_small s) by lia. split; [done|]. by apply Z.mod_small.
Qed.
Lemma state_small s w : 0 ≤ s < u32_mod → 0 ≤ w < u32_mod → wrap64 (s + w * u32_mod) = s + w * u32_mod.
Proof. intros Hs Hw. apply wrap64_small. unfold u64_mod, u32_mod in *. lia. Qed.
Lemma delta_value n : 0 ≤ n < u32_mod → Z.lor n (Z.shiftl n 32) = n + n * u32_mod.
Proof.
  intros Hn. rewrite <- Z.add_lor_land. rewrite Z.shiftl_mul_pow2 by lia. change (2 ^ 32) with u32_mod.
  enough (Z.land n (n * u32_mod) = 0) as -> by lia.
  apply Z.bits_inj'. intros i Hi. rewrite Z.bits_0, Z.land_spec.
  change u32_mod with (2 ^ 32). destruct (Z.lt_ge_cases i 32).
  - rewrite Z.mul_pow2_bits_low by lia. apply andb_false_r.
  - rewrite <- (Z.mod_small n (2 ^ 32)) at 1 by (unfold u32_mod in Hn; lia).
    rewrite Z.mod_pow2_bits_high by lia. done.
Qed.

Lemma occ_filter_length op l : (length (filter (λ x, x ≠ op) l) + occ op l = length l)%nat.
Proof.
  induction l as [|x l IH]; [done|]. rewrite filter_cons, occ_cons. simpl.
  destruct (decide (x ≠ op)) as [Hx|Hx]; simpl; case_decide; subst; try done; lia.
Qed.

(** ** One step at a time *)

Section change.
Context (start : nat) (σ : system) (s w : Z) (t : nat) (p : pc).
Hypothesis Hinv : inv start σ s w.
Hypothesis Hp : threads σ !! t = Some p.
Notation e := (ev σ).
Notation σ' p' e' := (mkSys e' (<[t := p']> (threads σ)) (g_used σ)).

Lemma small_counts : 0 ≤ s < u32_mod ∧ 0 ≤ w < u32_mod - 1.
Proof.
  destruct Hinv. unfold waiting, capacity in *. lia.
Qed.
Lemma set_count_is : get_set_count (m_state e) = s.
Proof. rewrite (inv_state _ _ _ _ Hinv). apply counts_decode; pose proof small_counts; lia. Qed.
Lemma waiter_count_is : get_waiter_count (m_state e) = w.
Proof. rewrite (inv_state _ _ _ _ Hinv). apply counts_decode; pose proof small_counts; lia. Qed.

Definition lock_value (s w : Z) : nat := if decide (0 < s ∧ 0 < w) then 1%nat else 0%nat.

(** What a step has to keep, in terms of the one thread it changes. *)
Lemma inv_change p' e' s' w' :
  m_state e' = s' + w' * u32_mod → 0 ≤ s' ≤ w' + 1 → 0 ≤ w' →
  Z.of_nat (length (m_newWaiters e') + length (m_waiters e') + popped p') + w + Z.of_nat (uncounted p) =
  Z.of_nat (length (m_newWaiters e) + length (m_waiters e) + popped p) + w' + Z.of_nat (uncounted p') →
  (length (m_newWaiters e') + length (m_waiters e') + popped p' + arriving p' ≤
   length (m_newWaiters e) + length (m_waiters e) + popped p + arriving p)%nat →
  (locked p' + lock_value s w = locked p + lock_value s' w')%nat →
  (locked p = 0%nat → ∀ n, n ≤ s → n ≤ w → n ≤ s' ∧ n ≤ w') →
  pc_ok s' w' p' →
  (∀ o, op_ok (σ' p' e') o) →
  (g_sets e' + Z.to_nat s + g_resets e + length (g_ran e) + granted p + length (g_early e) =
   g_sets e + Z.to_nat s' + g_resets e' + length (g_ran e') + granted p' + length (g_early e'))%nat →
  g_pushed e' = g_dequeued e' ++ m_waiters e' ++ rev (m_newWaiters e') →
  inv start (σ' p' e') s' w'.
Proof.
  destruct Hinv as [I1 I2 I3 I4 I5 I6 I7 I8 I9 I10]. intros S1 S2 S3 S4 S5 S6 S7 S8 S9 S10 S11.
  pose proof (total_insert popped _ _ _ p' Hp) as E1.
  pose proof (total_insert uncounted _ _ _ p' Hp) as E2.
  pose proof (total_insert arriving _ _ _ p' Hp) as E3.
  pose proof (total_insert locked _ _ _ p' Hp) as E4.
  pose proof (total_insert granted _ _ _ p' Hp) as E5.
  pose proof (total_ge popped _ _ _ Hp). pose proof (total_ge uncounted _ _ _ Hp).
  unfold waiting, lock_value in *.
  split; simpl; unfold waiting; simpl; try done; try lia.
  apply Forall_lookup. intros i q Hq. rewrite Forall_lookup in I7.
  destruct (decide (i = t)) as [->|Hne].
  { rewrite list_lookup_insert_eq in Hq by (by eapply lookup_lt_Some). by simplify_eq. }
  rewrite list_lookup_insert_ne in Hq by done. specialize (I7 i q Hq). destruct q; try done. simpl in *.
  assert (locked p = 0%nat) as Hl.
  { pose proof (total_insert locked _ _ _ Idle Hp) as E. simpl in E.
    assert (<[t := Idle]> (threads σ) !! i = Some (ResumePop waiterCountToResume i0 toResume k)) as Hi
      by by rewrite list_lookup_insert_ne.
    pose proof (total_ge locked _ _ _ Hi) as G. simpl in G. rewrite I6 in E. case_decide; lia. }
  specialize (S7 Hl (Z.of_nat waiterCountToResume)). naive_solver.
Qed.

Lemma ops_keep p' e' :
  m_refCount e' = m_refCount e → g_early e' = g_early e → g_ran e' = g_ran e →
  (∀ o, holds o p' = holds o p) → (∀ o, begins o p' = begins o p) →
  (∀ o, owes o p' + occ o (m_newWaiters e') + occ o (m_waiters e') =
        owes o p + occ o (m_newWaiters e) + occ o (m_waiters e))%nat →
  ∀ o, op_ok (σ' p' e') o.
Proof.
  intros Hr He Hran Hh Hb Ho o. pose proof (inv_ops _ _ _ _ Hinv o) as (O1 & O2 & O3 & O4 & O5).
  pose proof (total_insert (holds o) _ _ _ p' Hp) as E1. pose proof (total_insert (begins o) _ _ _ p' Hp) as E2.
  pose proof (total_insert (owes o) _ _ _ p' Hp) as E3. pose proof (total_ge (owes o) _ _ _ Hp) as G.
  rewrite Hh in E1. rewrite Hb in E2. specialize (Ho o).
  unfold op_ok, pending, live in *. simpl. rewrite Hr, He, Hran.
  assert (total (owes o) (<[t:=p']> (threads σ)) + occ o (m_newWaiters e') + occ o (m_waiters e') =
          total (owes o) (threads σ) + occ o (m_newWaiters e) + occ o (m_waiters e))%nat as -> by lia.
  assert (total (holds o) (<[t:=p']> (threads σ)) = total (holds o) (threads σ)) as -> by lia.
  assert (total (begins o) (<[t:=p']> (threads σ)) = total (begins o) (threads σ)) as -> by lia.
  done.
Qed.

(** A step that only moves the thread. *)
Lemma inv_move p' :
  popped p' = popped p → uncounted p' = uncounted p → (arriving p' ≤ arriving p)%nat →
  locked p' = locked p → granted p' = granted p → (∀ o, holds o p' = holds o p) →
  (∀ o, begins o p' = begins o p) → (∀ o, owes o p' = owes o p) → pc_ok s w p' →
  inv start (σ' p' e) s w.
Proof.
  intros M1 M2 M3 M4 M5 M6 M7 M8 M9. destruct Hinv.
  apply inv_change; try done; try lia. apply ops_keep; try done. intros o. by rewrite M8.
Qed.

(** [co_await] found the event not set: the operation is made. *)
Lemma inv_create op p' :
  p = AwaitLoad op ∨ (∃ old, p = AwaitTry op old) → p' = SuspendLoad op →
  inv start (σ' p' (set_refs (<[op := 2]>) e)) s w.
Proof.
  intros Hpc ->.
  assert (popped p = 0 ∧ uncounted p = 0 ∧ arriving p = 1 ∧ locked p = 0 ∧ granted p = 0 ∧
    (∀ o, holds o p = 0) ∧ (∀ o, owes o p = 0) ∧
    ∀ o, begins o p = if decide (op = o) then 1 else 0)%nat as (P1 & P2 & P3 & P4 & P5 & P6 & P7 & P8)
    by (destruct Hpc as [->|[? ->]]; done).
  destruct Hinv. apply inv_change; try done; simpl; try lia.
  intros o. pose proof (inv_ops0 o) as (O1 & O2 & O3 & O4 & O5).
  pose proof (total_insert (holds o) _ _ _ (SuspendLoad op) Hp) as E1.
  pose proof (total_insert (begins o) _ _ _ (SuspendLoad op) Hp) as E2.
  pose proof (total_insert (owes o) _ _ _ (SuspendLoad op) Hp) as E3.
  pose proof (total_ge (begins o) _ _ _ Hp) as G.
  rewrite P6 in E1. rewrite P7 in E3. rewrite P8 in E2, G. simpl in E1, E2, E3.
  unfold op_ok, pending, live in *. simpl. rewrite lookup_insert.
  destruct (decide (op = o)) as [->|Hne]; [|naive_solver lia].
  destruct (m_refCount (ev σ) !! o); simpl in *; [lia|].
  split_and!; lia.
Qed.

(** Permits only go down while there are more of them than waiters. *)
Lemma state_dec : w < s → wrap64 (m_state e - set_increment) = (s - 1) + w * u32_mod.
Proof.
  intros H. destruct small_counts as [? ?]. destruct Hinv. rewrite inv_state0. unfold set_increment.
  replace (s + w * u32_mod - 1) with (s - 1 + w * u32_mod) by lia. apply state_small; lia.
Qed.
Lemma state_inc : s ≤ w → wrap64 (m_state e + set_increment) = (s + 1) + w * u32_mod.
Proof.
  intros H. destruct small_counts as [? ?]. destruct Hinv. rewrite inv_state0. unfold set_increment.
  replace (s + w * u32_mod + 1) with (s + 1 + w * u32_mod) by lia. apply state_small; lia.
Qed.
Lemma state_wait : wrap64 (m_state e + waiter_increment) = s + (w + 1) * u32_mod.
Proof.
  destruct small_counts as [? ?]. destruct Hinv. rewrite inv_state0.
  change waiter_increment with u32_mod.
  replace (s + w * u32_mod + u32_mod) with (s + (w + 1) * u32_mod) by lia. apply state_small; lia.
Qed.
Lemma state_sub n : 0 ≤ n ≤ s → n ≤ w →
  wrap64 (m_state e - Z.lor n (Z.shiftl n 32)) = (s - n) + (w - n) * u32_mod.
Proof.
  intros H1 H2. destruct small_counts as [? ?]. destruct Hinv. rewrite inv_state0, delta_value by lia.
  replace (s + w * u32_mod - (n + n * u32_mod)) with ((s - n) + (w - n) * u32_mod) by lia.
  apply state_small; lia.
Qed.

End change.

Notation thread_to σ t p' e' := (mkSys e' (<[t := p']> (threads σ)) (g_used σ)).

Lemma inv_reset start σ s w t old :
  inv start σ s w → threads σ !! t = Some (ResetTry old) → w < s →
  inv start (thread_to σ t Idle (count_reset (upd_state (λ x, x - set_increment) (ev σ)))) (s - 1) w.
Proof.
  intros Hinv Hp Hlt. pose proof (state_dec _ _ _ _ Hinv Hlt) as Hst. pose proof Hinv as [].
  eapply inv_change; try done; simpl; try lia.
  - unfold lock_value. repeat case_decide; lia.
  - by eapply ops_keep.
Qed.

(** [co_await] took the permit. *)
Lemma inv_acquire start σ s w t op old :
  inv start σ s w → threads σ !! t = Some (AwaitTry op old) → w < s →
  inv start (thread_to σ t Idle (run_op op (upd_state (λ x, x - set_increment) (ev σ)))) (s - 1) w.
Proof.
  intros Hinv Hp Hlt. pose proof (state_dec _ _ _ _ Hinv Hlt) as Hst. pose proof Hinv as [].
  assert (∀ o, total (begins o) (<[t:=Idle]> (threads σ)) + (if decide (op = o) then 1 else 0) =
    total (begins o) (threads σ))%nat as Hb.
  { intros o. pose proof (total_insert (begins o) _ _ _ Idle Hp) as E. simpl in E. lia. }
  assert (m_refCount (ev σ) !! op = None ∧ occ op (g_early (ev σ)) = 0%nat) as [Hnone Hearly].
  { destruct (inv_ops0 op) as (O1 & O2 & O3 & O4 & O5). specialize (Hb op). rewrite decide_True in Hb by done.
    unfold live in *. destruct (m_refCount (ev σ) !! op); [lia|]. split; [done|lia]. }
  eapply inv_change; try done; simpl; try lia.
  - unfold lock_value. repeat case_decide; lia.
  - intros o. pose proof (inv_ops0 o) as (O1 & O2 & O3 & O4 & O5). specialize (Hb o).
    pose proof (total_insert (holds o) _ _ _ Idle Hp) as E1.
    pose proof (total_insert (owes o) _ _ _ Idle Hp) as E2. simpl in E1, E2.
    unfold op_ok, pending, live in *. simpl. rewrite delete_id by done.
    rewrite occ_filter, occ_app, occ_cons. change (occ o []) with 0%nat.
    destruct (decide (o = op)) as [->|Hne].
    + rewrite !decide_True in * by done. rewrite Hearly in *. split_and!; lia.
    + rewrite (decide_False (P := op = o)) in * by done. split_and!; lia.
  - rewrite length_app. simpl. pose proof (occ_filter_length op (g_early (ev σ))). lia.
Qed.

Lemma inv_push start σ s w t op h :
  inv start σ s w → threads σ !! t = Some (SuspendPush op h) →
  inv start (thread_to σ t (SuspendCount op) (push_op op (ev σ))) s w.
Proof.
  intros Hinv Hp. pose proof Hinv as []. eapply inv_change; try done; simpl; try lia.
  - by eapply ops_keep.
  - rewrite inv_fifo0, <- !app_assoc. done.
Qed.

(** [set()] adds a permit; with waiters and no permit so far it takes the lock. *)
Lemma inv_add_permit start σ s w t all old p' :
  inv start σ s w → threads σ !! t = Some (SetTry all old) → s ≤ w →
  (if decide (s = 0 ∧ 0 < w) then ∃ k, p' = ResumePop 1 0 [] k ∧ ∀ op, k ≠ ThenSuspend op
   else p' = Idle ∨ p' = SetLoad true) →
  inv start (thread_to σ t p' (count_set (upd_state (λ x, x + set_increment) (ev σ)))) (s + 1) w.
Proof.
  intros Hinv Hp Hle Hp'. pose proof (state_inc _ _ _ _ Hinv Hle) as Hst. pose proof Hinv as [].
  destruct (decide (s = 0 ∧ 0 < w)) as [Hd|Hd].
  - destruct Hp' as (k & -> & Hk).
    eapply inv_change; try done; simpl; try lia; [unfold lock_value; repeat case_decide; lia|].
    eapply ops_keep; try done. intros o. destruct k as [| |op]; [done..|by destruct (Hk op)].
  - destruct Hp' as [-> | ->];
      (eapply inv_change; try done; simpl; try lia; [unfold lock_value; repeat case_decide; lia|by eapply ops_keep]).
Qed.

(** A waiter is counted; with permits and no waiter so far it takes the lock. *)
Lemma inv_add_waiter start σ s w t op p' :
  inv start σ s w → threads σ !! t = Some (SuspendCount op) →
  p' = (if decide (0 < s ∧ w = 0) then ResumePop 1 0 [] (ThenSuspend op) else SuspendFinish op) →
  inv start (thread_to σ t p' (upd_state (λ x, x + waiter_increment) (ev σ))) s (w + 1).
Proof.
  intros Hinv Hp ->. pose proof (state_wait _ _ _ _ Hinv) as Hst. pose proof Hinv as [].
  destruct (decide (0 < s ∧ w = 0)) as [Hd|Hd];
    (eapply inv_change; try done; simpl; try lia; [unfold lock_value; repeat case_decide; lia|by eapply ops_keep]).
Qed.

(** Only holders of the lock have taken waiters off. *)
Lemma popped_zero ts : total locked ts = 0%nat → total popped ts = 0%nat.
Proof.
  unfold total. induction ts as [|q ts IH]; [done|]. simpl. intros H.
  rewrite IH by lia. destruct q; simpl in *; lia.
Qed.

(** The holder of the lock finds a waiter: the assertions hold. *)
Lemma next_waiter_some start σ s w t n i l k :
  inv start σ s w → threads σ !! t = Some (ResumePop n i l k) → (i < n)%nat →
  ∃ op news ws, next_waiter (ev σ) = Some (op, take_op op news ws (ev σ)) ∧
    m_waiters (ev σ) ++ rev (m_newWaiters (ev σ)) = op :: ws ++ rev news.
Proof.
  intros Hinv Hp Hi. destruct Hinv. unfold next_waiter. destruct (m_waiters (ev σ)) as [|op ws] eqn:Hw.
  - destruct (rev (m_newWaiters (ev σ))) as [|op ws] eqn:Hr.
    + exfalso. assert (length (m_newWaiters (ev σ)) = 0%nat) as Hz by (rewrite <- length_rev, Hr; done).
      rewrite Forall_lookup in inv_pcs0. specialize (inv_pcs0 _ _ Hp). simpl in inv_pcs0.
      pose proof (total_insert popped _ _ _ Idle Hp) as E. simpl in E.
      pose proof (total_insert locked _ _ _ Idle Hp) as E2. simpl in E2.
      assert (total popped (<[t:=Idle]> (threads σ)) = 0%nat) as Hz2.
      { apply popped_zero. rewrite inv_lock0 in E2. case_decide; lia. }
      simpl in *. lia.
    + exists op, [], ws. rewrite app_nil_r. done.
  - exists op, (m_newWaiters (ev σ)), ws. done.
Qed.

Lemma inv_pop start σ s w t n i l k op news ws :
  inv start σ s w → threads σ !! t = Some (ResumePop n i l k) → (i < n)%nat →
  m_waiters (ev σ) ++ rev (m_newWaiters (ev σ)) = op :: ws ++ rev news →
  inv start (thread_to σ t (ResumePop n (S i) (l ++ [op]) k) (take_op op news ws (ev σ))) s w.
Proof.
  intros Hinv Hp Hi Hq. pose proof Hinv as [].
  assert (length (m_newWaiters (ev σ)) + length (m_waiters (ev σ)) = S (length news + length ws))%nat as Hlen.
  { apply (f_equal length) in Hq. rewrite length_app, length_rev in Hq. simpl in Hq.
    rewrite length_app, length_rev in Hq. lia. }
  rewrite Forall_lookup in inv_pcs0. specialize (inv_pcs0 _ _ Hp). simpl in inv_pcs0.
  eapply inv_change; try done; simpl; try lia.
  - rewrite length_app. simpl. naive_solver lia.
  - eapply ops_keep; try done. intros o. simpl. apply (f_equal (occ o)) in Hq.
    rewrite occ_app, occ_rev, occ_cons, occ_app, occ_rev in Hq.
    rewrite occ_app, occ_cons. change (occ o []) with 0%nat. lia.
  - rewrite length_app. simpl. lia.
  - rewrite inv_fifo0, <- app_assoc, Hq. done.
Qed.

(** The round is over: the counts go down together. *)
Lemma inv_sub start σ s w t n l k p' :
  inv start σ s w → threads σ !! t = Some (ResumePop n n l k) →
  p' = (if decide (0 < Z.min (s - Z.of_nat n) (w - Z.of_nat n))
        then ResumePop (Z.to_nat (Z.min (s - Z.of_nat n) (w - Z.of_nat n))) 0 l k
        else ResumeRun l k) →
  inv start (thread_to σ t p' (upd_state (λ x, x - Z.lor (Z.of_nat n) (Z.shiftl (Z.of_nat n) 32)) (ev σ)))
    (s - Z.of_nat n) (w - Z.of_nat n).
Proof.
  intros Hinv Hp ->. pose proof Hinv as [].
  rewrite Forall_lookup in inv_pcs0. specialize (inv_pcs0 _ _ Hp). simpl in inv_pcs0.
  destruct inv_pcs0 as (_ & Hn & Hs & Hw & Hl).
  pose proof (state_sub _ _ _ _ Hinv (Z.of_nat n) ltac:(lia) Hw) as Hst.
  destruct (decide (0 < Z.min (s - Z.of_nat n) (w - Z.of_nat n))) as [Hd|Hd].
  - eapply inv_change; try done; simpl; try lia; [|by eapply ops_keep].
    unfold lock_value. repeat case_decide; lia.
  - eapply inv_change; try done; simpl; try lia; [| |by eapply ops_keep].
    + unfold lock_value. repeat case_decide; lia.
    + intros ->. simpl in Hl. lia.
Qed.

(** Before an operation that exists loses a reference. *)
Lemma ref_there σ o :
  op_ok σ o → live o (ev σ) = 1%nat →
  ∃ n, m_refCount (ev σ) !! o = Some n ∧ n = Z.of_nat (total (holds o) (threads σ) + pending o σ).
Proof.
  unfold op_ok, live. destruct (m_refCount (ev σ) !! o) as [n|]; [|done]. simpl. intros (E & _) _. by exists n.
Qed.

(** Reasoning about one operation after the step, from the same before it. *)
Ltac op_facts o Hp p' Hops :=
  pose proof (Hops o) as (O1 & O2 & O3 & O4 & O5);
  pose proof (total_insert (holds o) _ _ _ p' Hp) as E1;
  pose proof (total_insert (owes o) _ _ _ p' Hp) as E2;
  pose proof (total_insert (begins o) _ _ _ p' Hp) as E3.

Lemma inv_finish start σ s w t op :
  inv start σ s w → threads σ !! t = Some (SuspendFinish op) →
  ∃ e', drop_ref op (λ e, e) (ev σ) = Some e' ∧ inv start (thread_to σ t Idle e') s w.
Proof.
  intros Hinv Hp. pose proof Hinv as [].
  pose proof (total_ge (holds op) _ _ _ Hp) as G. simpl in G. rewrite decide_True in G by done.
  pose proof (inv_ops0 op) as (P1 & P2 & P3 & P4 & P5).
  assert (live op (ev σ) = 1%nat) as Hlive by (unfold live in *; case_match; lia).
  destruct (ref_there _ _ (inv_ops0 op) Hlive) as (n & Hn & En).
  unfold drop_ref. rewrite Hn. eexists. split; [done|]. destruct (Z.eqb_spec n 1) as [E|E].
  - eapply inv_change; try done; simpl; try lia.
    + intros o. op_facts o Hp Idle inv_ops0. simpl in E1, E2, E3.
      unfold op_ok, pending, live in *. simpl. rewrite lookup_delete, occ_filter, occ_app, occ_cons.
      change (occ o []) with 0%nat. destruct (decide (op = o)) as [->|Hne].
      * rewrite decide_True by done. simpl. rewrite Hn in *. split_and!; lia.
      * rewrite decide_False by done. split_and!; lia.
    + rewrite length_app. simpl. pose proof (occ_filter_length op (g_early (ev σ))). lia.
  - eapply inv_change; try done; simpl; try lia.
    intros o. op_facts o Hp Idle inv_ops0. simpl in E1, E2, E3.
    unfold op_ok, pending, live in *. simpl. rewrite lookup_insert.
    destruct (decide (op = o)) as [->|Hne]; [simpl; rewrite Hn in *|]; split_and!; lia.
Qed.

Lemma inv_resume start σ s w t op rest k :
  inv start σ s w → threads σ !! t = Some (ResumeRun (op :: rest) k) →
  ∃ e', drop_ref op (set_early op) (ev σ) = Some e' ∧
    inv start (thread_to σ t (match rest with [] => resume_return k | _ => ResumeRun rest k end) e') s w.
Proof.
  intros Hinv Hp. pose proof Hinv as [].
  pose proof (total_ge (owes op) _ _ _ Hp) as G. simpl in G. rewrite occ_cons, decide_True in G by done.
  pose proof (inv_ops0 op) as (P1 & P2 & P3 & P4 & P5).
  assert (live op (ev σ) = 1%nat) as Hlive by (unfold pending, live in *; case_match; lia).
  destruct (ref_there _ _ (inv_ops0 op) Hlive) as (n & Hn & En).
  assert (pending op σ = 1%nat) as Hpend by (unfold pending in *; lia).
  set (p' := match rest with [] => resume_return k | _ => ResumeRun rest k end).
  assert (popped p' = 0 ∧ uncounted p' = 0 ∧ arriving p' = 0 ∧ locked p' = 0 ∧ granted p' = length rest ∧
    (∀ o, holds o p' = holds o (ResumeRun (op :: rest) k)) ∧
    (∀ o, begins o p' = 0) ∧ (∀ o, owes o p' = occ o rest) ∧ pc_ok s w p')%nat
    as (Q1 & Q2 & Q3 & Q4 & Q5 & Q6 & Q7 & Q8 & Q9).
  { unfold p'. destruct rest; [destruct k|]; done. }
  unfold drop_ref. rewrite Hn. eexists. split; [done|]. destruct (Z.eqb_spec n 1) as [E|E].
  - eapply inv_change; try done; simpl; rewrite ?Q1, ?Q2, ?Q3, ?Q4, ?Q5; try lia.
    + intros o. op_facts o Hp p' inv_ops0. rewrite Q6 in E1. rewrite Q8 in E2. rewrite Q7 in E3. simpl in E2, E3.
      rewrite occ_cons in E2.
      unfold op_ok, pending, live in *. simpl. rewrite lookup_delete, occ_filter, occ_app, occ_cons.
      change (occ o []) with 0%nat. destruct (decide (op = o)) as [->|Hne].
      * rewrite decide_True by done. simpl. rewrite Hn in *. split_and!; lia.
      * rewrite decide_False by done. split_and!; lia.
    + rewrite length_app. simpl. pose proof (occ_filter_length op (g_early (ev σ))). lia.
  - eapply inv_change; try done; simpl; rewrite ?Q1, ?Q2, ?Q3, ?Q4, ?Q5; try lia.
    intros o. op_facts o Hp p' inv_ops0. rewrite Q6 in E1. rewrite Q8 in E2. rewrite Q7 in E3. simpl in E2, E3.
    rewrite occ_cons in E2. unfold op_ok, pending, live in *. simpl. rewrite occ_cons, lookup_insert.
    destruct (decide (op = o)) as [->|Hne]; [simpl; rewrite Hn in *|]; split_and!; lia.
Qed.

(** ** Every step keeps the invariant, and no assertion fails *)

Lemma resumable_is s w :
  0 ≤ s < u32_mod → 0 ≤ w < u32_mod → get_resumable_waiter_count (s + w * u32_mod) = Z.min s w.
Proof. intros Hs Hw. unfold get_resumable_waiter_count. by destruct (counts_decode s w Hs Hw) as [-> ->]. Qed.

Ltac open_micro :=
  cbn [micro]; unfold set_try, reset_try, await_load, await_try, suspend_push, suspend_count,
    suspend_finish, resume_pop, resume_run; cbn zeta.

Lemma set_try_inv start σ s w t all old spurious :
  inv start σ s w → threads σ !! t = Some (SetTry all old) →
  ∃ p' e' s' w', micro spurious (SetTry all old) (ev σ) = Some (p', e') ∧ inv start (thread_to σ t p' e') s' w'.
Proof.
  intros Hinv Hp. pose proof (set_count_is _ _ _ _ Hinv) as Es. pose proof (waiter_count_is _ _ _ _ Hinv) as Ew.
  pose proof (small_counts _ _ _ _ Hinv) as [Hs Hw]. open_micro.
  destruct (Z.ltb_spec (get_waiter_count old) (get_set_count old)) as [Hlt|Hle].
  { eexists _, _, s, w. split; [done|]. by eapply inv_move. }
  destruct (negb spurious && (m_state (ev σ) =? old)) eqn:Hc; [|eexists _, _, s, w; split; [done|]; by eapply inv_move].
  apply andb_true_iff in Hc as [_ <-%Z.eqb_eq]. rewrite Es, Ew in *.
  assert (negb (m_state (ev σ) =? 0) && (s =? 0) = bool_decide (s = 0 ∧ 0 < w)) as ->.
  { rewrite (inv_state _ _ _ _ Hinv). pose proof u32_mod_pos. case_bool_decide; nia. }
  case_bool_decide as Hd.
  - unfold resume_waiters, set_increment. rewrite (inv_state _ _ _ _ Hinv).
    replace (s + w * u32_mod + 1) with (s + 1 + w * u32_mod) by lia. rewrite resumable_is by lia.
    rewrite (proj1 Hd). replace (Z.min (0 + 1) w) with 1 by lia. simpl.
    eexists _, _, _, w. split; [done|]. replace (Pos.to_nat 1) with 1%nat by done.
    eapply inv_add_permit; [done..|]. rewrite decide_True by lia. eexists. split; [done|]. by destruct all.
  - eexists _, _, _, w. split; [done|]. eapply inv_add_permit; [done..|]. rewrite decide_False by lia.
    destruct all; auto.
Qed.

Lemma suspend_count_inv start σ s w t op spurious :
  inv start σ s w → threads σ !! t = Some (SuspendCount op) →
  ∃ p' e' s' w', micro spurious (SuspendCount op) (ev σ) = Some (p', e') ∧ inv start (thread_to σ t p' e') s' w'.
Proof.
  intros Hinv Hp. pose proof (waiter_count_is _ _ _ _ Hinv) as Ew.
  pose proof (small_counts _ _ _ _ Hinv) as [Hs Hw]. open_micro. rewrite Ew.
  assert (negb (m_state (ev σ) =? 0) && (w =? 0) = bool_decide (0 < s ∧ w = 0)) as ->.
  { rewrite (inv_state _ _ _ _ Hinv). pose proof u32_mod_pos. case_bool_decide; nia. }
  case_bool_decide as Hd.
  - unfold resume_waiters. change waiter_increment with u32_mod. rewrite (inv_state _ _ _ _ Hinv).
    replace (s + w * u32_mod + u32_mod) with (s + (w + 1) * u32_mod) by lia. rewrite resumable_is by lia.
    rewrite (proj2 Hd). replace (Z.min s (0 + 1)) with 1 by lia. simpl.
    eexists _, _, s, _. split; [done|]. eapply inv_add_waiter; [done..|]. by rewrite decide_True by lia.
  - eexists _, _, s, _. split; [done|]. eapply inv_add_waiter; [done..|]. by rewrite decide_False by lia.
Qed.

Lemma resume_pop_inv start σ s w t n i l k spurious :
  inv start σ s w → threads σ !! t = Some (ResumePop n i l k) →
  ∃ p' e' s' w', micro spurious (ResumePop n i l k) (ev σ) = Some (p', e') ∧ inv start (thread_to σ t p' e') s' w'.
Proof.
  intros Hinv Hp. pose proof (small_counts _ _ _ _ Hinv) as [Hs Hw]. open_micro.
  assert (pc_ok s w (ResumePop n i l k)) as Hok by (destruct Hinv; rewrite Forall_lookup in inv_pcs0; eauto).
  destruct Hok as (Hin & Hn & Hns & Hnw & Hl). destruct (Nat.ltb_spec i n) as [Hi|Hi].
  - destruct (next_waiter_some _ _ _ _ _ _ _ _ _ Hinv Hp Hi) as (op & news & ws & -> & Hq).
    eexists _, _, s, w. split; [done|]. by eapply inv_pop.
  - assert (i = n) as -> by lia. cbn zeta.
    rewrite (state_sub _ _ _ _ Hinv (Z.of_nat n)) by lia. rewrite resumable_is by lia.
    eexists _, _, _, _. split; [done|]. eapply inv_sub; [done..|].
    destruct (Z.ltb_spec 0 (Z.min (s - Z.of_nat n) (w - Z.of_nat n))); [by rewrite decide_True|by rewrite decide_False by lia].
Qed.

Lemma micro_inv start σ s w t p spurious :
  inv start σ s w → threads σ !! t = Some p →
  ∃ p' e' s' w', micro spurious p (ev σ) = Some (p', e') ∧ inv start (thread_to σ t p' e') s' w'.
Proof.
  intros Hinv Hp. pose proof (set_count_is _ _ _ _ Hinv) as Es. pose proof (waiter_count_is _ _ _ _ Hinv) as Ew.
  assert (pc_ok s w p) as Hok by (destruct Hinv; rewrite Forall_lookup in inv_pcs0; eauto).
  assert (∀ p', popped p' = popped p → uncounted p' = uncounted p → (arriving p' ≤ arriving p)%nat →
    locked p' = locked p → granted p' = granted p → (∀ o, holds o p' = holds o p) →
    (∀ o, begins o p' = begins o p) → (∀ o, owes o p' = owes o p) → pc_ok s w p' →
    ∃ p'' e' s' w', Some (p', ev σ) = Some (p'', e') ∧ inv start (thread_to σ t p'' e') s' w') as Hmove.
  { intros p' ?????????. eexists _, _, s, w. split; [done|]. by eapply inv_move. }
  destruct p as [|all|all old| |old|op|op old|op|op h|op|op|n i l k|l k]; try (by cbn [micro]; apply Hmove).
  - by eapply set_try_inv.
  - open_micro. case_match; [|by apply Hmove]. case_match eqn:Hc; [|by apply Hmove].
    apply andb_true_iff in Hc as [_ <-%Z.eqb_eq]. rewrite Es, Ew in *.
    eexists _, _, _, w. split; [done|]. eapply inv_reset; [done..|lia].
  - open_micro. destruct (Z.ltb_spec (get_waiter_count (m_state (ev σ))) (get_set_count (m_state (ev σ)))).
    + by apply Hmove.
    + eexists _, _, s, w. split; [done|]. by eapply inv_create; [..|left|].
  - open_micro. simpl in Hok. destruct (Z.eqb_spec (m_state (ev σ)) old) as [<-|].
    + rewrite Es, Ew in Hok. eexists _, _, _, w. split; [done|]. by eapply inv_acquire.
    + eexists _, _, s, w. split; [done|]. by eapply inv_create; [..|right; eexists|].
  - open_micro. case_match; [|by apply Hmove]. eexists _, _, s, w. split; [done|]. by eapply inv_push.
  - by eapply suspend_count_inv.
  - open_micro. destruct (inv_finish _ _ _ _ _ _ Hinv Hp) as (e' & -> & Hi). by eexists _, _, s, w.
  - by eapply resume_pop_inv.
  - open_micro. destruct l as [|op rest]; [done|].
    destruct (inv_resume _ _ _ _ _ _ _ _ Hinv Hp) as (e' & -> & Hi). by eexists _, _, s, w.
Qed.

Lemma begin_call_pc c :
  popped (begin_call c) = 0%nat ∧ uncounted (begin_call c) = 0%nat ∧ locked (begin_call c) = 0%nat ∧
  granted (begin_call c) = 0%nat ∧ (∀ o, holds o (begin_call c) = 0%nat) ∧
  (∀ o, owes o (begin_call c) = 0%nat) ∧ ∀ s w, pc_ok s w (begin_call c).
Proof. by destruct c. Qed.

Lemma inv_call start σ s w t c :
  inv start σ s w → threads σ !! t = Some Idle → may_call c σ = true →
  inv start (mkSys (ev σ) (<[t := begin_call c]> (threads σ)) (use c (g_used σ))) s w.
Proof.
  intros Hinv Hp Hmay. destruct Hinv. destruct (begin_call_pc c) as (C1 & C2 & C3 & C4 & C5 & C6 & C7).
  pose proof (total_insert popped _ _ _ (begin_call c) Hp) as F1.
  pose proof (total_insert uncounted _ _ _ (begin_call c) Hp) as F2.
  pose proof (total_insert arriving _ _ _ (begin_call c) Hp) as F3.
  pose proof (total_insert locked _ _ _ (begin_call c) Hp) as F4.
  pose proof (total_insert granted _ _ _ (begin_call c) Hp) as F5. simpl in *.
  assert (arriving (begin_call c) = 0%nat ∨ (arriving (begin_call c) = 1%nat ∧ Z.of_nat (waiting σ) < capacity)) as Ha.
  { destruct c; [auto..|]. simpl in *. right. split; [done|]. bool_hyps. lia. }
  unfold waiting in *. split; simpl; unfold waiting; simpl; try done; try lia.
  - apply Forall_insert; [done|apply C7].
  - intros o. op_facts o Hp (begin_call c) inv_ops0. rewrite C5 in E1. rewrite C6 in E2.
    simpl in E1, E2, E3. unfold op_ok, pending, live in *. simpl.
    assert (total (holds o) (<[t:=begin_call c]> (threads σ)) = total (holds o) (threads σ)) as -> by lia.
    assert (total (owes o) (<[t:=begin_call c]> (threads σ)) = total (owes o) (threads σ)) as -> by lia.
    split_and!; try lia.
    + destruct c; simpl in *; rewrite ?occ_cons; lia.
    + destruct c as [| | |op]; simpl in *; [lia..|]. bool_hyps. rewrite occ_cons. case_decide as E; [|lia].
      subst op. rewrite (proj2 (occ_zero o (g_used σ))) by done. lia.
Qed.

Definition b2n (b : bool) : nat := if b then 1%nat else 0%nat.

Lemma inv_init b n : inv (b2n b) (init b n) (Z.b2z b) 0.
Proof.
  split; simpl; try done.
  - by destruct b.
  - destruct b; simpl; lia.
  - rewrite !total_idle by done. done.
  - unfold waiting. simpl. rewrite !total_idle by done. done.
  - rewrite total_idle by done. rewrite decide_False by lia. done.
  - apply Forall_replicate. done.
  - intros o. unfold op_ok, pending, live. simpl. rewrite lookup_empty, !total_idle by done. simpl. unfold occ. simpl. lia.
  - rewrite total_idle by done. by destruct b.
Qed.

Lemma reachable_inv b n σ : reachable b n σ → ∃ s w, inv (b2n b) σ s w.
Proof.
  induction 1 as [|σ t a σ' Hr [s [w Hi]] Hs]; [eexists _, _; apply inv_init|].
  unfold step in Hs. destruct (threads σ !! t) as [p|] eqn:Hp; [|done]. simpl in Hs. destruct a as [c|sp].
  - destruct (bool_decide (p = Idle) && may_call c σ) eqn:E; [|done]. injection Hs as <-.
    apply andb_true_iff in E as [->%bool_decide_eq_true Hm]. exists s, w. by apply inv_call.
  - destruct (micro_inv _ _ _ _ _ _ sp Hi Hp) as (p' & e' & s' & w' & Hm & Hi'). rewrite Hm in Hs.
    injection Hs as <-. by exists s', w'.
Qed.

(** ** The properties *)

(** No call is under way. *)
Definition quiescent (σ : system) : Prop := Forall (λ p, p = Idle) (threads σ).

Lemma quiescent_total f σ : quiescent σ → f Idle = 0%nat → total f (threads σ) = 0%nat.
Proof. intros Hq Hf. unfold total, quiescent in *. induction Hq as [|p ts -> _ IH]; simpl; lia. Qed.

(** The assertions of the code hold, and no operation is used after it is
    gone, whatever the threads do and however their steps interleave: every
    thread can take its next step. *)
Theorem auto_reset_no_assertion_fails b n σ t p spurious :
  reachable b n σ → threads σ !! t = Some p → is_Some (micro spurious p (ev σ)).
Proof.
  intros Hr Hp. destruct (reachable_inv _ _ _ Hr) as (s & w & Hi).
  destruct (micro_inv _ _ _ _ _ _ spurious Hi Hp) as (p' & e' & _ & _ & -> & _). done.
Qed.

(** the lists of waiters are touched by one thread at a time, though there is
    no lock: two threads that are taking waiters off are the same thread. *)
Theorem auto_reset_one_resumer b n σ t1 t2 n1 n2 i1 i2 l1 l2 k1 k2 :
  reachable b n σ → threads σ !! t1 = Some (ResumePop n1 i1 l1 k1) →
  threads σ !! t2 = Some (ResumePop n2 i2 l2 k2) → t1 = t2.
Proof.
  intros Hr H1 H2. destruct (reachable_inv _ _ _ Hr) as (s & w & Hi). destruct Hi.
  destruct (decide (t1 = t2)) as [|Hne]; [done|].
  pose proof (total_insert locked _ _ _ Idle H1) as E. simpl in E.
  assert (<[t1 := Idle]> (threads σ) !! t2 = Some (ResumePop n2 i2 l2 k2)) as H2'
    by by rewrite list_lookup_insert_ne.
  pose proof (total_ge locked _ _ _ H2') as G. simpl in G. rewrite inv_lock0 in E. case_decide; lia.
Qed.

(** C14: no wake-up is lost.  When no call is under way, a coroutine still
    waits only if the event is not set; the waiters counted are those queued, and
    every [co_await] so far has gone on or is queued. *)
Theorem auto_reset_no_lost_wakeup b n σ :
  reachable b n σ → quiescent σ →
  (0 < get_set_count (m_state (ev σ)) → m_newWaiters (ev σ) = [] ∧ m_waiters (ev σ) = []) ∧
  Z.of_nat (length (m_newWaiters (ev σ)) + length (m_waiters (ev σ))) = get_waiter_count (m_state (ev σ)) ∧
  ∀ o, o ∈ g_used σ → o ∈ g_ran (ev σ) ∨ o ∈ m_newWaiters (ev σ) ∨ o ∈ m_waiters (ev σ).
Proof.
  intros Hr Hq. destruct (reachable_inv _ _ _ Hr) as (s & w & Hi).
  rewrite (set_count_is _ _ _ _ Hi), (waiter_count_is _ _ _ _ Hi). destruct Hi.
  rewrite (quiescent_total popped), (quiescent_total uncounted) in inv_queue0 by done.
  rewrite (quiescent_total locked) in inv_lock0 by done. split_and!.
  - intros Hs. case_decide; [done|]. assert (w = 0) as -> by lia.
    split; apply length_zero_iff_nil; lia.
  - lia.
  - intros o Ho. destruct (inv_ops0 o) as (O1 & O2 & O3 & O4 & O5).
    rewrite (quiescent_total (begins o)) in O4 by done. unfold pending in *.
    rewrite (quiescent_total (holds o)) in * by done. rewrite (quiescent_total (owes o)) in * by done.
    destruct (decide (o ∈ g_ran (ev σ))) as [|N1]; [auto|]. apply occ_zero in N1.
    destruct (decide (o ∈ m_newWaiters (ev σ))) as [|N2]; [auto|]. apply occ_zero in N2.
    destruct (decide (o ∈ m_waiters (ev σ))) as [|N3]; [auto|]. apply occ_zero in N3.
    exfalso. assert (occ o (g_used σ) ≠ 0%nat); [|lia]. rewrite occ_zero. auto.
Qed.

(** C15: every permit is used once.  At rest, the permits handed out (the initial
    one and one per effective [set()]) are the ones still there, the ones taken
    back by [reset()], and one for each coroutine that went on; and no coroutine
    goes on twice. *)
Theorem auto_reset_permits b n σ :
  reachable b n σ → quiescent σ →
  NoDup (g_ran (ev σ)) ∧
  (b2n b + g_sets (ev σ) =
   Z.to_nat (get_set_count (m_state (ev σ))) + g_resets (ev σ) + length (g_ran (ev σ)))%nat.
Proof.
  intros Hr Hq. destruct (reachable_inv _ _ _ Hr) as (s & w & Hi).
  rewrite (set_count_is _ _ _ _ Hi). destruct Hi. split.
  - apply occ_NoDup. intros o. destruct (inv_ops0 o) as (_ & _ & _ & O4 & O5). lia.
  - rewrite (quiescent_total granted) in inv_permits0 by done.
    assert (g_early (ev σ) = []) as He; [|rewrite He in inv_permits0; simpl in *; lia].
    apply occ_nil. intros o. destruct (inv_ops0 o) as (_ & _ & O3 & _).
    rewrite (quiescent_total (holds o)) in O3 by done. lia.
Qed.

(** waiters are served in the order they queued up. *)
Theorem auto_reset_fifo b n σ : reachable b n σ → g_dequeued (ev σ) `prefix_of` g_pushed (ev σ).
Proof. intros Hr. destruct (reachable_inv _ _ _ Hr) as (s & w & Hi). destruct Hi. by eexists. Qed.

(** ** A run of two threads *)

Fixpoint run_schedule (l : list (nat * label)) (σ : system) : option system :=
  match l with
  | [] => Some σ
  | (t, a) :: l' => σ' ← step t a σ; run_schedule l' σ'
  end.

Lemma run_schedule_reachable b n l σ σ' :
  reachable b n σ → run_schedule l σ = Some σ' → reachable b n σ'.
Proof.
  revert σ. induction l as [|[t a] l IH]; simpl; intros σ Hr Hs; [by simplify_eq|].
  destruct (step t a σ) as [σ1|] eqn:E; [|done]. eapply IH; [|done]. by eapply reach_step.
Qed.

(** Thread 0 waits with operation 7, gets as far as being counted; thread 1 sets
    the event, finds it and takes it off; it is released before thread 0 has
    given up its reference. *)
Definition demo_schedule : list (nat * label) :=
  (0%nat, Call (CAwait 7)) :: replicate 4 (0%nat, Run false) ++
  (1%nat, Call CSet) :: replicate 2 (1%nat, Run false).
Definition demo_locked : system := default (init false 2) (run_schedule demo_schedule (init false 2)).
Definition demo_rest : system :=
  default (init false 2)
    (run_schedule (demo_schedule ++ replicate 3 (1%nat, Run false) ++ [(0%nat, Run false)]) (init false 2)).

Lemma demo_locked_reachable : reachable false 2 demo_locked.
Proof.
  apply (run_schedule_reachable false 2 demo_schedule (init false 2)); [apply reach_init|].
  vm_compute. reflexivity.
Qed.
Lemma demo_rest_reachable : reachable false 2 demo_rest.
Proof.
  apply (run_schedule_reachable false 2
    (demo_schedule ++ replicate 3 (1%nat, Run false) ++ [(0%nat, Run false)]) (init false 2)); [apply reach_init|].
  vm_compute. reflexivity.
Qed.

Lemma auto_reset_no_assertion_fails_witness :
  threads demo_locked !! 1%nat = Some (ResumePop 1 0 [] ThenReturn) ∧
  is_Some (micro false (ResumePop 1 0 [] ThenReturn) (ev demo_locked)).
Proof.
  split; [vm_compute; reflexivity|].
  apply (auto_reset_no_assertion_fails false 2 demo_locked 1 _ false demo_locked_reachable).
  vm_compute. reflexivity.
Defined.

Lemma auto_reset_one_resumer_witness : 1%nat = 1%nat.
Proof.
  apply (auto_reset_one_resumer false 2 demo_locked 1 1 1 1 0 0 [] [] ThenReturn ThenReturn demo_locked_reachable);
    vm_compute; reflexivity.
Defined.

Lemma auto_reset_no_lost_wakeup_witness :
  g_used demo_rest = [7%nat] ∧ (7%nat ∈ g_ran (ev demo_rest) ∨ 7%nat ∈ m_newWaiters (ev demo_rest) ∨ 7%nat ∈ m_waiters (ev demo_rest)).
Proof.
  split; [vm_compute; reflexivity|].
  apply (auto_reset_no_lost_wakeup false 2 demo_rest demo_rest_reachable).
  - vm_compute. repeat constructor.
  - vm_compute. apply list_elem_of_here.
Defined.

Lemma auto_reset_permits_witness :
  NoDup (g_ran (ev demo_rest)) ∧
  (0 + g_sets (ev demo_rest) =
   Z.to_nat (get_set_count (m_state (ev demo_rest))) + g_resets (ev demo_rest) + length (g_ran (ev demo_rest)))%nat.
Proof.
  apply (auto_reset_permits false 2 demo_rest demo_rest_reachable). vm_compute. repeat constructor.
Defined.

Lemma auto_reset_fifo_witness :
  g_dequeued (ev demo_rest) = [7%nat] ∧ g_dequeued (ev demo_rest) `prefix_of` g_pushed (ev demo_rest).
Proof.
  split; [vm_compute; reflexivity|]. exact (auto_reset_fifo false 2 demo_rest demo_rest_reachable).
Defined.
