(* ===== verification/Interception.v ===== *)
(** * Interceptors

    [preInterceptEvent] of any interceptor can prevent an event.  A prevented
    event reaches no handler: it leaves services, coroutines and waiters alone,
    whatever the other interceptors do. *)

From S2P Require Import Prelude DenseMap Register Lifecycle Heap Events Manager Dispatch EventLoop Scenarios.
From stdpp Require Import base list gmap.
From Stdlib Require Import ZArith Lia.

Open Scope Z_scope.

(** What code without an event of its own cannot change: actions of interceptors
    push events, register and create, and interceptors are only added. *)
Definition calm (d d' : DM) : Prop :=
  services d' = services d ∧ gens d' = gens d ∧ pendingDependencies d' = pendingDependencies d ∧
  pendingCoroutine d' = pendingCoroutine d ∧ eventWaiters d' = eventWaiters d ∧
  dependencyWaiters d' = dependencyWaiters d ∧
  quitEventReceived d' = quitEventReceived d ∧ quitDone d' = quitDone d ∧
  ∀ key i, i ∈ default [] (interceptors d !! key) → i ∈ default [] (interceptors d' !! key).

#[export] Instance calm_preorder : PreOrder calm.
Proof.
  split; [intros d; unfold calm; by split_and!|]. intros d1 d2 d3 (A1&A2&A3&A4&A5&A6&A7&A8&A9) (B1&B2&B3&B4&B5&B6&B7&B8&B9).
  unfold calm. split_and!; try congruence. auto.
Qed.

Section interception.
Context (qpush : list Event → Event → list Event) (uc : UserCode).

Lemma push_calm origin priority b : pres calm (Manager.push qpush origin priority b).
Proof. intros d. done. Qed.
Hint Resolve push_calm : ichor_pres.

Lemma runAction_calm a : pres calm (runAction qpush a).
Proof.
  destruct a; simpl; unfold registerEventHandler, registerEventInterceptor, registerDependencyTracker,
    internalCreateServiceManager, findService; pres_auto.
  split_and!; try done. intros key i Hi. simpl. rewrite lookup_insert. case_decide; [|done].
  subst. simpl. set_solver.
Qed.
Hint Resolve runAction_calm : ichor_pres.
Lemma runActions_calm l : pres calm (runActions qpush l).
Proof. unfold runActions. pres_auto. Qed.
Hint Resolve runActions_calm : ichor_pres.

Lemma postIntercepts_calm infos e p : pres calm (postIntercepts qpush uc infos e p).
Proof. unfold postIntercepts. pres_auto. Qed.
Hint Resolve postIntercepts_calm : ichor_pres.

(** The interceptor prevents this event in every state. *)
Definition vetoes (e : Event) (i : interceptor) : Prop := ∀ d, (uc_preIntercept uc (ic_fn i) e d).2 = false.

(** The answers are collected: once [false], or with a veto in the list, the
    result is [false]. *)
Lemma preIntercepts_veto infos e allow d :
  wlp (preIntercepts qpush uc infos e allow)
    (λ r d', calm d d' ∧ (allow = false ∨ Exists (vetoes e) infos → r = false)) d.
Proof.
  unfold preIntercepts.
  cut (∀ (m : M DM bool) (P : Prop),
    wlp m (λ r d', calm d d' ∧ (P → r = false)) d →
    wlp (fold_left (λ acc i, a ← acc; r ← gets (uc_preIntercept uc (ic_fn i) e); runActions qpush r.1;; mret (a && r.2)) infos m)
      (λ r d', calm d d' ∧ (P ∨ Exists (vetoes e) infos → r = false)) d).
  { intros Hc. apply Hc. by apply wlp_ret. }
  induction infos as [|i infos IH]; intros m P Hm; cbn [fold_left].
  { eapply wlp_mono, Hm. simpl. intros r d' [? Hr]. split; [done|]. intros [?|Hx]; [auto|]. by apply Exists_nil in Hx. }
  eapply wlp_mono, (IH _ (P ∨ vetoes e i)).
  - simpl. intros r d' [? Hr]. split; [done|]. rewrite Exists_cons. naive_solver.
  - apply wlp_bind. eapply wlp_mono, Hm. simpl. intros a d1 [Hc Ha]. apply wlp_bind, wlp_gets, wlp_bind.
    eapply wlp_mono, runActions_calm. simpl. intros _ d2 Hc2. apply wlp_ret. split; [by etransitivity|].
    intros [HP|Hv]; [by rewrite (Ha HP)|]. rewrite Hv. apply andb_false_r.
Qed.

Lemma interceptGroup_veto present key store e allow d :
  (∀ l d, calm d (store l d)) →
  wlp (interceptGroup qpush uc present key store e allow)
    (λ r d', calm d d' ∧
       (allow = false ∨ (present = true ∧ Exists (vetoes e) (default [] (interceptors d !! key))) → r = false)) d.
Proof.
  intros Hs. unfold interceptGroup. apply wlp_bind, wlp_gets, wlp_bind, wlp_modify.
  eapply wlp_mono, preIntercepts_veto. simpl. intros r d' [Hc Hr].
  split; [by etransitivity; [apply Hs|]|]. intros [?|[-> Hx]]; auto.
Qed.

(** a prevented event is dropped.  If an interceptor for the event's type, or
    for all events, vetoes it, processing the event changes no service, starts,
    stops or resumes nothing and registers no waiter; other interceptors still
    run, and only a coroutine that awaits this very event would be resumed. *)
Theorem vetoed_event_is_dropped e d d' i :
  vetoes e i →
  i ∈ default [] (interceptors d !! 0) ∨ i ∈ default [] (interceptors d !! get_type e) →
  dfind (ev_id e) (eventWaiters d) = None →
  processEvent qpush uc e d = Done ((), d') → calm d d'.
Proof.
  intros Hv Hi Hw Hp. cut (wlp (processEvent qpush uc e) (λ _ d', calm d d') d).
  { unfold wlp. by rewrite Hp. }
  assert (∀ key d, i ∈ default [] (interceptors d !! key) →
    bool_decide (is_Some (interceptors d !! key)) = true ∧ Exists (vetoes e) (default [] (interceptors d !! key))) as Hex.
  { intros key d0 Hin. split; [|apply Exists_exists; eauto]. apply bool_decide_eq_true.
    destruct (interceptors d0 !! key); [done|]. simpl in Hin. set_solver. }
  unfold processEvent. apply wlp_bind, wlp_gets. destruct (quitDone d); [apply wlp_ret; reflexivity|].
  case_match; [apply wlp_terminate|]. do 2 apply wlp_bind, wlp_gets.
  apply wlp_bind. eapply wlp_mono, (interceptGroup_veto _ 0); [|done]. simpl. intros allow1 d1 [C1 V1].
  apply wlp_bind. eapply wlp_mono, (interceptGroup_veto _ (get_type e)); [|done]. simpl. intros allow d2 [C2 V2].
  assert (allow = false) as ->.
  { apply V2. destruct Hi as [Hi|Hi]; [left; apply V1; right; by apply Hex|right].
    split; [by apply Hex|]. apply (Hex _ d1). by apply C1. }
  apply wlp_bind, wlp_ret.
  apply wlp_bind, wlp_gets, wlp_bind. eapply wlp_mono, postIntercepts_calm. simpl. intros _ d3 C3.
  apply wlp_bind, wlp_gets, wlp_bind. eapply wlp_mono, postIntercepts_calm. simpl. intros _ d4 C4.
  assert (calm d d4) as C by (transitivity d1; [done|]; transitivity d2; [done|]; by transitivity d3).
  unfold handleEventCompletion. apply wlp_bind, wlp_gets.
  pose proof C as (_ & _ & _ & _ & Ew & _). rewrite Ew, Hw. by apply wlp_ret.
Qed.
End interception.

(** An interceptor of all events that lets nothing through, and a manager with a
    service that it keeps from being inserted. *)
Definition blocking_code : UserCode :=
  mkUserCode (uc_start idle_code) (uc_stop idle_code) (uc_handle idle_code) (uc_track idle_code)
    (uc_run idle_code) (uc_runAsync idle_code) (λ _ _ _, ([], false)) (uc_postIntercept idle_code).
Definition demo_blocked : PriorityQueue :=
  match boot blocking_code [RegisterEventInterceptor 1 0 7; CreateServiceManager spec_provider] with
  | Done q => q
  | Terminated => createManager 1 IFACE_DM IFACE_QUEUE 5000
  end.
Definition demo_insertion : Event * list Event :=
  default (mkEvent 0 0 0 DoWorkEvent, [])
    (Heap.pop OrderedPriorityQueueCompare (queue (pq_dm demo_blocked))).

Lemma vetoed_event_is_dropped_witness :
  (∃ mgr, ev_body demo_insertion.1 = InsertServiceEvent mgr) ∧
  ∃ d', processEvent (Heap.push OrderedPriorityQueueCompare) blocking_code demo_insertion.1 (pq_dm demo_blocked)
          = Done ((), d') ∧ calm (pq_dm demo_blocked) d'.
Proof.
  split; [eexists; vm_compute; reflexivity|]. eexists. split; [vm_compute; reflexivity|].
  apply (vetoed_event_is_dropped (Heap.push OrderedPriorityQueueCompare) blocking_code
           demo_insertion.1 (pq_dm demo_blocked) _ (mkInterceptor 1 1 7)).
  - intros d. reflexivity.
  - left. vm_compute. apply list_elem_of_here.
  - vm_compute. reflexivity.
  - vm_compute. reflexivity.
Defined.
