(* ===== verification/AsyncMutex.v ===== *)
(** * [AsyncManualResetEvent] and [AsyncSingleThreadedMutex]

    include/ichor/coroutines/AsyncManualResetEvent.h with its .cpp file, and the
    mutex for coroutines of one thread built from it, in
    include/ichor/stl/AsyncSingleThreadedMutex.h.

    Coroutines are numbers.  [set()] resumes the waiters one after the other; a
    resumed coroutine may run any number of steps, and make further calls, before
    the next one is resumed, so the waiters still to be resumed are part of the
    state. *)

From S2P Require Import Prelude.
From stdpp Require Import base list sets.
From Stdlib Require Import ZArith Lia.

(** ** The event *)

(** The three states of [_state]: [this], [nullptr] and a list of waiters, the
    newest first. *)
Inductive AsyncManualResetEvent :=
| IsSet
| NotSet (waiters : list nat).

Definition new_manual_event (initiallySet : bool) : AsyncManualResetEvent :=
  if initiallySet then IsSet else NotSet [].
Definition is_set (e : AsyncManualResetEvent) : bool := match e with IsSet => true | NotSet _ => false end.
(** [await_ready] and [await_suspend]: [None] when the coroutine goes on. *)
Definition await_event (coroutine : nat) (e : AsyncManualResetEvent) : option AsyncManualResetEvent :=
  match e with
  | IsSet => None
  | NotSet waiters => Some (NotSet (coroutine :: waiters))
  end.
(** The coroutines to resume, in this order, and the event. *)
Definition set_event (e : AsyncManualResetEvent) : list nat * AsyncManualResetEvent :=
  match e with
  | IsSet => ([], IsSet)
  | NotSet waiters => (waiters, IsSet)
  end.
Definition reset_event (e : AsyncManualResetEvent) : AsyncManualResetEvent :=
  match e with IsSet => NotSet [] | NotSet waiters => NotSet waiters end.

(** ** The mutex *)

Record AsyncSingleThreadedMutex := mkMutex {
  m_locked : bool;
  m_evts : list AsyncManualResetEvent;
}.

(** [lock()] up to its [co_await]: [true] when the coroutine has the lock. *)
Definition mutex_lock (c : nat) (m : AsyncSingleThreadedMutex) : bool * AsyncSingleThreadedMutex :=
  if m_locked m then
    let evts := m_evts m ++ [new_manual_event false] in
    match evts with
    | evt :: rest =>
        match await_event c evt with
        | Some evt' => (false, mkMutex (m_locked m) (evt' :: rest))
        | None => (true, mkMutex true evts)
        end
    | [] => (true, mkMutex true evts)
    end
  else (true, mkMutex true (m_evts m)).

(** [lock()] after its [co_await]. *)
Definition mutex_resumed (m : AsyncSingleThreadedMutex) : AsyncSingleThreadedMutex :=
  mkMutex true (m_evts m).

Definition non_blocking_lock (m : AsyncSingleThreadedMutex) : bool * AsyncSingleThreadedMutex :=
  if m_locked m then (false, m) else (true, mkMutex true (m_evts m)).

(** [unlock()]: the coroutines it resumes. *)
Definition mutex_unlock (m : AsyncSingleThreadedMutex) : list nat * AsyncSingleThreadedMutex :=
  match m_evts m with
  | [] => ([], mkMutex false [])
  | evt :: evts => ((set_event evt).1, mkMutex (m_locked m) evts)
  end.

(** ** Coroutines using it *)

Record mutex_system := mkMSys {
  mutex : AsyncSingleThreadedMutex;
  holding : list nat;      (* have a lock guard *)
  resuming : list nat;     (* about to be resumed by a set() under way *)
}.

Definition event_waiters (e : AsyncManualResetEvent) : list nat :=
  match e with IsSet => [] | NotSet l => l end.
Definition suspended (σ : mutex_system) : list nat := m_evts (mutex σ) ≫= event_waiters.

(** Gives up one guard. *)
Fixpoint remove_one (c : nat) (l : list nat) : list nat :=
  match l with
  | [] => []
  | x :: l' => if decide (x = c) then l' else x :: remove_one c l'
  end.

Inductive mutex_action :=
| Lock (c : nat)
| TryLock (c : nat)
| Unlock (c : nat)         (* of a guard that has the lock *)
| Resume.                  (* set() goes on to its next waiter *)

Definition mutex_step (a : mutex_action) (σ : mutex_system) : option mutex_system :=
  match a with
  | Lock c =>
      let '(got, m) := mutex_lock c (mutex σ) in
      Some (mkMSys m (if got then c :: holding σ else holding σ) (resuming σ))
  | TryLock c =>
      let '(got, m) := non_blocking_lock (mutex σ) in
      Some (mkMSys m (if got then c :: holding σ else holding σ) (resuming σ))
  | Unlock c =>
      if bool_decide (c ∈ holding σ) then
        let '(l, m) := mutex_unlock (mutex σ) in
        Some (mkMSys m (remove_one c (holding σ)) (l ++ resuming σ))
      else None
  | Resume =>
      match resuming σ with
      | c :: l => Some (mkMSys (mutex_resumed (mutex σ)) (c :: holding σ) l)
      | [] => None
      end
  end.

Definition new_mutex : mutex_system := mkMSys (mkMutex false []) [] [].

Fixpoint mutex_run (l : list mutex_action) (σ : mutex_system) : option mutex_system :=
  match l with
  | [] => Some σ
  | a :: l' => σ' ← mutex_step a σ; mutex_run l' σ'
  end.

(** ** Invariants *)

Definition mutex_inv (σ : mutex_system) : Prop :=
  let m := mutex σ in
  Forall (λ e, e = NotSet []) (tail (m_evts m)) ∧
  match m_evts m with IsSet :: _ => False | _ => True end ∧
  (length (m_evts m) + (if m_locked m then 1 else 0) =
   length (holding σ) + length (resuming σ) + length (suspended σ)) ∧
  (m_locked m = false → m_evts m = []) ∧
  (m_locked m = true → 0 < length (holding σ) + length (resuming σ)).

Lemma remove_one_length c l : c ∈ l → length l = S (length (remove_one c l)).
Proof.
  induction l as [|x l IH]; intros Hc; [set_solver|]. simpl. case_decide; [done|]. simpl. rewrite IH; [done|set_solver].
Qed.

Lemma no_waiters evts : Forall (λ e, e = NotSet []) evts → evts ≫= event_waiters = [].
Proof. induction 1 as [|e l -> _ IH]; [done|]. by simpl. Qed.

(** All waiters wait for the first event. *)
Lemma suspended_front σ :
  mutex_inv σ → suspended σ = match m_evts (mutex σ) with e :: _ => event_waiters e | [] => [] end.
Proof.
  intros (H & _). unfold suspended. destruct (m_evts (mutex σ)) as [|e l]; [done|].
  simpl. rewrite no_waiters by done. apply app_nil_r.
Qed.

Lemma lock_inv c σ σ' : mutex_inv σ → mutex_step (Lock c) σ = Some σ' → mutex_inv σ'.
Proof.
  intros Hinv Hs. pose proof (suspended_front _ Hinv) as Hf. unfold mutex_inv in *. unfold suspended in *. cbn zeta in *.
  destruct σ as [[locked evts] h r]. simpl in *. destruct Hinv as (I1 & I2 & I3 & I4 & I5). unfold mutex_lock in Hs. simpl in Hs.
  destruct locked; [|specialize (I4 eq_refl); subst evts; simplify_eq/=; split_and!; [constructor|done|lia|done|lia]].
  destruct evts as [|[|ws] rest]; simpl in *; [|done|]; simplify_eq/=.
  - split_and!; [constructor|done|lia|done|lia].
  - rewrite Forall_app. rewrite bind_app, !no_waiters in * by done. rewrite !length_app in *. simpl in *.
    split_and!; [done|repeat constructor|done|lia|done|lia].
Qed.

Lemma unlock_inv c σ σ' : mutex_inv σ → mutex_step (Unlock c) σ = Some σ' → mutex_inv σ'.
Proof.
  intros Hinv Hs. pose proof (suspended_front _ Hinv) as Hf. unfold mutex_inv in *. unfold suspended in *. cbn zeta in *.
  destruct σ as [[locked evts] h r]. simpl in *. destruct Hinv as (I1 & I2 & I3 & I4 & I5).
  case_bool_decide as Hc; [|done]. apply remove_one_length in Hc. unfold mutex_unlock in Hs. simpl in Hs.
  destruct evts as [|[|ws] rest]; simpl in *; [|done|]; simplify_eq/=.
  - destruct locked; [|lia]. split_and!; [constructor|done|lia|done|done].
  - rewrite no_waiters in * by done. rewrite length_app in *. simpl in *.
    destruct locked; [|specialize (I4 eq_refl); done].
    assert (Forall (λ e, e = NotSet []) (tail rest)) by (destruct rest; [constructor|by apply Forall_cons in I1 as [_ ?]]).
    split_and!; [done|by destruct rest as [|? ?]; [|apply Forall_cons in I1 as [-> _]]|lia|done|].
    intros _. destruct ws; simpl in *; lia.
Qed.

Lemma mutex_step_inv a σ σ' : mutex_inv σ → mutex_step a σ = Some σ' → mutex_inv σ'.
Proof.
  destruct a as [c|c|c|]; [apply lock_inv| |apply unlock_inv|]; intros Hinv Hs;
    unfold mutex_inv, suspended in *; cbn zeta in *; destruct σ as [[locked evts] h r]; simpl in *;
    destruct Hinv as (I1 & I2 & I3 & I4 & I5).
  - unfold non_blocking_lock in Hs. simpl in Hs. destruct locked; simplify_eq/=; [by split_and!|].
    specialize (I4 eq_refl). subst evts. simpl in *. split_and!; [constructor|done|lia|done|lia].
  - destruct r as [|c l]; simplify_eq/=. destruct locked; [split_and!; [done..|lia|done|lia]|].
    specialize (I4 eq_refl). subst. simpl in *. lia.
Qed.

Lemma mutex_run_inv l σ σ' : mutex_inv σ → mutex_run l σ = Some σ' → mutex_inv σ'.
Proof.
  revert σ. induction l as [|a l IH]; simpl; intros σ Hi Hr; [by simplify_eq|].
  destruct (mutex_step a σ) as [σ1|] eqn:E; [|done]. simpl in Hr. eapply IH; [|done]. by eapply mutex_step_inv.
Qed.

Lemma new_mutex_inv : mutex_inv new_mutex.
Proof. split_and!; done || constructor. Qed.

(** ** Properties *)

(** nobody waits for nothing.  In every run, while a coroutine is suspended in
    [lock()], another one has the lock or is about to get it; and the mutex is
    unlocked exactly when nobody has it or waits for it. *)
Theorem mutex_waiters_have_a_holder l σ :
  mutex_run l new_mutex = Some σ →
  (suspended σ ≠ [] → holding σ ++ resuming σ ≠ []) ∧
  (m_locked (mutex σ) = false ↔ holding σ = [] ∧ resuming σ = [] ∧ suspended σ = []).
Proof.
  intros Hr. destruct (mutex_run_inv _ _ _ new_mutex_inv Hr) as (I1 & I2 & I3 & I4 & I5).
  assert (m_locked (mutex σ) = false → holding σ = [] ∧ resuming σ = [] ∧ suspended σ = []) as Hun.
  { intros E. rewrite E, I4 in I3 by done. simpl in I3. split_and!; apply length_zero_iff_nil; lia. }
  split; [|split; [done|]].
  - intros Hs E. apply app_eq_nil in E as [E1 E2]. rewrite E1, E2 in *. simpl in *.
    destruct (m_locked (mutex σ)); [specialize (I5 eq_refl); lia|]. naive_solver.
  - intros (E1 & E2 & _). rewrite E1, E2 in *. simpl in *. destruct (m_locked _); [|done]. specialize (I5 eq_refl). lia.
Qed.

(** [lock()] is only called while nobody else waits. *)
Fixpoint one_waiter (l : list mutex_action) (σ : mutex_system) : bool :=
  match l with
  | [] => true
  | a :: l' =>
      match a with Lock _ => bool_decide (suspended σ = []) | _ => true end &&
      match mutex_step a σ with Some σ' => one_waiter l' σ' | None => false end
  end.

Lemma one_waiter_inv l σ σ' :
  mutex_inv σ → length (m_evts (mutex σ)) = length (suspended σ) → length (suspended σ) ≤ 1 →
  one_waiter l σ = true → mutex_run l σ = Some σ' → length (m_evts (mutex σ')) = length (suspended σ').
Proof.
  revert σ. induction l as [|a l IH]; simpl; intros σ Hi He H1 Ho Hr; [by simplify_eq|].
  apply andb_true_iff in Ho as [Ha Ho]. destruct (mutex_step a σ) as [σ1|] eqn:E; [|done]. simpl in Hr.
  assert (length (m_evts (mutex σ1)) = length (suspended σ1) ∧ length (suspended σ1) ≤ 1) as [He1 H11].
  { pose proof (mutex_step_inv _ _ _ Hi E) as Hi1. rewrite (suspended_front _ Hi1). rewrite (suspended_front _ Hi) in *.
    destruct σ as [[locked evts] h r]. destruct Hi as (I1 & I2 & _). simpl in *.
    destruct a as [c|c|c|]; unfold mutex_lock, non_blocking_lock, mutex_unlock in E; simpl in E.
    - bool_hyps. destruct locked; [|by simplify_eq/=].
      destruct evts as [|[|ws] rest]; simpl in *; simplify_eq/=; try done; simpl; lia.
    - destruct locked; by simplify_eq/=.
    - case_bool_decide; [|done]. destruct evts as [|[|ws] rest]; simpl in *; simplify_eq/=; try done; simpl; try lia.
      destruct rest as [|e rest]; [simpl; lia|]. simpl in *. lia.
    - destruct r; by simplify_eq/=. }
  eapply IH; [by eapply mutex_step_inv|done..].
Qed.

(** mutual exclusion, as long as no two coroutines wait for the mutex at the
    same time: at most one has the lock or is about to get it. *)
Theorem mutex_excludes_with_one_waiter l σ :
  mutex_run l new_mutex = Some σ → one_waiter l new_mutex = true →
  length (holding σ ++ resuming σ) ≤ 1.
Proof.
  intros Hr Ho. pose proof (one_waiter_inv l new_mutex σ new_mutex_inv) as He.
  destruct (mutex_run_inv _ _ _ new_mutex_inv Hr) as (_ & _ & I3 & _ & _).
  rewrite length_app. rewrite He in I3 by (done || simpl; lia). case_match; lia.
Qed.

(** with two waiters the mutex does not exclude: [lock()] waits for the first
    event of the queue, not for its own, so one [unlock()] lets both in. *)
Theorem mutex_lets_two_in :
  ∃ σ, mutex_run [Lock 1; Lock 2; Lock 3; Unlock 1; Resume; Resume] new_mutex = Some σ ∧ holding σ = [2; 3].
Proof. eexists. split; [reflexivity|]. reflexivity. Qed.

Lemma mutex_waiters_have_a_holder_witness :
  ∃ σ, mutex_run [Lock 1; Lock 2] new_mutex = Some σ ∧ suspended σ = [2] ∧
  (suspended σ ≠ [] → holding σ ++ resuming σ ≠ []) ∧
  (m_locked (mutex σ) = false ↔ holding σ = [] ∧ resuming σ = [] ∧ suspended σ = []).
Proof.
  eexists. split; [reflexivity|]. split; [reflexivity|].
  apply (mutex_waiters_have_a_holder [Lock 1; Lock 2]). reflexivity.
Defined.

Lemma mutex_excludes_with_one_waiter_witness :
  ∃ σ, mutex_run [Lock 1; Lock 2; Unlock 1; Resume] new_mutex = Some σ ∧ holding σ = [2] ∧
  length (holding σ ++ resuming σ) ≤ 1.
Proof.
  eexists. split; [reflexivity|]. split; [reflexivity|].
  apply (mutex_excludes_with_one_waiter [Lock 1; Lock 2; Unlock 1; Resume]); reflexivity.
Defined.
