(* ===== verification/StringUtils.v ===== *)
(** * String utilities

    include/ichor/stl/StringUtils.h and src/ichor/stl/StringUtils.cpp: numbers
    from text, splitting, versions.

    Memory is a list of characters up to the terminating NUL; a pointer into it is
    the list from there on.  A [string_view] is a pointer and a length, so that
    code that reads on behind a view reads what the source reads.  Numbers are
    printed by the fmt library, which is a parameter. *)

From S2P Require Import Prelude.
From Stdlib Require Import Ascii String.
From stdpp Require Import base list sets.
From Stdlib Require Import ZArith Lia.

Open Scope Z_scope.

Definition cstring : Type := list ascii.
Definition str (s : string) : cstring := list_ascii_of_string s.
Definition code (c : ascii) : Z := Z.of_N (N_of_ascii c).

Record string_view := mkView { sv_data : cstring; sv_size : nat }.
Definition content (v : string_view) : cstring := take (sv_size v) (sv_data v).
(** A view of a whole string. *)
Definition view_of (s : cstring) : string_view := mkView s (length s).
Lemma content_view_of s : content (view_of s) = s.
Proof. apply firstn_all. Qed.

(** ** Decimal numbers *)

(** [uint8_t( c - '0')] *)
Definition digit_of (c : ascii) : Z := (code c - 48) mod 256.

Fixpoint atoiu_loop (s : cstring) (val : Z) : Z :=
  match s with
  | [] => val
  | c :: s' => if digit_of c <=? 9 then atoiu_loop s' (wrap64 (val * 10 + digit_of c)) else val
  end.
Definition FastAtoiu (s : cstring) : Z := atoiu_loop s 0.
Definition FastAtoiu_view (v : string_view) : Z := atoiu_loop (content v) 0.

(** [int64_t]: [None] is an overflow, which is undefined. *)
Definition int64 (z : Z) : option Z := if (- 2 ^ 63 <=? z) && (z <? 2 ^ 63) then Some z else None.
Fixpoint atoi_loop (s : cstring) (val : Z) : option Z :=
  match s with
  | [] => Some val
  | c :: s' =>
      if digit_of c <=? 9 then
        v ← int64 (val * 10); v' ← int64 (v + digit_of c); atoi_loop s' v'
      else Some val
  end.
Definition FastAtoi (s : cstring) : option Z :=
  match s with
  | "-"%char :: s' => Z.opp <$> atoi_loop s' 0
  | _ => atoi_loop s 0
  end.

(** ** Hexadecimal numbers *)

Definition digittoval : list Z :=
  replicate 48 (-1) ++ [0; 1; 2; 3; 4; 5; 6; 7; 8; 9] ++ replicate 7 (-1) ++ [10; 11; 12; 13; 14; 15] ++
  replicate 26 (-1) ++ [10; 11; 12; 13; 14; 15] ++ replicate 153 (-1).
Definition hexval (c : ascii) : Z := nth (Z.to_nat (code c)) digittoval (-1).

(** The loop from the last character to the first. *)
Fixpoint fast_hex_loop (s : cstring) (ret shift : Z) : Z :=
  match s with
  | [] => ret
  | c :: s' => fast_hex_loop s' (wrap64 (ret + wrap64 (Z.shiftl (wrap64 (hexval c)) shift))) (wrap64 (shift + 4))
  end.
Definition FastHexToUint (s : cstring) : Z :=
  if (16 <? length s)%nat then u64_mod - 1 else fast_hex_loop (rev s) 0 0.

Fixpoint safe_hex_loop (s : cstring) (ret shift : Z) : option Z :=
  match s with
  | [] => Some ret
  | c :: s' =>
      if hexval c =? -1 then None
      else safe_hex_loop s' (wrap64 (ret + wrap64 (Z.shiftl (wrap64 (hexval c)) shift))) (wrap64 (shift + 4))
  end.
Definition SafeHexToUint (s : cstring) : option Z :=
  if (16 <? length s)%nat then None else safe_hex_loop (rev s) 0 0.

(** ** Splitting *)

(** [std::search]: where [delims] first occurs in [s], or the length of [s]. *)
Fixpoint search (s delims : cstring) : nat :=
  if decide (take (length delims) s = delims) then 0%nat
  else match s with [] => 0%nat | _ :: s' => S (search s' delims) end.

(** The loop of [split], at pointer [first] with [n] characters to [last]. *)
Fixpoint split_loop (fuel : nat) (first : cstring) (n : nat) (delims : cstring) (includeDelims : bool)
    : list string_view :=
  match fuel with
  | O => []
  | S fuel' =>
      if decide (n = 0)%nat then []
      else
        let i := search (take n first) delims in
        let e := if includeDelims && negb (bool_decide (i = n)) then (i + length delims)%nat else i in
        mkView first e ::
        (if decide (i = n) then []
         else split_loop fuel' (drop (i + length delims) first) (n - (i + length delims)) delims includeDelims)
  end.
(** With a delimiter every turn moves on, so the length is fuel enough.  (With an
    empty one the loop of the source does not end.) *)
Definition split (v : string_view) (delims : cstring) (includeDelims : bool) : list string_view :=
  split_loop (sv_size v) (sv_data v) (sv_size v) delims includeDelims.

Definition IsOnlyDigits (s : cstring) : bool := forallb (λ c, (48 <=? code c) && (code c <=? 57)) s.

(** ** Versions *)

Record Version := mkVersion { major : Z; minor : Z; patch : Z }.

Definition version_letter (c : ascii) : bool :=
  ((48 <=? code c) && (code c <=? 57)) || bool_decide (c = "."%char).

Definition parseStringAsVersion (v : string_view) : option Version :=
  if (length (content v) <? 5)%nat then None
  else if negb (forallb version_letter (content v)) then None
  else if bool_decide (last (content v) = Some "."%char) then None
  else
    match split v ["."%char] false with
    | [a; b; c] => Some (mkVersion (FastAtoiu (sv_data a)) (FastAtoiu (sv_data b)) (FastAtoiu (sv_data c)))
    | _ => None
    end.

(** [operator<=>] of a version, member by member. *)
Definition version_compare (a b : Version) : comparison :=
  match Z.compare (major a) (major b) with
  | Eq => match Z.compare (minor a) (minor b) with
          | Eq => Z.compare (patch a) (patch b)
          | c => c
          end
  | c => c
  end.

Section fmt.
(** [fmt::format] of a [uint64_t] with "{}". *)
Context (fmt_uint : Z → cstring).
Definition toString (v : Version) : cstring :=
  fmt_uint (major v) ++ ["."%char] ++ fmt_uint (minor v) ++ ["."%char] ++ fmt_uint (patch v).
End fmt.

(** ** Hexadecimal: the loops compute the positional value *)

Definition is_hex (c : ascii) : bool :=
  ((48 <=? code c) && (code c <=? 57)) || ((65 <=? code c) && (code c <=? 70)) || ((97 <=? code c) && (code c <=? 102)).
Definition hex_digit (c : ascii) : Z :=
  if code c <=? 57 then code c - 48 else if code c <=? 70 then code c - 55 else code c - 87.
(** The number a string of hexadecimal digits stands for. *)
Definition hex_value (s : cstring) : Z := fold_left (λ v c, v * 16 + hex_digit c) s 0.

(** The table says the same. *)
Lemma hexval_spec c : hexval c = if is_hex c then hex_digit c else -1.
Proof. destruct c as [[] [] [] [] [] [] [] []]; reflexivity. Qed.
Lemma hex_digit_range c : is_hex c = true → 0 ≤ hex_digit c < 16.
Proof. unfold is_hex, hex_digit. intros H. repeat case_match; lia. Qed.

(** The value with the last character first. *)
Fixpoint rev_value (s : cstring) : Z :=
  match s with [] => 0 | c :: s' => hex_digit c + 16 * rev_value s' end.
Lemma rev_value_snoc s c : rev_value (s ++ [c]) = rev_value s + 16 ^ Z.of_nat (length s) * hex_digit c.
Proof.
  induction s as [|x s IH]; [simpl; lia|]. cbn [rev_value app length]. rewrite IH, Nat2Z.inj_succ, Z.pow_succ_r by lia. lia.
Qed.
Lemma hex_value_rev s : hex_value s = rev_value (rev s).
Proof.
  unfold hex_value. rewrite <- fold_left_rev_right. generalize (rev s). intros l.
  induction l as [|c l IH]; [done|]. simpl. rewrite IH. lia.
Qed.

(** A digit fits in its place. *)
Lemma hex_place d k : 0 ≤ d < 16 → (k < 16)%nat →
  wrap64 (Z.shiftl (wrap64 d) (4 * Z.of_nat k)) = 16 ^ Z.of_nat k * d.
Proof.
  intros Hd Hk. rewrite (wrap64_small d) by (unfold u64_mod; lia). rewrite Z.shiftl_mul_pow2 by lia.
  rewrite Z.pow_mul_r by lia. change (2 ^ 4) with 16. rewrite Z.mul_comm. apply wrap64_small.
  assert (16 ^ Z.of_nat k ≤ 16 ^ 15) by (apply Z.pow_le_mono_r; lia).
  assert (0 < 16 ^ Z.of_nat k) by (apply Z.pow_pos_nonneg; lia).
  change u64_mod with (16 * 16 ^ 15). nia.
Qed.

Lemma safe_hex_loop_spec s ret k :
  (k + length s ≤ 16)%nat → 0 ≤ ret < 16 ^ Z.of_nat k →
  safe_hex_loop s ret (4 * Z.of_nat k) =
    if forallb is_hex s then Some (ret + 16 ^ Z.of_nat k * rev_value s) else None.
Proof.
  revert ret k. induction s as [|c s IH]; intros ret k Hk Hret; cbn [safe_hex_loop forallb rev_value].
  { f_equal. lia. }
  simpl in Hk. rewrite hexval_spec. destruct (is_hex c) eqn:Hc; [|done]. pose proof (hex_digit_range c Hc) as Hd.
  destruct (Z.eqb_spec (hex_digit c) (-1)); [lia|]. rewrite hex_place by lia.
  assert (0 < 16 ^ Z.of_nat k) by (apply Z.pow_pos_nonneg; lia).
  assert (16 ^ Z.of_nat (S k) = 16 * 16 ^ Z.of_nat k) as Hpow by (rewrite Nat2Z.inj_succ, Z.pow_succ_r; lia).
  assert (16 ^ Z.of_nat (S k) ≤ u64_mod) as Hle.
  { change u64_mod with (16 ^ 16). apply Z.pow_le_mono_r; lia. }
  rewrite (wrap64_small (ret + _)) by nia. rewrite (wrap64_small (_ + 4)) by (unfold u64_mod; lia).
  replace (4 * Z.of_nat k + 4) with (4 * Z.of_nat (S k)) by lia. rewrite IH by (lia || nia).
  simpl (true && _). destruct (forallb is_hex s); [|done]. f_equal. rewrite Hpow. lia.
Qed.

Lemma fast_hex_loop_safe s ret shift v :
  safe_hex_loop s ret shift = Some v → fast_hex_loop s ret shift = v.
Proof.
  revert ret shift. induction s as [|c s IH]; simpl; intros ret shift; [by intros [= ->]|].
  destruct (hexval c =? -1); [done|]. apply IH.
Qed.

Lemma rev_value_range s : forallb is_hex s = true → 0 ≤ rev_value s < 16 ^ Z.of_nat (length s).
Proof.
  induction s as [|c s IH]; [done|]. cbn [forallb rev_value length]. intros [Hc Hs]%andb_true_iff.
  pose proof (hex_digit_range c Hc). specialize (IH Hs). rewrite Nat2Z.inj_succ, Z.pow_succ_r by lia. lia.
Qed.

(** [SafeHexToUint] is right on all input: it gives the value of every string
    of at most 16 hexadecimal digits, which fits in 64 bits, and nothing for any
    other string; where it gives a value, [FastHexToUint] gives the same. *)
Theorem SafeHexToUint_correct s :
  SafeHexToUint s =
    (if (length s <=? 16)%nat && forallb is_hex s then Some (hex_value s) else None) ∧
  (forallb is_hex s = true → (length s ≤ 16)%nat → 0 ≤ hex_value s < u64_mod) ∧
  (∀ v, SafeHexToUint s = Some v → FastHexToUint s = v).
Proof.
  assert (∀ l, forallb is_hex (rev l) = forallb is_hex l) as Hrev.
  { intros l. apply eq_true_iff_eq. rewrite !forallb_forall. setoid_rewrite <- in_rev. done. }
  split_and!.
  - unfold SafeHexToUint. destruct (Nat.ltb_spec 16 (length s)), (Nat.leb_spec (length s) 16); try lia; [done|].
    change 0 with (4 * Z.of_nat 0) at 2. rewrite safe_hex_loop_spec by (rewrite ?length_rev; simpl; lia).
    rewrite Hrev, hex_value_rev. simpl. destruct (forallb is_hex s); [|done]. f_equal. lia.
  - intros Hh Hl. rewrite hex_value_rev. rewrite <- Hrev in Hh. pose proof (rev_value_range _ Hh) as Hr.
    rewrite length_rev in Hr. assert (16 ^ Z.of_nat (length s) ≤ 16 ^ 16) by (apply Z.pow_le_mono_r; lia).
    change u64_mod with (16 ^ 16). lia.
  - intros v. unfold SafeHexToUint, FastHexToUint. case_match; [done|]. apply fast_hex_loop_safe.
Qed.

(** ** Splitting loses nothing *)

Lemma search_le s d : (search s d ≤ length s)%nat.
Proof. induction s as [|c s IH]; simpl; case_decide; lia. Qed.
Lemma search_found s d : search s d ≠ length s → take (length d) (drop (search s d) s) = d.
Proof.
  induction s as [|c s IH]; cbn [search]; case_decide as E; [done|done|done|].
  intros H. simpl. apply IH. simpl in H. lia.
Qed.
Lemma search_fits s d : search s d ≠ length s → (search s d + length d ≤ length s)%nat.
Proof.
  intros H. apply search_found in H. pose proof (search_le s d).
  apply (f_equal length) in H. rewrite length_take, length_drop in H. lia.
Qed.

Lemma split_loop_concat fuel first n d :
  d ≠ [] → (n ≤ fuel)%nat → (n ≤ length first)%nat →
  concat (content <$> split_loop fuel first n d true) = take n first.
Proof.
  intros Hd. assert (0 < length d)%nat as Hdl by (destruct d; [done|simpl; lia]).
  revert first n. induction fuel as [|fuel IH]; intros first n Hn Hf; cbn [split_loop].
  { by replace n with 0%nat by lia. }
  case_decide as E; [by subst|]. cbn zeta. assert (length (take n first) = n) as Hlen by (rewrite length_take; lia).
  pose proof (search_fits (take n first) d) as Hfit. rewrite Hlen in Hfit.
  set (i := search (take n first) d) in *. case_bool_decide as Ei; cbn [negb andb fmap list_fmap concat].
  - rewrite decide_True by done. simpl. rewrite app_nil_r. unfold content. simpl. by rewrite Ei.
  - rewrite decide_False by done. rewrite IH by (rewrite ?length_drop; lia). unfold content. simpl.
    rewrite take_take_drop. f_equal. lia.
Qed.

(** With a delimiter, and keeping the delimiters, the pieces put together are
    the text. *)
Theorem split_keeps_the_text v d :
  d ≠ [] → (sv_size v ≤ length (sv_data v))%nat →
  concat (content <$> split v d true) = content v.
Proof. intros Hd Hv. by apply split_loop_concat. Qed.

(** ** Versions *)

Definition is_digit (c : ascii) : bool := (48 <=? code c) && (code c <=? 57).
Definition dec_value (v : Z) (s : cstring) : Z := fold_left (λ v c, v * 10 + (code c - 48)) s v.

Lemma code_range c : 0 ≤ code c < 256.
Proof. unfold code. pose proof (N_ascii_bounded c). lia. Qed.
Lemma digit_of_spec c : if is_digit c then digit_of c = code c - 48 ∧ digit_of c ≤ 9 else 9 < digit_of c.
Proof. destruct c as [[] [] [] [] [] [] [] []]; vm_compute; try split; congruence. Qed.

(** What ends a number. *)
Definition stops (s : cstring) : Prop := match s with [] => True | c :: _ => is_digit c = false end.

Lemma atoiu_loop_digits s rest v :
  forallb is_digit s = true → stops rest → atoiu_loop (s ++ rest) (wrap64 v) = wrap64 (dec_value v s).
Proof.
  revert v. induction s as [|c s IH]; intros v Hs Hr.
  { destruct rest as [|c rest]; [done|]. simpl in *. pose proof (digit_of_spec c) as Hd. rewrite Hr in Hd.
    destruct (Z.leb_spec (digit_of c) 9); [lia|done]. }
  simpl in Hs. apply andb_true_iff in Hs as [Hc Hs]. cbn [atoiu_loop app].
  pose proof (digit_of_spec c) as Hd. rewrite Hc in Hd. destruct Hd as [Hd Hle].
  destruct (Z.leb_spec (digit_of c) 9); [|lia]. rewrite Hd.
  change (dec_value v (c :: s)) with (dec_value (v * 10 + (code c - 48)) s). rewrite <- IH by done.
  f_equal. unfold wrap64. rewrite <- Zplus_mod_idemp_l, Zmult_mod_idemp_l, Zplus_mod_idemp_l. done.
Qed.

Lemma FastAtoiu_digits s rest :
  forallb is_digit s = true → stops rest → FastAtoiu (s ++ rest) = dec_value 0 s mod u64_mod.
Proof. intros Hs Hr. unfold FastAtoiu. change 0 with (wrap64 0) at 1. by apply atoiu_loop_digits. Qed.

(** [FastAtoiu] reads the decimal number at the front of a string, modulo
    2^64, and stops at the first other character. *)
Theorem FastAtoiu_correct s rest :
  forallb is_digit s = true → stops rest → FastAtoiu (s ++ rest) = dec_value 0 s mod u64_mod.
Proof. apply FastAtoiu_digits. Qed.

Lemma digit_not_dot s : forallb is_digit s = true → "."%char ∉ s.
Proof. rewrite forallb_forall. intros H Hin. apply list_elem_of_In, H in Hin. done. Qed.

(** A text without the first character of a delimiter does not contain it. *)
Lemma search_first c d s rest : c ∉ s → search (s ++ (c :: d) ++ rest) (c :: d) = length s.
Proof.
  induction s as [|x s IH]; intros Hn.
  - simpl. case_decide as E; [done|]. destruct E. f_equal. apply take_app_length.
  - cbn [search app length]. rewrite decide_False by (simpl; set_solver). f_equal. apply IH. set_solver.
Qed.
Lemma search_absent c d s : c ∉ s → search s (c :: d) = length s.
Proof.
  induction s as [|x s IH]; intros Hn; cbn [search length].
  - rewrite decide_False by done. done.
  - rewrite decide_False by (simpl; set_solver). rewrite IH by set_solver. done.
Qed.

(** The text in front of the first character of the needle is skipped. *)
Lemma search_skip c d s t : c ∉ s → search (s ++ t) (c :: d) = (length s + search t (c :: d))%nat.
Proof.
  induction s as [|x s IH]; intros Hn; [done|]. cbn [search app length].
  rewrite decide_False by (simpl; set_solver). rewrite IH by set_solver. done.
Qed.
(** [search] finds the first place. *)
Lemma search_min s d j : take (length d) (drop j s) = d → (search s d ≤ j)%nat.
Proof.
  revert j. induction s as [|c s IH]; intros j Hj; cbn [search].
  - case_decide; lia.
  - case_decide as E; [lia|]. destruct j as [|j]; [done|]. apply le_n_S, IH, Hj.
Qed.
(** A needle that is not complete in a part is not found there. *)
Lemma search_part a b d : (length a < search (a ++ b) d + length d)%nat → search a d = length a.
Proof.
  intros H. destruct (decide (search a d = length a)) as [E|E]; [done|]. exfalso.
  pose proof (search_found a d E) as Hf. pose proof (search_fits a d E).
  pose proof (search_min (a ++ b) d (search a d)) as Hm. rewrite drop_app_le, take_app_le in Hm by (rewrite ?length_drop; lia).
  specialize (Hm Hf). lia.
Qed.

(** What a split finds depends on the characters of the view alone. *)
Lemma split_loop_content fuel first rest n d b :
  (n ≤ length first)%nat →
  content <$> split_loop fuel (first ++ rest) n d b = content <$> split_loop fuel first n d b.
Proof.
  revert first n. induction fuel as [|fuel IH]; intros first n Hn; [done|]. cbn [split_loop].
  case_decide; [done|]. cbn zeta. rewrite (take_app_le first rest n) by lia.
  assert (length (take n first) = n) as Hl by (rewrite length_take; lia).
  pose proof (search_le (take n first) d) as Hle. pose proof (search_fits (take n first) d) as Hfit. rewrite Hl in *.
  set (i := search (take n first) d) in *. cbn [fmap list_fmap].
  assert (∀ e, (e ≤ n)%nat → content (mkView (first ++ rest) e) = content (mkView first e)) as He.
  { intros e H'. unfold content. cbn [sv_size sv_data]. apply take_app_le. lia. }
  f_equal.
  - destruct b; simpl; [|apply He; lia]. case_bool_decide; simpl; apply He; [lia|]. specialize (Hfit H0). lia.
  - case_decide; [done|]. specialize (Hfit H0). rewrite drop_app_le by lia. apply IH. rewrite length_drop. lia.
Qed.
Lemma split_view_content v d b :
  (sv_size v ≤ length (sv_data v))%nat → content <$> split v d b = content <$> split (view_of (content v)) d b.
Proof.
  destruct v as [data n]. cbn [sv_size sv_data]. intros Hv. unfold split, view_of.
  change (content (mkView data n)) with (take n data). cbn [sv_size sv_data].
  assert (length (take n data) = n) as E by (rewrite length_take; lia). rewrite E.
  pose proof (split_loop_content n (take n data) (drop n data) n d b) as H. rewrite take_drop in H. apply H. lia.
Qed.

(** Pieces that each end with the delimiter, one behind the other. *)
Definition terminated (d : cstring) (ps : list cstring) : cstring := concat ((.++ d) <$> ps).
(** The views of these pieces, with [tail] behind them in memory. *)
Fixpoint views (d : cstring) (ps : list cstring) (tail : cstring) : list string_view :=
  match ps with
  | [] => []
  | p :: ps' => mkView (terminated d ps ++ tail) (length p) :: views d ps' tail
  end.
Lemma terminated_cons d p ps : terminated d (p :: ps) = p ++ d ++ terminated d ps.
Proof. unfold terminated. simpl. by rewrite <- app_assoc. Qed.
Lemma terminated_app d ps qs : terminated d (ps ++ qs) = terminated d ps ++ terminated d qs.
Proof. unfold terminated. by rewrite fmap_app, concat_app. Qed.
Lemma views_app d ps qs tail : views d (ps ++ qs) tail = views d ps (terminated d qs ++ tail) ++ views d qs tail.
Proof.
  induction ps as [|p ps IH]; [done|]. change (p :: ps ++ qs) with ((p :: ps) ++ qs).
  cbn [app views]. rewrite IH. f_equal. f_equal.
  change (p :: ps ++ qs) with ((p :: ps) ++ qs). by rewrite terminated_app, <- app_assoc.
Qed.
Lemma content_views d ps tail : content <$> views d ps tail = ps.
Proof.
  induction ps as [|p ps IH]; [done|]. cbn [views fmap list_fmap]. rewrite IH. f_equal.
  unfold content. cbn [sv_size sv_data]. rewrite terminated_cons, <- !app_assoc. apply take_app_length.
Qed.

(** [d] is found behind [p] and not earlier. *)
Definition clean (d p : cstring) : Prop := ∀ more, search (p ++ d ++ more) d = length p.
Lemma clean_first c d p : c ∉ p → clean (c :: d) p.
Proof. intros H more. by apply search_first. Qed.

(** One turn of the loop at a piece that ends with the delimiter. *)
Lemma split_loop_piece fuel d p more rest :
  d ≠ [] → clean d p →
  split_loop (S fuel) (p ++ d ++ more ++ rest) (length p + (length d + length more)) d false =
  mkView (p ++ d ++ more ++ rest) (length p) :: split_loop fuel (more ++ rest) (length more) d false.
Proof.
  intros Hd Hp. assert (0 < length d)%nat by (destruct d; [done|simpl; lia]).
  cbn [split_loop]. rewrite decide_False by lia. cbn zeta.
  assert (take (length p + (length d + length more)) (p ++ d ++ more ++ rest) = p ++ d ++ more) as ->.
  { by rewrite take_app_add, take_app_add, take_app_length. }
  rewrite Hp. simpl (false && _). rewrite decide_False by lia. f_equal.
  rewrite (app_assoc p d), <- length_app, drop_app_length. f_equal. rewrite length_app. lia.
Qed.
Lemma split_loop_last fuel d p rest :
  p ≠ [] → search p d = length p → split_loop (S fuel) (p ++ rest) (length p) d false = [mkView (p ++ rest) (length p)].
Proof.
  intros Hne Hs. cbn [split_loop]. rewrite decide_False by (destruct p; [done|simpl; lia]). cbn zeta.
  rewrite take_app_length, Hs. simpl. by rewrite decide_True.
Qed.

Lemma split_loop_pieces fuel d ps more rest :
  d ≠ [] → Forall (clean d) ps → (length ps ≤ fuel)%nat →
  split_loop fuel (terminated d ps ++ more ++ rest) (length (terminated d ps ++ more)) d false =
  views d ps (more ++ rest) ++ split_loop (fuel - length ps) (more ++ rest) (length more) d false.
Proof.
  intros Hd Hps. revert fuel. induction Hps as [|p ps Hp Hps IH]; intros fuel Hf.
  { simpl. by rewrite Nat.sub_0_r. }
  destruct fuel as [|fuel]; [simpl in Hf; lia|]. cbn [views app length]. rewrite terminated_cons, <- !app_assoc.
  rewrite (app_assoc (terminated d ps) more rest), !length_app.
  rewrite <- (length_app (terminated d ps) more), split_loop_piece by done. rewrite <- app_assoc. f_equal.
  apply IH. simpl in Hf. lia.
Qed.

Lemma terminated_length d ps : d ≠ [] → (length ps ≤ length (terminated d ps))%nat.
Proof.
  intros Hd. assert (0 < length d)%nat by (destruct d; [done|simpl; lia]).
  induction ps as [|p ps IH]; [simpl; lia|]. rewrite terminated_cons, !length_app. simpl. lia.
Qed.

(** Splitting text that ends with the delimiter, and text that does not. *)
Lemma split_terminated d ps rest :
  d ≠ [] → Forall (clean d) ps →
  split (mkView (terminated d ps ++ rest) (length (terminated d ps))) d false = views d ps rest.
Proof.
  intros Hd Hps. unfold split. cbn [sv_size sv_data].
  pose proof (split_loop_pieces (length (terminated d ps)) d ps [] rest Hd Hps (terminated_length d ps Hd)) as H.
  rewrite app_nil_r in H. cbn [app length] in H. rewrite H.
  destruct (length (terminated d ps) - length ps)%nat; simpl; by rewrite app_nil_r.
Qed.
Lemma split_joined d ps p rest :
  d ≠ [] → Forall (clean d) ps → p ≠ [] → search p d = length p →
  split (mkView (terminated d ps ++ p ++ rest) (length (terminated d ps ++ p))) d false =
  views d ps (p ++ rest) ++ [mkView (p ++ rest) (length p)].
Proof.
  intros Hd Hps Hp Hs. unfold split. cbn [sv_size sv_data].
  pose proof (terminated_length d ps Hd). assert (1 ≤ length p)%nat by (destruct p; [done|simpl; lia]).
  rewrite split_loop_pieces by (done || rewrite length_app; lia). f_equal. rewrite length_app.
  destruct (length (terminated d ps) + length p - length ps)%nat eqn:E; [lia|]. by apply split_loop_last.
Qed.

Lemma split_joined_content d ps p :
  d ≠ [] → Forall (clean d) ps → p ≠ [] → search p d = length p →
  content <$> split (view_of (terminated d ps ++ p)) d false = ps ++ [p].
Proof.
  intros Hd Hps Hp Hs. pose proof (split_joined d ps p [] Hd Hps Hp Hs) as H. rewrite !app_nil_r in H.
  unfold view_of. rewrite H, fmap_app, content_views. simpl. f_equal. unfold content. simpl. by rewrite take_ge.
Qed.
Lemma views_in_bounds d ps tail v : v ∈ views d ps tail → (sv_size v ≤ length (sv_data v))%nat.
Proof.
  induction ps as [|p ps IH]; [set_solver|]. cbn [views]. intros [->|Hv]%elem_of_cons; [|by apply IH].
  cbn [sv_size sv_data]. rewrite terminated_cons, !length_app. lia.
Qed.

Lemma split_three a b c rest :
  forallb is_digit a = true → forallb is_digit b = true → forallb is_digit c = true → c ≠ [] →
  split (mkView (a ++ "."%char :: (b ++ "."%char :: c) ++ rest) (length a + S (length b + S (length c)))) ["."%char] false =
  [mkView (a ++ "."%char :: (b ++ "."%char :: c) ++ rest) (length a);
   mkView ((b ++ "."%char :: c) ++ rest) (length b); mkView (c ++ rest) (length c)].
Proof.
  intros Ha Hb Hc Nc.
  assert (terminated ["."%char] [a; b] = a ++ "."%char :: b ++ ["."%char]) as E
    by (rewrite !terminated_cons; simpl; done).
  pose proof (split_joined ["."%char] [a; b] c rest ltac:(done)) as H. cbn [views app] in H.
  rewrite terminated_cons, (terminated_cons _ b) in H. cbn [terminated fmap list_fmap concat app] in H.
  rewrite ?length_app in H. cbn [length] in H. rewrite ?length_app in H. cbn [length] in H.
  replace (length a + S (length b + 1) + length c)%nat with (length a + S (length b + S (length c)))%nat in H by lia.
  rewrite <- ?app_assoc in *. cbn [app] in *. rewrite <- ?app_assoc in H. cbn [app] in H. apply H; [|done|].
  - repeat constructor; by apply clean_first, digit_not_dot.
  - by apply search_absent, digit_not_dot.
Qed.

(** Three numbers with dots between them, and something else behind. *)
Lemma parse_three a b c rest :
  forallb is_digit a = true → forallb is_digit b = true → forallb is_digit c = true →
  a ≠ [] → b ≠ [] → c ≠ [] → stops rest →
  parseStringAsVersion (mkView (a ++ "."%char :: (b ++ "."%char :: c) ++ rest) (length a + S (length b + S (length c)))) =
  Some (mkVersion (dec_value 0 a mod u64_mod) (dec_value 0 b mod u64_mod) (dec_value 0 c mod u64_mod)).
Proof.
  intros Ha Hb Hc Na Nb Nc Hr. unfold parseStringAsVersion.
  assert (content (mkView (a ++ "."%char :: (b ++ "."%char :: c) ++ rest) (length a + S (length b + S (length c)))) =
    a ++ "."%char :: b ++ "."%char :: c) as ->.
  { unfold content. simpl. rewrite take_app_add. simpl. do 2 f_equal.
    replace (length b + S (length c))%nat with (length (b ++ "."%char :: c)) by (by rewrite length_app).
    apply take_app_length. }
  assert (∀ s : cstring, s ≠ [] → 1 ≤ length s)%nat as Hl by (intros [|? ?]; [done|simpl; lia]).
  pose proof (Hl a Na). pose proof (Hl b Nb). pose proof (Hl c Nc).
  assert (length (a ++ "."%char :: b ++ "."%char :: c) = length a + S (length b + S (length c)))%nat as Hlen
    by (rewrite length_app; simpl; rewrite length_app; done).
  rewrite Hlen. destruct (Nat.ltb_spec (length a + S (length b + S (length c))) 5); [lia|].
  assert (∀ s, forallb is_digit s = true → forallb version_letter s = true) as Hv.
  { intros s. rewrite !forallb_forall. intros Hd x Hx. unfold version_letter. specialize (Hd x Hx).
    unfold is_digit in Hd. by rewrite Hd. }
  assert (forallb version_letter (a ++ "."%char :: b ++ "."%char :: c) = true) as ->.
  { rewrite forallb_app. cbn [forallb]. rewrite forallb_app. cbn [forallb]. rewrite !Hv by done. done. }
  cbn [negb]. rewrite bool_decide_false.
  2:{ intros E. apply (digit_not_dot c Hc). rewrite last_app_cons, last_cons, last_app_cons, last_cons in E.
      destruct (last c) as [x|] eqn:El; [|by apply last_None in El]. injection E as ->.
      by apply last_Some_elem_of in El. }
  rewrite split_three by done. unfold stops in Hr. simpl. f_equal. f_equal.
  - by apply (FastAtoiu_digits a).
  - rewrite <- app_assoc. by apply (FastAtoiu_digits b).
  - by apply (FastAtoiu_digits c).
Qed.

Section roundtrip.
Context (fmt_uint : Z → cstring).
(** fmt prints a [uint64_t] as its decimal digits. *)
Definition prints_decimal : Prop :=
  ∀ n, 0 ≤ n < u64_mod →
    fmt_uint n ≠ [] ∧ forallb is_digit (fmt_uint n) = true ∧ dec_value 0 (fmt_uint n) = n.

(** The members are [uint64_t]s. *)
Definition version_ok (v : Version) : Prop :=
  0 ≤ major v < u64_mod ∧ 0 ≤ minor v < u64_mod ∧ 0 ≤ patch v < u64_mod.

(** Parsing what [toString] printed gives the version back, for all versions
    of 64-bit numbers. *)
Theorem version_roundtrip v :
  prints_decimal → version_ok v → parseStringAsVersion (view_of (toString fmt_uint v)) = Some v.
Proof.
  intros Hfmt (H1 & H2 & H3). destruct v as [a b c]. simpl in *.
  destruct (Hfmt a H1) as (Na & Da & Va), (Hfmt b H2) as (Nb & Db & Vb), (Hfmt c H3) as (Nc & Dc & Vc).
  pose proof (parse_three (fmt_uint a) (fmt_uint b) (fmt_uint c) [] Da Db Dc Na Nb Nc I) as Hp.
  rewrite Va, Vb, Vc, !Z.mod_small, app_nil_r in Hp by done. rewrite <- Hp. f_equal.
  unfold view_of, toString. simpl. f_equal. rewrite length_app. simpl. by rewrite length_app.
Qed.
End roundtrip.

(** ** A printer, and the properties at concrete strings *)

Fixpoint decimal_loop (fuel : nat) (n : Z) (acc : cstring) : cstring :=
  let acc' := ascii_of_N (Z.to_N (48 + n mod 10)) :: acc in
  match fuel with
  | O => acc'
  | S fuel' => if n <? 10 then acc' else decimal_loop fuel' (n / 10) acc'
  end.
Definition decimal (n : Z) : cstring := decimal_loop 20 n [].

Lemma code_digit n : 0 ≤ n < 10 → code (ascii_of_N (Z.to_N (48 + n))) = 48 + n.
Proof. intros Hn. unfold code. rewrite N_ascii_embedding by lia. lia. Qed.

Lemma decimal_loop_spec fuel n acc :
  0 ≤ n < 10 ^ Z.of_nat fuel * 10 → forallb is_digit acc = true →
  decimal_loop fuel n acc ≠ [] ∧ forallb is_digit (decimal_loop fuel n acc) = true ∧
  dec_value 0 (decimal_loop fuel n acc) = dec_value n acc.
Proof.
  revert n acc. induction fuel as [|fuel IH]; intros n acc Hn Hacc; cbn [decimal_loop].
  all: pose proof (Z.mod_pos_bound n 10 ltac:(lia)) as Hm; pose proof (code_digit (n mod 10) Hm) as Hc;
    set (c := ascii_of_N _) in *;
    assert (forallb is_digit (c :: acc) = true) as Hd
      by (cbn [forallb]; unfold is_digit at 1; rewrite Hc, Hacc; lia).
  - assert (dec_value 0 (c :: acc) = dec_value n acc) as E.
    { unfold dec_value. cbn [fold_left]. rewrite Hc, Z.mod_small by (simpl in Hn; lia). f_equal. lia. }
    done.
  - destruct (Z.ltb_spec n 10).
    + split_and!; [done..|]. unfold dec_value. cbn [fold_left]. rewrite Hc, Z.mod_small by lia. f_equal. lia.
    + destruct (IH (n / 10) (c :: acc)) as (I1 & I2 & I3); [|done|].
      { rewrite Nat2Z.inj_succ, Z.pow_succ_r in Hn by lia. split; [apply Z.div_pos; lia|].
        apply Z.div_lt_upper_bound; lia. }
      split_and!; [done..|]. rewrite I3. unfold dec_value. cbn [fold_left]. rewrite Hc. f_equal.
      pose proof (Z.div_mod n 10 ltac:(lia)). lia.
Qed.

Lemma decimal_prints : prints_decimal decimal.
Proof.
  intros n Hn. apply (decimal_loop_spec 20 n []); [|done]. unfold u64_mod in Hn. simpl. lia.
Qed.

Lemma version_roundtrip_witness :
  parseStringAsVersion (view_of (toString decimal (mkVersion 1 0 18446744073709551615))) =
  Some (mkVersion 1 0 18446744073709551615).
Proof.
  apply (version_roundtrip decimal (mkVersion 1 0 18446744073709551615)).
  - exact decimal_prints.
  - unfold version_ok, u64_mod. simpl. lia.
Defined.

Lemma FastAtoiu_correct_witness : FastAtoiu (str "18446744073709551617" ++ str ".5") = 18446744073709551617 mod u64_mod.
Proof. apply (FastAtoiu_correct (str "18446744073709551617") (str ".5")); vm_compute; reflexivity. Defined.

Lemma split_keeps_the_text_witness :
  length (split (view_of (str "a.b..c")) (str ".") true) = 4%nat ∧
  concat (content <$> split (view_of (str "a.b..c")) (str ".") true) = str "a.b..c".
Proof.
  split; [vm_compute; reflexivity|].
  apply (split_keeps_the_text (view_of (str "a.b..c")) (str ".")); [discriminate|]. simpl. lia.
Defined.

(** A version is read past the end of its view, up to the next character that
    is no digit; and a missing number counts as 0. *)
Theorem version_reads_past_its_view :
  content (mkView (str "1.2.345") 5) = str "1.2.3" ∧
  parseStringAsVersion (mkView (str "1.2.345") 5) = Some (mkVersion 1 2 345) ∧
  parseStringAsVersion (view_of (str "1..23")) = Some (mkVersion 1 0 23).
Proof. split_and!; reflexivity. Qed.
