(* ===== verification/HttpCommon.v ===== *)
(** * HTTP: methods, statuses, messages

    include/ichor/services/network/http/HttpCommon.h and HttpInternal.h,
    src/services/network/http/HttpInternal.cpp: the enumerations, the three tables
    and the messages that the server ([HttpHost.v]) and the client
    ([HttpConnection.v]) share, and the text that both put on the wire and take
    apart again: lines that end with CR LF, headers as "key: value". *)

From Stdlib Require Import Ascii String.
From stdpp Require Import base list sets strings.
From Stdlib Require Import ZArith Lia.
From S2P Require Import Prelude.
From S2P Require Import DenseMap.
From S2P Require Import StringUtils.

Open Scope Z_scope.

Module HttpMethod.
Inductive t : Type :=
  | unknown | delete_ | get | head | post | put | connect | options | trace | copy | lock | mkcol | move
  | propfind | proppatch | search | unlock | bind | rebind | unbind | acl | report | mkactivity | checkout
  | merge | msearch | notify | subscribe | unsubscribe | patch | purge | mkcalendar | link | unlink.
#[global] Instance t_eq_dec : EqDecision t.
Proof. solve_decision. Defined.
End HttpMethod.
Notation HttpMethod := HttpMethod.t.

(** The named values of the enumeration.  A [HttpStatus] itself may be any number:
    the client casts what it read. *)
Module StatusName.
Inductive t : Type :=
  | continue_ | switching_protocols | processing | ok | created | accepted | non_authoritative_information
  | no_content | reset_content | partial_content | multi_status | already_reported | im_used
  | multiple_choices | moved_permanently | found | see_other | not_modified | use_proxy
  | temporary_redirect | permanent_redirect | bad_request | unauthorized | payment_required | forbidden
  | not_found | method_not_allowed | not_acceptable | proxy_authentication_required | request_timeout
  | conflict | gone | length_required | precondition_failed | payload_too_large | uri_too_long
  | unsupported_media_type | range_not_satisfiable | expectation_failed | misdirected_request
  | unprocessable_entity | locked | failed_dependency | upgrade_required | precondition_required
  | too_many_requests | request_header_fields_too_large | connection_closed_without_response
  | unavailable_for_legal_reasons | client_closed_request | internal_server_error | not_implemented
  | bad_gateway | service_unavailable | gateway_timeout | http_version_not_supported
  | variant_also_negotiates | insufficient_storage | loop_detected | not_extended
  | network_authentication_required | network_connect_timeout_error.
End StatusName.
Definition HttpStatus : Type := Z.
Definition status_code (s : StatusName.t) : HttpStatus :=
  match s with
  | StatusName.continue_ => 100
  | StatusName.switching_protocols => 101
  | StatusName.processing => 102
  | StatusName.ok => 200
  | StatusName.created => 201
  | StatusName.accepted => 202
  | StatusName.non_authoritative_information => 203
  | StatusName.no_content => 204
  | StatusName.reset_content => 205
  | StatusName.partial_content => 206
  | StatusName.multi_status => 207
  | StatusName.already_reported => 208
  | StatusName.im_used => 226
  | StatusName.multiple_choices => 300
  | StatusName.moved_permanently => 301
  | StatusName.found => 302
  | StatusName.see_other => 303
  | StatusName.not_modified => 304
  | StatusName.use_proxy => 305
  | StatusName.temporary_redirect => 307
  | StatusName.permanent_redirect => 308
  | StatusName.bad_request => 400
  | StatusName.unauthorized => 401
  | StatusName.payment_required => 402
  | StatusName.forbidden => 403
  | StatusName.not_found => 404
  | StatusName.method_not_allowed => 405
  | StatusName.not_acceptable => 406
  | StatusName.proxy_authentication_required => 407
  | StatusName.request_timeout => 408
  | StatusName.conflict => 409
  | StatusName.gone => 410
  | StatusName.length_required => 411
  | StatusName.precondition_failed => 412
  | StatusName.payload_too_large => 413
  | StatusName.uri_too_long => 414
  | StatusName.unsupported_media_type => 415
  | StatusName.range_not_satisfiable => 416
  | StatusName.expectation_failed => 417
  | StatusName.misdirected_request => 421
  | StatusName.unprocessable_entity => 422
  | StatusName.locked => 423
  | StatusName.failed_dependency => 424
  | StatusName.upgrade_required => 426
  | StatusName.precondition_required => 428
  | StatusName.too_many_requests => 429
  | StatusName.request_header_fields_too_large => 431
  | StatusName.connection_closed_without_response => 444
  | StatusName.unavailable_for_legal_reasons => 451
  | StatusName.client_closed_request => 499
  | StatusName.internal_server_error => 500
  | StatusName.not_implemented => 501
  | StatusName.bad_gateway => 502
  | StatusName.service_unavailable => 503
  | StatusName.gateway_timeout => 504
  | StatusName.http_version_not_supported => 505
  | StatusName.variant_also_negotiates => 506
  | StatusName.insufficient_storage => 507
  | StatusName.loop_detected => 508
  | StatusName.not_extended => 510
  | StatusName.network_authentication_required => 511
  | StatusName.network_connect_timeout_error => 599
  end.

Definition ICHOR_METHOD_MATCHING : list (cstring * HttpMethod) :=
  [ (str "DELETE", HttpMethod.delete_);
    (str "GET", HttpMethod.get);
    (str "HEAD", HttpMethod.head);
    (str "POST", HttpMethod.post);
    (str "PUT", HttpMethod.put);
    (str "CONNECT", HttpMethod.connect);
    (str "OPTIONS", HttpMethod.options);
    (str "TRACE", HttpMethod.trace);
    (str "COPY", HttpMethod.copy);
    (str "LOCK", HttpMethod.lock);
    (str "MKCOL", HttpMethod.mkcol);
    (str "MOVE", HttpMethod.move);
    (str "PROPFIND", HttpMethod.propfind);
    (str "PROPPATCH", HttpMethod.proppatch);
    (str "SEARCH", HttpMethod.search);
    (str "UNLOCK", HttpMethod.unlock);
    (str "BIND", HttpMethod.bind);
    (str "REBIND", HttpMethod.rebind);
    (str "UNBIND", HttpMethod.unbind);
    (str "ACL", HttpMethod.acl);
    (str "REPORT", HttpMethod.report);
    (str "MKACTIVITY", HttpMethod.mkactivity);
    (str "CHECKOUT", HttpMethod.checkout);
    (str "MERGE", HttpMethod.merge);
    (str "MSEARCH", HttpMethod.msearch);
    (str "NOTIFY", HttpMethod.notify);
    (str "SUBSCRIBE", HttpMethod.subscribe);
    (str "UNSUBSCRIBE", HttpMethod.unsubscribe);
    (str "PATCH", HttpMethod.patch);
    (str "PURGE", HttpMethod.purge);
    (str "MKCALENDAR", HttpMethod.mkcalendar);
    (str "LINK", HttpMethod.link);
    (str "UNLINK", HttpMethod.unlink) ].
Definition ICHOR_REVERSE_METHOD_MATCHING : list (HttpMethod * cstring) :=
  [ (HttpMethod.delete_, str "DELETE");
    (HttpMethod.get, str "GET");
    (HttpMethod.head, str "HEAD");
    (HttpMethod.post, str "POST");
    (HttpMethod.put, str "PUT");
    (HttpMethod.connect, str "CONNECT");
    (HttpMethod.options, str "OPTIONS");
    (HttpMethod.trace, str "TRACE");
    (HttpMethod.copy, str "COPY");
    (HttpMethod.lock, str "LOCK");
    (HttpMethod.mkcol, str "MKCOL");
    (HttpMethod.move, str "MOVE");
    (HttpMethod.propfind, str "PROPFIND");
    (HttpMethod.proppatch, str "PROPPATCH");
    (HttpMethod.search, str "SEARCH");
    (HttpMethod.unlock, str "UNLOCK");
    (HttpMethod.bind, str "BIND");
    (HttpMethod.rebind, str "REBIND");
    (HttpMethod.unbind, str "UNBIND");
    (HttpMethod.acl, str "ACL");
    (HttpMethod.report, str "REPORT");
    (HttpMethod.mkactivity, str "MKACTIVITY");
    (HttpMethod.checkout, str "CHECKOUT");
    (HttpMethod.merge, str "MERGE");
    (HttpMethod.msearch, str "MSEARCH");
    (HttpMethod.notify, str "NOTIFY");
    (HttpMethod.subscribe, str "SUBSCRIBE");
    (HttpMethod.unsubscribe, str "UNSUBSCRIBE");
    (HttpMethod.patch, str "PATCH");
    (HttpMethod.purge, str "PURGE");
    (HttpMethod.mkcalendar, str "MKCALENDAR");
    (HttpMethod.link, str "LINK");
    (HttpMethod.unlink, str "UNLINK") ].
Definition ICHOR_STATUS_MATCHING : list (HttpStatus * cstring) :=
  [ (status_code StatusName.continue_, str "Continue");
    (status_code StatusName.switching_protocols, str "Switching Protocols");
    (status_code StatusName.processing, str "Processing");
    (status_code StatusName.ok, str "OK");
    (status_code StatusName.created, str "Created");
    (status_code StatusName.accepted, str "Accepted");
    (status_code StatusName.non_authoritative_information, str "Non Authoritative Information");
    (status_code StatusName.no_content, str "No Content");
    (status_code StatusName.reset_content, str "Reset Content");
    (status_code StatusName.partial_content, str "Partial Content");
    (status_code StatusName.multi_status, str "Multi Status");
    (status_code StatusName.already_reported, str "Already Reported");
    (status_code StatusName.im_used, str "IM Used");
    (status_code StatusName.multiple_choices, str "Multiple Choices");
    (status_code StatusName.moved_permanently, str "Moved Permanently");
    (status_code StatusName.found, str "Found");
    (status_code StatusName.see_other, str "See Other");
    (status_code StatusName.not_modified, str "Not Modified");
    (status_code StatusName.use_proxy, str "Use Proxy");
    (status_code StatusName.temporary_redirect, str "Temporary Redirect");
    (status_code StatusName.permanent_redirect, str "Permanent Redirect");
    (status_code StatusName.bad_request, str "Bad Request");
    (status_code StatusName.unauthorized, str "Unauthorized");
    (status_code StatusName.payment_required, str "Payment Required");
    (status_code StatusName.forbidden, str "Forbidden");
    (status_code StatusName.not_found, str "Not Found");
    (status_code StatusName.method_not_allowed, str "Method Not Allowed");
    (status_code StatusName.not_acceptable, str "Not Acceptable");
    (status_code StatusName.proxy_authentication_required, str "Proxy Authentication Required");
    (status_code StatusName.request_timeout, str "Request Timeout");
    (status_code StatusName.conflict, str "Conflict");
    (status_code StatusName.gone, str "Gone");
    (status_code StatusName.length_required, str "Length Required");
    (status_code StatusName.precondition_failed, str "Precondition Failed");
    (status_code StatusName.payload_too_large, str "Payload Too Large");
    (status_code StatusName.uri_too_long, str "URI Too Long");
    (status_code StatusName.unsupported_media_type, str "Unsupported Media Type");
    (status_code StatusName.range_not_satisfiable, str "Range Not Satisfiable");
    (status_code StatusName.expectation_failed, str "Expectation Failed");
    (status_code StatusName.misdirected_request, str "Misdirected Request");
    (status_code StatusName.unprocessable_entity, str "Unprocessable Entity");
    (status_code StatusName.locked, str "Locked");
    (status_code StatusName.failed_dependency, str "Failed Dependency");
    (status_code StatusName.upgrade_required, str "Upgrade Required");
    (status_code StatusName.precondition_required, str "Precondition Required");
    (status_code StatusName.too_many_requests, str "Too Many Requests");
    (status_code StatusName.request_header_fields_too_large, str "Request Header Fields Too Large");
    (status_code StatusName.connection_closed_without_response, str "Connection Closed Without Response");
    (status_code StatusName.unavailable_for_legal_reasons, str "Unavailable For Legal Reasons");
    (status_code StatusName.client_closed_request, str "Client Closed Request");
    (status_code StatusName.internal_server_error, str "Internal Server Error");
    (status_code StatusName.not_implemented, str "Not Implemented");
    (status_code StatusName.bad_gateway, str "Bad Gateway");
    (status_code StatusName.service_unavailable, str "Service Unavailable");
    (status_code StatusName.gateway_timeout, str "Gateway Timeout");
    (status_code StatusName.http_version_not_supported, str "HTTP Version Not Supported");
    (status_code StatusName.variant_also_negotiates, str "Variant Also Negotiates");
    (status_code StatusName.insufficient_storage, str "Insufficient Storage");
    (status_code StatusName.loop_detected, str "Loop Detected");
    (status_code StatusName.not_extended, str "Not Extended");
    (status_code StatusName.network_authentication_required, str "Network Authentication Required");
    (status_code StatusName.network_connect_timeout_error, str "Network Connect Timeout Error") ].
Definition ICHOR_HTTP_VERSION_MATCH : cstring := str "HTTP/1.1".

Inductive HttpParseError : Type :=
  | NONE | BADREQUEST | WRONGHTTPVERSION | QUITTING | BUFFEROVERFLOW | INCOMPLETEREQUEST | CHUNKED.
#[export] Instance HttpParseError_eq_dec : EqDecision HttpParseError.
Proof. solve_decision. Defined.

(** [unordered_map<std::string, std::string>], entries in the order of iteration. *)
Definition Headers : Type := list (cstring * cstring).

Record HttpRequest := mkRequest {
  rq_body : cstring; rq_method : HttpMethod; rq_route : cstring; rq_regex_params : list cstring;
  rq_address : cstring; rq_headers : Headers }.
Record HttpResponse := mkResponse {
  rs_status : HttpStatus; rs_contentType : option cstring; rs_body : cstring; rs_headers : Headers }.

(** ** What the parsers share *)

Definition CR : ascii := ascii_of_nat 13.
Definition LF : ascii := ascii_of_nat 10.
Definition CRLF : cstring := [CR; LF].
Definition COLON : cstring := [":"%char; " "%char].
Definition SP : cstring := [" "%char].
(** The byte the parsers put behind a body. *)
Definition NUL : ascii := ascii_of_nat 0.

(** [std::string_view::find]: [None] is [npos]. *)
Definition sv_find (s needle : cstring) : option nat :=
  let i := search s needle in
  if decide (i = length s ∧ needle ≠ []) then None else Some i.
(** [find] from a position on. *)
Definition sv_find_from (s needle : cstring) (pos : nat) : option nat :=
  if (length s <? pos)%nat then None else Nat.add pos <$> sv_find (drop pos s) needle.

(** What a parser ends with: a message, an error for the caller, the exception
    [std::length_error], or a read outside of the buffer. *)
Inductive parsed (A : Type) : Type :=
  | Parsed (a : A)
  | ParseFailed (e : HttpParseError)
  | LengthError
  | Outside.
Arguments Parsed {A}. Arguments ParseFailed {A}. Arguments LengthError {A}. Arguments Outside {A}.

(** How the code around a parser can end other than by returning. *)
Inductive failure : Type :=
  | LengthErrorThrown | ReadOutside | ProgramTerminated
  | IteratorInvalidated   (* a container is changed while a range-for walks over it *)
  | OutOfFuel.            (* the loop was not followed any further *)
Inductive ran (A : Type) : Type :=
  | Ran (a : A)
  | Failed (f : failure).
Arguments Ran {A}. Arguments Failed {A}.

(** [std::vector<uint8_t>::max_size()] *)
Definition vector_max : Z := 2 ^ 63 - 1.

(** The body of a message: a view of [contentLength] bytes behind position [len] is
    copied, a NUL is put behind it. *)
Definition take_body (complete : cstring) (len : nat) (contentLength : Z) : parsed cstring :=
  if vector_max <? wrap64 (contentLength + 1) then LengthError
  else if vector_max <? contentLength then LengthError
  else if Z.of_nat (length complete) <? Z.of_nat len + contentLength then Outside
  else Parsed (take (Z.to_nat contentLength) (drop len complete) ++ [NUL]).

(** What ends the headers of a message. *)
Definition header_end : cstring := CRLF ++ CRLF.

(** The most that a connection buffers. *)
Definition buffer_limit : Z := 1024 * 1024 * 512.

(** A header as both sides write it. *)
Definition render_header (kv : cstring * cstring) : cstring := kv.1 ++ COLON ++ kv.2 ++ CRLF.
Definition render_headers (hs : Headers) : cstring := concat (render_header <$> hs).
