(* ===== verification/HttpText.v ===== *)
(** * HTTP: the text of messages

    Lemmas on the text that requests and responses have in common: a head of lines
    that end with CR LF and an empty line, where it ends, and what the parsers see
    of it.  The empty line is found where it is, whatever follows, and it is not
    found before it has arrived completely. *)

From Stdlib Require Import Ascii String.
From stdpp Require Import base list sets strings.
From Stdlib Require Import ZArith Lia.
From S2P Require Import Prelude.
From S2P Require Import DenseMap.
From S2P Require Import StringUtils.
From S2P Require Import HttpCommon.

Open Scope Z_scope.

Lemma CRLF_ne : CRLF ≠ []. Proof. done. Qed.
Lemma COLON_ne : COLON ≠ []. Proof. done. Qed.
Lemma SP_ne : SP ≠ []. Proof. done. Qed.
#[export] Hint Resolve CRLF_ne COLON_ne SP_ne : ichor.

(** A line of a head: not empty, and without CR. *)
Definition line_ok (l : cstring) : Prop := l ≠ [] ∧ CR ∉ l.
(** A head of these lines: each ended by CR LF, then an empty line. *)
Definition head_of (lines : list cstring) : cstring := terminated CRLF (lines ++ [[]]).

Lemma head_of_eq lines : head_of lines = terminated CRLF lines ++ CRLF.
Proof. unfold head_of. by rewrite terminated_app. Qed.
Lemma lines_clean lines : Forall line_ok lines → Forall (clean CRLF) (lines ++ [[]]).
Proof.
  intros H. apply Forall_app_2; [|by repeat constructor].
  eapply Forall_impl; [exact H|]. intros l [_ Hl]. by apply clean_first.
Qed.

Lemma search_head lines rest :
  lines ≠ [] → Forall line_ok lines →
  search (terminated CRLF lines ++ CRLF ++ rest) header_end = (length (terminated CRLF lines) - 2)%nat.
Proof.
  intros Hne H. induction H as [|l lines [Hl1 Hl2] H IH]; [done|].
  rewrite terminated_cons, <- !app_assoc. change header_end with (CR :: LF :: CRLF).
  rewrite search_skip by done. destruct lines as [|l' lines].
  - rewrite !length_app. change (search _ _) with 0%nat. simpl. lia.
  - specialize (IH ltac:(done)). inversion H as [|? ? [Hl'1 Hl'2] _]; subst.
    destruct l' as [|x l']; [done|]. rewrite !length_app.
    assert (2 ≤ length (terminated CRLF ((x :: l') :: lines)))%nat by (rewrite terminated_cons, !length_app; simpl; lia).
    rewrite terminated_cons in *. cbn [app] in *. unfold CRLF at 1. cbn [app].
    cbn [search]. rewrite decide_False by (simpl; intros [=]; set_solver).
    rewrite decide_False by (simpl; intros [=]). change (CR :: LF :: CRLF) with header_end.
    change (if decide _ then 0%nat else S (search _ header_end)) with
      (search (x :: (l' ++ CRLF ++ terminated CRLF lines) ++ CRLF ++ rest) header_end).
    rewrite IH. simpl in *. lia.
Qed.

Lemma head_length lines : lines ≠ [] → (4 ≤ length (head_of lines))%nat.
Proof.
  intros H. rewrite head_of_eq, length_app. pose proof (terminated_length CRLF lines ltac:(done)).
  destruct lines as [|l ls]; [done|]. rewrite terminated_cons, !length_app. simpl. lia.
Qed.

(** The end of the head is found. *)
Lemma find_head lines rest :
  lines ≠ [] → Forall line_ok lines →
  ∃ p, sv_find (head_of lines ++ rest) header_end = Some p ∧ (p + 4)%nat = length (head_of lines).
Proof.
  intros Hne H. exists (length (head_of lines) - 4)%nat. pose proof (head_length lines Hne). split; [|lia].
  unfold sv_find. rewrite head_of_eq, <- app_assoc, search_head by done. rewrite head_of_eq, length_app in H0.
  rewrite length_app. cbn [length CRLF] in *. rewrite decide_False.
  - f_equal. rewrite length_app. simpl. lia.
  - intros [E _]. rewrite length_app in E. simpl in E. lia.
Qed.
(** It is not found while a part of it is missing. *)
Lemma find_part lines part more :
  lines ≠ [] → Forall line_ok lines → part ++ more = head_of lines → more ≠ [] → sv_find part header_end = None.
Proof.
  intros Hne H E Hm. unfold sv_find. rewrite decide_True; [done|]. split; [|done].
  apply (search_part part more). rewrite E. pose proof (search_head lines [] Hne H) as Hs. rewrite app_nil_r in Hs.
  rewrite head_of_eq at 1. rewrite Hs. apply (f_equal length) in E. rewrite head_of_eq, !length_app in E.
  assert (1 ≤ length more)%nat by (destruct more; [done|simpl; lia]).
  assert (2 ≤ length (terminated CRLF lines))%nat.
  { destruct lines as [|l ls]; [done|]. rewrite terminated_cons, !length_app. simpl. lia. }
  simpl in *. lia.
Qed.

(** A parser that only looks at the characters of its lines, from some state on,
    sees the lines. *)
Lemma fold_views {S} (P : S → Prop) (f : S → string_view → S) vs s :
  (∀ v, v ∈ vs → (sv_size v ≤ length (sv_data v))%nat) → P s →
  (∀ s v, P s → P (f s v)) →
  (∀ s v, P s → (sv_size v ≤ length (sv_data v))%nat → f s v = f s (view_of (content v))) →
  fold_left f vs s = fold_left f (view_of <$> (content <$> vs)) s.
Proof.
  intros Hb Hs HP Hf. revert s Hs. induction vs as [|v vs IH]; intros s Hs; [done|]. cbn [fold_left fmap list_fmap].
  rewrite (Hf s v) by (done || apply Hb; set_solver). apply IH; [set_solver|]. by apply HP.
Qed.
Lemma split_head lines rest :
  Forall line_ok lines →
  split (mkView (head_of lines ++ rest) (length (head_of lines))) CRLF false = views CRLF (lines ++ [[]]) rest.
Proof. intros H. apply split_terminated; [done|by apply lines_clean]. Qed.
Lemma fold_lines {S} (f : S → string_view → S) lines rest s :
  Forall line_ok lines →
  (∀ s v, (sv_size v ≤ length (sv_data v))%nat → f s v = f s (view_of (content v))) →
  fold_left f (split (mkView (head_of lines ++ rest) (length (head_of lines))) CRLF false) s =
  fold_left f (view_of <$> lines ++ [[]]) s.
Proof.
  intros H Hf. rewrite split_head by done.
  rewrite (fold_views (λ _, True)); [by rewrite content_views|apply views_in_bounds|done|done|auto].
Qed.

(** ** Header lines *)

(** A key and a value that a header line can carry. *)
Definition header_ok (kv : cstring * cstring) : Prop :=
  ":"%char ∉ kv.1 ∧ CR ∉ kv.1 ∧ kv.2 ≠ [] ∧ CR ∉ kv.2 ∧ search kv.2 COLON = length kv.2.
#[export] Instance header_ok_dec kv : Decision (header_ok kv).
Proof. unfold header_ok. apply _. Defined.

Definition header_text (kv : cstring * cstring) : cstring := kv.1 ++ COLON ++ kv.2.

Lemma header_words kv : header_ok kv → content <$> split (view_of (header_text kv)) COLON false = [kv.1; kv.2].
Proof.
  intros (Hk & _ & Hv & _ & Hs). unfold header_text.
  change (kv.1 ++ COLON ++ kv.2) with (kv.1 ++ COLON ++ [] ++ kv.2). rewrite (app_assoc COLON), (app_assoc kv.1).
  change (kv.1 ++ COLON ++ []) with (kv.1 ++ COLON ++ terminated COLON []). rewrite <- terminated_cons.
  apply (split_joined_content COLON [kv.1] kv.2); [done|by repeat constructor; apply clean_first|done|done].
Qed.
Lemma header_line_ok kv : header_ok kv → line_ok (header_text kv).
Proof.
  intros (Hk & Hk' & Hv & Hv' & _). unfold header_text. split; [by destruct (kv.1)|].
  rewrite !elem_of_app. intros [?|[H|?]]; [done| |done]. unfold COLON in H. set_solver.
Qed.
Lemma render_headers_terminated hs : render_headers hs = terminated CRLF (header_text <$> hs).
Proof.
  unfold render_headers, terminated, render_header, header_text. rewrite <- list_fmap_compose. f_equal.
  apply list_fmap_ext. intros i kv _. simpl. by rewrite <- !app_assoc.
Qed.

(** Adding headers with new keys one by one. *)
Lemma demplace_fresh k v (hs : Headers) : k ∉ dkeys hs → demplace k v hs = hs ++ [(k, v)].
Proof. intros H. unfold demplace. apply dfind_None in H. by rewrite H. Qed.

(** ** The body *)

Lemma vector_max_lt : vector_max < u64_mod. Proof. done. Qed.

Lemma take_body_complete head body rest :
  Z.of_nat (length body) < vector_max →
  take_body (head ++ body ++ rest) (length head) (Z.of_nat (length body)) = Parsed (body ++ [NUL]).
Proof.
  intros H. unfold take_body. rewrite wrap64_small by (pose proof vector_max_lt; lia).
  destruct (Z.ltb_spec vector_max (Z.of_nat (length body) + 1)); [lia|].
  destruct (Z.ltb_spec vector_max (Z.of_nat (length body))); [lia|]. rewrite !length_app.
  destruct (Z.ltb_spec (Z.of_nat (length head + (length body + length rest))) (Z.of_nat (length head) + Z.of_nat (length body)));
    [lia|]. by rewrite Nat2Z.id, drop_app_length, take_app_length.
Qed.

(** Decimal numbers as the value of a header. *)
Lemma decimal_value (fmt_uint : Z → cstring) n :
  prints_decimal fmt_uint → 0 ≤ n < u64_mod →
  FastAtoiu_view (view_of (fmt_uint n)) = n ∧ IsOnlyDigits (fmt_uint n) = true ∧ fmt_uint n ≠ [] ∧
  (∀ c, is_digit c = false → c ∉ fmt_uint n).
Proof.
  intros Hf Hn. destruct (Hf n Hn) as (Hne & Hd & Hv). split_and!; [|done|done|].
  - unfold FastAtoiu_view. rewrite content_view_of.
    pose proof (FastAtoiu_digits (fmt_uint n) [] Hd I) as E. rewrite app_nil_r in E. unfold FastAtoiu in E.
    rewrite E, Hv. by apply Z.mod_small.
  - intros c Hc Hin. rewrite forallb_forall in Hd. apply list_elem_of_In, Hd in Hin. congruence.
Qed.
