(* ===== verification/HttpHost.v ===== *)
(** * The HTTP server

    src/services/network/http/HttpHostService.cpp and
    include/ichor/services/network/http/IHttpHostService.h: taking requests off the
    bytes of a connection, routing them to handlers, sending the responses.

    [receiveRequestHandler] is a coroutine.  It is suspended where it awaits a
    handler or a send; a [frame] is where it stands, and the functions [enter],
    [handler_done] and [send_done] run it from one suspension to the next, so that
    runs for the same connection can be interleaved.  A view into a connection
    buffer is modelled by the bytes it showed when it was taken. *)

From Stdlib Require Import Ascii String.
From stdpp Require Import base list sets strings.
From Stdlib Require Import ZArith Lia.
From S2P Require Import Prelude.
From S2P Require Import DenseMap.
From S2P Require Import StringUtils.
From S2P Require Import HttpCommon.

Open Scope Z_scope.

(** ** [parseRequest] *)

(** The variables the words of the first line change. *)
Record first_line := mkFirst {
  f_badRequest : bool; f_wordNo : nat; f_matchedVersion : bool; f_method : HttpMethod; f_route : cstring }.

Definition request_word (s : first_line) (word : cstring) : first_line :=
  let '(mkFirst bad n ver meth route) := s in
  if bad then s
  else
    match n with
    | 0%nat =>
        match dfind word ICHOR_METHOD_MATCHING with
        | None => mkFirst true 1 ver meth route
        | Some m => mkFirst bad 1 ver m route
        end
    | 1%nat => mkFirst bad 2 ver meth word
    | 2%nat => mkFirst (bool_decide (word ≠ ICHOR_HTTP_VERSION_MATCH)) 3 true meth route
    | 3%nat => mkFirst true 4 ver meth route
    | _ => mkFirst bad (S n) ver meth route
    end.

(** The variables the words of a header line change. *)
Record header_line := mkHeader {
  h_badRequest : bool; h_wordNo : nat; h_matchedValue : bool; h_key : cstring; h_headers : Headers;
  h_contentLength : Z; h_contentLengthHeader : bool; h_contentLengthSet : bool }.

Definition header_word (s : header_line) (word : cstring) : header_line :=
  let '(mkHeader bad n matched key hs cl clHeader clSet) := s in
  if bad then s
  else
    match n with
    | 0%nat =>
        if decide (word = str "Content-Length") then mkHeader clSet 1 matched word hs cl true clSet
        else mkHeader bad 1 matched word hs cl clHeader clSet
    | 1%nat =>
        let hs' := demplace key word hs in
        if clHeader then
          if IsOnlyDigits word
          then mkHeader bad 2 true key hs' (FastAtoiu_view (view_of word)) false true
          else mkHeader true 2 true key hs' cl false clSet
        else mkHeader bad 2 true key hs' cl clHeader clSet
    | _ => mkHeader true (S n) matched key hs cl clHeader clSet
    end.

(** All variables of the parser. *)
Record request_parse := mkRP {
  rp_method : HttpMethod; rp_route : cstring; rp_headers : Headers;
  rp_lineNo : nat; rp_crlfCounter : nat; rp_protocolLength : Z; rp_contentLength : Z;
  rp_badRequest : bool; rp_contentLengthHeader : bool; rp_contentLengthSet : bool }.

Definition request_line (s : request_parse) (line : string_view) : request_parse :=
  let '(mkRP meth route hs lineNo crlf plen cl bad clHeader clSet) := s in
  let plen' := wrap64 (plen + wrap64 (Z.of_nat (sv_size line) + 2)) in
  if bad then s
  else if decide (lineNo = 0)%nat then
    let f := fold_left request_word (content <$> split line SP false) (mkFirst bad 0 false meth route) in
    mkRP (f_method f) (f_route f) hs (S lineNo) (S crlf) plen' cl (f_badRequest f || negb (f_matchedVersion f)) clHeader clSet
  else if decide (sv_size line ≠ 0)%nat then
    let h := fold_left header_word (content <$> split line COLON false) (mkHeader bad 0 false [] hs cl clHeader clSet) in
    mkRP meth route (h_headers h) (S lineNo) 1 plen' (h_contentLength h) (h_badRequest h || negb (h_matchedValue h))
      (h_contentLengthHeader h) (h_contentLengthSet h)
  else mkRP meth route hs (S lineNo) (S crlf) plen' cl bad clHeader clSet.

Definition request_start : request_parse := mkRP HttpMethod.unknown [] [] 0 0 0 0 false false false.

(** The result and the new value of [len]. *)
Definition parseRequest (complete : cstring) (len : nat) : parsed HttpRequest * Z :=
  let s := fold_left request_line (split (mkView complete len) CRLF false) request_start in
  let incomplete :=
    rp_contentLengthSet s && (Z.of_nat (length complete) <? wrap64 (rp_protocolLength s + rp_contentLength s)) in
  if (rp_crlfCounter s <? 2)%nat || rp_badRequest s then
    (ParseFailed BADREQUEST, if incomplete then wrap64 (Z.of_nat len + rp_contentLength s) else Z.of_nat len)
  else if incomplete then (ParseFailed INCOMPLETEREQUEST, Z.of_nat len)
  else
    match take_body complete len (rp_contentLength s) with
    | Parsed body =>
        (Parsed (mkRequest body (rp_method s) (rp_route s) [] [] (rp_headers s)),
         wrap64 (Z.of_nat len + rp_contentLength s))
    | ParseFailed e => (ParseFailed e, Z.of_nat len)
    | LengthError => (LengthError, Z.of_nat len)
    | Outside => (Outside, Z.of_nat len)
    end.

(** ** Routes *)

(** A [RouteMatcher]: its id, which routes it matches and the parameters it finds in
    them.  Regular expressions are matched by the ctre library. *)
Record RouteMatcher := mkMatcher {
  rm_id : Z; rm_matches : cstring → bool; rm_params : cstring → list cstring }.
Definition StringRouteMatcher (route : cstring) : RouteMatcher :=
  mkMatcher 0 (λ r, bool_decide (r = route)) (λ _, []).
Definition set_id (id : Z) (m : RouteMatcher) : RouteMatcher := mkMatcher id (rm_matches m) (rm_params m).

Section host.
(** The functions that answer requests. *)
Context {handler : Type}.
(** fmt's "{}" of a number. *)
Context (fmt_uint : Z → cstring).

Definition Routes : Type := list (RouteMatcher * handler).

(** The members of [HttpHostService]; [hs_sent] is what was given to the
    connections' [sendAsync]. *)
Record Host := mkHost {
  hs_priority : Z;
  hs_matchersIdCounter : Z;
  hs_sendServerHeader : bool;
  hs_debug : bool;
  hs_handlers : list (HttpMethod * Routes);
  hs_hostServiceIds : list (Z * ());
  hs_connections : list (Z * ());
  hs_connectionBuffers : list (Z * cstring);
  hs_sent : list (Z * cstring) }.

Definition set_handlers (hs : list (HttpMethod * Routes)) (h : Host) : Host :=
  mkHost (hs_priority h) (hs_matchersIdCounter h) (hs_sendServerHeader h) (hs_debug h) hs
    (hs_hostServiceIds h) (hs_connections h) (hs_connectionBuffers h) (hs_sent h).
Definition set_buffers (bs : list (Z * cstring)) (h : Host) : Host :=
  mkHost (hs_priority h) (hs_matchersIdCounter h) (hs_sendServerHeader h) (hs_debug h) (hs_handlers h)
    (hs_hostServiceIds h) (hs_connections h) bs (hs_sent h).

(** [operator[]] of a map of strings, which inserts an empty one, and the
    assignment through the reference. *)
Definition buffer (id : Z) (h : Host) : cstring := default [] (dfind id (hs_connectionBuffers h)).
Definition write_buffer (id : Z) (s : cstring) (h : Host) : Host :=
  set_buffers (dupdate id (λ _, s) (demplace id [] (hs_connectionBuffers h))) h.

Definition new_host : Host := mkHost 1000 0 true false [] [] [] [] [].

(** The properties [start] looks at. *)
Record HostProperties := mkHostProps {
  hp_Address : option cstring; hp_Port : option Z; hp_Priority : option Z; hp_Debug : option bool;
  hp_SendServerHeader : option bool }.
(** [None] is [StartError::FAILED]. *)
Definition start (props : HostProperties) (h : Host) : option Host :=
  match hp_Address props, hp_Port props with
  | Some _, Some _ =>
      Some (mkHost (default (hs_priority h) (hp_Priority props)) (hs_matchersIdCounter h)
        (default (hs_sendServerHeader h) (hp_SendServerHeader props)) (default (hs_debug h) (hp_Debug props))
        (hs_handlers h) (hs_hostServiceIds h) (hs_connections h) (hs_connectionBuffers h) (hs_sent h))
  | _, _ => None
  end.

(** [addDependencyInstance], [removeDependencyInstance] *)
Definition set_hostServiceIds (ids : list (Z * ())) (h : Host) : Host :=
  mkHost (hs_priority h) (hs_matchersIdCounter h) (hs_sendServerHeader h) (hs_debug h) (hs_handlers h)
    ids (hs_connections h) (hs_connectionBuffers h) (hs_sent h).
Definition add_host_service (id : Z) (h : Host) : Host :=
  set_hostServiceIds (demplace id () (hs_hostServiceIds h)) h.
Definition remove_host_service (id : Z) (h : Host) : Host :=
  set_hostServiceIds (derase id (hs_hostServiceIds h)) h.
Definition set_connections (cs : list (Z * ())) (h : Host) : Host :=
  mkHost (hs_priority h) (hs_matchersIdCounter h) (hs_sendServerHeader h) (hs_debug h) (hs_handlers h)
    (hs_hostServiceIds h) cs (hs_connectionBuffers h) (hs_sent h).
(** Whether a connection is taken: of a server, and of one of ours. *)
Definition add_connection (id : Z) (isClient : bool) (TcpHostService : option Z) (h : Host) : Host :=
  if isClient then h
  else match TcpHostService with
       | None => h
       | Some hid =>
           if dcontains hid (hs_hostServiceIds h)
           then set_connections (demplace id () (hs_connections h)) h
           else h
       end.
Definition remove_connection (id : Z) (h : Host) : Host :=
  set_buffers (derase id (hs_connectionBuffers h)) (set_connections (derase id (hs_connections h)) h).

(** The receive handler of a connection, up to the event it pushes. *)
Definition receive (id : Z) (bytes : cstring) (h : Host) : Host := write_buffer id (buffer id h ++ bytes) h.

(** The registration is the method and the id. *)
Definition addRoute (method : HttpMethod) (newMatcher : RouteMatcher) (f : handler) (h : Host)
    : (HttpMethod * Z) * Host :=
  let id := hs_matchersIdCounter h in
  let entry := (set_id id newMatcher, f) in
  let handlers :=
    match dfind method (hs_handlers h) with
    | None => demplace method [entry] (hs_handlers h)
    | Some _ => dupdate method (λ routes, routes ++ [entry]) (hs_handlers h)
    end in
  ((method, id),
   mkHost (hs_priority h) (wrap64 (id + 1)) (hs_sendServerHeader h) (hs_debug h) handlers
     (hs_hostServiceIds h) (hs_connections h) (hs_connectionBuffers h) (hs_sent h)).
Definition removeRoute (method : HttpMethod) (id : Z) (h : Host) : Host :=
  match dfind method (hs_handlers h) with
  | None => h
  | Some _ => set_handlers (dupdate method (derase_if (λ item, rm_id item.1 =? id)) (hs_handlers h)) h
  end.
Definition setPriority (priority : Z) (h : Host) : Host :=
  mkHost priority (hs_matchersIdCounter h) (hs_sendServerHeader h) (hs_debug h) (hs_handlers h)
    (hs_hostServiceIds h) (hs_connections h) (hs_connectionBuffers h) (hs_sent h).

(** ** [sendResponse] *)

Definition status_text (s : HttpStatus) : cstring :=
  match dfind s ICHOR_STATUS_MATCHING with Some t => t | None => str "Unknown" end.
Definition render_response (r : HttpResponse) : cstring :=
  str "HTTP/1.1 " ++ fmt_uint (rs_status r) ++ SP ++ status_text (rs_status r) ++ CRLF ++
  render_headers (rs_headers r) ++
  match rs_contentType r with Some t => render_header (str "Content-Type", t) | None => [] end ++
  match rs_body r with
  | [] => CRLF
  | _ :: _ => str "Content-Length: " ++ fmt_uint (Z.of_nat (length (rs_body r))) ++ CRLF ++ CRLF ++ rs_body r
  end.
Definition sendResponse (id : Z) (r : HttpResponse) (h : Host) : Host :=
  if dcontains id (hs_connections h)
  then mkHost (hs_priority h) (hs_matchersIdCounter h) (hs_sendServerHeader h) (hs_debug h) (hs_handlers h)
         (hs_hostServiceIds h) (hs_connections h) (hs_connectionBuffers h) (hs_sent h ++ [(id, render_response r)])
  else h.

(** ** [receiveRequestHandler] *)

(** [HttpResponse resp{}]: the status is 0. *)
Definition empty_response : HttpResponse := mkResponse 0 None [] [].
Definition status_response (s : HttpStatus) : HttpResponse := mkResponse s None [] [].

(** Where the coroutine awaits: a handler, the send of a response, the send of the
    error for a full buffer; or it has returned. *)
Inductive frame : Type :=
  | AtHandler (id : Z) (req : HttpRequest) (f : handler) (msg : cstring) (pos : Z)
  | AtSend (id : Z) (msg : cstring) (pos : option Z)
  | AtLastSend
  | Returned.

(** Behind the loop: what is left of the bytes goes back into the buffer. *)
Definition leave (id : Z) (msg : cstring) (h : Host) : Host * frame := (write_buffer id msg h, Returned).

(** The first route that matches. *)
Definition find_route (route : cstring) (rs : Routes) : option (RouteMatcher * handler) :=
  snd <$> list_find (λ e : RouteMatcher * handler, rm_matches e.1 route = true) rs.

Definition with_params (ps : list cstring) (r : HttpRequest) : HttpRequest :=
  mkRequest (rq_body r) (rq_method r) (rq_route r) ps (rq_address r) (rq_headers r).

(** The head of the loop, and a turn up to where it awaits. *)
Definition turn (id : Z) (msg : cstring) (pos : option nat) (h : Host) : ran (Host * frame) :=
  match pos with
  | None => Ran (leave id msg h)
  | Some p =>
      match parseRequest msg (p + 4) with
      | (ParseFailed INCOMPLETEREQUEST, _) => Ran (leave id msg h)
      | (ParseFailed _, _) =>
          Ran (sendResponse id (status_response (status_code StatusName.bad_request)) h, AtSend id [] None)
      | (Parsed req, pos') =>
          match dfind (rq_method req) (hs_handlers h) with
          | None =>
              Ran (sendResponse id (status_response (status_code StatusName.not_found)) h, AtSend id msg (Some pos'))
          | Some routes =>
              match find_route (rq_route req) routes with
              | Some (m, f) => Ran (h, AtHandler id (with_params (rm_params m (rq_route req)) req) f msg pos')
              | None => Ran (sendResponse id empty_response h, AtSend id msg (Some pos'))
              end
          end
      | (LengthError, _) => Failed LengthErrorThrown
      | (Outside, _) => Failed ReadOutside
      end
  end.

(** From the call to the first place where it awaits. *)
Definition enter (id : Z) (h : Host) : ran (Host * frame) :=
  if buffer_limit <? Z.of_nat (length (buffer id h)) then
    Ran (sendResponse id (status_response (status_code StatusName.internal_server_error)) (write_buffer id [] h), AtLastSend)
  else
    let msg := buffer id h in
    turn id msg (sv_find msg header_end) (write_buffer id msg h).

(** The handler has answered. *)
Definition handler_done (resp : HttpResponse) (fr : frame) (h : Host) : ran (Host * frame) :=
  match fr with
  | AtHandler id _ _ msg pos => Ran (sendResponse id resp h, AtSend id msg (Some pos))
  | _ => Ran (h, fr)
  end.

(** The response is sent. *)
Definition send_done (fr : frame) (h : Host) : ran (Host * frame) :=
  match fr with
  | AtSend id msg pos =>
      if negb (dcontains id (hs_connections h)) then Ran (h, Returned)
      else if decide (msg = []) then Ran (leave id msg h)
      else match pos with
           | None => Failed ProgramTerminated
           | Some pos =>
               if Z.of_nat (length msg) <? pos then Failed ProgramTerminated
               else let msg' := drop (Z.to_nat pos) msg in turn id msg' (sv_find msg' header_end) h
           end
  | AtLastSend => Ran (h, Returned)
  | _ => Ran (h, fr)
  end.
End host.
