(* ===== verification/HttpConnection.v ===== *)
(** * The HTTP client

    src/services/network/http/HttpConnectionService.cpp: writing requests, taking
    responses off the bytes of the connection, chunked ones too, and giving each to
    the request that has waited longest.

    [sendAsync] awaits an [AsyncReturningManualResetEvent] in the deque [_events].
    [set] resumes the waiting coroutine within the call, and that coroutine may
    send further requests at once: how many is the argument [react]. *)

From Stdlib Require Import Ascii String.
From stdpp Require Import base list sets strings.
From Stdlib Require Import ZArith Lia.
From S2P Require Import Prelude.
From S2P Require Import DenseMap.
From S2P Require Import StringUtils.
From S2P Require Import HttpCommon.

Open Scope Z_scope.

(** ** [parseResponse] *)

Inductive ChunkParseStatus : Type := ChunkNONE | ChunkLENGTH | ChunkCONTENT | ChunkDONE.
#[export] Instance ChunkParseStatus_eq_dec : EqDecision ChunkParseStatus.
Proof. solve_decision. Defined.

(** The variables the words of the status line change. *)
Record status_line := mkStatusLine {
  t_badRequest : bool; t_wordNo : nat; t_matchedStatus : bool; t_status : HttpStatus }.

(** The status is read from the start of the word on, not from the word alone. *)
Definition status_word (s : status_line) (word : string_view) : status_line :=
  let '(mkStatusLine bad n matched status) := s in
  if bad then s
  else
    match n with
    | 0%nat => mkStatusLine (bool_decide (content word ≠ ICHOR_HTTP_VERSION_MATCH)) 1 matched status
    | 1%nat =>
        if bool_decide (content word = []) || negb (forallb is_digit (content word))
        then mkStatusLine true 2 matched status
        else let v := FastAtoiu (sv_data word) in
             if (v <? 100) || (599 <? v) then mkStatusLine true 2 matched status
             else mkStatusLine bad 2 true v
    | _ => mkStatusLine bad (S n) matched status
    end.

(** The variables the words of a header line change. *)
Record header_line := mkHeader {
  h_badRequest : bool; h_wordNo : nat; h_matchedValue : bool; h_key : cstring; h_headers : Headers;
  h_contentLength : Z; h_contentLengthHeader : bool; h_contentLengthSet : bool;
  h_transferEncodingHeader : bool; h_transferEncodingSet : bool; h_chunkedTransfer : bool }.

Definition response_header_word (s : header_line) (word : cstring) : header_line :=
  let '(mkHeader bad n matched key hs cl clHeader clSet teHeader teSet chunked) := s in
  if bad then s
  else
    match n with
    | 0%nat =>
        if decide (word = str "Content-Length")
        then mkHeader clSet 1 matched word hs cl true clSet teHeader teSet chunked
        else if decide (word = str "Transfer-Encoding")
        then mkHeader bad 1 matched word hs cl clHeader clSet true teSet chunked
        else mkHeader bad 1 matched word hs cl clHeader clSet teHeader teSet chunked
    | 1%nat =>
        let hs' := demplace key word hs in
        if clHeader then
          if IsOnlyDigits word
          then mkHeader teSet 2 true key hs' (FastAtoiu_view (view_of word)) false true teHeader teSet chunked
          else mkHeader true 2 true key hs' cl false clSet teHeader teSet chunked
        else if teHeader then
          mkHeader clSet 2 true key hs' cl clHeader clSet false true
            (chunked || bool_decide (is_Some (sv_find word (str "chunked"))))
        else mkHeader (clSet && teSet) 2 true key hs' cl clHeader clSet teHeader teSet chunked
    | _ => mkHeader true (S n) matched key hs cl clHeader clSet teHeader teSet chunked
    end.

(** All variables of the parser; [sp_threw] is set when a [reserve] has thrown. *)
Record response_parse := mkSP {
  sp_status : HttpStatus; sp_body : cstring; sp_headers : Headers;
  sp_lineNo : nat; sp_crlfCounter : nat; sp_protocolLength : Z; sp_contentLength : Z;
  sp_chunkLength : Z; sp_chunkedStatus : ChunkParseStatus;
  sp_badRequest : bool; sp_contentLengthHeader : bool; sp_contentLengthSet : bool;
  sp_transferEncodingHeader : bool; sp_transferEncodingSet : bool; sp_chunkedTransfer : bool; sp_threw : bool }.

(** What a line that is not empty does behind the headers: the body, the chunk
    length, the chunk status, [badRequest] and whether [reserve] threw. *)
Definition chunk_line (line : cstring) (body : cstring) (chunkLength : Z) (status : ChunkParseStatus)
    : cstring * Z * ChunkParseStatus * bool * bool :=
  match status with
  | ChunkLENGTH =>
      match SafeHexToUint line with
      | None => (body, chunkLength, status, true, false)
      | Some 0 => (body ++ [NUL], 0, ChunkDONE, false, false)
      | Some n =>
          let n' := wrap64 (n + 2) in
          (body, n', ChunkCONTENT, false, vector_max <? wrap64 (Z.of_nat (length body) + n'))
      end
  | _ =>
      let size := wrap64 (Z.of_nat (length line) + 2) in
      if chunkLength <? size then (body ++ line, chunkLength, status, true, false)
      else
        let rest := wrap64 (chunkLength - size) in
        (body ++ line, rest, if rest =? 0 then ChunkLENGTH else status, false, false)
  end.

Definition response_line (s : response_parse) (line : string_view) : response_parse :=
  let '(mkSP status body hs lineNo crlf plen cl ck ckStatus bad clHeader clSet teHeader teSet chunked threw) := s in
  let plen' := wrap64 (plen + wrap64 (Z.of_nat (sv_size line) + 2)) in
  if bad || threw then s
  else if decide (lineNo = 0)%nat then
    let t := fold_left status_word (split line SP false) (mkStatusLine bad 0 false status) in
    mkSP (t_status t) body hs (S lineNo) (S crlf) plen' cl ck ckStatus (t_badRequest t || negb (t_matchedStatus t))
      clHeader clSet teHeader teSet chunked threw
  else if decide (sv_size line ≠ 0)%nat then
    if decide (ckStatus = ChunkNONE ∨ ckStatus = ChunkDONE) then
      let h := fold_left response_header_word (content <$> split line COLON false)
                 (mkHeader bad 0 false [] hs cl clHeader clSet teHeader teSet chunked) in
      mkSP status body (h_headers h) (S lineNo) 1 plen' (h_contentLength h) ck ckStatus
        (h_badRequest h || negb (h_matchedValue h)) (h_contentLengthHeader h) (h_contentLengthSet h)
        (h_transferEncodingHeader h) (h_transferEncodingSet h) (h_chunkedTransfer h) threw
    else
      let '(body', ck', ckStatus', bad', threw') := chunk_line (content line) body ck ckStatus in
      mkSP status body' hs (S lineNo) 1 plen' cl ck' ckStatus' bad' clHeader clSet teHeader teSet chunked threw'
  else
    mkSP status body hs (S lineNo) (S crlf) plen' cl ck
      (if chunked && bool_decide (ckStatus ≠ ChunkDONE) then ChunkLENGTH else ckStatus)
      bad clHeader clSet teHeader teSet chunked threw.

Definition response_start : response_parse :=
  mkSP 0 [] [] 0 0 0 0 0 ChunkNONE false false false false false false false.

(** The result and the new value of [len]. *)
Definition parseResponse (complete : cstring) (len : nat) : parsed HttpResponse * Z :=
  let s := fold_left response_line (split (mkView complete len) CRLF false) response_start in
  let incomplete :=
    sp_contentLengthSet s && (Z.of_nat (length complete) <? wrap64 (sp_protocolLength s + sp_contentLength s)) in
  let response body := mkResponse (sp_status s) None body (sp_headers s) in
  if sp_threw s then (LengthError, Z.of_nat len)
  else if (sp_crlfCounter s <? 2)%nat || sp_badRequest s then
    (ParseFailed BADREQUEST, if incomplete then wrap64 (Z.of_nat len + sp_contentLength s) else Z.of_nat len)
  else if sp_chunkedTransfer s && bool_decide (sp_chunkedStatus s ≠ ChunkDONE) then (ParseFailed CHUNKED, Z.of_nat len)
  else if incomplete then (ParseFailed INCOMPLETEREQUEST, Z.of_nat len)
  else if sp_chunkedTransfer s then (Parsed (response (sp_body s)), Z.of_nat len)
  else
    match take_body complete len (sp_contentLength s) with
    | Parsed body => (Parsed (response body), wrap64 (Z.of_nat len + sp_contentLength s))
    | ParseFailed e => (ParseFailed e, Z.of_nat len)
    | LengthError => (LengthError, Z.of_nat len)
    | Outside => (Outside, Z.of_nat len)
    end.

(** ** Requests *)

Inductive HttpError : Type :=
  | NO_CONNECTION | WRONG_METHOD | UNABLE_TO_PARSE_HEADER | UNABLE_TO_PARSE_RESPONSE | IO_ERROR
  | GET_REQUESTS_CANNOT_HAVE_BODY | SVC_QUITTING | BOOST_READ_OR_WRITE_ERROR.

Section client.
(** fmt's "{}" of a number. *)
Context (fmt_uint : Z → cstring).

(** [s.empty() || s.front() == ' ' || s.back() == ' '] *)
Definition header_part_invalid (s : cstring) : bool :=
  bool_decide (s = []) || bool_decide (head s = Some " "%char) || bool_decide (last s = Some " "%char).
Definition header_invalid (kv : cstring * cstring) : bool :=
  header_part_invalid kv.1 || header_part_invalid kv.2.

(** The bytes [sendAsync] sends, or its error. *)
Definition render_request (address : option cstring) (method : HttpMethod) (route : cstring) (headers : Headers)
    (msg : cstring) : HttpError + cstring :=
  if bool_decide (method = HttpMethod.get) && negb (bool_decide (msg = [])) then inl GET_REQUESTS_CANNOT_HAVE_BODY
  else
    match dfind method ICHOR_REVERSE_METHOD_MATCHING with
    | None => inl WRONG_METHOD
    | Some methodText =>
        if existsb header_invalid headers then inl UNABLE_TO_PARSE_HEADER
        else
          inr (methodText ++ SP ++ route ++ str " HTTP/1.1" ++ CRLF ++
               render_headers headers ++
               match dfind (str "Host") headers, address with
               | None, Some a => render_header (str "Host", a)
               | _, _ => []
               end ++
               match msg with
               | [] => []
               | _ :: _ => str "Content-Length: " ++ fmt_uint (Z.of_nat (length msg)) ++ CRLF
               end ++
               CRLF ++ msg)
    end.

(** What a request is answered with. *)
Definition reply : Type := HttpParseError + HttpResponse.

(** The members of [HttpConnectionService].  An event of [cl_events] is named by the
    number of its request and marked when it is set; [cl_sent] is what was given to
    the connection, [cl_delivered] what the requests were answered with. *)
Record Client := mkClient {
  cl_priority : Z;
  cl_debug : bool;
  cl_connection : option Z;
  cl_address : option cstring;
  cl_events : list (nat * bool);
  cl_buffer : cstring;
  cl_next : nat;
  cl_sent : list cstring;
  cl_delivered : list (nat * reply) }.

Definition set_events (es : list (nat * bool)) (c : Client) : Client :=
  mkClient (cl_priority c) (cl_debug c) (cl_connection c) (cl_address c) es (cl_buffer c) (cl_next c) (cl_sent c) (cl_delivered c).
Definition set_buffer (s : cstring) (c : Client) : Client :=
  mkClient (cl_priority c) (cl_debug c) (cl_connection c) (cl_address c) (cl_events c) s (cl_next c) (cl_sent c) (cl_delivered c).
Definition new_client : Client := mkClient 1000 false None None [] [] 0 [] [].

(** [sendAsync] up to where it awaits the connection. *)
Definition send_begin (method : HttpMethod) (route : cstring) (headers : Headers) (msg : cstring) (c : Client)
    : option HttpError * Client :=
  match cl_connection c with
  | None => (Some NO_CONNECTION, c)
  | Some _ =>
      match render_request (cl_address c) method route headers msg with
      | inl e => (Some e, c)
      | inr bytes =>
          (None, mkClient (cl_priority c) (cl_debug c) (cl_connection c) (cl_address c) (cl_events c) (cl_buffer c)
                   (cl_next c) (cl_sent c ++ [bytes]) (cl_delivered c))
      end
  end.
(** The connection has sent it, or could not; then the response is awaited. *)
Definition send_end (success : bool) (c : Client) : option HttpError * Client :=
  if success then
    (None, mkClient (cl_priority c) (cl_debug c) (cl_connection c) (cl_address c) (cl_events c ++ [(cl_next c, false)])
             (cl_buffer c) (S (cl_next c)) (cl_sent c) (cl_delivered c))
  else (Some IO_ERROR, c).
(** What the awaiting [sendAsync] returns. *)
Definition send_result (r : reply) : HttpError + HttpResponse :=
  match r with inl _ => inl UNABLE_TO_PARSE_RESPONSE | inr resp => inr resp end.

(** ** Responses *)

(** How many requests the code that awaited request [n] sends, once it is resumed
    with the reply, before it awaits again. *)
Context (react : nat → reply → nat).

(** Requests sent within [set]. *)
Definition send_more (k : nat) (c : Client) : Client :=
  mkClient (cl_priority c) (cl_debug c) (cl_connection c) (cl_address c)
    (cl_events c ++ ((λ n, (n, false)) <$> seq (cl_next c) k)) (cl_buffer c) (cl_next c + k) (cl_sent c) (cl_delivered c).
(** [evt.set(r)]: nothing if it is set already. *)
Definition set_reply (e : nat * bool) (r : reply) (c : Client) : Client :=
  if e.2 then c
  else
    send_more (react e.1 r)
      (mkClient (cl_priority c) (cl_debug c) (cl_connection c) (cl_address c)
         ((λ e', if decide (e'.1 = e.1) then (e'.1, true) else e') <$> cl_events c)
         (cl_buffer c) (cl_next c) (cl_sent c) (cl_delivered c ++ [(e.1, r)])).
(** [_events.front().set(r); _events.pop_front();] *)
Definition answer_front (r : reply) (c : Client) : Client :=
  match cl_events c with
  | [] => c
  | e :: _ => let c' := set_reply e r c in set_events (tail (cl_events c')) c'
  end.
(** [while(!_events.empty())] *)
Fixpoint answer_all (fuel : nat) (r : reply) (c : Client) : ran Client :=
  match cl_events c with
  | [] => Ran c
  | _ :: _ => match fuel with O => Failed OutOfFuel | S fuel' => answer_all fuel' r (answer_front r c) end
  end.

(** Behind the loop. *)
Definition keep (msg : cstring) (c : Client) : ran Client := Ran (set_buffer msg c).

(** The loop of the receive handler; [fuel_all] is for [answer_all]. *)
Fixpoint receive_loop (fuel fuel_all : nat) (msg : cstring) (pos : option nat) (c : Client) : ran Client :=
  match pos with
  | None => keep msg c
  | Some p =>
      match fuel with
      | O => Failed OutOfFuel
      | S fuel' =>
          match parseResponse msg (p + 4) with
          | (ParseFailed INCOMPLETEREQUEST, _) => keep msg c
          | (ParseFailed CHUNKED, pos') =>
              receive_loop fuel' fuel_all msg (sv_find_from msg header_end (Z.to_nat pos')) c
          | (ParseFailed e, _) =>
              match answer_all fuel_all (inl e) c with Ran c' => keep msg c' | Failed f => Failed f end
          | (Parsed resp, pos') =>
              let c' := answer_front (inr resp) c in
              if Z.of_nat (length msg) <? pos' then Failed ProgramTerminated
              else let msg' := drop (Z.to_nat pos') msg in
                   receive_loop fuel' fuel_all msg' (sv_find msg' header_end) c'
          | (LengthError, _) => Failed LengthErrorThrown
          | (Outside, _) => Failed ReadOutside
          end
      end
  end.

(** [for(auto &evt : _events) { evt.set(err); }] *)
Fixpoint set_all (es : list (nat * bool)) (r : reply) (c : Client) : ran Client :=
  match es with
  | [] => Ran c
  | e :: es' =>
      if negb e.2 && bool_decide (react e.1 r ≠ 0%nat) then Failed IteratorInvalidated
      else set_all es' r (set_reply e r c)
  end.

(** The receive handler. *)
Definition receiveHandler (fuel_all : nat) (bytes : cstring) (c : Client) : ran Client :=
  let buffer := cl_buffer c ++ bytes in
  if buffer_limit <? Z.of_nat (length buffer) then set_all (cl_events c) (inl BUFFEROVERFLOW) (set_buffer [] c)
  else receive_loop (S (length buffer)) fuel_all buffer (sv_find buffer header_end) (set_buffer buffer c).

(** ** Lifecycle *)

Record ClientProperties := mkClientProps {
  cp_Address : option cstring; cp_Port : option Z; cp_Priority : option Z; cp_Debug : option bool }.
(** [None] is [StartError::FAILED]. *)
Definition start (props : ClientProperties) (c : Client) : option Client :=
  match cp_Address props, cp_Port props with
  | Some a, Some _ =>
      Some (mkClient (default (cl_priority c) (cp_Priority props)) (default (cl_debug c) (cp_Debug props)) (cl_connection c)
              (Some a) (cl_events c) (cl_buffer c) (cl_next c) (cl_sent c) (cl_delivered c))
  | _, _ => None
  end.
Definition stop (c : Client) : ran Client :=
  match cl_events c with
  | [] => Ran (mkClient (cl_priority c) (cl_debug c) (cl_connection c) None (cl_events c) (cl_buffer c) (cl_next c)
                 (cl_sent c) (cl_delivered c))
  | _ :: _ => Failed ProgramTerminated
  end.
Definition setPriority (priority : Z) (c : Client) : Client :=
  mkClient priority (cl_debug c) (cl_connection c) (cl_address c) (cl_events c) (cl_buffer c) (cl_next c) (cl_sent c) (cl_delivered c).
Definition set_connection (s : option Z) (c : Client) : Client :=
  mkClient (cl_priority c) (cl_debug c) s (cl_address c) (cl_events c) (cl_buffer c) (cl_next c) (cl_sent c) (cl_delivered c).
Definition add_connection (id : Z) (isClient : bool) (c : Client) : Client :=
  if isClient then set_connection (Some id) c else c.
End client.

(** Without a connection the resumed code cannot send. *)
Definition remove_connection (id : Z) (c : Client) : ran Client :=
  if decide (cl_connection c = Some id) then
    match set_all (λ _ _, 0%nat) (cl_events c) (inl QUITTING) (set_connection None c) with
    | Ran c' => Ran (set_events [] c')
    | Failed f => Failed f
    end
  else Ran c.
