(* ===== verification/HttpRequests.v ===== *)
(** * HTTP requests from the client to the server

    What [HttpConnectionService::sendAsync] writes, [HttpHostService::parseRequest]
    reads back, whatever follows in the buffer; and as long as a part of the
    request is missing the server waits for it. *)

From Stdlib Require Import Ascii String.
From stdpp Require Import base list sets strings.
From Stdlib Require Import ZArith Lia.
From S2P Require Import Prelude.
From S2P Require Import DenseMap.
From S2P Require Import StringUtils.
From S2P Require Import HttpCommon.
From S2P Require Import HttpText.
From S2P Require Import HttpHost.
From S2P Require Import HttpConnection.

Open Scope Z_scope.

Lemma wrap64_add a b : wrap64 (wrap64 a + wrap64 b) = wrap64 (a + b).
Proof. unfold wrap64. by rewrite <- Zplus_mod. Qed.

(** The tables agree, and no method contains a blank. *)
Lemma method_text_found m t :
  dfind m ICHOR_REVERSE_METHOD_MATCHING = Some t →
  dfind t ICHOR_METHOD_MATCHING = Some m ∧ t ≠ [] ∧ " "%char ∉ t ∧ CR ∉ t.
Proof.
  intros H. assert (bool_decide (dfind t ICHOR_METHOD_MATCHING = Some m ∧ t ≠ [] ∧ " "%char ∉ t ∧ CR ∉ t) = true) as Hd.
  { destruct m; vm_compute in H; simplify_eq; vm_compute; reflexivity. }
  by apply bool_decide_eq_true in Hd.
Qed.

Lemma request_line_content s v :
  (sv_size v ≤ length (sv_data v))%nat → request_line s v = request_line s (view_of (content v)).
Proof.
  intros Hv. assert (sv_size (view_of (content v)) = sv_size v) as E.
  { unfold content. simpl. rewrite length_take. lia. }
  unfold request_line. destruct s. rewrite E, !(split_view_content v) by done. done.
Qed.

(** ** The lines of a request *)

Definition content_length : cstring := str "Content-Length".

Lemma first_line_read m t route :
  dfind m ICHOR_REVERSE_METHOD_MATCHING = Some t → " "%char ∉ route →
  let line := t ++ SP ++ route ++ str " HTTP/1.1" in
  request_line request_start (view_of line) =
  mkRP m route [] 1 1 (wrap64 (Z.of_nat (length line) + 2)) 0 false false false.
Proof.
  intros Hm Hr line. destruct (method_text_found m t Hm) as (Hf & Hne & Ht & _).
  unfold request_line, request_start. cbn [decide decide_rel]. rewrite decide_True by done.
  assert (content <$> split (view_of line) SP false = [t; route; ICHOR_HTTP_VERSION_MATCH]) as ->.
  { replace line with (terminated SP [t; route] ++ ICHOR_HTTP_VERSION_MATCH).
    - apply (split_joined_content SP [t; route]); [done| |done|reflexivity].
      rewrite !Forall_cons. split_and!; [by apply clean_first..|done].
    - subst line. by rewrite !terminated_cons, <- !app_assoc. }
  cbn [fold_left request_word]. rewrite Hf. cbn [fold_left request_word f_method f_route f_badRequest f_matchedVersion].
  f_equal. apply (wrap64_add 0).
Qed.

Lemma header_line_read meth route hs n crlf L cl clSet kv :
  header_ok kv → kv.1 ≠ content_length → kv.1 ∉ dkeys hs →
  request_line (mkRP meth route hs (S n) crlf (wrap64 L) cl false false clSet) (view_of (header_text kv)) =
  mkRP meth route (hs ++ [kv]) (S (S n)) 1 (wrap64 (L + Z.of_nat (length (header_text kv) + 2))) cl false false clSet.
Proof.
  intros Hok Hcl Hfresh. destruct (header_line_ok kv Hok) as [Hne _].
  unfold request_line. cbn [sv_size view_of]. rewrite decide_False by done.
  rewrite decide_True by (destruct (header_text kv); [done|simpl; lia]).
  rewrite header_words by done. cbn [fold_left header_word]. rewrite decide_False by done.
  cbn [fold_left header_word h_headers h_contentLength h_badRequest h_matchedValue h_contentLengthHeader h_contentLengthSet].
  rewrite demplace_fresh by done. destruct kv. f_equal. rewrite wrap64_add. f_equal. lia.
Qed.

Lemma content_length_read meth route hs n crlf L value :
  value ≠ [] → IsOnlyDigits value = true → header_ok (content_length, value) → content_length ∉ dkeys hs →
  request_line (mkRP meth route hs (S n) crlf (wrap64 L) 0 false false false) (view_of (header_text (content_length, value))) =
  mkRP meth route (hs ++ [(content_length, value)]) (S (S n)) 1
    (wrap64 (L + Z.of_nat (length (header_text (content_length, value)) + 2))) (FastAtoiu_view (view_of value)) false false true.
Proof.
  intros Hv Hd Hok Hfresh. destruct (header_line_ok _ Hok) as [Hne _].
  unfold request_line. cbn [sv_size view_of]. rewrite decide_False by done.
  rewrite decide_True by (destruct (header_text (content_length, value)); [done|simpl; lia]).
  rewrite header_words by done. cbn [fold_left header_word fst snd]. rewrite decide_True by done.
  cbn [fold_left header_word h_headers h_contentLength h_badRequest h_matchedValue h_contentLengthHeader h_contentLengthSet].
  rewrite Hd. rewrite demplace_fresh by done. f_equal. rewrite wrap64_add. f_equal. lia.
Qed.

Lemma headers_read meth route hs hs' n L cl clSet :
  Forall header_ok hs' → content_length ∉ dkeys hs' → dwf (hs ++ hs') →
  fold_left request_line (view_of <$> (header_text <$> hs')) (mkRP meth route hs (S n) 1 (wrap64 L) cl false false clSet) =
  mkRP meth route (hs ++ hs') (S n + length hs') 1 (wrap64 (L + Z.of_nat (length (terminated CRLF (header_text <$> hs'))))) cl false false clSet.
Proof.
  revert hs n L. induction hs' as [|kv hs' IH]; intros hs n L Hok Hcl Hwf.
  { simpl. by rewrite app_nil_r, Nat.add_0_r, Z.add_0_r. }
  apply Forall_cons in Hok as [Hkv Hok]. cbn [fmap list_fmap fold_left].
  unfold dwf, dkeys in *. rewrite fmap_app in Hwf. cbn [fmap list_fmap] in Hwf, Hcl.
  rewrite header_line_read; [|done|set_solver|].
  2:{ apply NoDup_app in Hwf as (_ & Hwf & _). set_solver. }
  rewrite IH.
  - rewrite <- app_assoc. cbn [app length]. f_equal; [lia|]. f_equal.
    rewrite terminated_cons, !length_app. simpl. lia.
  - done.
  - set_solver.
  - rewrite fmap_app, fmap_app, <- app_assoc. done.
Qed.

(** The header for the length of a body. *)
Definition length_header (fmt_uint : Z → cstring) (msg : cstring) : Headers :=
  match msg with [] => [] | _ :: _ => [(content_length, fmt_uint (Z.of_nat (length msg)))] end.
Lemma length_header_ok fmt_uint msg :
  prints_decimal fmt_uint → Z.of_nat (length msg) < u64_mod → Forall header_ok (length_header fmt_uint msg).
Proof.
  intros Hfmt Hsize. unfold length_header. destruct msg as [|x msg'] eqn:E; [done|]. rewrite <- E in *. constructor; [|done].
  destruct (decimal_value fmt_uint (Z.of_nat (length msg)) Hfmt ltac:(lia)) as (_ & _ & Hne & Hno).
  unfold header_ok. cbn [fst snd]. split_and!; [by vm_compute; set_solver|by vm_compute; set_solver|done|by apply Hno|].
  apply search_absent. by apply Hno.
Qed.

(** ** A request *)

Section request.
Context (fmt_uint : Z → cstring).
Context (address : option cstring) (method : HttpMethod) (route : cstring) (headers : Headers) (msg : cstring).

(** A request that text can carry: no blank in the route, no CR or ": " in the
    headers; [sendAsync] adds the length itself.  The keys of a map are distinct. *)
Definition request_ok : Prop :=
  " "%char ∉ route ∧ CR ∉ route ∧ Forall header_ok headers ∧ dwf headers ∧ content_length ∉ dkeys headers ∧
  (∀ a, address = Some a → header_ok (str "Host", a)).

(** The headers [sendAsync] sends. *)
Definition named_headers : Headers :=
  headers ++ match dfind (str "Host") headers, address with None, Some a => [(str "Host", a)] | _, _ => [] end.
Definition request_lines (t : cstring) : list cstring :=
  (t ++ SP ++ route ++ str " HTTP/1.1") :: (header_text <$> named_headers ++ length_header fmt_uint msg).

Lemma render_request_lines bytes :
  render_request fmt_uint address method route headers msg = inr bytes →
  ∃ t, dfind method ICHOR_REVERSE_METHOD_MATCHING = Some t ∧ bytes = head_of (request_lines t) ++ msg.
Proof.
  unfold render_request. destruct (_ && _); [done|]. destruct (dfind method _) as [t|]; [|done].
  destruct (existsb _ _); [done|]. intros <-%(inj inr). exists t. split; [done|].
  assert (∀ kv, render_header kv = terminated CRLF (header_text <$> [kv])) as Hr.
  { intros kv. unfold render_header, terminated, header_text. simpl. by rewrite app_nil_r, <- !app_assoc. }
  assert (match msg with [] => [] | _ :: _ => str "Content-Length: " ++ fmt_uint (Z.of_nat (length msg)) ++ CRLF end =
    terminated CRLF (header_text <$> length_header fmt_uint msg)) as ->.
  { unfold length_header. destruct msg; [done|]. by rewrite <- Hr. }
  unfold request_lines, named_headers. rewrite head_of_eq, terminated_cons, !fmap_app, !terminated_app.
  rewrite render_headers_terminated. destruct (dfind _ headers), address; rewrite ?Hr, <- ?app_assoc; done.
Qed.

Context (Hfmt : prints_decimal fmt_uint) (Hok : request_ok) (Hsize : Z.of_nat (length msg) < u64_mod).

Lemma named_headers_ok :
  Forall header_ok named_headers ∧ dwf named_headers ∧ content_length ∉ dkeys named_headers.
Proof.
  destruct Hok as (_ & _ & Hh & Hwf & Hcl & Ha). unfold named_headers.
  destruct (dfind (str "Host") headers) eqn:E, address as [a|]; rewrite ?app_nil_r; try done.
  unfold dwf, dkeys in *. rewrite fmap_app. apply dfind_None in E. split_and!.
  - apply Forall_app_2; [done|]. apply Forall_singleton. by apply Ha.
  - apply NoDup_app. split_and!; [done| |apply NoDup_singleton]. intros x Hx Hx'. apply list_elem_of_singleton in Hx'. by subst.
  - rewrite not_elem_of_app. split; [done|]. simpl. rewrite list_elem_of_singleton. done.
Qed.

Lemma request_lines_ok t :
  dfind method ICHOR_REVERSE_METHOD_MATCHING = Some t → Forall line_ok (request_lines t).
Proof.
  intros Ht. destruct (method_text_found method t Ht) as (_ & Hne & _ & Hcr). constructor.
  - split; [by destruct t|]. destruct Hok as (_ & Hr & _). rewrite !elem_of_app. intros [?|[H|[?|H]]]; try done.
    + unfold SP in H. set_solver.
    + revert H. apply (bool_decide_eq_true_1 (CR ∉ str " HTTP/1.1")). reflexivity.
  - apply Forall_fmap. eapply Forall_impl; [|exact header_line_ok].
    destruct named_headers_ok as (H & _). apply Forall_app_2; [done|by apply length_header_ok].
Qed.

(** The parser after the head of the request. *)
Lemma request_head_read t rest :
  dfind method ICHOR_REVERSE_METHOD_MATCHING = Some t →
  fold_left request_line (split (mkView (head_of (request_lines t) ++ rest) (length (head_of (request_lines t)))) CRLF false)
    request_start =
  mkRP method route (named_headers ++ length_header fmt_uint msg) (S (length (request_lines t))) 2
    (wrap64 (Z.of_nat (length (head_of (request_lines t))))) (Z.of_nat (length msg)) false false (bool_decide (msg ≠ [])).
Proof.
  intros Ht. rewrite fold_lines by (by apply request_lines_ok || apply request_line_content).
  rewrite fmap_app, fold_left_app. unfold request_lines at 1. cbn [fmap list_fmap fold_left].
  rewrite (first_line_read method t route) by (done || apply Hok). rewrite !fmap_app, fold_left_app.
  destruct named_headers_ok as (Hn & Hw & Hc). rewrite headers_read by done.
  assert (∀ l : cstring, Z.of_nat (length (l ++ CRLF)) = Z.of_nat (length l) + 2) as Hlen by (intros; rewrite length_app; simpl; lia).
  set (first := t ++ SP ++ route ++ str " HTTP/1.1").
  assert (length (head_of (request_lines t)) =
    length first + 2 + length (terminated CRLF (header_text <$> named_headers)) +
    length (terminated CRLF (header_text <$> length_header fmt_uint msg)) + 2)%nat as Hhead.
  { rewrite head_of_eq. unfold request_lines. fold first. rewrite terminated_cons, fmap_app, terminated_app, !length_app.
    change (length CRLF) with 2%nat. lia. }
  rewrite Hhead. pose proof (length_header_ok fmt_uint msg Hfmt Hsize) as Hlok. unfold request_lines, length_header in *.
  destruct msg as [|x msg'] eqn:Em.
  - cbn [fmap list_fmap fold_left Nat.add request_line]. rewrite decide_False by done. cbn [sv_size view_of length].
    rewrite decide_False by lia. rewrite bool_decide_false by (intros H; by apply H). rewrite !app_nil_r. f_equal.
    + rewrite length_fmap. simpl. lia.
    + rewrite wrap64_add. f_equal. simpl. lia.
  - rewrite <- Em in *. destruct (decimal_value fmt_uint (Z.of_nat (length msg)) Hfmt ltac:(lia)) as (Hv & Hd & Hne & _).
    cbn [fmap list_fmap fold_left Nat.add]. apply Forall_cons in Hlok as [Hlok _].
    rewrite content_length_read by done. rewrite Hv. cbn [fold_left request_line]. rewrite decide_False by done.
    cbn [sv_size view_of length]. rewrite decide_False by lia. rewrite bool_decide_true by (by rewrite Em). f_equal.
    + rewrite length_fmap, length_app. simpl. lia.
    + rewrite wrap64_add. f_equal. rewrite (terminated_cons CRLF _ []), !length_app. simpl. lia.
Qed.

(** Once the body has arrived the request is read. *)
Lemma request_complete t rest :
  dfind method ICHOR_REVERSE_METHOD_MATCHING = Some t →
  Z.of_nat (length (head_of (request_lines t) ++ msg)) < vector_max →
  parseRequest (head_of (request_lines t) ++ msg ++ rest) (length (head_of (request_lines t))) =
  (Parsed (mkRequest (msg ++ [NUL]) method route [] [] (named_headers ++ length_header fmt_uint msg)),
   Z.of_nat (length (head_of (request_lines t) ++ msg))).
Proof.
  intros Ht Hb. unfold parseRequest. rewrite request_head_read by done. pose proof vector_max_lt.
  cbn [rp_crlfCounter rp_badRequest rp_contentLengthSet rp_protocolLength rp_contentLength rp_method rp_route rp_headers].
  rewrite length_app in Hb. rewrite wrap64_small, wrap64_small by (rewrite ?wrap64_small; lia).
  rewrite !length_app. rewrite (proj2 (Z.ltb_ge _ _)) by lia. rewrite andb_false_r. cbn [Nat.ltb Nat.leb orb].
  rewrite take_body_complete by lia. rewrite wrap64_small by lia. f_equal. lia.
Qed.
(** Until then the server waits. *)
Lemma request_incomplete t part :
  dfind method ICHOR_REVERSE_METHOD_MATCHING = Some t →
  Z.of_nat (length (head_of (request_lines t) ++ msg)) < vector_max →
  (length part < length msg)%nat →
  parseRequest (head_of (request_lines t) ++ part) (length (head_of (request_lines t))) =
  (ParseFailed INCOMPLETEREQUEST, Z.of_nat (length (head_of (request_lines t)))).
Proof.
  intros Ht Hb Hp. unfold parseRequest. rewrite request_head_read by done. pose proof vector_max_lt.
  cbn [rp_crlfCounter rp_badRequest rp_contentLengthSet rp_protocolLength rp_contentLength rp_method rp_route rp_headers].
  rewrite length_app in Hb. rewrite wrap64_small by (rewrite ?wrap64_small; lia). rewrite wrap64_small by lia.
  rewrite length_app. rewrite (proj2 (Z.ltb_lt _ _)) by lia.
  rewrite bool_decide_true by (destruct msg; [simpl in Hp; lia|done]). done.
Qed.
End request.

(** C17: the server reads a request as the client wrote it: method, route, headers
    and body are what [sendAsync] was given, the body followed by a NUL, whatever
    comes behind the request in the buffer, of which nothing is taken.  That is for requests the
    text of which says what was meant ([request_ok]), which [sendAsync] leaves to its caller: the route has no
    blank and no CR; the names of the headers have no colon and no CR, their values (and the
    address, which becomes the Host header) are not empty and have no CR and no ': ' in them;
    and none is called Content-Length, since [sendAsync] writes that itself (see
    [colon_in_a_header] in HttpExamples.v).  The request is shorter than 2^63 - 1 bytes. *)
Theorem request_roundtrip fmt_uint address method route headers msg bytes rest :
  prints_decimal fmt_uint →
  request_ok address route headers →
  render_request fmt_uint address method route headers msg = inr bytes →
  Z.of_nat (length bytes) < vector_max →
  ∃ p, sv_find (bytes ++ rest) header_end = Some p ∧
    parseRequest (bytes ++ rest) (p + 4) =
    (Parsed (mkRequest (msg ++ [NUL]) method route [] []
       (named_headers address headers ++ length_header fmt_uint msg)), Z.of_nat (length bytes)).
Proof.
  intros Hfmt Hok Hr Hb. destruct (render_request_lines _ _ _ _ _ _ _ Hr) as (t & Ht & ->).
  assert (Z.of_nat (length msg) < u64_mod) as Hm by (rewrite length_app in Hb; pose proof vector_max_lt; lia).
  rewrite <- app_assoc.
  destruct (find_head (request_lines fmt_uint address route headers msg t) (msg ++ rest)) as (p & Hp & E); [done| |].
  { by eapply request_lines_ok. }
  exists p. split; [done|]. rewrite E. by apply request_complete.
Qed.
