(* ===== verification/HttpServer.v ===== *)
(** * The HTTP server as a whole

    No request makes the parser read outside of the buffer; every run of
    [receiveRequestHandler] ends; and a connection on which a sequence of requests
    arrives, cut into pieces in any way, gets the responses in order.

    A run is suspended at each await of a handler and of a send, and what happens to the service
    meanwhile is a parameter: [resumed].  What is shown of runs is shown for those during which
    nothing happens to the connection they are of; of others see HttpAnomalies.v. *)

From Stdlib Require Import Ascii String.
From stdpp Require Import base list sets strings.
From Stdlib Require Import ZArith Lia.
From S2P Require Import Prelude.
From S2P Require Import DenseMap.
From S2P Require Import StringUtils.
From S2P Require Import HttpCommon.
From S2P Require Import HttpText.
From S2P Require Import HttpConnection.
From S2P Require Import HttpHost.
From S2P Require Import HttpRequests.

Open Scope Z_scope.

(** ** The parser stays in the buffer *)

(** What the pieces of a split take up, each with a delimiter. *)
Fixpoint extent (d : cstring) (vs : list string_view) : nat :=
  match vs with [] => 0%nat | v :: vs' => (sv_size v + length d + extent d vs')%nat end.

Lemma split_loop_extent fuel first n d :
  d ≠ [] → (n ≤ fuel)%nat → (n ≤ length first)%nat →
  (n ≤ extent d (split_loop fuel first n d false) ≤ n + length d)%nat.
Proof.
  intros Hd. assert (0 < length d)%nat by (destruct d; [done|simpl; lia]).
  revert first n. induction fuel as [|fuel IH]; intros first n Hn Hf; cbn [split_loop]; [simpl; lia|].
  case_decide; [simpl; lia|]. cbn zeta. assert (length (take n first) = n) as Hl by (rewrite length_take; lia).
  pose proof (search_fits (take n first) d) as Hfit. rewrite Hl in Hfit. simpl (false && _).
  set (i := search (take n first) d) in *. cbn [extent sv_size]. case_decide as E; [simpl; lia|]. specialize (Hfit E).
  specialize (IH (drop (i + length d) first) (n - (i + length d))%nat ltac:(lia)). rewrite length_drop in IH.
  specialize (IH ltac:(lia)). lia.
Qed.

Lemma fold_left_inv {S X} (P : S → Prop) (f : S → X → S) l s :
  (∀ s x, P s → P (f s x)) → P s → P (fold_left f l s).
Proof. intros Hf. revert s. induction l as [|x l IH]; [done|]. intros s Hs. simpl. by apply IH, Hf. Qed.

Lemma atoiu_loop_range s v : 0 ≤ v < u64_mod → 0 ≤ atoiu_loop s v < u64_mod.
Proof. revert v. induction s as [|c s IH]; intros v Hv; simpl; [done|]. case_match; [|done]. apply IH, wrap64_range. Qed.

(** The length is a [uint64_t], and 0 unless a header has set it. *)
Definition length_ok (cl : Z) (set : bool) : Prop := 0 ≤ cl < u64_mod ∧ (set = false → cl = 0).
Lemma request_length_ok vs :
  let s := fold_left request_line vs request_start in length_ok (rp_contentLength s) (rp_contentLengthSet s).
Proof.
  apply (fold_left_inv (λ s, length_ok (rp_contentLength s) (rp_contentLengthSet s))); [|done].
  intros [meth route hs n crlf L cl bad clHeader clSet] v H. simpl in *.
  destruct bad; [done|]. repeat case_decide; [done| |done]. cbn [rp_contentLength rp_contentLengthSet].
  apply (fold_left_inv (λ h, length_ok (h_contentLength h) (h_contentLengthSet h))); [|done].
  intros [bad' k matched key hs' cl' clHeader' clSet'] w H'. simpl in *.
  destruct bad'; [done|]. destruct k as [|[|k]]; [by case_decide| |done].
  destruct clHeader'; [|done]. destruct (IsOnlyDigits w); [|done]. split; [|done].
  by apply atoiu_loop_range.
Qed.

Lemma request_line_bad s v : rp_badRequest s = true → request_line s v = s.
Proof. destruct s. simpl. by intros ->. Qed.
Lemma request_lines_bad vs s : rp_badRequest s = true → fold_left request_line vs s = s.
Proof. induction vs as [|v vs IH]; [done|]. intros H. simpl. rewrite request_line_bad by done. by apply IH. Qed.

Lemma protocolLength_extent vs s L :
  rp_protocolLength s = wrap64 L → rp_badRequest (fold_left request_line vs s) = false →
  rp_protocolLength (fold_left request_line vs s) = wrap64 (L + Z.of_nat (extent CRLF vs)).
Proof.
  revert s L. induction vs as [|v vs IH]; intros s L HL Hb; simpl in *.
  { by rewrite Z.add_0_r. }
  destruct (rp_badRequest s) eqn:Es.
  { rewrite request_line_bad, request_lines_bad in Hb by done. congruence. }
  rewrite (IH _ (L + (Z.of_nat (sv_size v) + 2))); [|destruct s; simpl in *; subst|done].
  - f_equal. cbn [extent]. change (length CRLF) with 2%nat. lia.
  - repeat case_decide; cbn [rp_protocolLength]; apply wrap64_add.
Qed.

(** A request that is taken ends within the buffer and takes at least its head, and
    no input, whatever length it claims to have, makes the parser read outside. *)
Lemma parseRequest_in_bounds complete len :
  (len ≤ length complete)%nat → Z.of_nat (length complete) < 2 ^ 62 →
  match parseRequest complete len with
  | (Parsed _, pos) => Z.of_nat len ≤ pos ≤ Z.of_nat (length complete)
  | (Outside, _) => False
  | _ => True
  end.
Proof.
  intros Hlen Hsize. unfold parseRequest. set (vs := split (mkView complete len) CRLF false).
  set (s := fold_left request_line vs request_start).
  destruct ((rp_crlfCounter s <? 2)%nat || rp_badRequest s) eqn:Eb; [done|]. apply orb_false_iff in Eb as [_ Eb].
  pose proof (protocolLength_extent vs request_start 0 eq_refl Eb) as Hp. fold s in Hp.
  assert (len ≤ extent CRLF vs ≤ len + 2)%nat as Hx by (apply (split_loop_extent len complete len CRLF); [done|lia|lia]).
  pose proof (request_length_ok vs) as [Hc Hc0]. fold s in Hc, Hc0. unfold u64_mod in Hc.
  assert (wrap64 (0 + Z.of_nat (extent CRLF vs)) = Z.of_nat (extent CRLF vs)) as Hw by (apply wrap64_small; unfold u64_mod; lia).
  rewrite Hw in Hp. rewrite Hp. unfold take_body. unfold vector_max.
  destruct (rp_contentLengthSet s); simpl (_ && _).
  - destruct (Z.ltb_spec (Z.of_nat (length complete)) (wrap64 (Z.of_nat (extent CRLF vs) + rp_contentLength s))); [done|].
    destruct (Z.ltb_spec (2 ^ 63 - 1) (wrap64 (rp_contentLength s + 1))); [done|].
    destruct (Z.ltb_spec (2 ^ 63 - 1) (rp_contentLength s)); [done|].
    rewrite wrap64_small in H by (unfold u64_mod; lia).
    destruct (Z.ltb_spec (Z.of_nat (length complete)) (Z.of_nat len + rp_contentLength s)); [lia|].
    rewrite wrap64_small by (unfold u64_mod; lia). lia.
  - rewrite Hc0 by done. change (2 ^ 63 - 1 <? wrap64 (0 + 1)) with false. cbn iota. change (2 ^ 63 - 1 <? 0) with false. cbn iota.
    destruct (Z.ltb_spec (Z.of_nat (length complete)) (Z.of_nat len + 0)); [lia|].
    rewrite wrap64_small by (unfold u64_mod; lia). lia.
Qed.

(** ** Runs of [receiveRequestHandler] *)

(** What a run may end with. *)
Definition safe {A} (r : ran A) : Prop := match r with Ran _ => True | Failed e => e = LengthErrorThrown end.

Lemma sv_find_fits s needle p : sv_find s needle = Some p → (p + length needle ≤ length s)%nat.
Proof.
  unfold sv_find. case_decide as E; [done|]. intros [= <-]. destruct (decide (search s needle = length s)) as [E'|E'].
  - destruct needle; [simpl; pose proof (search_le s []); lia|]. by destruct E.
  - by apply search_fits.
Qed.

Section serve.
Context {handler : Type} (fmt_uint : Z → cstring).
Notation Host := (@Host handler).
Notation frame := (@frame handler).

Definition at_send (fr : frame) : bool := match fr with AtSend _ _ _ | AtLastSend => true | _ => false end.

(** A run is suspended where it awaits, for any time.  [env] says what may become of the
    service meanwhile, and [ans] what a handler may answer; the number is that of the
    resumptions. *)
Inductive resumed (env : Host → Host → Prop) (ans : HttpRequest → handler → HttpResponse → Prop) :
    nat → ran (Host * frame) → ran (Host * frame) → Prop :=
  | resumed_here r : resumed env ans 0 r r
  | resumed_handler n h h' id req f msg pos resp r :
      env h h' → ans req f resp → resumed env ans n (handler_done fmt_uint resp (AtHandler id req f msg pos) h') r →
      resumed env ans (S n) (Ran (h, AtHandler id req f msg pos)) r
  | resumed_send n h h' fr r :
      at_send fr = true → env h h' → resumed env ans n (send_done fmt_uint fr h') r →
      resumed env ans (S n) (Ran (h, fr)) r.
(** The run is over. *)
Inductive over : ran (Host * frame) → ran Host → Prop :=
  | over_returned h : over (Ran (h, Returned)) (Ran h)
  | over_failed e : over (Failed e) (Failed e).

Section any_run.
Context {env : Host → Host → Prop} {ans : HttpRequest → handler → HttpResponse → Prop}.
Lemma resumed_returned n h r : resumed env ans n (Ran (h, Returned)) r → n = 0%nat ∧ r = Ran (h, Returned).
Proof. by inversion 1; subst. Qed.
Lemma resumed_failed n e r : resumed env ans n (Failed e) r → n = 0%nat ∧ r = Failed e.
Proof. by inversion 1; subst. Qed.
Lemma resumed_at_send n h fr r :
  at_send fr = true → resumed env ans n (Ran (h, fr)) r →
  n = 0%nat ∧ r = Ran (h, fr) ∨ ∃ m h', n = S m ∧ env h h' ∧ resumed env ans m (send_done fmt_uint fr h') r.
Proof. intros Hs. inversion 1; subst; [by left|done|right; eauto]. Qed.
Lemma resumed_at_handler n h id req f msg pos r :
  resumed env ans n (Ran (h, AtHandler id req f msg pos)) r →
  n = 0%nat ∧ r = Ran (h, AtHandler id req f msg pos) ∨
  ∃ m h' resp, n = S m ∧ env h h' ∧ ans req f resp ∧
    resumed env ans m (Ran (sendResponse fmt_uint id resp h', AtSend id msg (Some pos))) r.
Proof. inversion 1; subst; [by left| |done]. right. eauto 10. Qed.

(** ** Every run ends *)

(** After a response, with the requests behind it. *)
Lemma sent_safe id msg pos (h : Host) n r (N : nat) :
  (∀ h n r, resumed env ans n (turn fmt_uint id (drop (Z.to_nat pos) msg) (sv_find (drop (Z.to_nat pos) msg) header_end) h) r → (n ≤ N)%nat ∧ safe r) →
  pos ≤ Z.of_nat (length msg) → resumed env ans n (Ran (h, AtSend id msg (Some pos))) r → (n ≤ S N)%nat ∧ safe r.
Proof.
  intros IH Hp [[-> ->]|(m & h' & -> & _ & H)]%resumed_at_send; [split; [lia|done]| |done].
  cbn [send_done] in H. destruct (dcontains id (hs_connections h')); cbn [negb] in H; [|apply resumed_returned in H as [-> ->]; split; [lia|done]].
  case_decide; [apply resumed_returned in H as [-> ->]; split; [lia|done]|].
  rewrite (proj2 (Z.ltb_ge _ _)) in H by done. apply IH in H as [? ?]. split; [lia|done].
Qed.
(** Two suspensions for each request, and a request has at least four characters. *)
Lemma turn_safe k id msg h n r :
  (length msg ≤ k)%nat → Z.of_nat (length msg) ≤ buffer_limit →
  resumed env ans n (turn fmt_uint id msg (sv_find msg header_end) h) r → (n ≤ 2 * length msg)%nat ∧ safe r.
Proof.
  revert msg h n r. induction k as [|k IH]; intros msg h n r Hk Hb H.
  { destruct msg; [|simpl in Hk; lia]. by apply resumed_returned in H as [-> ->]. }
  destruct (sv_find msg header_end) as [p|] eqn:Ep; [|apply resumed_returned in H as [-> ->]; split; [lia|done]].
  pose proof (sv_find_fits _ _ _ Ep) as Hp. change (length header_end) with 4%nat in Hp.
  pose proof (parseRequest_in_bounds msg (p + 4) Hp ltac:(unfold buffer_limit in Hb; lia)) as Hpb.
  unfold turn in H. destruct (parseRequest msg (p + 4)) as [[req|e| |] pos] eqn:Epar; [| | |done].
  - assert (∀ h n r, resumed env ans n (Ran (h, AtSend id msg (Some pos))) r → (n ≤ S (2 * (length msg - 4)))%nat ∧ safe r) as Hs.
    { intros h0 n0 r0. apply sent_safe; [|lia]. intros h1 n1 r1 [? ?]%IH; rewrite length_drop in *; [split; [lia|done]|lia|lia]. }
    destruct (dfind _ _) as [routes|]; [|apply Hs in H as [? ?]; split; [lia|done]].
    destruct (find_route _ _) as [[m f]|]; [|apply Hs in H as [? ?]; split; [lia|done]].
    apply resumed_at_handler in H as [[-> ->]|(m0 & h' & resp & -> & _ & _ & H)]; [split; [lia|done]|].
    apply Hs in H as [? ?]. split; [lia|done].
  - destruct e; try (apply resumed_returned in H as [-> ->]; split; [lia|done]).
    all: apply resumed_at_send in H as [[-> ->]|(m0 & h' & -> & _ & H)]; [split; [lia|done]| |done];
      cbn [send_done] in H; destruct (dcontains id (hs_connections h')); apply resumed_returned in H as [-> ->]; (split; [lia|done]).
  - by apply resumed_failed in H as [-> ->]; split; [lia|].
Qed.
Lemma enter_safe id h n r :
  resumed env ans n (enter fmt_uint id h) r → (n ≤ 2 * length (buffer id h) + 1)%nat ∧ safe r.
Proof.
  unfold enter. destruct (Z.ltb_spec buffer_limit (Z.of_nat (length (buffer id h)))) as [Hl|Hl]; intros H.
  - apply resumed_at_send in H as [[-> ->]|(m & h' & -> & _ & H)]; [split; [lia|done]| |done].
    apply resumed_returned in H as [-> ->]. split; [lia|done].
  - apply (turn_safe (length (buffer id h))) in H as [? ?]; [split; [lia|done]|lia|done].
Qed.
End any_run.

(** While a run for the connection is suspended, the routes stay as they are, and the string it
    has views into as long as the connection is there. *)
Definition meanwhile (id : Z) (h h' : Host) : Prop :=
  hs_handlers h' = hs_handlers h ∧ (dcontains id (hs_connections h') = true → buffer id h' = buffer id h).

(** C18: A run of [receiveRequestHandler] on any bytes ends, whatever its handlers answer and
    however long it is suspended at each of its awaits, as long as no route is changed and no
    bytes arrive on the connection meanwhile (its views are into the string they would be
    added to, and here they are the text they show): it is resumed at most twice
    for each character and once more, and then it has returned, or the exception for a
    length that is too large has left it.  At no time has it read outside of
    the buffer, and the check of the position in hardened builds never fails. *)
Theorem serve_ends id h n r :
  resumed (meanwhile id) (λ _ _ _, True) n (enter fmt_uint id h) r → (n ≤ 2 * length (buffer id h) + 1)%nat ∧ safe r.
Proof. apply enter_safe. Qed.

(** ** A run in which what it awaits is there at once *)

Section at_once.
Context (answer : HttpRequest → handler → HttpResponse).
Definition answers_with : HttpRequest → handler → HttpResponse → Prop := λ req f resp, resp = answer req f.
Definition resume_with (fr : frame) (h : Host) : ran (Host * frame) :=
  match fr with
  | AtHandler _ req f _ _ => handler_done fmt_uint (answer req f) fr h
  | _ => send_done fmt_uint fr h
  end.
Fixpoint drive (fuel : nat) (r : ran (Host * frame)) : ran Host :=
  match r with
  | Failed e => Failed e
  | Ran (h, Returned) => Ran h
  | Ran (h, fr) => match fuel with O => Failed OutOfFuel | S fuel' => drive fuel' (resume_with fr h) end
  end.
Definition serve (id : Z) (h : Host) : ran Host := drive (2 * length (buffer id h) + 2) (enter fmt_uint id h).

(** It is one of those above, unless the fuel is used up. *)
Lemma drive_resumed fuel r :
  (∃ n r', resumed eq answers_with n r r' ∧ over r' (drive fuel r)) ∨ (∃ r', resumed eq answers_with fuel r r').
Proof.
  revert r. induction fuel as [|fuel IH]; intros [[h fr]|e]; [right; by exists (Ran (h, fr)); constructor|right; by exists (Failed e); constructor| |].
  - destruct fr; cbn [drive resume_with]; try (left; exists 0%nat; eexists; split; constructor).
    all: match goal with |- context [drive _ ?r] => destruct (IH r) as [(n & r' & Hr & Ho)|(r' & Hr)] end.
    all: try (left; exists (S n), r'; split; [|done]). all: try (right; exists r').
    all: first [eapply resumed_handler; [done|by unfold answers_with|exact Hr]|eapply resumed_send; [done|done|exact Hr]].
  - left. exists 0%nat, (Failed e). split; constructor.
Qed.
Lemma serve_resumed id h : ∃ n r, resumed eq answers_with n (enter fmt_uint id h) r ∧ over r (serve id h).
Proof.
  destruct (drive_resumed (2 * length (buffer id h) + 2) (enter fmt_uint id h)) as [H|(r' & Hr)]; [done|].
  apply enter_safe in Hr as [Hn _]. lia.
Qed.
End at_once.

(** ** A sequence of requests *)

(** A request of a client, and the bytes it sends. *)
Record outgoing := mkOut {
  o_address : option cstring; o_method : HttpMethod; o_route : cstring; o_headers : Headers; o_msg : cstring;
  o_bytes : cstring }.
Definition out_ok (o : outgoing) : Prop :=
  request_ok (o_address o) (o_route o) (o_headers o) ∧
  render_request fmt_uint (o_address o) (o_method o) (o_route o) (o_headers o) (o_msg o) = inr (o_bytes o).
Definition received (o : outgoing) : HttpRequest :=
  mkRequest (o_msg o ++ [NUL]) (o_method o) (o_route o) [] []
    (named_headers (o_address o) (o_headers o) ++ length_header fmt_uint (o_msg o)).
Definition stream (os : list outgoing) : cstring := concat (o_bytes <$> os).

Context (Hfmt : prints_decimal fmt_uint).

(** A request that has arrived, and one of which a part is missing. *)
Lemma turn_whole o rest :
  out_ok o → Z.of_nat (length (o_bytes o)) < vector_max →
  ∃ p, sv_find (o_bytes o ++ rest) header_end = Some p ∧
    parseRequest (o_bytes o ++ rest) (p + 4) = (Parsed (received o), Z.of_nat (length (o_bytes o))).
Proof.
  intros [Hok Hr] Hb. destruct (render_request_lines _ _ _ _ _ _ _ Hr) as (t & Ht & E). rewrite E in *.
  assert (Z.of_nat (length (o_msg o)) < u64_mod) by (rewrite length_app in Hb; pose proof vector_max_lt; lia).
  rewrite <- app_assoc.
  destruct (find_head (request_lines fmt_uint (o_address o) (o_route o) (o_headers o) (o_msg o) t) (o_msg o ++ rest))
    as (p & Hp & Ep); [done|by eapply request_lines_ok|].
  exists p. split; [done|]. rewrite Ep. by apply request_complete.
Qed.
Lemma turn_part o part more id (h : Host) :
  out_ok o → Z.of_nat (length (o_bytes o)) < vector_max → part ++ more = o_bytes o → more ≠ [] →
  turn fmt_uint id part (sv_find part header_end) h = Ran (leave id part h).
Proof.
  intros [Hok Hr] Hb Hpm Hmore. destruct (render_request_lines _ _ _ _ _ _ _ Hr) as (t & Ht & E). rewrite E in *.
  assert (Z.of_nat (length (o_msg o)) < u64_mod) by (rewrite length_app in Hb; pose proof vector_max_lt; lia).
  set (lines := request_lines fmt_uint (o_address o) (o_route o) (o_headers o) (o_msg o) t) in *.
  assert (Forall line_ok lines) as Hl by by eapply request_lines_ok.
  assert (∀ k, (length k < length (o_msg o))%nat →
    parseRequest (head_of lines ++ k) (length (head_of lines)) = (ParseFailed INCOMPLETEREQUEST, Z.of_nat (length (head_of lines))))
    as Hinc by (intros k Hk; by apply (request_incomplete fmt_uint (o_address o) (o_method o))).
  apply app_eq_app in Hpm as (k & [[-> Hk]|[Hk ->]]).
  - (* the head has arrived, a part [k] of the body too *)
    destruct (find_head lines k) as (p & -> & Ep); [done|done|]. unfold turn. rewrite Ep.
    rewrite Hinc; [done|].
    apply (f_equal length) in Hk. rewrite length_app in Hk. destruct more; [done|simpl in Hk; lia].
  - (* the head is not complete *)
    destruct (decide (k = [])) as [->|Hne].
    + rewrite app_nil_r in Hk. subst part. destruct (find_head lines []) as (p & Hp & Ep); [done|done|].
      rewrite app_nil_r in Hp. rewrite Hp. unfold turn. rewrite Ep, <- (app_nil_r (head_of lines)) at 1.
      rewrite Hinc; [done|].
      simpl in Hmore. destruct (o_msg o); [done|simpl; lia].
    + by rewrite (find_part lines part k).
Qed.

Lemma stream_cons o os : stream (o :: os) = o_bytes o ++ stream os.
Proof. done. Qed.
Lemma out_bytes_ne o : out_ok o → o_bytes o ≠ [].
Proof.
  intros [_ Hr]. destruct (render_request_lines _ _ _ _ _ _ _ Hr) as (t & _ & ->).
  intros [H _]%app_eq_nil. apply (f_equal length) in H. rewrite head_of_eq, length_app in H. simpl in H. lia.
Qed.

(** A prefix of two texts reaches into the second one or ends in the first. *)
Lemma prefix_cases (msg more a b : cstring) :
  msg ++ more = a ++ b →
  (∃ k, msg = a ++ k ∧ k ++ more = b) ∨ (∃ k, k ≠ [] ∧ msg ++ k = a ∧ more = k ++ b).
Proof.
  intros (k & [[-> Hk]|[Hk ->]])%app_eq_app; [left; by exists k|].
  destruct (decide (k = [])) as [->|Hne]; [|right; by exists k].
  left. exists []. by rewrite Hk, !app_nil_r.
Qed.

(** ** The responses *)

Section answers.
Context (answer : HttpRequest → handler → HttpResponse).

(** The response a request gets. *)
Definition respond (h : Host) (req : HttpRequest) : HttpResponse :=
  match dfind (rq_method req) (hs_handlers h) with
  | None => status_response (status_code StatusName.not_found)
  | Some routes =>
      match find_route (rq_route req) routes with
      | Some (m, f) => answer (with_params (rm_params m (rq_route req)) req) f
      | None => empty_response
      end
  end.
Definition responses (h : Host) (os : list outgoing) : list cstring :=
  (λ o, render_response fmt_uint (respond h (received o))) <$> os.
(** What was given to the connection. *)
Definition sent_to (id : Z) (h : Host) : list cstring := snd <$> filter (λ e, e.1 = id) (hs_sent h).

(** Nothing happens to the connection: no bytes arrive, no other run ends, nothing is sent on
    it; and the routes stay.  Other connections may come and go and be served. *)
Definition quiet (id : Z) (h h' : Host) : Prop :=
  hs_handlers h' = hs_handlers h ∧ dcontains id (hs_connections h') = dcontains id (hs_connections h) ∧
  buffer id h' = buffer id h ∧ sent_to id h' = sent_to id h.
(** From [h] to [h'] the requests [dn] were answered, and [b] waits. *)
Definition answered (id : Z) (h h' : Host) (dn : list outgoing) (b : cstring) : Prop :=
  hs_handlers h' = hs_handlers h ∧ dcontains id (hs_connections h') = dcontains id (hs_connections h) ∧
  sent_to id h' = sent_to id h ++ responses h dn ∧ buffer id h' = b.
Lemma responses_handlers h h' os : hs_handlers h' = hs_handlers h → responses h' os = responses h os.
Proof. intros E. unfold responses, respond. by rewrite E. Qed.
Lemma answered_trans id h h1 h2 dn dn' b b' : answered id h h1 dn b → answered id h1 h2 dn' b' → answered id h h2 (dn ++ dn') b'.
Proof.
  intros (H1 & H2 & H3 & H4) (K1 & K2 & K3 & K4). unfold answered. rewrite K1, K2, K3, H3, (responses_handlers h h1) by done.
  unfold responses. by rewrite fmap_app, app_assoc.
Qed.
Lemma quiet_answered id h h' : quiet id h h' → answered id h h' [] (buffer id h).
Proof. intros (H1 & H2 & H3 & H4). unfold answered, responses. simpl. by rewrite app_nil_r. Qed.

Lemma sent_to_more id r (h : Host) :
  dcontains id (hs_connections h) = true → sent_to id (sendResponse fmt_uint id r h) = sent_to id h ++ [render_response fmt_uint r].
Proof. intros H. unfold sent_to, sendResponse. rewrite H. cbn [hs_sent]. rewrite filter_app, fmap_app. f_equal. by rewrite filter_cons_True. Qed.
Lemma sendResponse_same id r (h : Host) :
  hs_handlers (sendResponse fmt_uint id r h) = hs_handlers h ∧ hs_connections (sendResponse fmt_uint id r h) = hs_connections h.
Proof. unfold sendResponse. by destruct (dcontains _ _). Qed.

Notation run_of id := (resumed (quiet id) (answers_with answer)).
Lemma buffer_write_buffer id s (h : Host) : buffer id (write_buffer id s h) = s.
Proof.
  unfold buffer, write_buffer, set_buffers. simpl. rewrite dfind_dupdate, decide_True by done.
  rewrite dfind_demplace. destruct (dfind id (hs_connectionBuffers h)); simpl; [done|]. by rewrite decide_True.
Qed.
Lemma written_answered id s h : answered id h (write_buffer id s h) [] s.
Proof. unfold answered, responses. simpl. rewrite app_nil_r. split_and!; [done|done|done|]. apply buffer_write_buffer. Qed.
(** The send of a response has ended, and the loop is at its head. *)
Lemma sent_goes_on id msg pos h n r x :
  dcontains id (hs_connections h) = true → msg ≠ [] → pos ≤ Z.of_nat (length msg) →
  run_of id n (Ran (h, AtSend id msg (Some pos))) r → over r x →
  ∃ m h', quiet id h h' ∧
    run_of id m (turn fmt_uint id (drop (Z.to_nat pos) msg) (sv_find (drop (Z.to_nat pos) msg) header_end) h') r.
Proof.
  intros Hc Hne Hp [[-> ->]|(m & h' & -> & Hq & H)]%resumed_at_send Ho; [by inversion Ho| |done].
  exists m, h'. split; [done|]. cbn [send_done] in H. destruct Hq as (_ & Hq & _). rewrite Hq, Hc in H. cbn [negb] in H.
  rewrite decide_False in H by done. by rewrite (proj2 (Z.ltb_ge _ _)) in H by done.
Qed.
(** A turn that reads a request, up to the head of the loop. *)
Lemma request_goes_on id msg p req pos h n r x :
  parseRequest msg (p + 4) = (Parsed req, pos) → dcontains id (hs_connections h) = true → msg ≠ [] → pos ≤ Z.of_nat (length msg) →
  run_of id n (turn fmt_uint id msg (Some p) h) r → over r x →
  ∃ m h', hs_handlers h' = hs_handlers h ∧ dcontains id (hs_connections h') = true ∧
    sent_to id h' = sent_to id h ++ [render_response fmt_uint (respond h req)] ∧
    run_of id m (turn fmt_uint id (drop (Z.to_nat pos) msg) (sv_find (drop (Z.to_nat pos) msg) header_end) h') r.
Proof.
  intros Hp Hc Hne Hpos H Ho.
  assert (∀ n h1 resp, hs_handlers h1 = hs_handlers h → dcontains id (hs_connections h1) = true → sent_to id h1 = sent_to id h →
    run_of id n (Ran (sendResponse fmt_uint id resp h1, AtSend id msg (Some pos))) r →
    ∃ m h', hs_handlers h' = hs_handlers h ∧ dcontains id (hs_connections h') = true ∧
      sent_to id h' = sent_to id h ++ [render_response fmt_uint resp] ∧
      run_of id m (turn fmt_uint id (drop (Z.to_nat pos) msg) (sv_find (drop (Z.to_nat pos) msg) header_end) h') r) as Hs.
  { intros n1 h1 resp E1 E2 E3 H1. destruct (sendResponse_same id resp h1) as [S1 S2].
    eapply sent_goes_on in H1 as (m & h' & (Q1 & Q2 & _ & Q4) & H1); [|by rewrite S2|done|done|done].
    exists m, h'. rewrite Q1, Q2, Q4, S1, S2, sent_to_more by done. by rewrite E1, E2, E3. }
  unfold turn in H. rewrite Hp in H. unfold respond. destruct (dfind (rq_method req) (hs_handlers h)) as [routes|]; [|by eapply Hs].
  destruct (find_route (rq_route req) routes) as [[m f]|]; [|by eapply Hs].
  apply resumed_at_handler in H as [[-> ->]|(k & h1 & resp & -> & (Q1 & Q2 & Q3 & Q4) & -> & H)]; [by inversion Ho|].
  eapply Hs; [done|congruence|done|exact H].
Qed.

(** A run takes the requests that are there, in order, and leaves the rest. *)
Lemma drain id os msg more h n r x :
  Forall out_ok os → msg ++ more = stream os → Z.of_nat (length (stream os)) < vector_max →
  dcontains id (hs_connections h) = true →
  run_of id n (turn fmt_uint id msg (sv_find msg header_end) h) r → over r x →
  ∃ h' dn rest msg', x = Ran h' ∧ os = dn ++ rest ∧ msg = stream dn ++ msg' ∧ (more = [] → rest = []) ∧ answered id h h' dn msg'.
Proof.
  revert msg more h n. induction os as [|o os IH]; intros msg more h n Hok Hs Hb Hc Hr Ho.
  { apply app_eq_nil in Hs as [-> ->]. apply resumed_returned in Hr as [-> ->]. inversion Ho; subst.
    eexists _, [], [], []. split_and!; [done..|]. apply written_answered. }
  apply Forall_cons in Hok as [Hok1 Hok]. rewrite stream_cons in *. rewrite length_app in Hb.
  apply prefix_cases in Hs as [(k & -> & Hk)|(k & Hne & Hk & ->)].
  - (* the request is there *)
    destruct (turn_whole o k Hok1 ltac:(lia)) as (p & Hp & Hparse). rewrite Hp in Hr. pose proof (out_bytes_ne o Hok1) as Hne.
    eapply request_goes_on in Hr as (m & h1 & E1 & E2 & E3 & Hr); [|exact Hparse|done|by intros [E _]%app_eq_nil|rewrite length_app; lia|done].
    rewrite Nat2Z.id, drop_app_length in Hr.
    destruct (IH k more h1 m) as (h' & dn & rest & msg' & -> & -> & -> & Hrest & Ha); [done|done|lia|done|done|done|].
    exists h', (o :: dn), rest, msg'. split_and!; [done|done|by rewrite stream_cons, <- app_assoc|done|].
    destruct Ha as (K1 & K2 & K3 & K4). unfold answered. rewrite K1, K2, K3, K4, E1, E2, E3, Hc, (responses_handlers h h1) by done.
    split_and!; [done|done| |done]. by rewrite <- app_assoc.
  - (* a part of it is missing *)
    rewrite (turn_part o msg k) in Hr by (done || lia). apply resumed_returned in Hr as [-> ->]. inversion Ho; subst.
    eexists _, [], (o :: os), msg. split_and!; [done|done|done|by intros [-> _]%app_eq_nil|]. apply written_answered.
Qed.

(** ** Bytes that arrive in pieces *)

(** The receive handler of the connection gets bytes, or an event it pushed runs. *)
Inductive host_op : Type := Bytes (segment : cstring) | Run.
(** Operations on a connection, one after the other: a run is over before the next one, or more
    bytes, come.  What happens to others comes in between and while a run is suspended. *)
Inductive exec_all (id : Z) : list host_op → Host → ran Host → Prop :=
  | exec_end h : exec_all id [] h (Ran h)
  | exec_others ops h h1 x : quiet id h h1 → exec_all id ops h1 x → exec_all id ops h x
  | exec_bytes segment ops h x : exec_all id ops (receive id segment h) x → exec_all id (Bytes segment :: ops) h x
  | exec_run ops h n r h1 x :
      run_of id n (enter fmt_uint id h) r → over r (Ran h1) → exec_all id ops h1 x → exec_all id (Run :: ops) h x
  | exec_failed ops h n r e :
      run_of id n (enter fmt_uint id h) r → over r (Failed e) → exec_all id (Run :: ops) h (Failed e).
(** What arrives in the course of the operations. *)
Definition arrived (ops : list host_op) : cstring :=
  ops ≫= λ o, match o with Bytes segment => segment | Run => [] end.

Lemma run_answers id os more h n r x :
  Forall out_ok os → buffer id h ++ more = stream os → Z.of_nat (length (stream os)) ≤ buffer_limit →
  dcontains id (hs_connections h) = true → run_of id n (enter fmt_uint id h) r → over r x →
  ∃ h' dn rest b, x = Ran h' ∧ os = dn ++ rest ∧ b ++ more = stream rest ∧ (more = [] → rest = []) ∧ answered id h h' dn b.
Proof.
  intros Hok Hs Hb Hc Hr Ho. unfold enter in Hr.
  assert (length (buffer id h) ≤ length (stream os))%nat by (rewrite <- Hs, length_app; lia).
  rewrite (proj2 (Z.ltb_ge _ _)) in Hr by lia. cbn zeta in Hr.
  eapply (drain id os (buffer id h) more) in Hr as (h' & dn & rest & b & -> & -> & E & Hrest & Ha);
    [|done|done|unfold buffer_limit, vector_max in *; lia|done|done].
  exists h', dn, rest, b. split_and!; [done|done| |done|].
  - rewrite E, <- app_assoc in Hs. unfold stream in Hs. rewrite fmap_app, concat_app in Hs. by apply app_inv_head in Hs.
  - apply (answered_trans id h _ h' [] dn _ _ (written_answered id (buffer id h) h) Ha).
Qed.
Lemma exec_all_answers id ops h x os more :
  exec_all id ops h x → Forall out_ok os → buffer id h ++ arrived ops ++ more = stream os →
  Z.of_nat (length (stream os)) ≤ buffer_limit → dcontains id (hs_connections h) = true →
  ∃ h' dn rest b, x = Ran h' ∧ os = dn ++ rest ∧ b ++ more = stream rest ∧ (last ops = Some Run → more = [] → rest = []) ∧
    answered id h h' dn b.
Proof.
  intros He. revert os. induction He as [h|ops h h1 x Hq He IH|segment ops h x He IH|ops h n r h1 x Hr Ho He IH|ops h n r e Hr Ho]; intros os Hok Hs Hb Hc.
  - exists h, [], os, (buffer id h). split_and!; [done|done|done|done|]. by apply quiet_answered.
  - destruct Hq as (Q1 & Q2 & Q3 & Q4). rewrite <- Q3 in Hs. destruct (IH os Hok Hs Hb ltac:(congruence)) as (h' & dn & rest & b & -> & -> & Hrs & Hl & Ha).
    exists h', dn, rest, b. split_and!; [done..|]. apply (answered_trans id h h1 h' [] dn (buffer id h) b); [by apply quiet_answered|done].
  - destruct (IH os Hok) as (h' & dn & rest & b & -> & -> & Hrs & Hl & Ha); [|done|done|].
    + unfold receive. rewrite buffer_write_buffer, <- app_assoc, <- Hs. unfold arrived. simpl. by rewrite <- app_assoc.
    + exists h', dn, rest, b. split_and!; [done..|intros Hlast; apply Hl; by destruct ops|].
      apply (answered_trans id h _ h' [] dn _ _ (written_answered id _ h) Ha).
  - destruct (run_answers id os (arrived ops ++ more) h n r (Ran h1) Hok Hs Hb Hc Hr Ho) as (h1' & dn & rest & b & [= <-] & -> & Hrs & Hmore & Ha).
    apply Forall_app in Hok as [_ Hok]. unfold stream in Hb. rewrite fmap_app, concat_app, length_app in Hb.
    destruct Ha as (A1 & A2 & A3 & A4). destruct (IH rest Hok) as (h' & dn' & rest' & b' & -> & -> & Hr' & Hl & Ha');
      [by rewrite A4|unfold stream; lia|by rewrite A2|].
    exists h', (dn ++ dn'), rest', b'. split_and!; [done|by rewrite app_assoc|done| |by eapply answered_trans].
    intros Hlast ->. destruct ops as [|o ops]; [|by apply Hl]. by destruct (app_eq_nil dn' rest' (Hmore eq_refl)).
  - destruct (run_answers id os (arrived ops ++ more) h n r (Failed e) Hok Hs Hb Hc Hr Ho) as (h1' & dn & rest & b & ? & _). done.
Qed.

(** There is such an execution: the one in which what is awaited is there at once. *)
Lemma resumed_mono (env env' : Host → Host → Prop) ans n r r' :
  (∀ h h', env h h' → env' h h') → resumed env ans n r r' → resumed env' ans n r r'.
Proof. intros He. induction 1; [apply resumed_here|eapply resumed_handler; eauto|eapply resumed_send; eauto]. Qed.
Lemma quiet_refl id h h' : h = h' → quiet id h h'.
Proof. by intros ->. Qed.
Lemma exec_all_exists id ops h : ∃ x, exec_all id ops h x.
Proof.
  revert h. induction ops as [|[segment|] ops IH]; intros h.
  - eexists. apply exec_end.
  - destruct (IH (receive id segment h)) as [x Hx]. exists x. by apply exec_bytes.
  - destruct (serve_resumed answer id h) as (n & r & Hr & Ho). apply (resumed_mono _ (quiet id)) in Hr; [|apply quiet_refl].
    destruct (serve answer id h) as [h1|e]; [|exists (Failed e); by eapply exec_failed].
    destruct (IH h1) as [x Hx]. exists x. by eapply exec_run.
Qed.

(** Requests that arrive on a connection, cut into pieces anywhere, with runs of
    [receiveRequestHandler] anywhere in between, are answered in order, one
    response each, as soon as the handler has run once after the last piece; nothing
    is left in the buffer. *)
Lemma server_answers id os ops h x :
  Forall out_ok os → arrived ops = stream os → Z.of_nat (length (stream os)) ≤ buffer_limit →
  dcontains id (hs_connections h) = true → buffer id h = [] → exec_all id (ops ++ [Run]) h x →
  ∃ h', x = Ran h' ∧ sent_to id h' = sent_to id h ++ responses h os ∧ buffer id h' = [].
Proof.
  intros Hok Ha Hb Hc He Hx.
  destruct (exec_all_answers id _ h x os [] Hx Hok) as (h' & dn & rest & b & -> & -> & Hr & Hl & (_ & _ & H3 & H4)); [|done|done|].
  - rewrite He, app_nil_r. unfold arrived in *. by rewrite bind_app, app_nil_r.
  - rewrite Hl in * by (done || by rewrite last_snoc). rewrite app_nil_r in *. exists h'. split_and!; [done|done|]. by rewrite H4, Hr.
Qed.
End answers.
End serve.
