(* ===== verification/HttpResponses.v ===== *)
(** * HTTP responses from the server to the client

    What [HttpHostService::sendResponse] writes,
    [HttpConnectionService::parseResponse] reads back; and as long as a part of the
    response is missing the client waits for it. *)

From Stdlib Require Import Ascii String.
From stdpp Require Import base list sets strings.
From Stdlib Require Import ZArith Lia.
From S2P Require Import Prelude.
From S2P Require Import DenseMap.
From S2P Require Import StringUtils.
From S2P Require Import HttpCommon.
From S2P Require Import HttpText.
From S2P Require Import HttpHost.
From S2P Require Import HttpConnection.
From S2P Require Import HttpRequests.

Open Scope Z_scope.

(** Behind the first line only the characters of the lines matter. *)
Definition later (s : response_parse) : Prop := sp_lineNo s ≠ 0%nat.
Lemma response_line_later s v : later s → later (response_line s v).
Proof.
  unfold later. destruct s. simpl. intros H. destruct (_ || _); [done|]. rewrite decide_False by done.
  destruct (decide (sv_size v ≠ 0%nat)); [|done]. destruct (decide _); [done|]. by destruct (chunk_line _ _ _ _) as [[[[? ?] ?] ?] ?].
Qed.
Lemma response_line_content s v :
  later s → (sv_size v ≤ length (sv_data v))%nat → response_line s v = response_line s (view_of (content v)).
Proof.
  intros Hs Hv. assert (sv_size (view_of (content v)) = sv_size v) as E.
  { unfold content. simpl. rewrite length_take. lia. }
  unfold later in Hs. destruct s. simpl in Hs. unfold response_line. rewrite E, (split_view_content v COLON) by done.
  rewrite content_view_of. rewrite !(decide_False (P := _ = 0%nat)) by done. done.
Qed.

(** ** The lines of a response *)

(** A response without chunks, in front of a line: what differs is the headers, the
    counters and the length. *)
Definition plain (st : HttpStatus) (hs : Headers) (n crlf : nat) (L cl : Z) (clSet : bool) : response_parse :=
  mkSP st [] hs n crlf (wrap64 L) cl 0 ChunkNONE false false clSet false false false false.

(** The words behind the status change nothing. *)
Lemma status_words_ignored ws n m st :
  (2 ≤ n)%nat →
  ∃ n', fold_left status_word ws (mkStatusLine false n m st) = mkStatusLine false n' m st.
Proof.
  revert n. induction ws as [|w ws IH]; intros n Hn; [by exists n|]. destruct n as [|[|n]]; [lia|lia|]. simpl. apply IH. lia.
Qed.

Lemma status_words_read (fmt_uint : Z → cstring) st text rest :
  prints_decimal fmt_uint → 100 ≤ st ≤ 599 →
  let line := str "HTTP/1.1 " ++ fmt_uint st ++ SP ++ text in
  ∃ n, fold_left status_word (split (mkView (line ++ rest) (length line)) SP false) (mkStatusLine false 0 false 0) =
       mkStatusLine false n true st.
Proof.
  intros Hfmt Hst line. destruct (Hfmt st ltac:(unfold u64_mod; lia)) as (Hne & Hd & Hv).
  destruct (decimal_value fmt_uint st Hfmt ltac:(unfold u64_mod; lia)) as (_ & _ & _ & Hno).
  assert (line = terminated SP [ICHOR_HTTP_VERSION_MATCH; fmt_uint st] ++ text) as ->.
  { subst line. by rewrite !terminated_cons, <- !app_assoc. }
  assert (Forall (clean SP) [ICHOR_HTTP_VERSION_MATCH; fmt_uint st]) as Hcl.
  { rewrite !Forall_cons. split_and!; [|by apply clean_first, Hno|done].
    apply clean_first. apply (bool_decide_eq_true_1 (" "%char ∉ ICHOR_HTTP_VERSION_MATCH)). reflexivity. }
  unfold split. cbn [sv_data sv_size]. rewrite <- app_assoc.
  rewrite split_loop_pieces; [|done|done|rewrite length_app, !terminated_cons, !length_app; simpl; lia].
  rewrite fold_left_app. cbn [views fold_left].
  assert (∀ v, content v = ICHOR_HTTP_VERSION_MATCH → status_word (mkStatusLine false 0 false 0) v = mkStatusLine false 1 false 0) as H1.
  { intros v E. simpl. by rewrite E. }
  assert (∀ v, content v = fmt_uint st → FastAtoiu (sv_data v) = st →
    status_word (mkStatusLine false 1 false 0) v = mkStatusLine false 2 true st) as H2.
  { intros v E1 E2. simpl. rewrite E1, E2, Hd. rewrite bool_decide_false by done. simpl.
    destruct (Z.ltb_spec st 100); [lia|]. destruct (Z.ltb_spec 599 st); [lia|]. done. }
  rewrite H1, H2; [by apply status_words_ignored| | |].
  - unfold content. cbn [sv_size sv_data]. rewrite terminated_cons, <- app_assoc. apply take_app_length.
  - cbn [sv_data]. rewrite terminated_cons, <- !app_assoc, FastAtoiu_digits by done. rewrite Hv.
    apply Z.mod_small. unfold u64_mod. lia.
  - unfold content. cbn [sv_size sv_data]. rewrite terminated_cons, <- app_assoc. apply take_app_length.
Qed.
Lemma status_line_read (fmt_uint : Z → cstring) st text line rest :
  prints_decimal fmt_uint → 100 ≤ st ≤ 599 → line = str "HTTP/1.1 " ++ fmt_uint st ++ SP ++ text →
  response_line response_start (mkView (line ++ rest) (length line)) =
  plain st [] 1 1 (Z.of_nat (length line) + 2) 0 false.
Proof.
  intros Hfmt Hst Hline. destruct (status_words_read fmt_uint st text rest Hfmt Hst) as [n Hn]. rewrite <- Hline in Hn.
  unfold response_line, response_start, plain. cbn [orb]. rewrite decide_True by done. rewrite Hn.
  cbn [t_status t_badRequest t_matchedStatus orb negb sv_size]. f_equal. apply (wrap64_add 0).
Qed.

Definition transfer_encoding : cstring := str "Transfer-Encoding".

Lemma response_header_read st hs n crlf L cl clSet kv :
  header_ok kv → kv.1 ≠ content_length → kv.1 ≠ transfer_encoding → kv.1 ∉ dkeys hs →
  response_line (plain st hs (S n) crlf L cl clSet) (view_of (header_text kv)) =
  plain st (hs ++ [kv]) (S (S n)) 1 (L + Z.of_nat (length (header_text kv) + 2)) cl clSet.
Proof.
  intros Hok Hcl Hte Hfresh. destruct (header_line_ok kv Hok) as [Hne _].
  unfold response_line, plain. cbn [sv_size view_of orb]. rewrite decide_False by done.
  rewrite decide_True by (destruct (header_text kv); [done|simpl; lia]). rewrite decide_True by auto.
  rewrite header_words by done. cbn [fold_left response_header_word]. rewrite !decide_False by done.
  cbn [fold_left response_header_word]. rewrite andb_false_r.
  rewrite demplace_fresh by done. destruct kv. simpl. f_equal. rewrite wrap64_add. f_equal. simpl. lia.
Qed.

Lemma response_length_read st hs n crlf L value :
  IsOnlyDigits value = true → header_ok (content_length, value) → content_length ∉ dkeys hs →
  response_line (plain st hs (S n) crlf L 0 false) (view_of (header_text (content_length, value))) =
  plain st (hs ++ [(content_length, value)]) (S (S n)) 1
    (L + Z.of_nat (length (header_text (content_length, value)) + 2)) (FastAtoiu_view (view_of value)) true.
Proof.
  intros Hd Hok Hfresh. destruct (header_line_ok _ Hok) as [Hne _].
  unfold response_line, plain. cbn [sv_size view_of orb]. rewrite decide_False by done.
  rewrite decide_True by (destruct (header_text (content_length, value)); [done|simpl; lia]). rewrite decide_True by auto.
  rewrite header_words by done. cbn [fold_left response_header_word fst snd]. rewrite decide_True by done.
  cbn [fold_left response_header_word]. rewrite Hd, demplace_fresh by done. simpl. f_equal. rewrite wrap64_add. f_equal. simpl. lia.
Qed.

Lemma response_headers_read st hs hs' n L cl clSet :
  Forall header_ok hs' → content_length ∉ dkeys hs' → transfer_encoding ∉ dkeys hs' → dwf (hs ++ hs') →
  fold_left response_line (view_of <$> (header_text <$> hs')) (plain st hs (S n) 1 L cl clSet) =
  plain st (hs ++ hs') (S n + length hs') 1 (L + Z.of_nat (length (terminated CRLF (header_text <$> hs')))) cl clSet.
Proof.
  revert hs n L. induction hs' as [|kv hs' IH]; intros hs n L Hok Hcl Hte Hwf.
  { simpl. by rewrite app_nil_r, Nat.add_0_r, Z.add_0_r. }
  apply Forall_cons in Hok as [Hkv Hok]. cbn [fmap list_fmap fold_left].
  unfold dwf, dkeys in *. rewrite fmap_app in Hwf. cbn [fmap list_fmap] in Hwf, Hcl, Hte.
  rewrite response_header_read; [|done|set_solver|set_solver|].
  2:{ apply NoDup_app in Hwf as (_ & Hwf & _). set_solver. }
  rewrite IH; [|done|set_solver|set_solver|by rewrite fmap_app, fmap_app, <- app_assoc].
  rewrite <- app_assoc. cbn [app length]. f_equal; [lia|].
  rewrite terminated_cons, !length_app. simpl. lia.
Qed.

(** The end of a head: the length of the body, if there is one, and the empty line. *)
Lemma response_end_read fmt_uint body st hs n L :
  prints_decimal fmt_uint → Z.of_nat (length body) < u64_mod → content_length ∉ dkeys hs →
  fold_left response_line (view_of <$> ((header_text <$> length_header fmt_uint body) ++ [[]])) (plain st hs (S n) 1 L 0 false) =
  plain st (hs ++ length_header fmt_uint body) (S (S n + length (length_header fmt_uint body))) 2
    (L + Z.of_nat (length (terminated CRLF (header_text <$> length_header fmt_uint body)) + 2))
    (Z.of_nat (length body)) (bool_decide (body ≠ [])).
Proof.
  intros Hfmt Hsize Hfresh. pose proof (length_header_ok fmt_uint body Hfmt Hsize) as Hlok.
  assert (∀ hs n L cl clSet, response_line (plain st hs (S n) 1 L cl clSet) (view_of []) = plain st hs (S (S n)) 2 (L + 2) cl clSet) as He.
  { intros hs' n' L' cl clSet. unfold response_line, plain. cbn [orb]. rewrite decide_False by done. cbn [sv_size view_of length].
    rewrite decide_False by lia. cbn [andb]. f_equal. rewrite wrap64_add. done. }
  unfold length_header in *. destruct body as [|x body'] eqn:Eb.
  - cbn [fmap list_fmap app fold_left]. rewrite He, app_nil_r. rewrite bool_decide_false by (intros H; by apply H).
    f_equal; simpl; lia.
  - rewrite <- Eb in *. destruct (decimal_value fmt_uint (Z.of_nat (length body)) Hfmt ltac:(lia)) as (Hv & Hd & _ & _).
    apply Forall_cons in Hlok as [Hlok _]. cbn [fmap list_fmap app fold_left].
    rewrite response_length_read, Hv, He by done. rewrite bool_decide_true by (by rewrite Eb).
    f_equal; [simpl; lia|]. rewrite (terminated_cons CRLF _ []), !length_app. simpl. lia.
Qed.

(** ** A response *)

Lemma status_text_ok st : CR ∉ status_text st.
Proof.
  unfold status_text. destruct (dfind st ICHOR_STATUS_MATCHING) as [t|] eqn:E.
  - apply dfind_Some_In in E. assert (Forall (λ e, CR ∉ e.2) ICHOR_STATUS_MATCHING) as H.
    { apply (bool_decide_eq_true_1 (Forall (λ e : HttpStatus * cstring, CR ∉ e.2) ICHOR_STATUS_MATCHING)). vm_compute. reflexivity. }
    rewrite Forall_forall in H. by apply (H (st, t)).
  - apply (bool_decide_eq_true_1 (CR ∉ str "Unknown")). reflexivity.
Qed.

Section response.
Context (fmt_uint : Z → cstring) (r : HttpResponse).

(** The headers [sendResponse] sends, but the length. *)
Definition typed_headers : Headers :=
  rs_headers r ++ match rs_contentType r with Some t => [(str "Content-Type", t)] | None => [] end.

(** A response that text can carry. *)
Definition response_ok : Prop :=
  100 ≤ rs_status r ≤ 599 ∧ Forall header_ok typed_headers ∧ dwf typed_headers ∧
  content_length ∉ dkeys typed_headers ∧ transfer_encoding ∉ dkeys typed_headers.

Definition status_line_text : cstring := str "HTTP/1.1 " ++ fmt_uint (rs_status r) ++ SP ++ status_text (rs_status r).
Definition response_lines : list cstring :=
  status_line_text :: (header_text <$> typed_headers ++ length_header fmt_uint (rs_body r)).

Lemma render_response_lines : render_response fmt_uint r = head_of response_lines ++ rs_body r.
Proof.
  unfold render_response, response_lines, status_line_text.
  assert (∀ kv, render_header kv = terminated CRLF (header_text <$> [kv])) as Hr.
  { intros kv. unfold render_header, terminated, header_text. simpl. by rewrite app_nil_r, <- !app_assoc. }
  unfold typed_headers, length_header. change (str "Content-Length: ") with (content_length ++ COLON).
  rewrite head_of_eq, terminated_cons, !fmap_app, !terminated_app, render_headers_terminated.
  destruct (rs_contentType r) as [t|], (rs_body r) as [|x body]; rewrite <- ?Hr; unfold render_header;
    cbn [fst snd]; by rewrite <- ?app_assoc.
Qed.

Context (Hfmt : prints_decimal fmt_uint) (Hok : response_ok) (Hsize : Z.of_nat (length (rs_body r)) < u64_mod).

Lemma response_lines_ok : Forall line_ok response_lines.
Proof.
  destruct Hok as (Hst & Hh & _). constructor.
  - split; [done|]. unfold status_line_text. rewrite !elem_of_app. intros [H|[H|[H|H]]].
    + revert H. apply (bool_decide_eq_true_1 (CR ∉ str "HTTP/1.1 ")). reflexivity.
    + revert H. by apply (decimal_value fmt_uint (rs_status r) Hfmt ltac:(unfold u64_mod; lia)).
    + unfold SP in H. set_solver.
    + by apply status_text_ok in H.
  - apply Forall_fmap. eapply Forall_impl; [|exact header_line_ok].
    apply Forall_app_2; [done|]. by apply length_header_ok.
Qed.

Lemma response_first_line first more rest s :
  fold_left response_line (views CRLF (first :: more) rest) s =
  fold_left response_line (views CRLF more rest)
    (response_line s (mkView (first ++ CRLF ++ terminated CRLF more ++ rest) (length first))).
Proof. cbn [views fold_left]. by rewrite terminated_cons, <- !app_assoc. Qed.

(** The parser after the head of the response. *)
Lemma response_head_read rest :
  fold_left response_line (split (mkView (head_of response_lines ++ rest) (length (head_of response_lines))) CRLF false)
    response_start =
  plain (rs_status r) (typed_headers ++ length_header fmt_uint (rs_body r)) (S (length response_lines)) 2
    (Z.of_nat (length (head_of response_lines))) (Z.of_nat (length (rs_body r))) (bool_decide (rs_body r ≠ [])).
Proof.
  destruct Hok as (Hst & Hh & Hw & Hcl & Hte). rewrite split_head by apply response_lines_ok. unfold response_lines at 1.
  rewrite <- app_comm_cons, response_first_line, (status_line_read fmt_uint (rs_status r) (status_text (rs_status r))) by done.
  rewrite (fold_views later); [|apply views_in_bounds|done|apply response_line_later|apply response_line_content].
  rewrite content_views, (fmap_app header_text), <- app_assoc, (fmap_app view_of), fold_left_app.
  rewrite response_headers_read, response_end_read by done. rewrite head_of_eq. unfold response_lines.
  rewrite terminated_cons, fmap_app, terminated_app, !length_app. cbn [length]. rewrite length_app, !length_fmap.
  f_equal. change (length CRLF) with 2%nat. lia.
Qed.

(** What the client makes of the response: the body is followed by a NUL, and what
    the server kept apart is a header. *)
Definition response_read : HttpResponse :=
  mkResponse (rs_status r) None (rs_body r ++ [NUL]) (typed_headers ++ length_header fmt_uint (rs_body r)).

(** Once the body has arrived the response is read; until then the client waits. *)
Lemma response_complete rest :
  Z.of_nat (length (head_of response_lines ++ rs_body r)) < vector_max →
  parseResponse (head_of response_lines ++ rs_body r ++ rest) (length (head_of response_lines)) =
  (Parsed response_read, Z.of_nat (length (head_of response_lines ++ rs_body r))).
Proof.
  intros Hb. unfold parseResponse. rewrite response_head_read. pose proof vector_max_lt.
  cbn [plain sp_threw sp_crlfCounter sp_badRequest sp_contentLengthSet sp_protocolLength sp_contentLength sp_chunkedTransfer
    sp_chunkedStatus sp_status sp_headers sp_body andb].
  rewrite length_app in Hb. rewrite wrap64_small, wrap64_small by (rewrite ?wrap64_small; lia).
  rewrite !length_app. rewrite (proj2 (Z.ltb_ge _ _)) by lia. rewrite andb_false_r. cbn [Nat.ltb Nat.leb orb].
  rewrite take_body_complete by lia. rewrite wrap64_small by lia. f_equal. lia.
Qed.
Lemma response_incomplete part :
  Z.of_nat (length (head_of response_lines ++ rs_body r)) < vector_max → (length part < length (rs_body r))%nat →
  parseResponse (head_of response_lines ++ part) (length (head_of response_lines)) =
  (ParseFailed INCOMPLETEREQUEST, Z.of_nat (length (head_of response_lines))).
Proof.
  intros Hb Hp. unfold parseResponse. rewrite response_head_read. pose proof vector_max_lt.
  cbn [plain sp_threw sp_crlfCounter sp_badRequest sp_contentLengthSet sp_protocolLength sp_contentLength sp_chunkedTransfer
    sp_chunkedStatus sp_status sp_headers sp_body andb].
  rewrite length_app in Hb. rewrite wrap64_small by (rewrite ?wrap64_small; lia). rewrite wrap64_small by lia.
  rewrite length_app. rewrite (proj2 (Z.ltb_lt _ _)) by lia.
  rewrite bool_decide_true by (destruct (rs_body r); [simpl in Hp; lia|done]). done.
Qed.
End response.

(** A response that is there, and one of which a part is missing. *)
Lemma response_whole fmt_uint r rest :
  prints_decimal fmt_uint → response_ok r → Z.of_nat (length (render_response fmt_uint r)) < vector_max →
  ∃ p, sv_find (render_response fmt_uint r ++ rest) header_end = Some p ∧
    parseResponse (render_response fmt_uint r ++ rest) (p + 4) =
    (Parsed (response_read fmt_uint r), Z.of_nat (length (render_response fmt_uint r))).
Proof.
  intros Hfmt Hok Hb. rewrite render_response_lines in *.
  assert (Z.of_nat (length (rs_body r)) < u64_mod) as Hm by (rewrite length_app in Hb; pose proof vector_max_lt; lia).
  rewrite <- app_assoc. destruct (find_head (response_lines fmt_uint r) (rs_body r ++ rest)) as (p & Hp & E); [done| |].
  { by apply response_lines_ok. }
  exists p. split; [done|]. rewrite E. by apply response_complete.
Qed.

(** The client reads every response the server writes with a status from 100 to
    599: status, headers and body, the body followed by a NUL, whatever comes behind
    the response in the buffer, of which nothing is taken. *)
Theorem response_roundtrip fmt_uint r rest :
  prints_decimal fmt_uint → response_ok r → Z.of_nat (length (render_response fmt_uint r)) < vector_max →
  ∃ p, sv_find (render_response fmt_uint r ++ rest) header_end = Some p ∧
    parseResponse (render_response fmt_uint r ++ rest) (p + 4) =
    (Parsed (response_read fmt_uint r), Z.of_nat (length (render_response fmt_uint r))).
Proof. apply response_whole. Qed.
