(* ===== verification/HttpClient.v ===== *)
(** * The HTTP client as a whole

    Responses that arrive on the connection, cut into pieces in any way, go to the
    requests in the order in which they were sent. *)

From Stdlib Require Import Ascii String.
From stdpp Require Import base list sets strings.
From Stdlib Require Import ZArith Lia.
From S2P Require Import Prelude.
From S2P Require Import DenseMap.
From S2P Require Import StringUtils.
From S2P Require Import HttpCommon.
From S2P Require Import HttpText.
From S2P Require Import HttpHost.
From S2P Require Import HttpConnection.
From S2P Require Import HttpRequests.
From S2P Require Import HttpServer.
From S2P Require Import HttpResponses.

Open Scope Z_scope.

(** ** Requests that wait *)

(** The requests [a], ..., [a + m - 1] wait, the last one is the newest. *)
Definition waiting (c : Client) (a m : nat) : Prop :=
  cl_events c = (λ n, (n, false)) <$> seq a m ∧ cl_next c = (a + m)%nat.

Section client.
Context (fmt_uint : Z → cstring) (react : nat → reply → nat).

Lemma mark_front a m :
  (λ e' : nat * bool, if decide (e'.1 = a) then (e'.1, true) else e') <$> ((λ n, (n, false)) <$> seq a (S m)) =
  (a, true) :: ((λ n, (n, false)) <$> seq (S a) m).
Proof.
  cbn [seq fmap list_fmap fst]. rewrite decide_True by done. f_equal. rewrite <- list_fmap_compose.
  apply list_fmap_ext. intros i n Hn. simpl. apply lookup_seq in Hn as [-> _]. rewrite decide_False by lia. done.
Qed.

(** A response goes to the oldest request; what its code sends queues up behind. *)
Lemma answer_front_waiting r c a m :
  waiting c a (S m) →
  waiting (answer_front react r c) (S a) (m + react a r) ∧
  cl_delivered (answer_front react r c) = cl_delivered c ++ [(a, r)].
Proof.
  intros [He Hn]. unfold answer_front. rewrite He. cbn [seq fmap list_fmap].
  unfold set_reply. cbn [snd fst]. unfold send_more, set_events, waiting.
  cbn [cl_events cl_next cl_delivered]. rewrite He, mark_front, Hn. cbn [app tail]. split_and!; [|lia|done].
  rewrite <- fmap_app. f_equal. replace (a + S m)%nat with (S a + m)%nat by lia. by rewrite <- seq_app.
Qed.

(** ** A sequence of responses *)

Definition answers (rs : list HttpResponse) : cstring := concat (render_response fmt_uint <$> rs).
Definition reply_of (r : HttpResponse) : reply := inr (response_read fmt_uint r).
(** The [i]-th response is for request [a + i]. *)
Definition replies (a : nat) (rs : list HttpResponse) : list (nat * reply) :=
  zip (seq a (length rs)) (reply_of <$> rs).

Context (Hfmt : prints_decimal fmt_uint).

Lemma part_waits r part more c fuel fuel_all :
  response_ok r → Z.of_nat (length (render_response fmt_uint r)) < vector_max →
  part ++ more = render_response fmt_uint r → more ≠ [] → (length part < fuel)%nat →
  receive_loop react fuel fuel_all part (sv_find part header_end) c = Ran (set_buffer part c).
Proof.
  intros Hok Hb Hpm Hmore Hf. rewrite render_response_lines in *.
  assert (Z.of_nat (length (rs_body r)) < u64_mod) by (rewrite length_app in Hb; pose proof vector_max_lt; lia).
  pose proof (response_lines_ok fmt_uint r Hfmt Hok ltac:(done)) as Hl.
  destruct fuel as [|fuel]; [lia|]. apply prefix_cases in Hpm as [(k & -> & Hk)|(k & Hne & Hk & ->)].
  - destruct (find_head (response_lines fmt_uint r) k) as (p & -> & Ep); [done|done|]. cbn [receive_loop]. rewrite Ep.
    rewrite response_incomplete; [done..|]. apply (f_equal length) in Hk. rewrite length_app in Hk.
    destruct more; [done|simpl in Hk; lia].
  - by rewrite (find_part (response_lines fmt_uint r) part k).
Qed.

Lemma client_drain rs msg more c fuel fuel_all a m :
  Forall response_ok rs → msg ++ more = answers rs → Z.of_nat (length (answers rs)) < vector_max →
  waiting c a m → (length rs ≤ m)%nat → (length msg < fuel)%nat →
  ∃ dn rest msg' c' m', rs = dn ++ rest ∧ msg = answers dn ++ msg' ∧ (more = [] → rest = []) ∧
    receive_loop react fuel fuel_all msg (sv_find msg header_end) c = Ran (set_buffer msg' c') ∧
    waiting c' (a + length dn) m' ∧ (length rest ≤ m')%nat ∧ cl_delivered c' = cl_delivered c ++ replies a dn.
Proof.
  revert msg more c fuel a m. induction rs as [|r rs IH]; intros msg more c fuel a m Hok Hs Hb Hw Hm Hf.
  { apply app_eq_nil in Hs as [-> ->]. exists [], [], [], c, m. cbn [length]. rewrite Nat.add_0_r.
    split_and!; [done|done|done|by destruct fuel|done|lia|]. simpl. by rewrite app_nil_r. }
  apply Forall_cons in Hok as [Hr Hok]. change (answers (r :: rs)) with (render_response fmt_uint r ++ answers rs) in *.
  rewrite length_app in Hb. apply prefix_cases in Hs as [(k & -> & Hk)|(k & Hne & Hk & ->)].
  - destruct (response_whole fmt_uint r k Hfmt Hr ltac:(lia)) as (p & -> & Hp).
    destruct fuel as [|fuel]; [lia|]. cbn [receive_loop]. rewrite Hp. rewrite length_app in *.
    rewrite (proj2 (Z.ltb_ge _ _)) by lia. rewrite Nat2Z.id, drop_app_length. cbn zeta.
    destruct m as [|m]; [simpl in Hm; lia|].
    destruct (answer_front_waiting (reply_of r) c a m Hw) as (Hw1 & Hd1). simpl in Hm.
    assert (1 ≤ length (render_response fmt_uint r))%nat by (unfold render_response; simpl; lia).
    destruct (IH k more (answer_front react (reply_of r) c) fuel (S a) (m + react a (reply_of r))%nat)
      as (dn & rest & msg' & c' & m' & -> & -> & Hrest & E & Hw' & Hm' & Hd'); [done|done|lia|done|lia|lia|].
    exists (r :: dn), rest, msg', c', m'. split_and!; [done| |done|exact E| |done|].
    + change (answers (r :: dn)) with (render_response fmt_uint r ++ answers dn). by rewrite <- app_assoc.
    + replace (a + length (r :: dn))%nat with (S a + length dn)%nat by (simpl; lia). done.
    + rewrite Hd', Hd1, <- app_assoc. done.
  - exists [], (r :: rs), msg, c, m. rewrite (part_waits r msg k) by (done || lia).
    cbn [length] in *. rewrite Nat.add_0_r. split_and!; [done|done|by intros [-> _]%app_eq_nil|done|done|done|].
    simpl. by rewrite app_nil_r.
Qed.

(** The pieces, one receive handler call each. *)
Fixpoint receive_all (fuel_all : nat) (segments : list cstring) (c : Client) : ran Client :=
  match segments with
  | [] => Ran c
  | s :: segments' => match receiveHandler react fuel_all s c with Ran c' => receive_all fuel_all segments' c' | Failed e => Failed e end
  end.

(** What the operations of a client leave behind. *)
Lemma receive_all_answers segments rs more c a m fuel_all :
  Forall response_ok rs → cl_buffer c ++ concat segments ++ more = answers rs →
  Z.of_nat (length (answers rs)) ≤ buffer_limit → waiting c a m → (length rs ≤ m)%nat →
  ∃ c' dn rest m', receive_all fuel_all segments c = Ran c' ∧ rs = dn ++ rest ∧ cl_buffer c' ++ more = answers rest ∧
    (more = [] → segments ≠ [] → rest = []) ∧ waiting c' (a + length dn) m' ∧ cl_delivered c' = cl_delivered c ++ replies a dn.
Proof.
  revert rs c a m. induction segments as [|s segments IH]; intros rs c a m Hok Hs Hb Hw Hm.
  { exists c, [], rs, m. cbn [length]. rewrite Nat.add_0_r. split_and!; [done..|]. simpl. by rewrite app_nil_r. }
  simpl in Hs. rewrite <- app_assoc, app_assoc in Hs. cbn [receive_all]. unfold receiveHandler.
  assert (length (cl_buffer c ++ s) ≤ length (answers rs))%nat by (rewrite <- Hs, !length_app; lia).
  rewrite (proj2 (Z.ltb_ge _ _)) by lia.
  destruct (client_drain rs (cl_buffer c ++ s) (concat segments ++ more) (set_buffer (cl_buffer c ++ s) c)
    (S (length (cl_buffer c ++ s))) fuel_all a m) as (dn & rest & msg' & c1 & m1 & -> & E & Hend & -> & Hw1 & Hm1 & Hd1);
    [done|done|unfold buffer_limit, vector_max in *; lia|done|done|lia|].
  apply Forall_app in Hok as [_ Hok]. unfold answers in Hb. rewrite fmap_app, concat_app, length_app in Hb.
  assert (msg' ++ concat segments ++ more = answers rest) as Hrest.
  { rewrite E, <- app_assoc in Hs. unfold answers in Hs. rewrite fmap_app, concat_app in Hs. by apply app_inv_head in Hs. }
  destruct (IH rest (set_buffer msg' c1) (a + length dn)%nat m1 Hok)
    as (c' & dn' & rest' & m' & E' & -> & Hr' & Hend' & Hw' & Hd'); [done|unfold answers; lia|done|done|].
  exists c', (dn ++ dn'), rest', m'. rewrite E'. split_and!; [done|by rewrite app_assoc|done| | |].
  - intros -> _. destruct segments; [|by apply Hend']. by apply app_eq_nil in Hend as [_ ->].
  - rewrite length_app, Nat.add_assoc. done.
  - rewrite Hd'. cbn [set_buffer cl_delivered]. rewrite Hd1, <- app_assoc. f_equal. unfold replies.
    rewrite length_app, seq_app, fmap_app, zip_with_app by (by rewrite length_seq, length_fmap). done.
Qed.

Lemma client_delivers segments rs c a m fuel_all :
  Forall response_ok rs → cl_buffer c = [] → concat segments = answers rs →
  Z.of_nat (length (answers rs)) ≤ buffer_limit → waiting c a m → (length rs ≤ m)%nat →
  ∃ c' m', receive_all fuel_all segments c = Ran c' ∧ cl_delivered c' = cl_delivered c ++ replies a rs ∧
    waiting c' (a + length rs) m' ∧ cl_buffer c' = [].
Proof.
  intros Hok He Hs Hb Hw Hm.
  destruct (receive_all_answers segments rs [] c a m fuel_all Hok) as (c' & dn & rest & m' & E & -> & Hr & Hend & Hw' & Hd);
    [by rewrite He, app_nil_r|done|done|done|].
  assert (rest = []) as ->.
  { destruct segments; [|by apply Hend]. destruct rest as [|r rest]; [done|]. simpl in Hs. symmetry in Hs.
    unfold answers in Hs. rewrite fmap_app, concat_app in Hs. apply app_eq_nil in Hs as [_ Hs]. simpl in Hs. by destruct (rs_status r). }
  rewrite app_nil_r in *. by exists c', m'.
Qed.

(** The responses to requests that wait, cut into pieces anywhere, are delivered
    one to each request, in the order in which the requests were sent, whatever
    requests the code that gets them sends meanwhile; nothing is left in the buffer. *)
Theorem client_delivers_in_order segments rs c a m fuel_all :
  Forall response_ok rs → cl_buffer c = [] → concat segments = answers rs →
  Z.of_nat (length (answers rs)) ≤ buffer_limit → waiting c a m → (length rs ≤ m)%nat →
  ∃ c' m', receive_all fuel_all segments c = Ran c' ∧ cl_delivered c' = cl_delivered c ++ replies a rs ∧
    waiting c' (a + length rs) m' ∧ cl_buffer c' = [].
Proof. apply client_delivers. Qed.
End client.
