(* ===== verification/HttpChunks.v ===== *)
(** * Chunked responses

    A response whose body comes in chunks is read when the last chunk is there, and
    its body is the chunks put together, as long as no chunk contains CR LF. *)

From Stdlib Require Import Ascii String.
From stdpp Require Import base list sets strings.
From Stdlib Require Import ZArith Lia.
From S2P Require Import Prelude.
From S2P Require Import DenseMap.
From S2P Require Import StringUtils.
From S2P Require Import HttpCommon.
From S2P Require Import HttpText.
From S2P Require Import HttpHost.
From S2P Require Import HttpConnection.
From S2P Require Import HttpRequests.
From S2P Require Import HttpResponses.

Open Scope Z_scope.

(** The parser within a chunked response. *)
Definition chunked (st : HttpStatus) (hs : Headers) (body : cstring) (n crlf : nat) (L ck : Z) (status : ChunkParseStatus)
    : response_parse :=
  mkSP st body hs n crlf (wrap64 L) 0 ck status false false false false true true false.

Lemma transfer_encoding_read st hs n crlf L value :
  header_ok (transfer_encoding, value) → is_Some (sv_find value (str "chunked")) → transfer_encoding ∉ dkeys hs →
  response_line (plain st hs (S n) crlf L 0 false) (view_of (header_text (transfer_encoding, value))) =
  chunked st (hs ++ [(transfer_encoding, value)]) [] (S (S n)) 1
    (L + Z.of_nat (length (header_text (transfer_encoding, value)) + 2)) 0 ChunkNONE.
Proof.
  intros Hok Hc Hfresh. destruct (header_line_ok _ Hok) as [Hne _].
  unfold response_line, plain, chunked. cbn [sv_size view_of orb]. rewrite decide_False by done.
  rewrite decide_True by (destruct (header_text (transfer_encoding, value)); [done|simpl; lia]). rewrite decide_True by auto.
  rewrite header_words by done. cbn [fold_left response_header_word fst snd].
  rewrite decide_False by done. rewrite decide_True by done. cbn [fold_left response_header_word].
  rewrite bool_decide_true by done. rewrite demplace_fresh by done. simpl. f_equal. rewrite wrap64_add. f_equal. simpl. lia.
Qed.

Lemma empty_line_read st hs body n crlf L ck status :
  response_line (chunked st hs body (S n) crlf L ck status) (view_of []) =
  chunked st hs body (S (S n)) (S crlf) (L + 2) ck (if decide (status = ChunkDONE) then ChunkDONE else ChunkLENGTH).
Proof.
  unfold response_line, chunked. cbn [orb]. rewrite decide_False by done. cbn [sv_size view_of length].
  rewrite decide_False by lia. cbn [andb]. rewrite wrap64_add. by destruct status.
Qed.

(** A line behind the head that is not empty. *)
Lemma chunk_line_read st hs body n crlf L ck status line body' ck' status' :
  line ≠ [] → status = ChunkLENGTH ∨ status = ChunkCONTENT →
  chunk_line line body ck status = (body', ck', status', false, false) →
  response_line (chunked st hs body (S n) crlf L ck status) (view_of line) =
  chunked st hs body' (S (S n)) 1 (L + Z.of_nat (length line + 2)) ck' status'.
Proof.
  intros Hne Hst Hl. unfold response_line, chunked. cbn [orb]. rewrite decide_False by done. cbn [sv_size view_of].
  rewrite decide_True by (destruct line; [done|simpl; lia]).
  rewrite decide_False by (destruct Hst as [-> | ->]; intros [|]; done). fold (view_of line). rewrite content_view_of, Hl. f_equal.
  rewrite wrap64_add. f_equal. lia.
Qed.

(** ** Chunks *)

(** A chunk: the line with its length, and the content. *)
Definition chunk_ok (c : cstring * cstring) : Prop :=
  SafeHexToUint c.1 = Some (Z.of_nat (length c.2)) ∧ c.2 ≠ [] ∧ CR ∉ c.1 ∧ CR ∉ c.2.
Definition chunk_lines (cs : list (cstring * cstring)) : list cstring := cs ≫= λ c, [c.1; c.2].
Definition chunks_body (cs : list (cstring * cstring)) : cstring := concat cs.*2.

Lemma chunk_ok_lines c : chunk_ok c → line_ok c.1 ∧ line_ok c.2.
Proof.
  intros (Hh & Hne & H1 & H2). split; split; try done. intros E. rewrite E in Hh. simpl in Hh.
  destruct (c.2); [done|]. injection Hh as Hh. lia.
Qed.

Lemma chunk_read st hs body n crlf L ck c :
  chunk_ok c → Z.of_nat (length body + length c.2 + 2) ≤ vector_max →
  fold_left response_line (view_of <$> [c.1; c.2]) (chunked st hs body (S n) crlf L ck ChunkLENGTH) =
  chunked st hs (body ++ c.2) (S (S (S n))) 1 (L + Z.of_nat (length (terminated CRLF [c.1; c.2]))) 0 ChunkLENGTH.
Proof.
  intros Hok Hsize. destruct (chunk_ok_lines c Hok) as [[Hh _] [Hc _]]. destruct Hok as (Hhex & _).
  pose proof vector_max_lt. set (k := Z.of_nat (length c.2)) in *.
  assert (0 < k) by (subst k; destruct (c.2); [done|simpl; lia]). cbn [fmap list_fmap fold_left].
  rewrite (chunk_line_read _ _ body _ _ _ _ _ c.1 body (k + 2) ChunkCONTENT); [|done|by left|].
  2:{ unfold chunk_line. rewrite Hhex. destruct k as [|k'|k'] eqn:Ek; try lia. rewrite <- Ek in *.
      rewrite (wrap64_small (k + 2)) by lia. rewrite wrap64_small by lia. rewrite (proj2 (Z.ltb_ge _ _)) by lia. done. }
  rewrite (chunk_line_read _ _ body _ _ _ _ _ c.2 (body ++ c.2) 0 ChunkLENGTH); [|done|by right|].
  2:{ unfold chunk_line. fold k. rewrite (wrap64_small (k + 2)) by lia. rewrite Z.ltb_irrefl, Z.sub_diag. done. }
  f_equal. rewrite !terminated_cons, !length_app. simpl. lia.
Qed.

Lemma chunks_read st hs cs body n crlf L ck :
  Forall chunk_ok cs → Z.of_nat (length body + length (terminated CRLF (chunk_lines cs))) ≤ vector_max →
  ∃ crlf' ck', fold_left response_line (view_of <$> chunk_lines cs) (chunked st hs body (S n) crlf L ck ChunkLENGTH) =
  chunked st hs (body ++ chunks_body cs) (S n + length (chunk_lines cs)) crlf'
    (L + Z.of_nat (length (terminated CRLF (chunk_lines cs)))) ck' ChunkLENGTH.
Proof.
  revert body n crlf L ck. induction cs as [|c cs IH]; intros body n crlf L ck Hok Hsize.
  { exists crlf, ck. simpl. by rewrite app_nil_r, Nat.add_0_r, Z.add_0_r. }
  apply Forall_cons in Hok as [Hc Hok]. change (chunk_lines (c :: cs)) with ([c.1; c.2] ++ chunk_lines cs) in *.
  rewrite terminated_app, length_app in *. rewrite fmap_app, fold_left_app.
  assert (length (terminated CRLF [c.1; c.2]) = length c.1 + length c.2 + 4)%nat as El
    by (rewrite !terminated_cons, !length_app; simpl; lia).
  rewrite chunk_read by (done || lia).
  destruct (IH (body ++ c.2) (S (S n)) 1%nat (L + Z.of_nat (length (terminated CRLF [c.1; c.2]))) 0) as (crlf' & ck' & E);
    [done|rewrite length_app; lia|].
  exists crlf', ck'. rewrite E. unfold chunks_body. cbn [fmap list_fmap concat]. rewrite <- app_assoc.
  f_equal; [simpl; lia|]. rewrite length_app. lia.
Qed.

(** ** A chunked response *)

Section chunked_response.
Context (fmt_uint : Z → cstring) (st : HttpStatus) (text : cstring) (hs : Headers) (value : cstring).
Context (cs : list (cstring * cstring)).

Definition chunked_head : list cstring :=
  (str "HTTP/1.1 " ++ fmt_uint st ++ SP ++ text) :: (header_text <$> hs ++ [(transfer_encoding, value)]).
Definition chunked_tail : list cstring := chunk_lines cs ++ [str "0"].

(** A response as a server sends it: status line, headers, the last one announcing
    chunks; then the chunks and the last chunk, of length 0. *)
Definition chunked_text : cstring := head_of chunked_head ++ head_of chunked_tail.

Definition chunked_ok : Prop :=
  100 ≤ st ≤ 599 ∧ CR ∉ text ∧ Forall header_ok hs ∧ dwf hs ∧ content_length ∉ dkeys hs ∧ transfer_encoding ∉ dkeys hs ∧
  header_ok (transfer_encoding, value) ∧ is_Some (sv_find value (str "chunked")) ∧ Forall chunk_ok cs.

Context (Hfmt : prints_decimal fmt_uint) (Hok : chunked_ok).

Lemma chunked_head_ok : Forall line_ok chunked_head.
Proof.
  destruct Hok as (Hst & Ht & Hh & _ & _ & _ & Hte & _). constructor.
  - split; [done|]. rewrite !elem_of_app. intros [H|[H|[H|H]]]; [| | |done].
    + revert H. apply (bool_decide_eq_true_1 (CR ∉ str "HTTP/1.1 ")). reflexivity.
    + revert H. by apply (decimal_value fmt_uint st Hfmt ltac:(unfold u64_mod; lia)).
    + unfold SP in H. set_solver.
  - apply Forall_fmap. eapply Forall_impl; [|exact header_line_ok]. apply Forall_app_2; [done|]. by apply Forall_singleton.
Qed.
Lemma chunked_tail_ok : Forall line_ok chunked_tail ∧ chunked_tail ≠ [].
Proof.
  destruct Hok as (_ & _ & _ & _ & _ & _ & _ & _ & Hc). unfold chunked_tail. split; [|by destruct (chunk_lines cs)].
  apply Forall_app_2.
  - unfold chunk_lines. clear -Hc. induction Hc as [|c cs Hc _ IH]; [done|]. simpl.
    destruct (chunk_ok_lines c Hc). by repeat apply Forall_cons_2.
  - apply Forall_singleton. split; [done|]. apply (bool_decide_eq_true_1 (CR ∉ str "0")). reflexivity.
Qed.

(** The parser after the head. *)
Lemma chunked_head_read rest :
  fold_left response_line (views CRLF (chunked_head ++ [[]]) rest) response_start =
  chunked st (hs ++ [(transfer_encoding, value)]) [] (S (length chunked_head)) 2 (Z.of_nat (length (head_of chunked_head))) 0 ChunkLENGTH.
Proof.
  destruct Hok as (Hst & Ht & Hh & Hw & Hcl & Hte & Hv & Hc & _). unfold chunked_head at 1.
  rewrite <- app_comm_cons, response_first_line, (status_line_read fmt_uint st text) by done.
  rewrite (fold_views later); [|apply views_in_bounds|done|apply response_line_later|apply response_line_content].
  rewrite content_views, (fmap_app header_text), <- app_assoc, (fmap_app view_of), fold_left_app.
  rewrite response_headers_read by done. cbn [fmap list_fmap app fold_left].
  rewrite transfer_encoding_read, empty_line_read by done. rewrite decide_False by done.
  assert (length chunked_head = S (length hs + 1)) as -> by (unfold chunked_head; simpl; by rewrite length_fmap, length_app).
  assert (length (head_of chunked_head) = length (str "HTTP/1.1 " ++ fmt_uint st ++ SP ++ text) + 2 +
    length (terminated CRLF (header_text <$> hs)) + (length (header_text (transfer_encoding, value)) + 2) + 2)%nat as ->.
  { rewrite head_of_eq. unfold chunked_head. rewrite terminated_cons, fmap_app, terminated_app, !(length_app _ CRLF), !(length_app _ (CRLF ++ _)).
    cbn [fmap list_fmap]. rewrite (terminated_cons CRLF _ []), !(length_app CRLF), !(length_app (terminated _ _)), (length_app (header_text _)).
    simpl (length (CRLF ++ _)). simpl (length CRLF). lia. }
  f_equal; lia.
Qed.

Lemma chunked_views rest :
  split (mkView (chunked_text ++ rest) (length chunked_text)) CRLF false =
  views CRLF (chunked_head ++ [[]]) (head_of chunked_tail ++ rest) ++ views CRLF (chunked_tail ++ [[]]) rest.
Proof.
  unfold chunked_text, head_of. rewrite <- terminated_app, <- views_app. apply split_terminated; [done|].
  apply Forall_app_2; apply lines_clean; [apply chunked_head_ok|apply chunked_tail_ok].
Qed.

(** The parser after the whole response. *)
Lemma chunked_text_read rest :
  Z.of_nat (length chunked_text) < vector_max →
  ∃ n ck, fold_left response_line (split (mkView (chunked_text ++ rest) (length chunked_text)) CRLF false) response_start =
    chunked st (hs ++ [(transfer_encoding, value)]) (chunks_body cs ++ [NUL]) n 2 (Z.of_nat (length chunked_text)) ck ChunkDONE.
Proof.
  intros Hsize. rewrite chunked_views, fold_left_app, chunked_head_read.
  rewrite (fold_views later); [|apply views_in_bounds|done|apply response_line_later|apply response_line_content].
  rewrite content_views. unfold chunked_text, chunked_tail in *. rewrite length_app, (head_of_eq (chunk_lines cs ++ _)), terminated_app in Hsize |- *.
  rewrite <- app_assoc, (fmap_app view_of), fold_left_app, !(length_app _ CRLF), !(length_app (terminated _ _)) in *.
  destruct (chunks_read st (hs ++ [(transfer_encoding, value)]) cs [] (length chunked_head) 2
    (Z.of_nat (length (head_of chunked_head))) 0) as (crlf' & ck' & ->); [apply Hok|simpl; lia|].
  cbn [fmap list_fmap app fold_left Nat.add]. eexists _, 0.
  rewrite (chunk_line_read _ _ (chunks_body cs) _ _ _ _ _ (str "0") (chunks_body cs ++ [NUL]) 0 ChunkDONE); [|done|by left|done].
  rewrite empty_line_read, decide_True by done. f_equal. rewrite (terminated_cons CRLF _ []). simpl (length (str "0" ++ _)).
  simpl (length CRLF). simpl (length (str "0")). lia.
Qed.
End chunked_response.

(** A chunked response is waited for until its last chunk is there, and then its
    body is the contents of the chunks, followed by a NUL, if no content contains
    CR; nothing behind it is taken. *)
Theorem chunked_response_read fmt_uint st text hs value cs rest :
  prints_decimal fmt_uint → chunked_ok st text hs value cs →
  let response := chunked_text fmt_uint st text hs value cs in
  Z.of_nat (length response) < vector_max →
  ∃ p p', sv_find (response ++ rest) header_end = Some p ∧
    parseResponse (response ++ rest) (p + 4) = (ParseFailed CHUNKED, Z.of_nat (p + 4)) ∧
    sv_find_from (response ++ rest) header_end (p + 4) = Some p' ∧
    parseResponse (response ++ rest) (p' + 4) =
      (Parsed (mkResponse st None (chunks_body cs ++ [NUL]) (hs ++ [(transfer_encoding, value)])), Z.of_nat (length response)).
Proof.
  intros Hfmt Hok response Hsize. set (head := chunked_head fmt_uint st text hs value). set (tail := chunked_tail cs).
  assert (response = head_of head ++ head_of tail) as Er by done.
  pose proof (chunked_head_ok fmt_uint st text hs value cs Hfmt Hok) as Hh.
  destruct (chunked_tail_ok st text hs value cs Hok) as [Ht Hne].
  destruct (find_head head (head_of tail ++ rest)) as (p & Hp & Ep); [done|done|].
  destruct (find_head tail rest) as (p2 & Hp2 & Ep2); [done|done|].
  exists p, (length (head_of head) + p2)%nat. rewrite Er, <- app_assoc. split_and!; [done| | |].
  - rewrite Ep. unfold parseResponse. rewrite split_head by done. subst head. by rewrite (chunked_head_read fmt_uint st text hs value cs).
  - unfold sv_find_from. rewrite Ep, length_app, (proj2 (Nat.ltb_ge _ _)) by lia. by rewrite drop_app_length, Hp2.
  - replace (length (head_of head) + p2 + 4)%nat with (length response) by (rewrite Er, length_app; lia).
    rewrite app_assoc, <- Er. destruct (chunked_text_read fmt_uint st text hs value cs Hfmt Hok rest Hsize) as (n & ck & E).
    fold response in E. unfold parseResponse. by rewrite E.
Qed.
