(* ===== verification/HttpAnomalies.v ===== *)
(** * HTTP: where the code does not do what it means to

    Requests that are handled twice, a response that the client cannot read, a
    response that the client never gets past, and bytes of chunks that are lost. *)

From Stdlib Require Import Ascii String.
From stdpp Require Import base list sets strings.
From Stdlib Require Import ZArith Lia.
From S2P Require Import Prelude.
From S2P Require Import DenseMap.
From S2P Require Import StringUtils.
From S2P Require Import HttpCommon.
From S2P Require Import HttpText.
From S2P Require Import HttpConnection.
From S2P Require Import HttpHost.
From S2P Require Import HttpRequests.
From S2P Require Import HttpServer.
From S2P Require Import HttpResponses.
From S2P Require Import HttpClient.
From S2P Require Import HttpChunks.

Open Scope Z_scope.

(** ** The server *)

Section server.
Context {handler : Type} (fmt_uint : Z → cstring) (Hfmt : prints_decimal fmt_uint).

(** A run that starts with a request whose route is known stops at its handler, with
    the buffer as it was. *)
Lemma enter_at_handler id (h : @Host handler) o rest routes m f :
  out_ok fmt_uint o → buffer id h = o_bytes o ++ rest → Z.of_nat (length (o_bytes o ++ rest)) ≤ buffer_limit →
  dfind (o_method o) (hs_handlers h) = Some routes → find_route (o_route o) routes = Some (m, f) →
  enter fmt_uint id h =
  Ran (write_buffer id (buffer id h) h,
       AtHandler id (with_params (rm_params m (o_route o)) (received fmt_uint o)) f (o_bytes o ++ rest) (Z.of_nat (length (o_bytes o)))).
Proof.
  intros Ho Hb Hl Hm Hf. unfold enter. rewrite Hb, (proj2 (Z.ltb_ge _ _)) by done. cbn zeta. rewrite length_app in Hl.
  destruct (turn_whole fmt_uint Hfmt o rest Ho ltac:(unfold buffer_limit, vector_max in *; lia)) as (p & -> & Hp).
  unfold turn. rewrite Hp. cbn [rq_method rq_route received]. simpl (hs_handlers _). by rewrite Hm, Hf.
Qed.

(** while a handler is awaited, the next run of [receiveRequestHandler] for the
    same connection, pushed for every piece that arrives, takes the same request
    again: the bytes leave the buffer only when a run ends. *)
Theorem request_handled_twice id (h : @Host handler) o rest routes m f :
  out_ok fmt_uint o → buffer id h = o_bytes o ++ rest → Z.of_nat (length (o_bytes o ++ rest)) ≤ buffer_limit →
  dfind (o_method o) (hs_handlers h) = Some routes → find_route (o_route o) routes = Some (m, f) →
  let again := AtHandler id (with_params (rm_params m (o_route o)) (received fmt_uint o)) f (o_bytes o ++ rest)
                 (Z.of_nat (length (o_bytes o))) in
  ∃ h1 h2, enter fmt_uint id h = Ran (h1, again) ∧ enter fmt_uint id h1 = Ran (h2, again).
Proof.
  intros Ho Hb Hl Hm Hf again. eexists _, _. split; [by eapply enter_at_handler|].
  rewrite (enter_at_handler id _ o rest routes m f); [done|done| |done|done|done].
  by rewrite buffer_write_buffer.
Qed.
End server.

(** What [sendResponse] makes of [HttpResponse resp{}]. *)
Definition status_zero (fmt_uint : Z → cstring) : cstring := str "HTTP/1.1 " ++ fmt_uint 0 ++ str " Unknown" ++ header_end.
Lemma render_empty_response fmt_uint : render_response fmt_uint empty_response = status_zero fmt_uint.
Proof. done. Qed.

Section unmatched.
Context (fmt_uint : Z → cstring) (Hfmt : prints_decimal fmt_uint) (H0 : fmt_uint 0 = str "0").

Lemma find_status_zero more : sv_find (status_zero fmt_uint ++ more) header_end = Some 18%nat.
Proof. unfold status_zero. rewrite H0. reflexivity. Qed.
Lemma parse_status_zero more : parseResponse (status_zero fmt_uint ++ more) (18 + 4) = (ParseFailed BADREQUEST, 22).
Proof. unfold status_zero. rewrite H0. reflexivity. Qed.

(** a request for a route that no handler of its method matches is answered, but
    not with 404: with the status 0, and the client takes that for a bad response. *)
Theorem unmatched_route_is_unreadable {handler : Type} (answer : HttpRequest → handler → HttpResponse) id (h : Host) o routes more :
  out_ok fmt_uint o → buffer id h = o_bytes o → Z.of_nat (length (o_bytes o)) ≤ buffer_limit →
  dcontains id (hs_connections h) = true →
  dfind (o_method o) (hs_handlers h) = Some routes → find_route (o_route o) routes = None →
  (∃ h', serve fmt_uint answer id h = Ran h' ∧ sent_to id h' = sent_to id h ++ [status_zero fmt_uint]) ∧
  (∃ p len, sv_find (status_zero fmt_uint ++ more) header_end = Some p ∧
     parseResponse (status_zero fmt_uint ++ more) (p + 4) = (ParseFailed BADREQUEST, len)).
Proof.
  intros Ho Hb Hl Hc Hm Hf. split.
  - destruct (serve_resumed fmt_uint answer id h) as (n & r & Hr & Hv).
    apply (resumed_mono fmt_uint _ (quiet id)) in Hr; [|apply quiet_refl].
    destruct (run_answers fmt_uint Hfmt answer id [o] [] h n r (serve fmt_uint answer id h)) as (h' & dn & rest & b & E & Ed & _ & Hrest & (_ & _ & Hs & _));
      [by constructor|unfold stream; simpl; by rewrite Hb, app_nil_r|unfold stream; simpl; by rewrite app_nil_r|done|exact Hr|exact Hv|].
    rewrite Hrest, app_nil_r in Ed by done. subst dn. exists h'. split; [done|]. rewrite Hs. f_equal. simpl.
    unfold respond. cbn [rq_method rq_route received]. by rewrite Hm, Hf.
  - exists 18%nat, 22. split; [apply find_status_zero|apply parse_status_zero].
Qed.
End unmatched.

(** ** The client *)

Definition no_react : nat → reply → nat := λ _ _, 0%nat.

Lemma answer_all_waiting r c a m :
  waiting c a m →
  ∃ c', answer_all no_react m r c = Ran c' ∧ cl_events c' = [] ∧
    cl_delivered c' = cl_delivered c ++ ((λ n, (n, r)) <$> seq a m).
Proof.
  revert c a. induction m as [|m IH]; intros c a Hw.
  { exists c. destruct Hw as [He _]. simpl in He. cbn [answer_all]. rewrite He. cbn [seq fmap list_fmap]. by rewrite app_nil_r. }
  destruct (answer_front_waiting no_react r c a m Hw) as [Hw' Hd]. rewrite Nat.add_0_r in Hw'.
  destruct (IH _ _ Hw') as (c' & E & He' & Hd'). exists c'. split_and!; [|done|by rewrite Hd', Hd, <- app_assoc].
  cbn [answer_all]. destruct (cl_events c) eqn:Ee; [|done]. destruct Hw as [Hw _]. by rewrite Ee in Hw.
Qed.

(** a response that cannot be read stays at the front of the buffer, and all that
    comes later stays behind it: whatever arrives, good responses too, every request
    that waits is answered with an error. *)
Theorem bad_response_stays fmt_uint c a m more bytes :
  fmt_uint 0 = str "0" → waiting c a m → cl_buffer c = status_zero fmt_uint ++ more →
  Z.of_nat (length (cl_buffer c ++ bytes)) ≤ buffer_limit →
  ∃ c', receiveHandler no_react m bytes c = Ran c' ∧ cl_events c' = [] ∧
    cl_delivered c' = cl_delivered c ++ ((λ n, (n, inl BADREQUEST)) <$> seq a m) ∧
    cl_buffer c' = status_zero fmt_uint ++ more ++ bytes.
Proof.
  intros H0 Hw Hb Hl. unfold receiveHandler. rewrite (proj2 (Z.ltb_ge _ _)) by done.
  rewrite Hb, <- app_assoc, find_status_zero by done. cbn [receive_loop]. rewrite parse_status_zero by done.
  destruct (answer_all_waiting (inl BADREQUEST) (set_buffer (status_zero fmt_uint ++ more ++ bytes) c) a m)
    as (c' & -> & He & Hd); [done|]. by exists (set_buffer (status_zero fmt_uint ++ more ++ bytes) c').
Qed.

(** a line break within a chunk is counted, but it is not put into the body. *)
Theorem chunk_loses_line_breaks st hs body n crlf L ck size l1 l2 :
  SafeHexToUint size = Some (Z.of_nat (length (l1 ++ CRLF ++ l2))) → l1 ≠ [] → l2 ≠ [] →
  Z.of_nat (length body + length (l1 ++ CRLF ++ l2) + 2) ≤ vector_max →
  fold_left response_line (view_of <$> [size; l1; l2]) (chunked st hs body (S n) crlf L ck ChunkLENGTH) =
  chunked st hs (body ++ l1 ++ l2) (S (S (S (S n)))) 1 (L + Z.of_nat (length (terminated CRLF [size; l1; l2]))) 0 ChunkLENGTH.
Proof.
  intros Hs H1 H2 Hl. pose proof vector_max_lt. assert (length (l1 ++ CRLF ++ l2) = length l1 + length l2 + 2)%nat as El
    by (rewrite !length_app; simpl; lia). rewrite El in *.
  assert (0 < length l1 ∧ 0 < length l2)%nat by (destruct l1, l2; simpl; done || lia).
  assert (size ≠ []) by (intros ->; simpl in Hs; injection Hs; lia).
  cbn [fmap list_fmap fold_left].
  rewrite (chunk_line_read _ _ body _ _ _ _ _ size body (Z.of_nat (length l1 + length l2 + 2) + 2) ChunkCONTENT); [|done|by left|].
  2:{ unfold chunk_line. rewrite Hs. set (k := Z.of_nat (length l1 + length l2 + 2)) in *.
      destruct k as [|k'|k'] eqn:Ek; try lia. rewrite <- Ek in *.
      rewrite (wrap64_small (k + 2)) by lia. rewrite wrap64_small by lia. by rewrite (proj2 (Z.ltb_ge _ _)) by lia. }
  rewrite (chunk_line_read _ _ body _ _ _ _ _ l1 (body ++ l1) (Z.of_nat (length l2) + 2) ChunkCONTENT); [|done|by right|].
  2:{ unfold chunk_line. rewrite (wrap64_small (Z.of_nat (length l1) + 2)) by lia. rewrite (proj2 (Z.ltb_ge _ _)) by lia.
      rewrite wrap64_small by lia. rewrite (proj2 (Z.eqb_neq _ _)) by lia. do 4 f_equal. lia. }
  rewrite (chunk_line_read _ _ (body ++ l1) _ _ _ _ _ l2 (body ++ l1 ++ l2) 0 ChunkLENGTH); [|done|by right|].
  2:{ unfold chunk_line. rewrite (wrap64_small (Z.of_nat (length l2) + 2)) by lia. rewrite Z.ltb_irrefl, Z.sub_diag, app_assoc. done. }
  f_equal. rewrite !terminated_cons, !length_app. simpl. lia.
Qed.
