(* ===== verification/HttpExamples.v ===== *)
(** * HTTP: the properties at concrete messages *)

From Stdlib Require Import Ascii String.
From stdpp Require Import base list sets strings.
From Stdlib Require Import ZArith Lia.
From S2P Require Import Prelude.
From S2P Require Import DenseMap.
From S2P Require Import StringUtils.
From S2P Require Import HttpCommon.
From S2P Require Import HttpText.
From S2P Require Import HttpConnection.
From S2P Require Import HttpHost.
From S2P Require Import HttpRequests.
From S2P Require Import HttpServer.
From S2P Require Import HttpResponses.
From S2P Require Import HttpClient.
From S2P Require Import HttpChunks.
From S2P Require Import HttpAnomalies.

Open Scope Z_scope.

(** Propositions that evaluate to true. *)
Ltac by_evaluation := apply (bool_decide_eq_true_1 _); vm_compute; reflexivity.

(** A request with a header and a body, and one without. *)
Definition bytes_of (r : HttpError + cstring) : cstring := match r with inr b => b | inl _ => [] end.
Definition post_message : outgoing :=
  let address := Some (str "localhost:8080") in
  let headers := [(str "Accept", str "text/plain")] in
  mkOut address HttpMethod.post (str "/messages") headers (str "hi")
    (bytes_of (render_request decimal address HttpMethod.post (str "/messages") headers (str "hi"))).
Definition get_root : outgoing :=
  mkOut None HttpMethod.get (str "/") [] [] (bytes_of (render_request decimal None HttpMethod.get (str "/") [] [])).

Lemma post_message_fits : request_ok (o_address post_message) (o_route post_message) (o_headers post_message).
Proof.
  unfold request_ok. split_and!; [by_evaluation..|]. intros a E. injection E as <-. by_evaluation.
Qed.
Lemma get_root_fits : request_ok (o_address get_root) (o_route get_root) (o_headers get_root).
Proof. unfold request_ok. split_and!; [by_evaluation..|]. intros a E. discriminate E. Qed.

Lemma request_roundtrip_witness :
  ∃ p, sv_find (o_bytes post_message ++ str "GET") header_end = Some p ∧
    parseRequest (o_bytes post_message ++ str "GET") (p + 4) =
    (Parsed (mkRequest (str "hi" ++ [NUL]) HttpMethod.post (str "/messages") [] []
      [(str "Accept", str "text/plain"); (str "Host", str "localhost:8080"); (str "Content-Length", str "2")]),
     Z.of_nat (length (o_bytes post_message))).
Proof.
  apply (request_roundtrip decimal (Some (str "localhost:8080")) HttpMethod.post (str "/messages")
    [(str "Accept", str "text/plain")] (str "hi") (o_bytes post_message) (str "GET")).
  - exact decimal_prints.
  - exact post_message_fits.
  - vm_compute. reflexivity.
  - vm_compute. reflexivity.
Defined.

(** A header whose value has ': ' in it is sent, and for the server it is a bad request. *)
Lemma colon_in_a_header :
  let bytes := bytes_of (render_request decimal None HttpMethod.get (str "/") [(str "Note", str "a: b")] []) in
  render_request decimal None HttpMethod.get (str "/") [(str "Note", str "a: b")] [] = inr bytes ∧
  sv_find bytes header_end = Some 26%nat ∧ (parseRequest bytes (26 + 4)).1 = ParseFailed BADREQUEST.
Proof. vm_compute. split_and!; reflexivity. Qed.

(** A server with a connection and a handler for one route. *)
Definition small_host : @Host nat :=
  snd (addRoute HttpMethod.post (StringRouteMatcher (str "/messages")) 5%nat
    (add_connection 7 false (Some 3) (add_host_service 3 new_host))).
Definition missing : HttpResponse := mkResponse 404 None [] [].
Definition greet : HttpRequest → nat → HttpResponse :=
  λ req _, mkResponse 200 (Some (str "text/plain")) (rq_body req) [].

(** Two requests in two pieces, of which the first run sees a part of the first request. *)
Lemma two_requests_in_pieces x :
  let s := o_bytes post_message ++ o_bytes get_root ++ [] in
  exec_all decimal greet 7 ([Bytes (take 20 s); Run; Bytes (drop 20 s)] ++ [Run]) small_host x →
  ∃ h', x = Ran h' ∧ sent_to 7 h' = sent_to 7 small_host ++ responses decimal greet small_host [post_message; get_root] ∧ buffer 7 h' = [].
Proof.
  intros s. apply (server_answers decimal decimal_prints greet 7 [post_message; get_root]
    [Bytes (take 20 s); Run; Bytes (drop 20 s)] small_host).
  - constructor; [split; [exact post_message_fits|vm_compute; reflexivity]|].
    constructor; [split; [exact get_root_fits|vm_compute; reflexivity]|constructor].
  - vm_compute. reflexivity.
  - vm_compute. discriminate.
  - vm_compute. reflexivity.
  - vm_compute. reflexivity.
Qed.
(** A run that awaits a handler, during which another connection comes, and then the send of the
    response. *)
Lemma serve_ends_witness :
  let h := HttpHost.receive 7 (o_bytes post_message) small_host in
  let h' := HttpHost.add_connection 8 false (Some 3) (write_buffer 7 (o_bytes post_message) h) in
  let r := send_done decimal (AtSend 7 (o_bytes post_message) (Some (Z.of_nat (length (o_bytes post_message)))))
             (sendResponse decimal 7 missing h') in
  resumed decimal (meanwhile 7) (λ _ _ _, True) 2 (enter decimal 7 h) r ∧
  (2 ≤ 2 * length (buffer 7 h) + 1)%nat ∧ safe r ∧ buffer 7 h = o_bytes post_message.
Proof.
  intros h h' r.
  assert (resumed decimal (meanwhile 7) (λ _ _ _, True) 2 (enter decimal 7 h) r) as Hr.
  { replace (enter decimal 7 h) with (Ran (write_buffer 7 (o_bytes post_message) h,
      AtHandler 7 (with_params [] (received decimal post_message)) 5%nat (o_bytes post_message) (Z.of_nat (length (o_bytes post_message)))))
      by (vm_compute; reflexivity).
    apply (resumed_handler decimal _ _ 1 _ h' _ _ _ _ _ missing); [split; [reflexivity|intros _; vm_compute; reflexivity]|done|].
    apply (resumed_send decimal _ _ 0 _ (sendResponse decimal 7 missing h')); [reflexivity|split; [reflexivity|done]|].
    apply resumed_here. }
  destruct (serve_ends decimal 7 h 2 r Hr) as [Hn Hs]. split_and!; [exact Hr|exact Hn|exact Hs|vm_compute; reflexivity].
Defined.

(** Responses. *)
Definition greeting : HttpResponse := mkResponse 200 (Some (str "text/plain")) (str "hello") [(str "Server", str "ichor")].
Lemma greeting_ok : response_ok greeting.
Proof. unfold response_ok. split_and!; by_evaluation. Qed.
Lemma missing_ok : response_ok missing.
Proof. unfold response_ok. split_and!; by_evaluation. Qed.

Lemma response_roundtrip_witness :
  ∃ p, sv_find (render_response decimal greeting ++ str "HTTP") header_end = Some p ∧
    parseResponse (render_response decimal greeting ++ str "HTTP") (p + 4) =
    (Parsed (response_read decimal greeting), Z.of_nat (length (render_response decimal greeting))).
Proof.
  apply (response_roundtrip decimal greeting (str "HTTP")); [exact decimal_prints|exact greeting_ok|]. vm_compute. reflexivity.
Defined.

(** A client with two requests that wait. *)
Definition small_client : Client := snd (send_end true (snd (send_end true (HttpConnection.add_connection 9 true new_client)))).

Lemma client_delivers_in_order_witness :
  let s := answers decimal [greeting; missing] in
  ∃ c' m', receive_all (λ _ _, 1%nat) 5 [take 30 s; drop 30 s] small_client = Ran c' ∧
    cl_delivered c' = cl_delivered small_client ++ replies decimal 0 [greeting; missing] ∧ waiting c' (0 + 2) m' ∧ cl_buffer c' = [].
Proof.
  intros s. apply (client_delivers_in_order decimal (λ _ _, 1%nat) decimal_prints [take 30 s; drop 30 s]
    [greeting; missing] small_client 0 2 5).
  - constructor; [exact greeting_ok|]. constructor; [exact missing_ok|constructor].
  - reflexivity.
  - vm_compute. reflexivity.
  - vm_compute. discriminate.
  - split; reflexivity.
  - apply le_n.
Defined.

Lemma chunked_response_read_witness :
  let response := chunked_text decimal 200 (str "OK") [] (str "gzip, chunked") [(str "5", str "hello"); (str "1", str "!")] in
  ∃ p p', sv_find (response ++ []) header_end = Some p ∧
    parseResponse (response ++ []) (p + 4) = (ParseFailed CHUNKED, Z.of_nat (p + 4)) ∧
    sv_find_from (response ++ []) header_end (p + 4) = Some p' ∧
    parseResponse (response ++ []) (p' + 4) =
      (Parsed (mkResponse 200 None (str "hello!" ++ [NUL]) ([] ++ [(transfer_encoding, str "gzip, chunked")])), Z.of_nat (length response)).
Proof.
  apply (chunked_response_read decimal 200 (str "OK") [] (str "gzip, chunked") [(str "5", str "hello"); (str "1", str "!")] []).
  - exact decimal_prints.
  - unfold chunked_ok, chunk_ok. split_and!; by_evaluation.
  - vm_compute. reflexivity.
Defined.

Lemma request_handled_twice_witness :
  let h := HttpHost.receive 7 (o_bytes post_message) small_host in
  let again := AtHandler 7 (with_params [] (received decimal post_message)) 5%nat (o_bytes post_message ++ [])
                 (Z.of_nat (length (o_bytes post_message))) in
  ∃ h1 h2, enter decimal 7 h = Ran (h1, again) ∧ enter decimal 7 h1 = Ran (h2, again).
Proof.
  intros h. apply (request_handled_twice decimal decimal_prints 7 h post_message []
    [(set_id 0 (StringRouteMatcher (str "/messages")), 5%nat)] (set_id 0 (StringRouteMatcher (str "/messages"))) 5%nat).
  - split; [exact post_message_fits|vm_compute; reflexivity].
  - vm_compute. reflexivity.
  - vm_compute. discriminate.
  - reflexivity.
  - vm_compute. reflexivity.
Defined.

(** A request for a route the server does not know. *)
Definition post_elsewhere : outgoing :=
  mkOut None HttpMethod.post (str "/other") [] [] (bytes_of (render_request decimal None HttpMethod.post (str "/other") [] [])).

Lemma unmatched_route_is_unreadable_witness :
  let h := HttpHost.receive 7 (o_bytes post_elsewhere) small_host in
  (∃ h', serve decimal greet 7 h = Ran h' ∧ sent_to 7 h' = sent_to 7 h ++ [status_zero decimal]) ∧
  (∃ p len, sv_find (status_zero decimal ++ []) header_end = Some p ∧
     parseResponse (status_zero decimal ++ []) (p + 4) = (ParseFailed BADREQUEST, len)).
Proof.
  intros h. apply (unmatched_route_is_unreadable decimal decimal_prints eq_refl greet 7 h post_elsewhere
    [(set_id 0 (StringRouteMatcher (str "/messages")), 5%nat)] []).
  - split; [|vm_compute; reflexivity]. unfold request_ok. split_and!; [by_evaluation..|]. intros a E. discriminate E.
  - vm_compute. reflexivity.
  - vm_compute. discriminate.
  - reflexivity.
  - reflexivity.
  - vm_compute. reflexivity.
Defined.

Lemma bad_response_stays_witness :
  let good := render_response decimal greeting in
  ∃ c', receiveHandler no_react 2 good (set_buffer (status_zero decimal ++ []) small_client) = Ran c' ∧ cl_events c' = [] ∧
    cl_delivered c' = [] ++ [(0%nat, inl BADREQUEST); (1%nat, inl BADREQUEST)] ∧ cl_buffer c' = status_zero decimal ++ [] ++ good.
Proof.
  intros good. apply (bad_response_stays decimal (set_buffer (status_zero decimal ++ []) small_client) 0 2 [] good).
  - reflexivity.
  - split; reflexivity.
  - reflexivity.
  - vm_compute. discriminate.
Defined.

Lemma chunk_loses_line_breaks_witness :
  fold_left response_line (view_of <$> [str "9"; str "ab"; str "cdefg"]) (chunked 200 [] [] 3 2 40 0 ChunkLENGTH) =
  chunked 200 [] (str "abcdefg") 6 1 (40 + Z.of_nat (length (terminated CRLF [str "9"; str "ab"; str "cdefg"]))) 0 ChunkLENGTH.
Proof.
  apply (chunk_loses_line_breaks 200 [] [] 2 2 40 0 (str "9") (str "ab") (str "cdefg")).
  - reflexivity.
  - discriminate.
  - discriminate.
  - vm_compute. discriminate.
Defined.

(** A length close to 2^64: adding the length of the head wraps around, the check
    that the body is there passes, and making room for it throws. *)
Lemma oversized_length_throws :
  enter decimal 7 (HttpHost.receive 7 (head_of [str "POST /messages HTTP/1.1"; str "Content-Length: 18446744073709551615"]) small_host)
  = Failed LengthErrorThrown.
Proof. vm_compute. reflexivity. Qed.
