(* ===== verification/Timer.v ===== *)
(** * Timers

    src/services/timer/Timer.cpp, include/ichor/services/timer/Timer.h: a timer with
    a thread of its own, which pushes an event whenever the interval has passed, and
    any number of threads that start, stop and destroy it.

    A step is what a thread does between taking [_m] and releasing it, except that
    the loop of the timer's thread, which keeps the mutex while it catches up, makes
    one step for each turn.  Where [startTimer] and the destructor let go of the mutex
    to wait for the old thread, other threads can come in between.  Times are what
    the clock says, in nanoseconds, as unbounded integers: additions that overflow
    the clock's 64 bits are not modelled. *)

From S2P Require Import Prelude.
From stdpp Require Import base list sets.
From Stdlib Require Import ZArith Lia Sorted.

Open Scope Z_scope.

Inductive TimerState : Type := STOPPED | STARTING | RUNNING | STOPPING.
#[global] Instance TimerState_eq_dec : EqDecision TimerState.
Proof. solve_decision. Defined.

(** What the thread that runs [insertEventLoop] is about to do. *)
Inductive loop_pc : Type :=
  | Begin (fireImmediately : bool)   (* take the mutex for the first time *)
  | Turn (now next : Z)              (* the head of the loop, with the mutex *)
  | Sleep (next : Z)                 (* wake up and take the mutex *)
  | Leave                            (* run the scope guard *)
  | Exited.
(** [std::thread]: its number, where it is, and whether it was joined. *)
Record thread := mkThread { th_id : nat; th_pc : loop_pc; th_joined : bool }.

(** The callback: [_fn] or [_fnAsync], of which at most one is set. *)
Inductive callback : Type := Sync (f : nat) | Async (f : nat).

Record Timer := mkTimer {
  tm_state : TimerState;
  tm_fireOnce : bool;
  tm_intervalNanosec : Z;
  tm_eventInsertionThread : option thread;
  tm_fn : option callback;
  tm_priority : Z;
  tm_quitCbs : list nat }.
Definition new_timer : Timer := mkTimer STOPPED false 1000000000 None None 1000 [].

Definition set_tm_state (s : TimerState) (t : Timer) : Timer :=
  mkTimer s (tm_fireOnce t) (tm_intervalNanosec t) (tm_eventInsertionThread t) (tm_fn t) (tm_priority t) (tm_quitCbs t).
Definition set_tm_thread (th : option thread) (t : Timer) : Timer :=
  mkTimer (tm_state t) (tm_fireOnce t) (tm_intervalNanosec t) th (tm_fn t) (tm_priority t) (tm_quitCbs t).
Definition set_tm_quitCbs (cbs : list nat) (t : Timer) : Timer :=
  mkTimer (tm_state t) (tm_fireOnce t) (tm_intervalNanosec t) (tm_eventInsertionThread t) (tm_fn t) (tm_priority t) cbs.

(** ** The members under the mutex *)

(** [setCallback], [setCallbackAsync]: [None] is [std::terminate()]. *)
Definition setCallback (k : callback) (t : Timer) : option Timer :=
  if decide (tm_state t = STOPPED)
  then Some (mkTimer (tm_state t) (tm_fireOnce t) (tm_intervalNanosec t) (tm_eventInsertionThread t) (Some k) (tm_priority t) (tm_quitCbs t))
  else None.
Definition setInterval (ns : Z) (t : Timer) : Timer :=
  mkTimer (tm_state t) (tm_fireOnce t) ns (tm_eventInsertionThread t) (tm_fn t) (tm_priority t) (tm_quitCbs t).
Definition setFireOnce (b : bool) (t : Timer) : Timer :=
  mkTimer (tm_state t) b (tm_intervalNanosec t) (tm_eventInsertionThread t) (tm_fn t) (tm_priority t) (tm_quitCbs t).
Definition setTimerPriority (p : Z) (t : Timer) : Timer :=
  mkTimer (tm_state t) (tm_fireOnce t) (tm_intervalNanosec t) (tm_eventInsertionThread t) (tm_fn t) p (tm_quitCbs t).

(** The first part of [startTimer]: whether it goes on. *)
Definition start_check (t : Timer) : bool := bool_decide (tm_state t = STOPPED ∨ tm_state t = STOPPING).
(** The second part.  A thread that was not joined must not be dropped: [None] is
    [std::terminate()]. *)
Definition start_thread (id : nat) (fireImmediately : bool) (t : Timer) : option Timer :=
  match tm_eventInsertionThread t with
  | Some (mkThread _ _ false) => None
  | _ => Some (set_tm_quitCbs [] (set_tm_thread (Some (mkThread id (Begin fireImmediately) false)) (set_tm_state STARTING t)))
  end.
(** [stopTimer(cb)]: the result, whether [cb] was called at once, and the timer. *)
Definition stopTimer (cb : option nat) (t : Timer) : bool * bool * Timer :=
  if decide (tm_state t = RUNNING ∨ tm_state t = STOPPING) then
    (true, false, set_tm_state STOPPING (match cb with Some c => set_tm_quitCbs (tm_quitCbs t ++ [c]) t | None => t end))
  else (false, bool_decide (is_Some cb), t).
(** The first part of the destructor. *)
Definition destroy_begin (t : Timer) : Timer := if decide (tm_state t = RUNNING) then set_tm_state STOPPING t else t.

(** ** [insertEventLoop] *)

(** What is pushed, with its priority and the thread that pushes it: a copy of the
    function of the timer (a [RunFunctionEventAsync] or a [RunFunctionEvent] from the
    service that asked for the timer), or the callbacks of those that stopped it (a
    [RunFunctionEvent] from service 0). *)
Inductive pushed : Type :=
  | Fired (thread : nat) (priority : Z) (fn : option callback)
  | QuitCallbacks (thread : nat) (priority : Z) (cbs : list nat).

(** One step of the thread: the time is what the clock says at its start and when it
    wakes up.  Gives the new place, the timer and what was pushed. *)
Definition loop_step (id : nat) (pc : loop_pc) (time : Z) (t : Timer) : loop_pc * Timer * list pushed :=
  match pc with
  | Begin fireImmediately =>
      let next := if fireImmediately then time else time + tm_intervalNanosec t in
      if decide (tm_state t = STARTING) then (Turn time next, set_tm_state RUNNING t, []) else (Leave, t, [])
  | Turn now next =>
      if decide (tm_state t = RUNNING) then
        if now <? next then (Sleep next, t, [])
        else if tm_fireOnce t then (Leave, set_tm_state STOPPING t, [Fired id (tm_priority t) (tm_fn t)])
        else (Turn now (next + tm_intervalNanosec t), t, [Fired id (tm_priority t) (tm_fn t)])
      else (Leave, t, [])
  | Sleep next => if decide (tm_state t = RUNNING) then (Turn time next, t, []) else (Leave, t, [])
  | Leave => (Exited, set_tm_quitCbs [] (set_tm_state STOPPED t), [QuitCallbacks id (tm_priority t) (tm_quitCbs t)])
  | Exited => (Exited, t, [])
  end.
(** Within the loop the thread keeps the mutex. *)
Definition has_mutex (th : thread) : bool := match th_pc th with Turn _ _ => true | _ => false end.

(** ** Threads that use a timer *)

(** A call of [startTimer] that has let go of the mutex: before and after it has
    waited for the old thread. *)
Inductive starting : Type := ToJoin (fireImmediately : bool) | ToLock (fireImmediately : bool).

Record timer_system := mkTS {
  ts_timer : Timer;
  ts_starting : list starting;
  ts_queue : list pushed;        (* everything pushed, oldest first *)
  ts_called : list nat;          (* callbacks called by stopTimer itself *)
  ts_given : list nat;           (* callbacks given to stopTimer *)
  ts_threads : nat;              (* threads created so far *)
  ts_terminated : bool }.

Inductive timer_action : Type :=
  | CallStart (fireImmediately : bool)
  | WaitForThread (i : nat)          (* join() of a startTimer returns *)
  | FinishStart (i : nat)
  | CallStop (cb : option nat)
  | CallSetInterval (ns : Z)
  | CallSetFireOnce (b : bool)
  | CallSetCallback (k : callback)
  | CallSetPriority (p : Z)
  | BeginDestroy
  | LoopStep (time : Z).

(** The mutex is free. *)
Definition mutex_free (t : Timer) : bool :=
  match tm_eventInsertionThread t with Some th => negb (has_mutex th) | None => true end.

Definition set_timer (t : Timer) (σ : timer_system) : timer_system :=
  mkTS t (ts_starting σ) (ts_queue σ) (ts_called σ) (ts_given σ) (ts_threads σ) (ts_terminated σ).
Definition set_starting (l : list starting) (σ : timer_system) : timer_system :=
  mkTS (ts_timer σ) l (ts_queue σ) (ts_called σ) (ts_given σ) (ts_threads σ) (ts_terminated σ).
Definition terminated_now (σ : timer_system) : timer_system :=
  mkTS (ts_timer σ) (ts_starting σ) (ts_queue σ) (ts_called σ) (ts_given σ) (ts_threads σ) true.

(** [None]: the thread has to wait. *)
Definition timer_step (a : timer_action) (σ : timer_system) : option timer_system :=
  let t := ts_timer σ in
  if ts_terminated σ then None
  else
    match a with
    | CallStart fire =>
        match tm_fn t with
        | None => Some (terminated_now σ)
        | Some _ =>
            if mutex_free t
            then Some (if start_check t then set_starting (ts_starting σ ++ [ToJoin fire]) σ else σ)
            else None
        end
    | WaitForThread i =>
        match ts_starting σ !! i with
        | Some (ToJoin fire) =>
            match tm_eventInsertionThread t with
            | Some (mkThread id Exited false) =>
                Some (set_starting (<[i := ToLock fire]> (ts_starting σ))
                  (set_timer (set_tm_thread (Some (mkThread id Exited true)) t) σ))
            | Some (mkThread _ _ false) => None
            | _ => Some (set_starting (<[i := ToLock fire]> (ts_starting σ)) σ)
            end
        | _ => None
        end
    | FinishStart i =>
        match ts_starting σ !! i with
        | Some (ToLock fire) =>
            if mutex_free t then
              match start_thread (ts_threads σ) fire t with
              | Some t' => Some (mkTS t' (delete i (ts_starting σ)) (ts_queue σ) (ts_called σ) (ts_given σ) (S (ts_threads σ)) false)
              | None => Some (terminated_now σ)
              end
            else None
        | _ => None
        end
    | CallStop cb =>
        if mutex_free t then
          let '(_, called, t') := stopTimer cb t in
          let cbs := match cb with Some c => [c] | None => [] end in
          Some (mkTS t' (ts_starting σ) (ts_queue σ) (ts_called σ ++ if called then cbs else []) (ts_given σ ++ cbs) (ts_threads σ) false)
        else None
    | CallSetInterval ns => if mutex_free t then Some (set_timer (setInterval ns t) σ) else None
    | CallSetFireOnce b => if mutex_free t then Some (set_timer (setFireOnce b t) σ) else None
    | CallSetCallback k =>
        if mutex_free t
        then Some (match setCallback k t with Some t' => set_timer t' σ | None => terminated_now σ end)
        else None
    | CallSetPriority p => if mutex_free t then Some (set_timer (setTimerPriority p t) σ) else None
    | BeginDestroy => if mutex_free t then Some (set_timer (destroy_begin t) σ) else None
    | LoopStep time =>
        match tm_eventInsertionThread t with
        | Some (mkThread id pc joined) =>
            let '(pc', t', push) := loop_step id pc time t in
            Some (mkTS (set_tm_thread (Some (mkThread id pc' joined)) t') (ts_starting σ) (ts_queue σ ++ push) (ts_called σ)
                    (ts_given σ) (ts_threads σ) false)
        | None => None
        end
    end.

Definition new_timer_system : timer_system := mkTS new_timer [] [] [] [] 0 false.
Fixpoint timer_run (l : list timer_action) (σ : timer_system) : option timer_system :=
  match l with
  | [] => Some σ
  | a :: l' => σ' ← timer_step a σ; timer_run l' σ'
  end.
Definition timer_reachable (σ : timer_system) : Prop := ∃ l, timer_run l new_timer_system = Some σ.

(** ** The invariant *)

(** State, callbacks and place of the thread belong together. *)
Definition thread_ok (t : Timer) : Prop :=
  match tm_eventInsertionThread t with
  | None => tm_state t = STOPPED ∧ tm_quitCbs t = []
  | Some th =>
      match th_pc th with
      | Exited => tm_state t = STOPPED ∧ tm_quitCbs t = []
      | Begin _ => th_joined th = false ∧ tm_state t = STARTING ∧ tm_quitCbs t = []
      | Turn _ _ => th_joined th = false ∧ tm_state t = RUNNING ∧ tm_quitCbs t = []
      | Sleep _ => th_joined th = false ∧ (tm_state t = RUNNING ∧ tm_quitCbs t = [] ∨ tm_state t = STOPPING)
      | Leave => th_joined th = false ∧ tm_state t = STOPPING
      end
  end.

Definition queued_callbacks (q : list pushed) : list nat :=
  q ≫= λ p, match p with QuitCallbacks _ _ cbs => cbs | Fired _ _ _ => [] end.
(** Callbacks that were called, are queued or will be queued. *)
Definition accounted (σ : timer_system) : list nat :=
  ts_called σ ++ queued_callbacks (ts_queue σ) ++ tm_quitCbs (ts_timer σ).

Definition pushed_by (p : pushed) : nat := match p with Fired i _ _ => i | QuitCallbacks i _ _ => i end.
(** The last thing a thread pushes are the callbacks. *)
Definition in_order (q : list pushed) : Prop :=
  ∀ q1 q2 i prio cbs, q = q1 ++ QuitCallbacks i prio cbs :: q2 → i ∉ (pushed_by <$> q2).
(** A thread that has not left its loop has not pushed them yet. *)
Definition thread_pushes (σ : timer_system) : Prop :=
  (∀ p, p ∈ ts_queue σ → (pushed_by p < ts_threads σ)%nat) ∧
  match tm_eventInsertionThread (ts_timer σ) with
  | None => True
  | Some th => (th_id th < ts_threads σ)%nat ∧ (th_pc th ≠ Exited → ∀ prio cbs, QuitCallbacks (th_id th) prio cbs ∉ ts_queue σ)
  end.

Definition timer_inv (σ : timer_system) : Prop :=
  thread_ok (ts_timer σ) ∧ ts_given σ ≡ₚ accounted σ ∧ in_order (ts_queue σ) ∧ thread_pushes σ.

Lemma timer_inv_intro σ :
  thread_ok (ts_timer σ) → ts_given σ ≡ₚ accounted σ → in_order (ts_queue σ) → thread_pushes σ → timer_inv σ.
Proof. intros H1 H2 H3 H4. exact (conj H1 (conj H2 (conj H3 H4))). Qed.
Lemma accounted_fired σ t' starting' given' n b i prio f :
  tm_quitCbs t' = tm_quitCbs (ts_timer σ) →
  accounted (mkTS t' starting' (ts_queue σ ++ [Fired i prio f]) (ts_called σ) given' n b) = accounted σ.
Proof. intros E. unfold accounted, queued_callbacks. simpl. by rewrite E, bind_app, app_nil_r. Qed.

Lemma in_order_push q p :
  in_order q → (∀ prio cbs, QuitCallbacks (pushed_by p) prio cbs ∉ q) → in_order (q ++ [p]).
Proof.
  intros Hq Hp q1 q2 i prio cbs E. destruct q2 as [|y q2] using rev_ind; [set_solver|].
  rewrite app_comm_cons, app_assoc in E. apply app_inj_tail in E as [E <-]. rewrite fmap_app, not_elem_of_app.
  split; [by eapply Hq|]. simpl. intros ->%list_elem_of_singleton. apply (Hp prio cbs). rewrite E. set_solver.
Qed.

(** Steps of the threads that use the timer push nothing and leave the thread alone. *)
Lemma timer_inv_other σ t' starting' called' given' :
  timer_inv σ → thread_ok t' → tm_eventInsertionThread t' = tm_eventInsertionThread (ts_timer σ) →
  given' ≡ₚ called' ++ queued_callbacks (ts_queue σ) ++ tm_quitCbs t' →
  timer_inv (mkTS t' starting' (ts_queue σ) called' given' (ts_threads σ) false).
Proof.
  intros (Hok & Hg & Ho & Hp1 & Hp2) Hok' Hth Hg'. split; [done|]. split; [done|]. split; [done|].
  split; [done|]. simpl. by rewrite Hth.
Qed.

(** A push of the thread itself. *)
Lemma thread_pushes_push σ id pc joined pc' p t' :
  thread_pushes σ → tm_eventInsertionThread (ts_timer σ) = Some (mkThread id pc joined) → pushed_by p = id →
  (pc' = Exited ∨ (∃ prio f, p = Fired id prio f) ∧ pc ≠ Exited) →
  thread_pushes (mkTS (set_tm_thread (Some (mkThread id pc' joined)) t') (ts_starting σ) (ts_queue σ ++ [p]) (ts_called σ)
    (ts_given σ) (ts_threads σ) false).
Proof.
  intros [Hp1 Hp2] Eth Hp Hpc. rewrite Eth in Hp2. destruct Hp2 as [Hid Hq]. simpl in *. split.
  - intros p' Hin. apply elem_of_app in Hin as [H|H]; [by apply Hp1|]. apply list_elem_of_singleton in H as ->. simpl. by rewrite Hp.
  - simpl. split; [done|]. intros Hne prio cbs. destruct Hpc as [->|[(prio' & f & ->) Hpc]]; [done|]. rewrite not_elem_of_app.
    split; [by apply Hq|]. by intros H%list_elem_of_singleton.
Qed.

Lemma thread_step_inv σ id pc joined time pc' t' push :
  timer_inv σ → tm_eventInsertionThread (ts_timer σ) = Some (mkThread id pc joined) →
  loop_step id pc time (ts_timer σ) = (pc', t', push) →
  timer_inv (mkTS (set_tm_thread (Some (mkThread id pc' joined)) t') (ts_starting σ) (ts_queue σ ++ push) (ts_called σ)
    (ts_given σ) (ts_threads σ) false).
Proof.
  intros (Hok & Hg & Ho & Hp1 & Hp2) Eth E. unfold thread_ok, accounted in *. rewrite Eth in *.
  assert (thread_pushes σ) as Hp by (split; [done|by rewrite Eth]). destruct Hp2 as [Hid Hq]. simpl in Hok, Hid, Hq.
  assert (pc ≠ Exited → push = [] → pc' ≠ Exited → thread_pushes (mkTS (set_tm_thread (Some (mkThread id pc' joined)) t')
    (ts_starting σ) (ts_queue σ ++ push) (ts_called σ) (ts_given σ) (ts_threads σ) false)) as Hquiet.
  { intros Hpc -> Hpc'. rewrite app_nil_r. split; [done|]. simpl. split; [done|]. intros _. by apply Hq. }
  destruct pc as [fire|now next|next| |]; simpl in E, Hok.
  - destruct Hok as (-> & Hst & Hcb). rewrite decide_True in E by done. simplify_eq.
    apply timer_inv_intro; [done|by rewrite app_nil_r|by rewrite app_nil_r|by apply Hquiet].
  - destruct Hok as (-> & Hst & Hcb). rewrite decide_True in E by done.
    destruct (now <? next); [|destruct (tm_fireOnce _)]; simplify_eq.
    + apply timer_inv_intro; [|by rewrite app_nil_r|by rewrite app_nil_r|by apply Hquiet].
      unfold thread_ok. simpl. auto.
    + apply timer_inv_intro; [done|by rewrite accounted_fired|by apply in_order_push; [|apply Hq]|].
      eapply thread_pushes_push; [done..|right; eauto].
    + apply timer_inv_intro; [done|by rewrite accounted_fired|by apply in_order_push; [|apply Hq]|].
      eapply thread_pushes_push; [done..|right; eauto].
  - destruct Hok as (-> & Hst). destruct (decide (tm_state (ts_timer σ) = RUNNING)) as [Hr|Hr]; simplify_eq.
    + apply timer_inv_intro; [|by rewrite app_nil_r|by rewrite app_nil_r|by apply Hquiet].
      unfold thread_ok. simpl. destruct Hst as [[_ ?]|?]; [done|congruence].
    + apply timer_inv_intro; [|by rewrite app_nil_r|by rewrite app_nil_r|by apply Hquiet].
      unfold thread_ok. simpl. destruct Hst as [[? _]|?]; [congruence|done].
  - destruct Hok as (-> & Hst). simplify_eq. apply timer_inv_intro; [done| |by apply in_order_push; [|apply Hq]|].
    + unfold accounted, queued_callbacks. simpl. rewrite bind_app. simpl. by rewrite !app_nil_r.
    + by eapply thread_pushes_push; [| | |left].
  - simplify_eq. rewrite app_nil_r. apply timer_inv_intro; [done..|]. split; [done|]. simpl. done.
Qed.

Lemma start_thread_inv σ i fire t' :
  timer_inv σ → start_thread (ts_threads σ) fire (ts_timer σ) = Some t' →
  timer_inv (mkTS t' (delete i (ts_starting σ)) (ts_queue σ) (ts_called σ) (ts_given σ) (S (ts_threads σ)) false).
Proof.
  intros (Hok & Hg & Ho & Hp1 & _) E.
  assert (tm_quitCbs (ts_timer σ) = [] ∧ t' = set_tm_quitCbs [] (set_tm_thread
    (Some (mkThread (ts_threads σ) (Begin fire) false)) (set_tm_state STARTING (ts_timer σ)))) as [Hcb ->].
  { unfold start_thread, thread_ok in *. destruct (tm_eventInsertionThread (ts_timer σ)) as [[id pc joined]|].
    - destruct joined; simplify_eq. split; [|done]. destruct pc; simpl in Hok; naive_solver.
    - simplify_eq. naive_solver. }
  apply timer_inv_intro; [done| |done|].
  - unfold accounted in *. simpl. by rewrite Hg, Hcb.
  - split; simpl.
    + intros p Hp. specialize (Hp1 p Hp). lia.
    + split; [lia|]. intros _ prio cbs Hin. specialize (Hp1 _ Hin). simpl in Hp1. lia.
Qed.

Lemma stopTimer_inv σ cb r called t' :
  timer_inv σ → mutex_free (ts_timer σ) = true → stopTimer cb (ts_timer σ) = (r, called, t') →
  let cbs := match cb with Some c => [c] | None => [] end in
  timer_inv (mkTS t' (ts_starting σ) (ts_queue σ) (ts_called σ ++ if called then cbs else []) (ts_given σ ++ cbs) (ts_threads σ) false).
Proof.
  intros Hinv Hfree E cbs. pose proof Hinv as (Hok & Hg & _). unfold stopTimer in E. case_decide as Hst; simplify_eq.
  - assert (∀ t0, t0 = (match cb with Some c => set_tm_quitCbs (tm_quitCbs (ts_timer σ) ++ [c]) (ts_timer σ) | None => ts_timer σ end) →
      tm_quitCbs t0 = tm_quitCbs (ts_timer σ) ++ cbs ∧ tm_eventInsertionThread t0 = tm_eventInsertionThread (ts_timer σ)) as Ht.
    { intros t0 ->. subst cbs. destruct cb; simpl; [done|]. by rewrite app_nil_r. }
    destruct (Ht _ eq_refl) as [Hcb Hth]. apply timer_inv_other; [done| |done|].
    + unfold thread_ok, mutex_free in *. simpl. rewrite Hth. destruct (tm_eventInsertionThread (ts_timer σ)) as [[id pc joined]|];
        [|destruct Hok, Hst; congruence]. destruct pc; simpl in *; intuition congruence.
    + simpl. rewrite Hcb, app_nil_r, Hg. unfold accounted. by rewrite <- !app_assoc.
  - apply timer_inv_other; [done..|]. assert ((if bool_decide (is_Some cb) then cbs else []) = cbs) as ->.
    { subst cbs. destruct cb; [done|]. by rewrite bool_decide_false by (intros [? ?]; done). }
    rewrite Hg. unfold accounted. rewrite <- !app_assoc. apply Permutation_app_head. rewrite app_assoc. apply Permutation_app_comm.
Qed.

Lemma timer_inv_flag σ b : timer_inv σ →
  timer_inv (mkTS (ts_timer σ) (ts_starting σ) (ts_queue σ) (ts_called σ) (ts_given σ) (ts_threads σ) b).
Proof. done. Qed.

Lemma destroy_begin_inv σ : timer_inv σ → mutex_free (ts_timer σ) = true → timer_inv (set_timer (destroy_begin (ts_timer σ)) σ).
Proof.
  intros H Hfree. unfold destroy_begin. case_decide as Hst; [|done].
  assert (stopTimer None (ts_timer σ) = (true, false, set_tm_state STOPPING (ts_timer σ))) as E.
  { unfold stopTimer. by rewrite decide_True by auto. }
  pose proof (stopTimer_inv σ _ _ _ _ H Hfree E) as H'. simpl in H'. rewrite !app_nil_r in H'. exact H'.
Qed.

Lemma timer_step_inv a σ σ' : timer_step a σ = Some σ' → timer_inv σ → timer_inv σ'.
Proof.
  intros E H. unfold timer_step in E. destruct (ts_terminated σ) eqn:Et; [done|].
  destruct a as [fire|i|i|cb|ns|b|k|p| |time].
  - destruct (tm_fn (ts_timer σ)); [|simplify_eq; by apply (timer_inv_flag σ true)].
    destruct (mutex_free _); simplify_eq. by destruct (start_check _).
  - destruct (ts_starting σ !! i) as [[fire|fire]|]; try done.
    destruct (tm_eventInsertionThread (ts_timer σ)) as [[id pc joined]|] eqn:Eth; [|by simplify_eq].
    destruct joined; [destruct pc; by simplify_eq|]. destruct pc; simplify_eq.
    destruct H as (Hok & Hg & Ho & Hp1 & Hp2). rewrite Eth in Hp2. unfold thread_ok in Hok. rewrite Eth in Hok.
    apply timer_inv_intro; [done|done|done|]. split; [done|]. simpl. by destruct Hp2.
  - destruct (ts_starting σ !! i) as [[fire|fire]|]; try done. destruct (mutex_free _); [|done].
    destruct (start_thread _ _ _) as [t'|] eqn:Es; simplify_eq; [by eapply start_thread_inv|by apply (timer_inv_flag σ true)].
  - destruct (mutex_free (ts_timer σ)) eqn:Ef; [|done]. destruct (stopTimer cb (ts_timer σ)) as [[r called] t'] eqn:Es.
    simplify_eq. by eapply stopTimer_inv.
  - destruct (mutex_free _); simplify_eq. done.
  - destruct (mutex_free _); simplify_eq. done.
  - destruct (mutex_free _); simplify_eq. unfold setCallback. case_decide; [done|by apply (timer_inv_flag σ true)].
  - destruct (mutex_free _); simplify_eq. done.
  - destruct (mutex_free _) eqn:Ef; simplify_eq. by apply destroy_begin_inv.
  - destruct (tm_eventInsertionThread (ts_timer σ)) as [[id pc joined]|] eqn:Eth; [|done].
    destruct (loop_step id pc time (ts_timer σ)) as [[pc' t'] push] eqn:El. simplify_eq. by eapply thread_step_inv.
Qed.

Lemma timer_reachable_inv σ : timer_reachable σ → timer_inv σ.
Proof.
  intros [l Hl]. assert (timer_inv new_timer_system) as H0.
  { apply timer_inv_intro; [done|done| |]; [by intros [|? ?] ? ? ? ?|]. split; [set_solver|done]. }
  revert Hl H0. generalize new_timer_system. induction l as [|a l IH]; intros σ0 Hl H0; [by simplify_eq/=|].
  simpl in Hl. destruct (timer_step a σ0) as [σ1|] eqn:E; [|done]. apply (IH σ1 Hl). by eapply timer_step_inv.
Qed.

(** A timer that is STOPPING stops with the next two steps of its thread. *)
Lemma stopping_stops σ time1 time2 :
  timer_inv σ → tm_state (ts_timer σ) = STOPPING → ts_terminated σ = false →
  ∃ σ' id, timer_run [LoopStep time1; LoopStep time2] σ = Some σ' ∧ tm_state (ts_timer σ') = STOPPED ∧
    ts_queue σ' = ts_queue σ ++ [QuitCallbacks id (tm_priority (ts_timer σ)) (tm_quitCbs (ts_timer σ))].
Proof.
  intros (Hok & _) Hst Hterm. unfold thread_ok in Hok.
  destruct (tm_eventInsertionThread (ts_timer σ)) as [[id pc joined]|] eqn:Eth; [|destruct Hok; congruence].
  exists (mkTS (set_tm_thread (Some (mkThread id Exited joined)) (set_tm_quitCbs [] (set_tm_state STOPPED (ts_timer σ)))) (ts_starting σ)
    (ts_queue σ ++ [QuitCallbacks id (tm_priority (ts_timer σ)) (tm_quitCbs (ts_timer σ))]) (ts_called σ) (ts_given σ) (ts_threads σ) false), id.
  split; [|done]. simpl. unfold timer_step. rewrite Hterm, Eth.
  destruct pc as [fire|now next|next| |]; simpl in Hok; try (exfalso; intuition congruence).
  - simpl. rewrite decide_False by congruence. simpl. by rewrite app_nil_r.
  - simpl. by rewrite app_nil_r.
Qed.

(** ** The rhythm of a timer *)

(** The steps of a thread that wakes up at the times [ts], its first deadline being
    [next]: one to wake up, one for each deadline that has passed and one to go back
    to sleep. *)
Fixpoint wake_ups (interval next : Z) (ts : list Z) : list timer_action :=
  match ts with
  | [] => []
  | time :: ts' =>
      let k := Z.to_nat ((time - next) / interval + 1) in
      LoopStep time :: replicate (S k) (LoopStep time) ++ wake_ups interval (next + Z.of_nat k * interval) ts'
  end.

(** The thread after [k] pushes. *)
Definition pushed_times (id : nat) (pc : loop_pc) (joined : bool) (k : nat) (σ : timer_system) : timer_system :=
  mkTS (set_tm_thread (Some (mkThread id pc joined)) (ts_timer σ)) (ts_starting σ)
    (ts_queue σ ++ replicate k (Fired id (tm_priority (ts_timer σ)) (tm_fn (ts_timer σ)))) (ts_called σ) (ts_given σ) (ts_threads σ) false.

Lemma timer_run_cons a l σ : timer_run (a :: l) σ = timer_step a σ ≫= timer_run l.
Proof. done. Qed.
Lemma timer_run_app l1 l2 σ : timer_run (l1 ++ l2) σ = σ' ← timer_run l1 σ; timer_run l2 σ'.
Proof. revert σ. induction l1 as [|a l1 IH]; intros σ; [done|]. simpl. destruct (timer_step a σ); simpl; auto. Qed.

Lemma div_deadlines now next interval : 0 < interval → next <= now →
  Z.to_nat ((now - next) / interval + 1) = S (Z.to_nat ((now - (next + interval)) / interval + 1)).
Proof.
  intros Hi Hn. replace (now - (next + interval)) with (now - next + (-1) * interval) by lia.
  rewrite Z.div_add by lia. assert (0 <= (now - next) / interval) by (apply Z.div_pos; lia). lia.
Qed.

(** With the mutex, the thread pushes an event for every deadline that has passed. *)
Lemma turns_push k σ id now next joined time :
  tm_eventInsertionThread (ts_timer σ) = Some (mkThread id (Turn now next) joined) → ts_terminated σ = false →
  tm_state (ts_timer σ) = RUNNING → tm_fireOnce (ts_timer σ) = false → 0 < tm_intervalNanosec (ts_timer σ) →
  k = Z.to_nat ((now - next) / tm_intervalNanosec (ts_timer σ) + 1) →
  timer_run (replicate (S k) (LoopStep time)) σ =
    Some (pushed_times id (Sleep (next + Z.of_nat k * tm_intervalNanosec (ts_timer σ))) joined k σ).
Proof.
  revert σ next. induction k as [|k IH]; intros σ next Eth Hterm Hst Hf Hi Hk.
  - assert (now < next) as Hlt.
    { destruct (Z.lt_ge_cases now next) as [H|H]; [done|]. rewrite div_deadlines in Hk by lia. lia. }
    cbn [replicate timer_run]. unfold timer_step. rewrite Hterm, Eth. unfold loop_step.
    rewrite decide_True by done. apply Z.ltb_lt in Hlt as ->. cbn [mbind option_bind]. unfold pushed_times. simpl.
    by rewrite Z.add_0_r.
  - assert (next <= now) as Hle.
    { destruct (Z.lt_ge_cases now next) as [H|H]; [|done].
      assert ((now - next) / tm_intervalNanosec (ts_timer σ) < 0) by (apply Z.div_lt_upper_bound; lia). lia. }
    rewrite replicate_S, timer_run_cons. unfold timer_step. rewrite Hterm, Eth. unfold loop_step.
    rewrite decide_True by done. rewrite (proj2 (Z.ltb_ge _ _) Hle), Hf. cbn [mbind option_bind].
    etrans; [apply (IH _ (next + tm_intervalNanosec (ts_timer σ))); try done|].
    + cbn. rewrite div_deadlines in Hk by lia. lia.
    + unfold pushed_times. cbn. rewrite <- app_assoc.
      by replace (next + _ + _) with (next + Z.of_nat (S k) * tm_intervalNanosec (ts_timer σ)) by lia.
Qed.

(** A timer that runs at a fixed interval. *)
Definition periodic (σ : timer_system) : Prop :=
  ts_terminated σ = false ∧ tm_fireOnce (ts_timer σ) = false ∧ 0 < tm_intervalNanosec (ts_timer σ).

(** A first step that gets the mutex at [time], and what the thread does with it. *)
Lemma wake_up_pushes σ σ1 id next joined time :
  timer_step (LoopStep time) σ = Some σ1 →
  tm_eventInsertionThread (ts_timer σ1) = Some (mkThread id (Turn time next) joined) →
  tm_state (ts_timer σ1) = RUNNING → periodic σ1 →
  let k := Z.to_nat ((time - next) / tm_intervalNanosec (ts_timer σ1) + 1) in
  timer_run (LoopStep time :: replicate (S k) (LoopStep time)) σ =
    Some (pushed_times id (Sleep (next + Z.of_nat k * tm_intervalNanosec (ts_timer σ1))) joined k σ1).
Proof.
  intros E1 Eth Hst (Hterm & Hf & Hi) k. rewrite timer_run_cons, E1. by apply (turns_push k σ1 id time next joined time).
Qed.

Lemma deadlines_add d time next interval k : 0 < interval → d <= time → k = Z.to_nat ((d - next) / interval + 1) →
  (k + Z.to_nat ((time - (next + Z.of_nat k * interval)) / interval + 1))%nat = Z.to_nat ((time - next) / interval + 1).
Proof.
  intros Hi Hd ->. set (q := (d - next) / interval).
  replace (time - (next + Z.of_nat (Z.to_nat (q + 1)) * interval)) with (time - next + (- Z.of_nat (Z.to_nat (q + 1))) * interval) by lia.
  rewrite Z.div_add by lia. assert (q <= (time - next) / interval) by (apply Z.div_le_mono; lia). lia.
Qed.

Lemma last_cons_default (x d : Z) ts : List.last (x :: ts) d = List.last ts x.
Proof.
  revert x d. induction ts as [|y ts IH]; intros x d; [done|]. change (List.last (y :: ts) d = List.last (y :: ts) x). by rewrite !IH.
Qed.
Lemma last_ge ts d : Sorted Z.le (d :: ts) → d <= List.last ts d.
Proof.
  revert d. induction ts as [|x ts IH]; intros d Hs; [simpl; lia|]. rewrite last_cons_default. apply Sorted_inv in Hs as [Hs Hd].
  specialize (IH x Hs). inversion Hd. lia.
Qed.

(** A sleeping thread, woken up at the times [ts]. *)
Lemma sleeper_pushes ts : ∀ σ id next joined d,
  tm_eventInsertionThread (ts_timer σ) = Some (mkThread id (Sleep next) joined) →
  tm_state (ts_timer σ) = RUNNING → periodic σ → d < next → Sorted Z.le (d :: ts) →
  let interval := tm_intervalNanosec (ts_timer σ) in
  let k := Z.to_nat ((List.last ts d - next) / interval + 1) in
  timer_run (wake_ups interval next ts) σ = Some (pushed_times id (Sleep (next + Z.of_nat k * interval)) joined k σ).
Proof.
  induction ts as [|time ts IH]; intros σ id next joined d Eth Hst Hper Hd Hs interval k.
  - assert (k = 0%nat) as ->.
    { subst k interval. cbn [List.last]. destruct Hper as (_ & _ & Hi).
      assert ((d - next) / tm_intervalNanosec (ts_timer σ) < 0) by (apply Z.div_lt_upper_bound; lia). lia. }
    cbn [wake_ups timer_run]. unfold pushed_times. simpl. rewrite app_nil_r, Z.add_0_r, <- Eth. destruct Hper as [Ht _].
    destruct σ as [[] ? ? ? ? ? ?]. simpl in *. by subst.
  - set (k0 := Z.to_nat ((time - next) / interval + 1)). apply Sorted_inv in Hs as [Hs Hhd].
    assert (d <= time) as Hdt by (by inversion Hhd). pose proof Hper as (Ht & Hf & Hi).
    set (σ1 := pushed_times id (Turn time next) joined 0 σ).
    assert (timer_step (LoopStep time) σ = Some σ1) as E1.
    { unfold timer_step. rewrite Ht, Eth. unfold loop_step. by rewrite decide_True by done. }
    pose proof (wake_up_pushes σ σ1 id next joined time E1 eq_refl Hst (conj eq_refl (conj Hf Hi))) as Hw. cbn zeta in Hw.
    change (tm_intervalNanosec (ts_timer σ1)) with interval in Hw. fold k0 in Hw.
    cbn [wake_ups]. fold k0. rewrite app_comm_cons, timer_run_app, Hw. cbn [mbind option_bind]. set (σ2 := pushed_times _ _ _ _ σ1).
    assert (time < next + Z.of_nat k0 * interval) as Hlt.
    { pose proof (Z.mul_succ_div_gt (time - next) interval Hi). subst k0. nia. }
    etrans; [apply (IH σ2 id _ joined time eq_refl Hst (conj eq_refl (conj Hf Hi)) Hlt Hs)|].
    assert (interval = tm_intervalNanosec (ts_timer σ2)) as <- by done.
    pose proof (last_ge ts time Hs) as Hlast.
    pose proof (deadlines_add time (List.last ts time) next interval k0 Hi Hlast eq_refl) as Hadd.
    subst k. rewrite last_cons_default. set (k' := Z.to_nat _) in Hadd |- *. rewrite <- Hadd. unfold pushed_times. simpl.
    rewrite replicate_add, <- !app_assoc, app_nil_l. by replace (next + Z.of_nat k0 * interval + Z.of_nat k' * interval)
      with (next + Z.of_nat (k0 + k') * interval) by lia.
Qed.

(** ** Properties *)

(** C28: however starts, stops and the timer's thread interleave, every callback given
    to stopTimer is called by it at once, is queued, or is still kept in [_quitCbs],
    exactly once; a STOPPED timer keeps none; no event of a thread is queued behind
    the callbacks it pushes when it ends; and a timer that is STOPPING reaches STOPPED
    with two steps of its thread, which queue the callbacks and fire nothing. *)
Theorem timer_callbacks_once σ : timer_reachable σ →
  ts_given σ ≡ₚ ts_called σ ++ queued_callbacks (ts_queue σ) ++ tm_quitCbs (ts_timer σ) ∧
  (tm_state (ts_timer σ) = STOPPED → tm_quitCbs (ts_timer σ) = []) ∧
  (∀ q1 q2 i prio cbs, ts_queue σ = q1 ++ QuitCallbacks i prio cbs :: q2 → i ∉ (pushed_by <$> q2)) ∧
  (tm_state (ts_timer σ) = STOPPING → ts_terminated σ = false → ∀ time1 time2,
    ∃ σ' id, timer_run [LoopStep time1; LoopStep time2] σ = Some σ' ∧ tm_state (ts_timer σ') = STOPPED ∧
      ts_queue σ' = ts_queue σ ++ [QuitCallbacks id (tm_priority (ts_timer σ)) (tm_quitCbs (ts_timer σ))]).
Proof.
  intros Hr. pose proof (timer_reachable_inv σ Hr) as Hinv. pose proof Hinv as (Hok & Hg & Ho & _).
  split; [done|]. split; [|split; [done|intros Hst Ht time1 time2; by apply stopping_stops]].
  intros Hst. unfold thread_ok in Hok. destruct (tm_eventInsertionThread (ts_timer σ)) as [[id pc joined]|]; [|by destruct Hok].
  destruct pc; simpl in Hok; intuition congruence.
Qed.

(** A periodic timer does not drift: a thread that starts at [start] and wakes up at
    the times [ts] has pushed one event for each deadline start + interval,
    start + 2 * interval, ... (beginning with [start] itself if it fires immediately)
    up to its last wake-up, and sleeps until the first one after it. *)
Theorem timer_keeps_rhythm σ id fire joined start ts :
  tm_eventInsertionThread (ts_timer σ) = Some (mkThread id (Begin fire) joined) →
  tm_state (ts_timer σ) = STARTING → periodic σ → Sorted Z.le (start :: ts) →
  let interval := tm_intervalNanosec (ts_timer σ) in
  let first := if fire then start else start + interval in
  let k := Z.to_nat ((List.last ts start - first) / interval + 1) in
  ∃ σ', timer_run (wake_ups interval first (start :: ts)) σ = Some σ' ∧
    ts_queue σ' = ts_queue σ ++ replicate k (Fired id (tm_priority (ts_timer σ)) (tm_fn (ts_timer σ))) ∧
    tm_eventInsertionThread (ts_timer σ') = Some (mkThread id (Sleep (first + Z.of_nat k * interval)) joined) ∧
    first + (Z.of_nat k - 1) * interval <= List.last ts start < first + Z.of_nat k * interval.
Proof.
  intros Eth Hst Hper Hs interval first k. pose proof Hper as (Ht & Hf & Hi).
  set (σ1 := pushed_times id (Turn start first) joined 0 (set_timer (set_tm_state RUNNING (ts_timer σ)) σ)).
  assert (timer_step (LoopStep start) σ = Some σ1) as E1.
  { unfold timer_step. rewrite Ht, Eth. unfold loop_step. rewrite decide_True by done. subst first. by destruct fire. }
  pose proof (wake_up_pushes σ σ1 id first joined start E1 eq_refl eq_refl (conj eq_refl (conj Hf Hi))) as Hw. cbn zeta in Hw.
  change (tm_intervalNanosec (ts_timer σ1)) with interval in Hw. set (k0 := Z.to_nat ((start - first) / interval + 1)) in Hw.
  set (σ2 := pushed_times _ _ _ _ σ1) in Hw.
  assert (start < first + Z.of_nat k0 * interval) as Hlt.
  { pose proof (Z.mul_succ_div_gt (start - first) interval Hi). subst k0. nia. }
  pose proof (last_ge ts start Hs) as Hlast. pose proof (deadlines_add start _ first interval k0 Hi Hlast eq_refl) as Hadd.
  eexists. split; [|split; [|split]].
  - cbn [wake_ups]. fold k0. rewrite app_comm_cons, timer_run_app, Hw. cbn [mbind option_bind].
    exact (sleeper_pushes ts σ2 id _ joined start eq_refl eq_refl (conj eq_refl (conj Hf Hi)) Hlt Hs).
  - unfold k. rewrite <- Hadd. simpl. rewrite replicate_add, app_nil_r, app_assoc. done.
  - unfold k. rewrite <- Hadd. simpl. change (tm_intervalNanosec (ts_timer σ)) with interval. do 3 f_equal. lia.
  - pose proof (Z.mul_succ_div_gt (List.last ts start - first) interval Hi).
    pose proof (Z.mul_div_le (List.last ts start - first) interval Hi). subst k.
    assert (-1 <= (List.last ts start - first) / interval).
    { apply Z.div_le_lower_bound; [done|]. subst first. destruct fire; lia. }
    rewrite Z2Nat.id by lia. nia.
Qed.

(** A timer is stopped between startTimer and the first step of its thread: stopTimer
    calls the callback at once and returns false, and the timer runs and fires
    nevertheless. *)
Lemma stop_of_starting_timer_is_lost :
  let started := [CallSetCallback (Sync 7); CallSetInterval 10; CallStart false; WaitForThread 0; FinishStart 0] in
  ∃ σ1 σ2, timer_run (started ++ [CallStop (Some 1%nat)]) new_timer_system = Some σ1 ∧ ts_called σ1 = [1%nat] ∧
    timer_run [LoopStep 0; LoopStep 0; LoopStep 10; LoopStep 10] σ1 = Some σ2 ∧
    tm_state (ts_timer σ2) = RUNNING ∧ ts_queue σ2 = [Fired 0 1000 (Some (Sync 7))].
Proof. vm_compute. eauto 10. Qed.

(** Two calls of startTimer at the same time: the second one drops a running thread,
    which ends the program. *)
Lemma concurrent_starts_terminate :
  ∃ σ, timer_run [CallSetCallback (Sync 7); CallStart false; CallStart false; WaitForThread 0; WaitForThread 1;
    FinishStart 0; FinishStart 0] new_timer_system = Some σ ∧ ts_terminated σ = true.
Proof. vm_compute. eauto. Qed.
(** An interval of 0: the thread fires in every turn and never lets go of the mutex. *)
Lemma zero_interval_keeps_the_mutex n σ id now joined time :
  tm_eventInsertionThread (ts_timer σ) = Some (mkThread id (Turn now now) joined) → ts_terminated σ = false →
  tm_state (ts_timer σ) = RUNNING → tm_fireOnce (ts_timer σ) = false → tm_intervalNanosec (ts_timer σ) = 0 →
  ∃ σ', timer_run (replicate n (LoopStep time)) σ = Some σ' ∧ mutex_free (ts_timer σ') = false ∧
    ts_queue σ' = ts_queue σ ++ replicate n (Fired id (tm_priority (ts_timer σ)) (tm_fn (ts_timer σ))).
Proof.
  revert σ. induction n as [|n IH]; intros σ Eth Ht Hst Hf Hi.
  { exists σ. simpl. rewrite app_nil_r. split; [done|]. unfold mutex_free. by rewrite Eth. }
  rewrite replicate_S, timer_run_cons. unfold timer_step. rewrite Ht, Eth. unfold loop_step. rewrite decide_True by done.
  rewrite Z.ltb_irrefl, Hf, Hi, Z.add_0_r. cbn [mbind option_bind].
  destruct (IH (pushed_times id (Turn now now) joined 1 σ) eq_refl eq_refl Hst Hf Hi) as (σ' & Hr & Hm & Hq).
  exists σ'. split; [exact Hr|]. split; [done|]. rewrite Hq. simpl. by rewrite <- app_assoc.
Qed.

(** The destructor of a timer that is STARTING leaves it so and waits for the thread,
    which never ends. *)
Definition in_its_loop (σ : timer_system) : Prop :=
  ts_terminated σ = false ∧ tm_fireOnce (ts_timer σ) = false ∧
  match tm_eventInsertionThread (ts_timer σ) with
  | Some (mkThread _ (Begin _) _) => tm_state (ts_timer σ) = STARTING
  | Some (mkThread _ (Turn _ _) _) | Some (mkThread _ (Sleep _) _) => tm_state (ts_timer σ) = RUNNING
  | _ => False
  end.
Lemma loop_goes_on times σ : in_its_loop σ → ∃ σ', timer_run (LoopStep <$> times) σ = Some σ' ∧ in_its_loop σ'.
Proof.
  revert σ. induction times as [|time times IH]; intros σ H; [by exists σ|]. rewrite fmap_cons, timer_run_cons.
  assert (∃ σ1, timer_step (LoopStep time) σ = Some σ1 ∧ in_its_loop σ1) as (σ1 & -> & H1); [|by apply IH].
  destruct H as (Ht & Hf & H). unfold timer_step. rewrite Ht.
  destruct (tm_eventInsertionThread (ts_timer σ)) as [[id [fire|now next|next| |] joined]|]; try done; unfold loop_step;
    rewrite decide_True by done; [| |eexists; split; [done|done]].
  - eexists. split; done.
  - destruct (now <? next); [|rewrite Hf]; eexists; split; done.
Qed.
Lemma destroyed_while_starting_never_joins times :
  ∃ σ σ' th, timer_run [CallSetCallback (Sync 7); CallStart false; WaitForThread 0; FinishStart 0; BeginDestroy] new_timer_system = Some σ ∧
    timer_run (LoopStep <$> times) σ = Some σ' ∧ tm_eventInsertionThread (ts_timer σ') = Some th ∧ th_pc th ≠ Exited.
Proof.
  eexists. assert (∀ σ, in_its_loop σ → ∃ σ' th, timer_run (LoopStep <$> times) σ = Some σ' ∧
    tm_eventInsertionThread (ts_timer σ') = Some th ∧ th_pc th ≠ Exited) as H.
  { intros σ (σ' & E & _ & _ & H)%(loop_goes_on times). exists σ'.
    destruct (tm_eventInsertionThread (ts_timer σ')) as [[id pc joined]|]; [|done]. eexists. split; [done|]. split; [done|]. by destruct pc. }
  destruct (H (default new_timer_system (timer_run [CallSetCallback (Sync 7); CallStart false; WaitForThread 0; FinishStart 0; BeginDestroy]
    new_timer_system))) as (σ' & th & E & Hth & Hpc); [by vm_compute|]. exists σ', th. split; [|split; [exact E|done]]. vm_compute. done.
Qed.

(** ** Witnesses *)

Definition run_and_stop : list timer_action :=
  [CallSetCallback (Sync 7); CallSetInterval 10; CallStart false; WaitForThread 0; FinishStart 0;
   LoopStep 0; LoopStep 0; LoopStep 10; LoopStep 10; LoopStep 10; CallStop (Some 1%nat); CallStop (Some 2%nat)].
Definition stopping_system : timer_system := default new_timer_system (timer_run run_and_stop new_timer_system).

Lemma timer_callbacks_once_witness :
  tm_state (ts_timer stopping_system) = STOPPING ∧ tm_quitCbs (ts_timer stopping_system) = [1; 2]%nat ∧
  ∃ σ' id, timer_run [LoopStep 11; LoopStep 12] stopping_system = Some σ' ∧ tm_state (ts_timer σ') = STOPPED ∧
    ts_queue σ' = ts_queue stopping_system ++ [QuitCallbacks id 1000 [1; 2]%nat].
Proof.
  split; [vm_compute; reflexivity|]. split; [vm_compute; reflexivity|].
  apply (timer_callbacks_once stopping_system); [exists run_and_stop; vm_compute; reflexivity|vm_compute; reflexivity..].
Defined.

Definition started_system : timer_system := default new_timer_system (timer_run (take 5 run_and_stop) new_timer_system).
Lemma timer_keeps_rhythm_witness :
  ∃ σ', timer_run (wake_ups 10 110 [100; 105; 125; 131]) started_system = Some σ' ∧
    ts_queue σ' = replicate 3 (Fired 0 1000 (Some (Sync 7))).
Proof.
  destruct (timer_keeps_rhythm started_system 0 false false 100 [105; 125; 131]) as (σ' & Hr & Hq & _);
    [vm_compute; reflexivity|vm_compute; reflexivity|vm_compute; repeat split|repeat constructor; discriminate|].
  exists σ'. split; [exact Hr|exact Hq].
Defined.
