(* ===== verification/StaticVector.v ===== *)
(** * Vectors with their elements inside

    include/ichor/stl/StaticVector.h: a vector of at most [N] elements, which lie in
    the object itself.  The model keeps the lifetime of each element, because the
    operations construct, assign, move and destroy elements one by one: a slot of the
    storage is raw memory, an object that was moved from, or an object with a value.
    An operation ends with [Ok], with a failed assertion, or with undefined behaviour
    (an access outside of the storage, the assignment, destruction or use of an object
    that does not exist, ranges the standard algorithms do not allow).  Iterators are
    positions.  The lifecycle managers keep the interfaces of a service in such a
    vector. *)

From stdpp Require Import base list decidable.
From Stdlib Require Import ZArith Lia.
From S2P Require Import Prelude.

Local Open Scope nat_scope.

(** ** Results *)

Inductive result (A : Type) : Type := Ok (a : A) | AssertFails | Undefined.
Arguments Ok {A} a.
Arguments AssertFails {A}.
Arguments Undefined {A}.
#[global] Instance result_bind : MBind result := λ A B f m,
  match m with Ok a => f a | AssertFails => AssertFails | Undefined => Undefined end.
Definition assert (b : bool) : result unit := if b then Ok tt else AssertFails.
Definition require (b : bool) : result unit := if b then Ok tt else Undefined.

Lemma bind_Ok {A B} (m : result A) (f : A → result B) b :
  m ≫= f = Ok b ↔ ∃ a, m = Ok a ∧ f a = Ok b.
Proof.
  destruct m as [a| |]; cbn; [|by split; [|intros (? & ? & _)]..]. split; [by exists a|by intros (a' & [= ->] & H)].
Qed.

(** ** The storage *)

Inductive slot (T : Type) : Type := Raw | Moved | Alive (v : T).
Arguments Raw {T}.
Arguments Moved {T}.
Arguments Alive {T} v.
Definition is_raw {T} (s : slot T) : bool := match s with Raw => true | _ => false end.

Record StaticVector (T : Type) := mkSV { v_data : list (slot T); v_size : nat }.
Arguments mkSV {T} v_data v_size.
Arguments v_data {T} s.
Arguments v_size {T} s.

Section StaticVector.
(** [trivial]: [Detail::is_sufficiently_trivial<T>]; [over_raw]: whether assigning to memory where
    no object was constructed works for [T], which the language does not define unless [T] is
    trivial, but which does work where the assignment looks at nothing of the object it assigns to;
    [movable]: [std::is_move_constructible_v<T>]; [d]: [T()]. *)
Context {T : Type} (trivial over_raw movable : bool) (N : nat) (d : T).
Notation vec := (StaticVector T).

(** [Detail::SizeType]: the largest value of [storage_size_type], and its casts. *)
Definition size_max : Z :=
  (if Z.of_nat N <=? 255 then 255
   else if Z.of_nat N <=? 65535 then 65535
   else if Z.of_nat N <=? 4294967295 then 4294967295
   else 18446744073709551615)%Z.
Definition cast (n : nat) : nat := Z.to_nat (Z.of_nat n `mod` (size_max + 1))%Z.

Definition set_size (n : nat) (sv : vec) : vec := mkSV (v_data sv) n.
Definition set_slot (i : nat) (s : slot T) (sv : vec) : vec := mkSV (<[i := s]> (v_data sv)) (v_size sv).

Definition construct_at (i : nat) (v : T) (sv : vec) : result vec :=
  require (i <? N) ≫= λ _, Ok (set_slot i (Alive v) sv).
(** Assignment to an element: an object of a trivial type is there from the start. *)
Definition raw_ok : bool := trivial || over_raw.
Definition assign_at (i : nat) (v : T) (sv : vec) : result vec :=
  match v_data sv !! i with
  | Some s => require (raw_ok || negb (is_raw s)) ≫= λ _, Ok (set_slot i (Alive v) sv)
  | None => Undefined
  end.
Definition read_at (i : nat) (sv : vec) : result T :=
  match v_data sv !! i with Some (Alive v) => Ok v | _ => Undefined end.
Definition destroy_at (i : nat) (sv : vec) : result vec :=
  match v_data sv !! i with
  | Some s => require (negb (is_raw s)) ≫= λ _, Ok (set_slot i Raw sv)
  | None => Undefined
  end.
(** The element an algorithm takes: moved from where that is possible, copied
    otherwise. *)
Definition take_at (i : nat) (sv : vec) : result (T * vec) :=
  read_at i sv ≫= λ v, Ok (v, if movable then set_slot i Moved sv else sv).

(** [std::move] or [std::copy] of [n] elements from [src] to [dst], first to last. *)
Fixpoint move_forward (n src dst : nat) (sv : vec) : result vec :=
  match n with
  | 0 => Ok sv
  | S n' => take_at src sv ≫= λ '(v, sv1), assign_at dst v sv1 ≫= move_forward n' (S src) (S dst)
  end.
(** [std::move_backward] or [std::copy_backward] of [n] elements, last to first; the
    end of the destination must not lie within the range. *)
Fixpoint move_back_loop (n src dst : nat) (sv : vec) : result vec :=
  match n with
  | 0 => Ok sv
  | S n' => take_at (src + n') sv ≫= λ '(v, sv1), assign_at (dst + n') v sv1 ≫= move_back_loop n' src dst
  end.
Definition move_backward (n src dst : nat) (sv : vec) : result vec :=
  require (negb ((src <? dst + n) && (dst + n <=? src + n))) ≫= λ _, move_back_loop n src dst sv.
(** [destroy_at] from [i] on, [n] times. *)
Fixpoint destroy_loop (n i : nat) (sv : vec) : result vec :=
  match n with 0 => Ok sv | S n' => destroy_at i sv ≫= destroy_loop n' (S i) end.
Fixpoint construct_loop (i : nat) (xs : list T) (sv : vec) : result vec :=
  match xs with [] => Ok sv | x :: xs' => construct_at i x sv ≫= construct_loop (S i) xs' end.

(** ** The members *)

(** [push_back], [emplace_back]. *)
Definition push_back (x : T) (sv : vec) : result vec :=
  assert (v_size sv <? N) ≫= λ _,
  construct_at (v_size sv) x sv ≫= λ sv1, Ok (set_size (cast (S (v_size sv1))) sv1).
Fixpoint push_all (xs : list T) (sv : vec) : result vec :=
  match xs with [] => Ok sv | x :: xs' => push_back x sv ≫= push_all xs' end.
Definition pop_back (sv : vec) : result vec :=
  assert (0 <? v_size sv) ≫= λ _,
  (if trivial then Ok sv else destroy_at (v_size sv - 1) sv) ≫= λ sv1, Ok (set_size (v_size sv1 - 1) sv1).
Definition erase (pos : nat) (sv : vec) : result vec :=
  require (S pos <=? v_size sv) ≫= λ _,
  (if decide (S pos = v_size sv) then Ok sv else move_forward (v_size sv - S pos) (S pos) pos sv) ≫= pop_back.
Definition erase_range (first last : nat) (sv : vec) : result vec :=
  if decide (first = last) then Ok sv
  else
    require ((first <=? last) && (last <=? v_size sv)) ≫= λ _,
    move_forward (v_size sv - last) last first sv ≫= λ sv1,
    (if trivial then Ok sv1 else destroy_loop (last - first) (first + (v_size sv1 - last)) sv1) ≫= λ sv2,
    Ok (set_size (v_size sv2 - cast (last - first)) sv2).
(** The four ways to insert: room is made behind [pos] for the new elements, which
    are constructed there. *)
Definition insert_range (pos : nat) (xs : list T) (sv : vec) : result vec :=
  let n := length xs in
  assert (v_size sv + n <=? N) ≫= λ _,
  let sv1 := set_size (cast (v_size sv + cast n)) sv in
  require (pos <=? v_size sv1 - n) ≫= λ _,
  move_backward (v_size sv1 - n - pos) pos (pos + n) sv1 ≫= construct_loop pos xs.
Definition insert (pos : nat) (x : T) (sv : vec) : result vec :=
  assert (v_size sv <? N) ≫= λ _,
  let sv1 := set_size (cast (S (v_size sv))) sv in
  require (pos <=? v_size sv1 - 1) ≫= λ _,
  move_backward (v_size sv1 - 1 - pos) pos (pos + 1) sv1 ≫= construct_at pos x.
Definition insert_n (pos n : nat) (x : T) (sv : vec) : result vec := insert_range pos (replicate n x) sv.
Definition clear (sv : vec) : result vec :=
  (if trivial then Ok sv else destroy_loop (v_size sv) 0 sv) ≫= λ sv1, Ok (set_size 0 sv1).
(** [IStaticVector::resize(sz)] and [resize(sz, c)]. *)
Definition resize (sz : nat) (sv : vec) : result vec :=
  assert (sz <=? N) ≫= λ _,
  if v_size sv <? sz then push_all (replicate (sz - v_size sv) d) sv
  else if sz <? v_size sv then erase_range sz (v_size sv) sv
  else Ok sv.
Definition resize_value (sz : nat) (c : T) (sv : vec) : result vec :=
  assert (Z.of_nat sz <=? size_max)%Z ≫= λ _,
  assert (sz <=? N) ≫= λ _,
  (if v_size sv <? sz then push_all (replicate (sz - v_size sv) c) sv
   else if negb trivial && (sz <? v_size sv) then destroy_loop (v_size sv - sz) sz sv
   else Ok sv) ≫= λ sv1, Ok (set_size (cast sz) sv1).
(** [operator\[\]]: the position that may be read or assigned. *)
Definition at_pos (i : nat) (sv : vec) : result nat := assert (i <? v_size sv) ≫= λ _, Ok i.
Definition front (sv : vec) : result T := read_at 0 sv.
Definition back (sv : vec) : result T := require (0 <? v_size sv) ≫= λ _, read_at (v_size sv - 1) sv.
Definition index (i : nat) (sv : vec) : result T := at_pos i sv ≫= λ i, read_at i sv.
(** [assign(n, u)] and [assign(first, last)]. *)
Fixpoint assign_n_loop (n i : nat) (u : T) (sv : vec) : result vec :=
  match n with 0 => Ok sv | S n' => at_pos i sv ≫= λ i, assign_at i u sv ≫= assign_n_loop n' (S i) u end.
Definition assign_n (n : nat) (u : T) (sv : vec) : result vec :=
  assert (n <=? N) ≫= λ _, assign_n_loop n 0 u (set_size (v_size sv `max` cast n) sv).
Fixpoint assign_range_loop (i : nat) (xs : list T) (sv : vec) : result vec :=
  match xs with
  | [] => Ok sv
  | x :: xs' =>
      assert (i <=? N) ≫= λ _,
      let sv1 := set_size (v_size sv `max` cast (S i)) sv in
      at_pos i sv1 ≫= λ i, assign_at i x sv1 ≫= assign_range_loop (S i) xs'
  end.
Definition assign_range (xs : list T) (sv : vec) : result vec := assign_range_loop 0 xs sv.

(** Constructors: the empty vector, [n] values, a range, a list. *)
Definition new_sv : vec := mkSV (replicate N Raw) 0.
Definition construct_n (n : nat) (v : T) : result vec := assert (n <=? N) ≫= λ _, push_all (replicate n v) new_sv.
Definition construct_range (xs : list T) : result vec := push_all xs new_sv.
Fixpoint write_loop (i : nat) (xs : list T) (sv : vec) : result vec :=
  match xs with [] => Ok sv | x :: xs' => assign_at i x sv ≫= write_loop (S i) xs' end.
Definition construct_list (xs : list T) : result vec :=
  assert (length xs <=? N) ≫= λ _,
  if trivial then write_loop 0 xs new_sv ≫= λ sv1, Ok (set_size (cast (length xs)) sv1) else push_all xs new_sv.
(** The elements a loop over the vector sees. *)
Fixpoint read_loop (n i : nat) (sv : vec) : result (list T) :=
  match n with 0 => Ok [] | S n' => read_at i sv ≫= λ v, read_loop n' (S i) sv ≫= λ l, Ok (v :: l) end.
Definition elements (sv : vec) : result (list T) := read_loop (v_size sv) 0 sv.
Definition copy_construct (other : vec) : result vec :=
  assert (v_size other <=? N) ≫= λ _, elements other ≫= λ xs, push_all xs new_sv.
(** [operator=]: [None] is the assignment of a vector to itself. *)
Definition copy_assign (other : option vec) (sv : vec) : result vec :=
  assert (v_size (default sv other) <=? N) ≫= λ _,
  clear sv ≫= λ sv1, elements (default sv1 other) ≫= λ xs, push_all xs sv1.
(** The loop of the move constructor and of the move assignment: every element of
    [other] is moved to the end of [sv]; [other] is cleared afterwards. *)
Fixpoint move_out (n i : nat) (other sv : vec) : result (vec * vec) :=
  match n with
  | 0 => Ok (other, sv)
  | S n' => take_at i other ≫= λ '(v, other1), push_back v sv ≫= move_out n' (S i) other1
  end.
Definition move_into (other sv : vec) : result (vec * vec) :=
  move_out (v_size other) 0 other sv ≫= λ '(other1, sv1), clear other1 ≫= λ other2, Ok (other2, sv1).
Definition move_construct (other : vec) : result (vec * vec) :=
  assert (v_size other <=? N) ≫= λ _, move_into other new_sv.
Definition move_assign (other sv : vec) : result (vec * vec) :=
  assert (v_size other <=? N) ≫= λ _, clear sv ≫= move_into other.
(** [swap]: the elements up to the larger size are exchanged one by one. *)
Fixpoint swap_loop (n i : nat) (a b : vec) : result (vec * vec) :=
  match n with
  | 0 => Ok (a, b)
  | S n' =>
      match v_data a !! i, v_data b !! i with
      | Some s, Some t =>
          require (trivial || negb (is_raw s || is_raw t)) ≫= λ _,
          swap_loop n' (S i) (set_slot i t a) (set_slot i s b)
      | _, _ => Undefined
      end
  end.
Definition swap (a b : vec) : result (vec * vec) :=
  assert (v_size b <=? N) ≫= λ _, assert (v_size a <=? N) ≫= λ _,
  swap_loop (v_size a `max` v_size b) 0 a b ≫= λ '(a', b'), Ok (set_size (v_size b) a', set_size (v_size a) b').

(** ** The contents *)

(** The vector holds [l]: its elements are alive, and, unless their type is trivial,
    there are no other objects in the storage. *)
Definition represents (sv : vec) (l : list T) : Prop :=
  ∃ rest, v_data sv = (Alive <$> l) ++ rest ∧ length l + length rest = N ∧ v_size sv = length l ∧
    (trivial = false → rest = replicate (length rest) Raw).

(** The number of elements fits into [size_t]. *)
Definition fits : Prop := (Z.of_nat N <= 18446744073709551615)%Z.

Lemma cast_id n : fits → n <= N → cast n = n.
Proof.
  unfold fits, cast, size_max. intros HN Hn. repeat case_match; rewrite Z.mod_small by lia; by rewrite Nat2Z.id.
Qed.

(** *** Slots *)

Lemma insert_middle (A : list (slot T)) s s' B : <[length A := s']> (A ++ s :: B) = A ++ s' :: B.
Proof. rewrite <- (Nat.add_0_r (length A)), insert_app_r. done. Qed.

Lemma assign_at_middle A s B k v i : i = length A → raw_ok = true ∨ is_raw s = false →
  assign_at i v (mkSV (A ++ s :: B) k) = Ok (mkSV (A ++ Alive v :: B) k).
Proof.
  intros -> Hs. unfold assign_at, set_slot. cbn [v_data v_size]. rewrite list_lookup_middle, insert_middle by done.
  by destruct Hs as [->| ->]; [|rewrite orb_true_r].
Qed.
Lemma assign_at_raw A B k v i : i = length A → raw_ok = false → assign_at i v (mkSV (A ++ Raw :: B) k) = Undefined.
Proof. intros -> Ht. unfold assign_at. cbn [v_data]. rewrite list_lookup_middle by done. by rewrite Ht. Qed.
Lemma destroy_at_middle A s B k i : i = length A → is_raw s = false →
  destroy_at i (mkSV (A ++ s :: B) k) = Ok (mkSV (A ++ Raw :: B) k).
Proof.
  intros -> Hs. unfold destroy_at, set_slot. cbn [v_data v_size]. rewrite list_lookup_middle, insert_middle by done. by rewrite Hs.
Qed.
Lemma construct_at_middle A s B k v i : i = length A → length (A ++ s :: B) = N →
  construct_at i v (mkSV (A ++ s :: B) k) = Ok (mkSV (A ++ Alive v :: B) k).
Proof.
  intros -> HN. unfold construct_at, set_slot. cbn [v_data v_size]. rewrite insert_middle. rewrite length_app in HN. simpl in HN.
  by rewrite (proj2 (Nat.ltb_lt _ _)) by lia.
Qed.
(** What is left of an element that was taken. *)
Definition left_of (v : T) : slot T := if movable then Moved else Alive v.
Lemma left_of_not_raw v : is_raw (left_of v) = false.
Proof. unfold left_of. by destruct movable. Qed.
Lemma take_at_middle A v B k i : i = length A →
  take_at i (mkSV (A ++ Alive v :: B) k) = Ok (v, mkSV (A ++ left_of v :: B) k).
Proof.
  intros ->. unfold take_at, read_at, set_slot, left_of. cbn [v_data v_size]. rewrite list_lookup_middle by done.
  cbn [mbind result_bind]. by destruct movable; [rewrite insert_middle|].
Qed.

(** A gap [G] in front of the elements [xs] moves behind them. *)
Lemma move_forward_gap xs : ∀ A G B k src dst,
  src = length A + length G → dst = length A → G ≠ [] →
  (raw_ok = true ∨ Forall (λ s, is_raw s = false) G) →
  ∃ G', move_forward (length xs) src dst (mkSV (A ++ G ++ (Alive <$> xs) ++ B) k) = Ok (mkSV (A ++ (Alive <$> xs) ++ G' ++ B) k) ∧
    length G' = length G ∧ (Forall (λ s, is_raw s = false) G → Forall (λ s, is_raw s = false) G').
Proof.
  induction xs as [|x xs IH]; intros A G B k src dst -> -> HG Hr; [by exists G|].
  destruct G as [|g G]; [done|]. cbn [length move_forward]. rewrite fmap_cons.
  replace (A ++ (g :: G) ++ (Alive x :: (Alive <$> xs)) ++ B) with ((A ++ g :: G) ++ Alive x :: (Alive <$> xs) ++ B)
    by (by rewrite <- !app_assoc).
  rewrite take_at_middle by (rewrite length_app; done). cbn [mbind result_bind].
  rewrite <- app_assoc. change ((g :: G) ++ left_of x :: (Alive <$> xs) ++ B) with (g :: G ++ left_of x :: (Alive <$> xs) ++ B).
  rewrite assign_at_middle; [|done|destruct Hr as [?|Hr]; [by left|right; by inversion Hr]]. cbn [mbind result_bind].
  replace (A ++ Alive x :: G ++ left_of x :: (Alive <$> xs) ++ B) with ((A ++ [Alive x]) ++ (G ++ [left_of x]) ++ (Alive <$> xs) ++ B)
    by (by rewrite <- !app_assoc).
  destruct (IH (A ++ [Alive x]) (G ++ [left_of x]) B k (S (length A + S (length G))) (S (length A))) as (G' & E & Hl & Hg).
  - rewrite !length_app. simpl. lia.
  - rewrite length_app. simpl. lia.
  - by destruct G.
  - destruct Hr as [?|Hr]; [by left|right]. inversion Hr; subst. apply Forall_app. split; [done|]. constructor; [apply left_of_not_raw|done].
  - exists G'. rewrite E, <- app_assoc. split; [done|]. rewrite length_app in Hl. simpl in Hl. split; [simpl; lia|].
    intros HG'. apply Hg. inversion HG'; subst. apply Forall_app. split; [done|]. constructor; [apply left_of_not_raw|done].
Qed.

(** A gap behind the elements moves in front of them. *)
Lemma move_back_gap xs : ∀ A G B k src dst,
  src = length A → dst = length A + length G → G ≠ [] → (raw_ok = true ∨ Forall (λ s, is_raw s = false) G) →
  ∃ G', move_back_loop (length xs) src dst (mkSV (A ++ (Alive <$> xs) ++ G ++ B) k) = Ok (mkSV (A ++ G' ++ (Alive <$> xs) ++ B) k) ∧
    length G' = length G.
Proof.
  induction xs as [|x xs IH] using rev_ind; intros A G B k src dst -> -> HG Hr; [by exists G|].
  destruct G as [|g G _] using rev_ind; [done|]. rewrite length_app, Nat.add_1_r. cbn [move_back_loop]. rewrite fmap_app.
  replace (A ++ ((Alive <$> xs) ++ (Alive <$> [x])) ++ (G ++ [g]) ++ B) with ((A ++ (Alive <$> xs)) ++ Alive x :: (G ++ [g]) ++ B)
    by (by rewrite <- !app_assoc).
  rewrite take_at_middle by (by rewrite length_app, length_fmap). cbn [mbind result_bind].
  replace ((A ++ (Alive <$> xs)) ++ left_of x :: (G ++ [g]) ++ B) with ((A ++ (Alive <$> xs) ++ left_of x :: G) ++ g :: B)
    by (by rewrite <- !app_assoc).
  rewrite assign_at_middle.
  2: { rewrite !length_app, length_fmap. simpl. lia. }
  2: { destruct Hr as [?|Hr]; [by left|right]. apply Forall_app in Hr as [_ Hr]. by inversion Hr. }
  cbn [mbind result_bind].
  replace ((A ++ (Alive <$> xs) ++ left_of x :: G) ++ Alive x :: B) with (A ++ (Alive <$> xs) ++ (left_of x :: G) ++ Alive x :: B)
    by (by rewrite <- !app_assoc).
  destruct (IH A (left_of x :: G) (Alive x :: B) k (length A) (length A + length (G ++ [g]))) as (G' & E & Hl); [done| |done| |].
  - rewrite length_app. simpl. lia.
  - destruct Hr as [?|Hr]; [by left|right]. apply Forall_app in Hr as [Hr _]. constructor; [apply left_of_not_raw|done].
  - exists G'. rewrite E. split; [by rewrite <- app_assoc|]. rewrite Hl, length_app. simpl. lia.
Qed.

Lemma destroy_loop_middle G : ∀ A B k i, i = length A → Forall (λ s, is_raw s = false) G →
  destroy_loop (length G) i (mkSV (A ++ G ++ B) k) = Ok (mkSV (A ++ replicate (length G) Raw ++ B) k).
Proof.
  induction G as [|g G IH]; intros A B k i -> HG; [done|]. inversion HG; subst. cbn [length destroy_loop].
  rewrite (destroy_at_middle A g (G ++ B)) by done. cbn [mbind result_bind].
  replace (A ++ Raw :: G ++ B) with ((A ++ [Raw]) ++ G ++ B) by (by rewrite <- app_assoc).
  rewrite IH; [by rewrite <- app_assoc|rewrite length_app; simpl; lia|done].
Qed.
Lemma construct_loop_middle xs : ∀ A G B k i, i = length A → length G = length xs → length (A ++ G ++ B) = N →
  construct_loop i xs (mkSV (A ++ G ++ B) k) = Ok (mkSV (A ++ (Alive <$> xs) ++ B) k).
Proof.
  induction xs as [|x xs IH]; intros A [|g G] B k i -> HG HN; try done. cbn [construct_loop].
  rewrite (construct_at_middle A g (G ++ B)) by done. cbn [mbind result_bind].
  replace (A ++ Alive x :: G ++ B) with ((A ++ [Alive x]) ++ G ++ B) by (by rewrite <- app_assoc).
  rewrite IH; [by rewrite <- app_assoc|rewrite length_app; simpl; lia|simpl in HG; lia|].
  rewrite <- HN. rewrite !length_app. simpl. lia.
Qed.

(** *** The members on the contents *)

Lemma represents_intro l rest k : length l + length rest = N → k = length l →
  (trivial = false → rest = replicate (length rest) Raw) → represents (mkSV ((Alive <$> l) ++ rest) k) l.
Proof. intros HN -> Hr. by exists rest. Qed.
Lemma alive_not_raw (l : list T) : Forall (λ s, is_raw s = false) (Alive <$> l).
Proof. by apply Forall_fmap, Forall_true. Qed.
Lemma represents_size sv l : represents sv l → v_size sv = length l ∧ length l <= N ∧ length (v_data sv) = N.
Proof. intros (rest & -> & HN & -> & _). rewrite length_app, length_fmap. lia. Qed.
Lemma cast_size sv l : fits → represents sv l → cast (length l) = length l.
Proof. intros Hf Hr. apply cast_id; [done|]. by apply represents_size in Hr as (_ & ? & _). Qed.

Lemma push_back_rep x sv l : fits → represents sv l → length l < N →
  ∃ sv', push_back x sv = Ok sv' ∧ represents sv' (l ++ [x]).
Proof.
  intros Hf (rest & Hd & HN & Hs & Hr) Hl. destruct sv as [data k]. simpl in *. subst.
  destruct rest as [|r rest]; [simpl in HN; lia|]. unfold push_back. cbn [v_size].
  rewrite (proj2 (Nat.ltb_lt _ _)) by done. cbn [assert mbind result_bind].
  rewrite construct_at_middle; [|by rewrite length_fmap|rewrite length_app, length_fmap; done]. cbn [mbind result_bind].
  unfold set_size. cbn [v_data v_size]. eexists. split; [done|]. rewrite cast_id by (done || lia).
  replace ((Alive <$> l) ++ Alive x :: rest) with ((Alive <$> l ++ [x]) ++ rest) by (by rewrite fmap_app, <- app_assoc).
  apply represents_intro; rewrite ?length_app; simpl in *; [lia|lia|]. intros Ht. specialize (Hr Ht). by injection Hr.
Qed.
Lemma push_back_full x sv l : represents sv l → N <= length l → push_back x sv = AssertFails.
Proof.
  intros (Hs & Hl & _)%represents_size Hn. unfold push_back. by rewrite (proj2 (Nat.ltb_ge _ _)) by lia.
Qed.
Lemma push_all_rep xs : ∀ sv l, fits → represents sv l → length l + length xs <= N →
  ∃ sv', push_all xs sv = Ok sv' ∧ represents sv' (l ++ xs).
Proof.
  induction xs as [|x xs IH]; intros sv l Hf Hr Hl; [exists sv; by rewrite app_nil_r|]. simpl in Hl.
  destruct (push_back_rep x sv l Hf Hr) as (sv1 & E1 & Hr1); [lia|].
  destruct (IH sv1 (l ++ [x]) Hf Hr1) as (sv2 & E2 & Hr2); [rewrite length_app; simpl; lia|].
  exists sv2. cbn [push_all]. rewrite E1. split; [exact E2|]. by rewrite <- app_assoc in Hr2.
Qed.

(** [pop_back] of an element that is there but may have been moved from. *)
Lemma pop_back_last l g rest k : is_raw g = false → length l + S (length rest) = N → k = S (length l) →
  (trivial = false → rest = replicate (length rest) Raw) →
  ∃ sv', pop_back (mkSV ((Alive <$> l) ++ g :: rest) k) = Ok sv' ∧ represents sv' l.
Proof.
  intros Hg HN -> Hr. unfold pop_back, assert, set_size. cbn [v_size v_data]. rewrite (proj2 (Nat.ltb_lt _ _)) by lia.
  cbn [mbind result_bind]. destruct trivial eqn:Ht.
  - cbn [mbind result_bind v_data v_size]. eexists. split; [done|]. replace (S (length l) - 1) with (length l) by lia.
    exists (g :: rest). by rewrite Ht.
  - rewrite destroy_at_middle; [|rewrite length_fmap; lia|done]. cbn [mbind result_bind v_data v_size]. eexists. split; [done|].
    replace (S (length l) - 1) with (length l) by lia. exists (Raw :: rest). split; [done|]. split; [done|]. split; [done|].
    intros _. simpl. by rewrite <- Hr.
Qed.
Lemma pop_back_rep sv l x : represents sv (l ++ [x]) → ∃ sv', pop_back sv = Ok sv' ∧ represents sv' l.
Proof.
  intros (rest & Hd & HN & Hs & Hr). destruct sv as [data k]. simpl in *. subst data k. rewrite length_app in *. simpl in HN.
  rewrite fmap_app, <- app_assoc. apply pop_back_last; [done|lia|simpl; lia|done].
Qed.

Lemma erase_rep sv l1 x l2 : represents sv (l1 ++ x :: l2) → ∃ sv', erase (length l1) sv = Ok sv' ∧ represents sv' (l1 ++ l2).
Proof.
  intros (rest & Hd & HN & Hs & Hr). destruct sv as [data k]. simpl in *. subst data. rewrite length_app in *. simpl in HN, Hs.
  unfold erase. cbn [v_size]. subst k. rewrite (proj2 (Nat.leb_le _ _)) by lia. cbn [require mbind result_bind].
  destruct l2 as [|y l2].
  - rewrite decide_True by (simpl; lia). cbn [mbind result_bind]. rewrite fmap_app, <- app_assoc, app_nil_r.
    apply pop_back_last; [done|simpl in HN; lia|simpl; lia|done].
  - rewrite decide_False by (simpl; lia). rewrite fmap_app, <- app_assoc, fmap_cons.
    replace (length l1 + S (length (y :: l2)) - S (length l1)) with (length (y :: l2)) by lia.
    destruct (move_forward_gap (y :: l2) (Alive <$> l1) [Alive x] rest (length l1 + S (length (y :: l2))) (S (length l1)) (length l1))
      as (G & E & HG & Hraw); [rewrite length_fmap; simpl; lia|by rewrite length_fmap|done|right; by repeat constructor|].
    change ((Alive x :: (Alive <$> y :: l2)) ++ rest) with ([Alive x] ++ (Alive <$> y :: l2) ++ rest).
    rewrite E. cbn [mbind result_bind]. destruct G as [|g [|]]; try done. rewrite app_assoc, <- fmap_app.
    apply pop_back_last; [|rewrite length_app; simpl in *; lia|rewrite length_app; simpl; lia|done].
    assert (Forall (λ s, is_raw s = false) [g]) as Hgs by (apply Hraw; by repeat constructor). by inversion Hgs.
Qed.

Lemma erase_range_rep sv l1 m l2 : fits → represents sv (l1 ++ m ++ l2) →
  ∃ sv', erase_range (length l1) (length l1 + length m) sv = Ok sv' ∧ represents sv' (l1 ++ l2).
Proof.
  intros Hf Hrep. pose proof Hrep as (rest & Hd & HN & Hs & Hr). unfold erase_range. case_decide as Hm.
  { destruct m; [by exists sv|simpl in Hm; lia]. }
  destruct sv as [data k]. simpl in *. subst data k. rewrite !length_app in *.
  rewrite (proj2 (Nat.leb_le _ _)), (proj2 (Nat.leb_le _ _)) by lia. cbn [andb require mbind result_bind].
  replace (length l1 + (length m + length l2) - (length l1 + length m)) with (length l2) by lia.
  destruct (move_forward_gap l2 (Alive <$> l1) (Alive <$> m) rest (length l1 + (length m + length l2)) (length l1 + length m) (length l1))
    as (G & E & HG & Hraw); [by rewrite !length_fmap|by rewrite length_fmap|by destruct m; simpl in *; [lia|]|right; apply alive_not_raw|].
  rewrite !fmap_app, <- !app_assoc, E. cbn [mbind result_bind v_size]. rewrite length_fmap in HG. specialize (Hraw (alive_not_raw m)).
  replace (length l1 + length m - length l1) with (length G) by lia. unfold set_size.
  destruct trivial eqn:Ht; cbn [mbind result_bind v_data v_size]; (rewrite cast_id by (done || lia)).
  - eexists. split; [done|]. exists (G ++ rest). rewrite Ht, fmap_app, <- !app_assoc, !length_app. repeat split; [lia|simpl; lia|done].
  - replace ((Alive <$> l1) ++ (Alive <$> l2) ++ G ++ rest) with ((Alive <$> l1 ++ l2) ++ G ++ rest) by (by rewrite fmap_app, <- app_assoc).
    rewrite destroy_loop_middle by (rewrite ?length_fmap, ?length_app; (done || lia)). cbn [mbind result_bind v_data v_size].
    eexists. split; [done|]. apply represents_intro; rewrite !length_app, ?length_replicate; [lia|lia|].
    intros _. rewrite replicate_add, <- Hr; done.
Qed.

Lemma clear_rep sv l : represents sv l → ∃ sv', clear sv = Ok sv' ∧ represents sv' [].
Proof.
  intros (rest & Hd & HN & Hs & Hr). destruct sv as [data k]. simpl in *. subst data k. unfold clear, set_size.
  destruct trivial eqn:Ht; cbn [mbind result_bind v_size v_data].
  - eexists. split; [done|]. exists ((Alive <$> l) ++ rest). rewrite Ht, length_app, length_fmap. done.
  - pose proof (destroy_loop_middle (Alive <$> l) [] rest (length l) 0 eq_refl (alive_not_raw l)) as E.
    rewrite length_fmap in E. cbn [app] in E. rewrite E. cbn [mbind result_bind v_size v_data]. eexists. split; [done|].
    exists (replicate (length l) Raw ++ rest). rewrite length_app, length_replicate. repeat split; [done|].
    intros _. rewrite replicate_add, <- Hr; done.
Qed.

(** The storage with room for [xs] behind the first [length l1] elements. *)
Lemma insert_range_rep sv l1 l2 xs : fits → represents sv (l1 ++ l2) → length (l1 ++ l2) + length xs <= N →
  l2 = [] ∨ raw_ok = true ∧ xs ≠ [] →
  ∃ sv', insert_range (length l1) xs sv = Ok sv' ∧ represents sv' (l1 ++ xs ++ l2).
Proof.
  intros Hf Hrep Hle Hcase. pose proof Hrep as (rest & Hd & HN & Hs & Hr). destruct sv as [data k]. simpl in *. subst data k.
  unfold insert_range, set_size. cbn [v_size v_data]. rewrite (proj2 (Nat.leb_le (length (l1 ++ l2) + length xs) N)) by lia. cbn [assert mbind result_bind].
  rewrite (cast_id (length xs)), cast_id by (done || lia). rewrite length_app in *.
  replace (length l1 + length l2 + length xs - length xs) with (length l1 + length l2) by lia.
  rewrite (proj2 (Nat.leb_le _ _)) by lia. cbn [require mbind result_bind].
  replace (length l1 + length l2 - length l1) with (length l2) by lia.
  assert (∃ G B, rest = G ++ B ∧ length G = length xs) as (G & B & -> & HG).
  { exists (take (length xs) rest), (drop (length xs) rest). split; [by rewrite take_drop|]. rewrite length_take. lia. }
  rewrite length_app in HN.
  assert (∃ G', move_backward (length l2) (length l1) (length l1 + length xs)
      (mkSV ((Alive <$> l1 ++ l2) ++ G ++ B) (length l1 + length l2 + length xs)) =
      Ok (mkSV ((Alive <$> l1) ++ G' ++ (Alive <$> l2) ++ B) (length l1 + length l2 + length xs)) ∧ length G' = length xs)
    as (G' & E & HG').
  { unfold move_backward. rewrite fmap_app, <- app_assoc. destruct Hcase as [->|[Ht Hxs]].
    - exists G. cbn [length]. destruct (_ && _) eqn:Eb; [|done]. apply andb_prop in Eb as [H1%Nat.ltb_lt H2%Nat.leb_le]. simpl in *. lia.
    - destruct (_ && _) eqn:Eb.
      { apply andb_prop in Eb as [_ H2%Nat.leb_le]. destruct xs; simpl in *; [done|lia]. }
      cbn [negb require mbind result_bind]. rewrite <- HG.
      destruct (move_back_gap l2 (Alive <$> l1) G B (length l1 + length l2 + length G) (length l1) (length l1 + length G))
        as (G' & E & HG'); [by rewrite length_fmap|by rewrite length_fmap|by destruct G, xs|by left|]. by exists G'. }
  rewrite E. cbn [mbind result_bind]. eexists. split.
  { apply construct_loop_middle; [by rewrite length_fmap|done|]. rewrite !length_app, !length_fmap. lia. }
  exists B. rewrite !fmap_app, <- !app_assoc, !length_app. repeat split; [lia|simpl; lia|]. intros Ht. specialize (Hr Ht).
  rewrite length_app, replicate_add in Hr. by apply app_inj_1 in Hr as [_ Hr]; [|by rewrite length_replicate].
Qed.
Lemma insert_as_range pos x sv : fits → insert pos x sv = insert_range pos [x] sv.
Proof.
  intros Hf. unfold insert, insert_range. cbn [length]. cbn zeta. unfold set_size. cbn [v_size v_data].
  destruct (v_size sv <? N) eqn:E; [apply Nat.ltb_lt in E|apply Nat.ltb_ge in E].
  - rewrite (proj2 (Nat.leb_le (v_size sv + 1) N)) by lia. cbn [assert mbind result_bind]. rewrite (cast_id 1) by (done || lia).
    rewrite !Nat.add_1_r. cbn [construct_loop]. destruct (require _) as [[]| |]; [|done..]. cbn [mbind result_bind].
    destruct (move_backward _ _ _ _) as [sv1| |]; [|done..]. cbn [mbind result_bind]. by destruct (construct_at pos x sv1).
  - by rewrite (proj2 (Nat.leb_gt (v_size sv + 1) N)) by lia.
Qed.

Lemma resize_rep sz sv l : fits → represents sv l → sz <= N →
  ∃ sv', resize sz sv = Ok sv' ∧ represents sv' (if length l <? sz then l ++ replicate (sz - length l) d else take sz l).
Proof.
  intros Hf Hr Hz. pose proof (represents_size _ _ Hr) as (Hs & Hl & _). unfold resize.
  rewrite (proj2 (Nat.leb_le _ _)) by done. cbn [assert mbind result_bind]. rewrite Hs.
  destruct (length l <? sz) eqn:E; [apply Nat.ltb_lt in E|apply Nat.ltb_ge in E].
  - apply push_all_rep; [done..|]. rewrite length_replicate. lia.
  - destruct (sz <? length l) eqn:E'; [apply Nat.ltb_lt in E'|apply Nat.ltb_ge in E'; exists sv; by rewrite take_ge].
    rewrite <- (take_drop sz l) in Hr. rewrite <- (app_nil_r (drop sz l)) in Hr.
    destruct (erase_range_rep sv (take sz l) (drop sz l) [] Hf Hr) as (sv' & E1 & Hr').
    rewrite length_take, length_drop, app_nil_r in *. exists sv'. split; [|done]. rewrite <- E1. f_equal; lia.
Qed.

Lemma resize_value_rep sz c sv l : fits → represents sv l → sz <= N →
  ∃ sv', resize_value sz c sv = Ok sv' ∧ represents sv' (if length l <? sz then l ++ replicate (sz - length l) c else take sz l).
Proof.
  intros Hf Hr Hz. pose proof (represents_size _ _ Hr) as (Hs & Hl & _). unfold resize_value.
  rewrite (proj2 (Z.leb_le _ _)) by (unfold fits, size_max in *; repeat case_match; lia).
  rewrite (proj2 (Nat.leb_le _ _)) by done. cbn [assert mbind result_bind]. rewrite Hs, cast_id by done.
  destruct (length l <? sz) eqn:E; [apply Nat.ltb_lt in E|apply Nat.ltb_ge in E].
  - destruct (push_all_rep (replicate (sz - length l) c) sv l Hf Hr) as (sv1 & E1 & Hr1); [rewrite length_replicate; lia|].
    rewrite E1. eexists. split; [done|]. pose proof (represents_size _ _ Hr1) as (Hs1 & _).
    rewrite length_app, length_replicate in Hs1. destruct sv1 as [data k]. simpl in Hs1. unfold set_size. simpl.
    by replace sz with k at 1 by lia.
  - destruct Hr as (rest & Hd & HN & _ & Hr). destruct sv as [data k]. simpl in *. subst data k. unfold set_size.
    assert (l = take sz l ++ drop sz l) as El by (by rewrite take_drop).
    destruct trivial eqn:Ht; cbn [negb andb].
    + cbn [mbind result_bind v_data]. eexists. split; [done|]. exists ((Alive <$> drop sz l) ++ rest). rewrite Ht.
      rewrite app_assoc, <- fmap_app, <- El, length_app, length_fmap, length_take, length_drop. repeat split; [lia|simpl; lia|done].
    + assert (∀ n, n = length l - sz → destroy_loop n sz (mkSV ((Alive <$> l) ++ rest) (length l)) =
        Ok (mkSV ((Alive <$> take sz l) ++ replicate n Raw ++ rest) (length l))) as Ed.
      { intros n ->. rewrite El at 2. rewrite fmap_app, <- app_assoc. rewrite <- (length_drop l), <- (length_fmap Alive (drop sz l)).
        apply destroy_loop_middle; [rewrite length_fmap, length_take; lia|apply alive_not_raw]. }
      exists (mkSV ((Alive <$> take sz l) ++ replicate (length l - sz) Raw ++ rest) sz). split.
      * destruct (sz <? length l) eqn:E'; [by rewrite Ed|]. apply Nat.ltb_ge in E'. cbn [mbind result_bind v_data].
        rewrite take_ge by lia. by replace (length l - sz) with 0 by lia.
      * apply represents_intro; rewrite ?length_app, ?length_replicate, ?length_take; [lia|lia|].
        intros _. rewrite replicate_add, <- Hr; done.
Qed.

(** *** Assignment *)

Lemma write_loop_middle xs : ∀ A G B k i, i = length A → length G = length xs → (raw_ok = true ∨ Forall (λ s, is_raw s = false) G) →
  write_loop i xs (mkSV (A ++ G ++ B) k) = Ok (mkSV (A ++ (Alive <$> xs) ++ B) k).
Proof.
  induction xs as [|x xs IH]; intros A [|g G] B k i -> HG Hr; try done. cbn [write_loop].
  rewrite (assign_at_middle A g (G ++ B)); [|done|destruct Hr as [?|Hr]; [by left|right; by inversion Hr]]. cbn [mbind result_bind].
  replace (A ++ Alive x :: G ++ B) with ((A ++ [Alive x]) ++ G ++ B) by (by rewrite <- app_assoc).
  rewrite IH; [by rewrite <- app_assoc|rewrite length_app; simpl; lia|simpl in HG; lia|].
  destruct Hr as [?|Hr]; [by left|right; by inversion Hr].
Qed.
Lemma write_loop_raw xs : ∀ A G B k i, i = length A → length G < length xs → raw_ok = false → Forall (λ s, is_raw s = false) G →
  write_loop i xs (mkSV (A ++ G ++ Raw :: B) k) = Undefined.
Proof.
  induction xs as [|x xs IH]; intros A G B k i -> HG Ht Hr; [simpl in HG; lia|]. cbn [write_loop].
  destruct G as [|g G]; [by rewrite app_nil_l, assign_at_raw|]. inversion Hr; subst.
  rewrite (assign_at_middle A g (G ++ Raw :: B)) by auto. cbn [mbind result_bind].
  replace (A ++ Alive x :: G ++ Raw :: B) with ((A ++ [Alive x]) ++ G ++ Raw :: B) by (by rewrite <- app_assoc).
  apply IH; [rewrite length_app; simpl; lia|simpl in HG; lia|done|done].
Qed.

Lemma assign_at_set_size i v k sv : assign_at i v (set_size k sv) = assign_at i v sv ≫= λ sv', Ok (set_size k sv').
Proof. unfold assign_at. cbn [set_size v_data]. destruct (v_data sv !! i); [|done]. by destruct (require _). Qed.
Lemma assign_at_Ok i v sv sv' : assign_at i v sv = Ok sv' →
  i < length (v_data sv) ∧ length (v_data sv') = length (v_data sv) ∧ v_size sv' = v_size sv.
Proof.
  unfold assign_at. destruct (v_data sv !! i) as [s|] eqn:E; [|done]. intros ([] & _ & [= <-])%bind_Ok. simpl.
  rewrite length_insert. apply lookup_lt_Some in E. done.
Qed.
Lemma assign_n_loop_write n : ∀ i u sv, i + n <= v_size sv → assign_n_loop n i u sv = write_loop i (replicate n u) sv.
Proof.
  induction n as [|n IH]; intros i u sv Hi; [done|]. cbn [assign_n_loop write_loop replicate]. unfold at_pos.
  rewrite (proj2 (Nat.ltb_lt _ _)) by lia. cbn [assert mbind result_bind]. destruct (assign_at i u sv) as [sv1| |] eqn:E; [|done..].
  cbn [mbind result_bind]. apply assign_at_Ok in E as (_ & _ & E). apply IH. lia.
Qed.
Lemma assign_range_loop_write xs : ∀ i sv, fits → i + length xs <= N → i <= v_size sv →
  assign_range_loop i xs sv = write_loop i xs (set_size (v_size sv `max` (i + length xs)) sv).
Proof.
  induction xs as [|x xs IH]; intros i sv Hf HN Hi.
  { simpl. rewrite Nat.add_0_r, Nat.max_l by done. by destruct sv. }
  cbn [length] in *. cbn [assign_range_loop write_loop]. unfold at_pos. rewrite (proj2 (Nat.leb_le i N)) by lia.
  rewrite cast_id by (done || lia). unfold assert at 1. cbn [mbind result_bind].
  cbn [set_size v_size]. rewrite (proj2 (Nat.ltb_lt i _)) by lia. cbn [assert mbind result_bind].
  rewrite !assign_at_set_size. destruct (assign_at i x sv) as [sv1| |] eqn:E; [|done..]. cbn [mbind result_bind].
  rewrite IH; [|done|lia|simpl; lia]. cbn [set_size v_size v_data]. f_equal. unfold set_size. f_equal. lia.
Qed.

(** The elements from the first on are overwritten, those behind stay. *)
Lemma write_rep xs sv l : represents sv l → length xs <= N → raw_ok = true ∨ length xs <= length l →
  ∃ sv', write_loop 0 xs (set_size (length l `max` length xs) sv) = Ok sv' ∧ represents sv' (xs ++ drop (length xs) l).
Proof.
  intros (rest & Hd & HN & Hs & Hr) Hx Hc. destruct sv as [data k]. simpl in *. subst data k. unfold set_size. cbn [v_data].
  destruct (Nat.le_gt_cases (length xs) (length l)) as [Hle|Hgt].
  - rewrite Nat.max_l by done. pose proof (write_loop_middle xs [] (Alive <$> take (length xs) l)
      ((Alive <$> drop (length xs) l) ++ rest) (length l) 0 eq_refl) as E. cbn [app] in E. rewrite app_assoc, <- fmap_app, take_drop in E.
    rewrite E; [|rewrite length_fmap, length_take; lia|right; apply alive_not_raw]. eexists. split; [done|].
    rewrite app_assoc, <- fmap_app. apply represents_intro; [| |done]; rewrite length_app, length_drop; lia.
  - destruct Hc as [Ht|Hc]; [|lia]. rewrite Nat.max_r, drop_ge, app_nil_r by lia.
    pose proof (write_loop_middle xs [] ((Alive <$> l) ++ take (length xs - length l) rest) (drop (length xs - length l) rest)
      (length xs) 0 eq_refl) as E. cbn [app] in E. rewrite <- app_assoc, take_drop in E.
    rewrite E; [|rewrite length_app, length_fmap, length_take; lia|by left]. eexists. split; [done|].
    apply represents_intro; [rewrite length_drop; lia|done|]. intros Htr. rewrite (Hr Htr), drop_replicate, length_replicate. done.
Qed.
Lemma raw_not_trivial : raw_ok = false → trivial = false.
Proof. unfold raw_ok. by destruct trivial. Qed.
Lemma write_undefined xs sv l k : represents sv l → length l < length xs → length l < N → raw_ok = false →
  write_loop 0 xs (set_size k sv) = Undefined.
Proof.
  intros (rest & Hd & HN & Hs & Hr) Hx Hl Ht. destruct rest as [|r rest]; [simpl in HN; lia|]. specialize (Hr (raw_not_trivial Ht)). simpl in Hr.
  injection Hr as -> _. unfold set_size. rewrite Hd. apply (write_loop_raw xs []); [done|rewrite length_fmap; lia|done|apply alive_not_raw].
Qed.

(** *** Insertions that cannot be done *)

Lemma move_back_raw n src A B k dst : raw_ok = false → dst + n = length A →
  move_back_loop (S n) src dst (mkSV (A ++ Raw :: B) k) = Undefined.
Proof.
  intros Ht Hd. cbn [move_back_loop]. unfold take_at, read_at. cbn [v_data].
  destruct ((A ++ Raw :: B) !! (src + n)) as [[| |w]|] eqn:El; try done. cbn [mbind result_bind].
  assert ((A ++ Raw :: B) !! (dst + n) = Some Raw) as Hm by (by apply list_lookup_middle).
  assert (v_data (if movable then set_slot (src + n) Moved (mkSV (A ++ Raw :: B) k) else mkSV (A ++ Raw :: B) k) !! (dst + n) = Some Raw) as Hraw.
  { destruct movable; [|done]. cbn [set_slot v_data]. rewrite list_lookup_insert_ne; [done|]. intros Heq. rewrite Heq in El. congruence. }
  unfold assign_at. rewrite Hraw. by rewrite Ht.
Qed.
Lemma insert_range_full pos xs sv l : represents sv l → N < length l + length xs → insert_range pos xs sv = AssertFails.
Proof. intros (Hs & _)%represents_size Hl. unfold insert_range. by rewrite Hs, (proj2 (Nat.leb_gt _ _) Hl). Qed.
Lemma insert_range_undefined pos xs sv l : fits → represents sv l → length l + length xs <= N →
  ~ (pos <= length l ∧ (pos = length l ∨ raw_ok = true ∧ 0 < length xs)) → insert_range pos xs sv = Undefined.
Proof.
  intros Hf (rest & Hd & HN & Hs & Hr) Hle Hno. unfold insert_range. rewrite Hs, (proj2 (Nat.leb_le _ _) Hle).
  cbn [assert mbind result_bind]. rewrite (cast_id (length xs)), cast_id by (done || lia). cbn [set_size v_size].
  destruct (pos <=? _) eqn:Hp; [|done]. apply Nat.leb_le in Hp. cbn [require mbind result_bind]. unfold move_backward.
  destruct (Nat.eq_0_gt_0_cases (length xs)) as [Hx|Hx].
  { rewrite (proj2 (Nat.ltb_lt _ _)), (proj2 (Nat.leb_le _ _)) by lia. done. }
  destruct (negb _); [|done]. cbn [require mbind result_bind].
  assert (raw_ok = false) as Ht by (apply not_true_is_false; intros E; apply Hno; split; [lia|by right]). specialize (Hr (raw_not_trivial Ht)).
  destruct (length l + length xs - length xs - pos) as [|n] eqn:En; [lia|].
  unfold set_size. rewrite Hd, Hr.
  replace (length rest) with (length xs - 1 + S (length rest - length xs)) by lia.
  rewrite replicate_add, replicate_S, app_assoc, move_back_raw; [done|done|]. rewrite length_app, length_fmap, length_replicate. lia.
Qed.

(** *** More elements than the storage has *)

(** [assign] of a range: the elements up to the end of the storage, and then the one behind it. *)
Lemma assign_range_loop_app xs : ∀ ys i sv sv', assign_range_loop i xs sv = Ok sv' →
  assign_range_loop i (xs ++ ys) sv = assign_range_loop (i + length xs) ys sv'.
Proof.
  induction xs as [|x xs IH]; intros ys i sv sv' E; [injection E as <-; by rewrite Nat.add_0_r|].
  cbn [assign_range_loop app length] in *. apply bind_Ok in E as ([] & -> & E). cbn [mbind result_bind].
  apply bind_Ok in E as (j & Hj & E). rewrite Hj. cbn [mbind result_bind]. apply bind_Ok in E as (sv1 & Ea & E). rewrite Ea. cbn [mbind result_bind].
  unfold at_pos in Hj. apply bind_Ok in Hj as ([] & _ & [= <-]). rewrite (IH ys _ _ _ E). f_equal. lia.
Qed.
Lemma assign_range_loop_fails xs : ∀ ys i sv, assign_range_loop i xs sv = Undefined → assign_range_loop i (xs ++ ys) sv = Undefined.
Proof.
  induction xs as [|x xs IH]; intros ys i sv E; [done|]. cbn [assign_range_loop app] in *.
  destruct (assert _) as [[]| |]; [|done..]. cbn [mbind result_bind] in *.
  destruct (at_pos _ _) as [j| |] eqn:Hj; [|done..]. cbn [mbind result_bind] in *.
  destruct (assign_at _ _ _) as [sv1| |]; [|done..]. cbn [mbind result_bind] in *.
  unfold at_pos in Hj. apply bind_Ok in Hj as ([] & _ & [= <-]). by apply IH.
Qed.
Lemma cast_behind : fits → cast (S N) = if (Z.of_nat N =? size_max)%Z then 0 else S N.
Proof.
  unfold fits, cast. intros Hf. destruct (Z.eqb_spec (Z.of_nat N) size_max) as [E|E].
  - rewrite Nat2Z.inj_succ, E, Z_mod_same_full. done.
  - assert (Z.of_nat N <= size_max)%Z by (unfold size_max; repeat case_match; lia). rewrite Z.mod_small by lia. lia.
Qed.
Lemma assign_behind x xs sv l : fits → represents sv l → length l = N →
  assign_range_loop N (x :: xs) sv = if (Z.of_nat N =? size_max)%Z then AssertFails else Undefined.
Proof.
  intros Hf Hr HN. pose proof (represents_size _ _ Hr) as (Hs & _ & Hd). cbn [assign_range_loop]. rewrite Nat.leb_refl. cbn [assert mbind result_bind].
  unfold at_pos. cbn [set_size v_size]. rewrite Hs, HN, cast_behind by done. destruct (_ =? _)%Z.
  - rewrite Nat.max_0_r, Nat.ltb_irrefl. done.
  - rewrite (proj2 (Nat.ltb_lt _ _)) by lia. cbn [assert mbind result_bind]. unfold assign_at. cbn [set_size v_data].
    by rewrite (lookup_ge_None_2 (v_data sv)) by lia.
Qed.
Lemma assign_range_over xs sv l : fits → represents sv l → N < length xs →
  assign_range xs sv = if (Z.of_nat N =? size_max)%Z && (raw_ok || (length l =? N)) then AssertFails else Undefined.
Proof.
  intros Hf Hr Hx. pose proof (represents_size _ _ Hr) as (Hs & Hl & _). rewrite <- (take_drop N xs). unfold assign_range.
  assert (length (take N xs) = N) as Ht by (rewrite length_take; lia).
  assert (assign_range_loop 0 (take N xs) sv = write_loop 0 (take N xs) (set_size (length l `max` N) sv)) as Ew.
  { rewrite assign_range_loop_write by (done || lia). by rewrite Hs, Nat.add_0_l, Ht. }
  destruct (raw_ok || (length l =? N)) eqn:Eo.
  - destruct (write_rep (take N xs) sv l Hr) as (sv' & E & Hr'); [lia| |].
    { apply orb_true_iff in Eo as [?|?%Nat.eqb_eq]; [by left|right; lia]. }
    rewrite Ht, <- Ew in E. rewrite (assign_range_loop_app _ _ _ _ _ E), Ht, Nat.add_0_l, andb_true_r.
    rewrite drop_ge, app_nil_r in Hr' by lia. destruct (drop N xs) as [|y ys] eqn:Ed.
    { apply (f_equal length) in Ed. rewrite length_drop in Ed. simpl in Ed. lia. }
    by apply (assign_behind y ys sv' (take N xs)).
  - apply orb_false_iff in Eo as [Er El%Nat.eqb_neq]. rewrite andb_false_r. apply assign_range_loop_fails. rewrite Ew.
    apply (write_undefined _ _ l); [done|lia|lia|done].
Qed.

(** *** All members that change the vector *)

Inductive sv_op : Type :=
  | PushBack (x : T)
  | PopBack
  | Erase (pos : nat)
  | EraseRange (first last : nat)
  | Insert (pos : nat) (x : T)
  | InsertN (pos n : nat) (x : T)
  | InsertRange (pos : nat) (xs : list T)
  | Clear
  | Resize (sz : nat)
  | ResizeValue (sz : nat) (c : T)
  | AssignN (n : nat) (u : T)
  | AssignRange (xs : list T).
Definition sv_exec (op : sv_op) : vec → result vec :=
  match op with
  | PushBack x => push_back x
  | PopBack => pop_back
  | Erase pos => erase pos
  | EraseRange first last => erase_range first last
  | Insert pos x => insert pos x
  | InsertN pos n x => insert_n pos n x
  | InsertRange pos xs => insert_range pos xs
  | Clear => clear
  | Resize sz => resize sz
  | ResizeValue sz c => resize_value sz c
  | AssignN n u => assign_n n u
  | AssignRange xs => assign_range xs
  end.

(** What they do to a list: it becomes another one, an assertion fails, or the call is one whose
    behaviour is undefined and of which nothing is promised. *)
Inductive sv_result : Type := Holds (l : list T) | Asserts | NothingPromised.
Definition promised (P : Prop) `{Decision P} (l : list T) : sv_result := if decide P then Holds l else NothingPromised.
Definition asserted (P : Prop) `{Decision P} (r : sv_result) : sv_result := if decide P then r else Asserts.
Definition insert_spec (pos : nat) (xs l : list T) : sv_result :=
  asserted (length l + length xs <= N)
    (promised (pos <= length l ∧ (pos = length l ∨ raw_ok = true ∧ 0 < length xs)) (take pos l ++ xs ++ drop pos l)).
Definition resize_spec (sz : nat) (c : T) (l : list T) : sv_result :=
  asserted (sz <= N) (Holds (if length l <? sz then l ++ replicate (sz - length l) c else take sz l)).
Definition assign_spec (xs l : list T) : sv_result :=
  promised (raw_ok = true ∨ length xs <= length l) (xs ++ drop (length xs) l).
Definition sv_spec (op : sv_op) (l : list T) : sv_result :=
  match op with
  | PushBack x => asserted (length l < N) (Holds (l ++ [x]))
  | PopBack => asserted (0 < length l) (Holds (take (length l - 1) l))
  | Erase pos => promised (pos < length l) (take pos l ++ drop (S pos) l)
  | EraseRange first last => promised (first = last ∨ first <= last <= length l) (take first l ++ drop last l)
  | Insert pos x => insert_spec pos [x] l
  | InsertN pos n x => insert_spec pos (replicate n x) l
  | InsertRange pos xs => insert_spec pos xs l
  | Clear => Holds []
  | Resize sz => resize_spec sz d l
  | ResizeValue sz c => resize_spec sz c l
  | AssignN n u => asserted (n <= N) (assign_spec (replicate n u) l)
  | AssignRange xs =>
      if decide (length xs <= N) then assign_spec xs l
      else if (Z.of_nat N =? size_max)%Z && (raw_ok || (length l =? N)) then Asserts
      else NothingPromised
  end.

(** The call behaves as the list says. *)
Definition refines (m : result vec) (s : sv_result) : Prop :=
  match s with
  | Holds l' => ∃ sv', m = Ok sv' ∧ represents sv' l'
  | Asserts => m = AssertFails
  | NothingPromised => m = Undefined
  end.

Lemma promised_refines (P : Prop) `{Decision P} m l :
  (P → ∃ sv', m = Ok sv' ∧ represents sv' l) → (~ P → m = Undefined) → refines m (promised P l).
Proof. intros H1 H2. unfold promised. case_decide as HP; [exact (H1 HP)|exact (H2 HP)]. Qed.
Lemma asserted_refines (P : Prop) `{Decision P} m s : (P → refines m s) → (~ P → m = AssertFails) → refines m (asserted P s).
Proof. intros H1 H2. unfold asserted. case_decide as HP; [exact (H1 HP)|exact (H2 HP)]. Qed.

Lemma insert_range_refines pos xs sv l : fits → represents sv l → refines (insert_range pos xs sv) (insert_spec pos xs l).
Proof.
  intros Hf Hr. apply asserted_refines; intros Hl; [|apply (insert_range_full _ _ _ l); [done|lia]].
  apply promised_refines; [|by apply insert_range_undefined]. intros (Hp & Hc).
  pose proof (insert_range_rep sv (take pos l) (drop pos l) xs) as H. rewrite take_drop, length_take, Nat.min_l in H by done.
  apply H; [done..|].
  destruct Hc as [->|[Ht Hx]]; [left; by rewrite drop_ge|right; split; [done|by destruct xs; simpl in Hx; [lia|]]].
Qed.
Lemma write_refines xs sv l : represents sv l → length xs <= N →
  refines (write_loop 0 xs (set_size (length l `max` length xs) sv)) (assign_spec xs l).
Proof.
  intros Hr Hx. apply promised_refines; intros HP; [by apply write_rep|].
  apply (write_undefined _ _ l); [done|lia|lia|]. apply not_true_is_false. auto.
Qed.
Lemma assign_n_refines n u sv l : fits → represents sv l → refines (assign_n n u sv) (asserted (n <= N) (assign_spec (replicate n u) l)).
Proof.
  intros Hf Hr. pose proof (represents_size _ _ Hr) as (Hs & Hl & _). unfold assign_n. apply asserted_refines; intros Hn.
  - rewrite (proj2 (Nat.leb_le _ _)) by done. cbn [assert mbind result_bind].
    rewrite assign_n_loop_write, cast_id, Hs by (done || simpl; rewrite ?cast_id by done; lia).
    pose proof (write_refines (replicate n u) sv l Hr) as H. rewrite length_replicate in H. by apply H.
  - by rewrite (proj2 (Nat.leb_gt _ _)) by lia.
Qed.
Lemma assign_range_refines xs sv l : fits → represents sv l → refines (assign_range xs sv) (sv_spec (AssignRange xs) l).
Proof.
  intros Hf Hr. pose proof (represents_size _ _ Hr) as (Hs & Hl & Hd). cbn [sv_spec]. case_decide as Hx.
  - unfold assign_range. rewrite assign_range_loop_write by (done || lia). rewrite Hs, Nat.add_0_l. by apply write_refines.
  - rewrite (assign_range_over _ _ l) by (done || lia). by destruct (_ && _).
Qed.
Lemma resize_refines sz sv l : fits → represents sv l → refines (resize sz sv) (resize_spec sz d l).
Proof.
  intros Hf Hr. apply asserted_refines; intros HP; [by apply resize_rep|]. unfold resize. by rewrite (proj2 (Nat.leb_gt _ _)) by lia.
Qed.
Lemma resize_value_refines sz c sv l : fits → represents sv l → refines (resize_value sz c sv) (resize_spec sz c l).
Proof.
  intros Hf Hr. apply asserted_refines; intros HP; [by apply resize_value_rep|]. unfold resize_value.
  rewrite (proj2 (Nat.leb_gt _ _)) by lia. by destruct (_ <=? _)%Z.
Qed.
Lemma erase_refines pos sv l : represents sv l → refines (erase pos sv) (promised (pos < length l) (take pos l ++ drop (S pos) l)).
Proof.
  intros Hr. apply promised_refines; intros HP.
  - destruct (lookup_lt_is_Some_2 _ _ HP) as [x Hx]. rewrite <- (take_drop_middle l pos x Hx) in Hr.
    pose proof (erase_rep _ _ _ _ Hr) as H. by rewrite length_take, Nat.min_l in H by lia.
  - pose proof (represents_size _ _ Hr) as (Hs & _). unfold erase. by rewrite (proj2 (Nat.leb_gt _ _)) by lia.
Qed.
Lemma erase_range_refines first last sv l : fits → represents sv l →
  refines (erase_range first last sv) (promised (first = last ∨ first <= last <= length l) (take first l ++ drop last l)).
Proof.
  intros Hf Hr. apply promised_refines; intros HP.
  - destruct (decide (first = last)) as [->|Hne].
    { exists sv. unfold erase_range. by rewrite decide_True, take_drop. }
    assert (first <= last <= length l) as [H1 H2] by (by destruct HP).
    assert (length (take first l) = first) as Et by (rewrite length_take; lia).
    assert (length (take (last - first) (drop first l)) = last - first) as Em by (rewrite length_take, length_drop; lia).
    assert (l = take first l ++ take (last - first) (drop first l) ++ drop last l) as El.
    { rewrite <- (take_drop first l) at 1. f_equal. rewrite <- (take_drop (last - first) (drop first l)) at 1. f_equal.
      rewrite drop_drop. f_equal. lia. }
    rewrite El in Hr. destruct (erase_range_rep _ _ _ _ Hf Hr) as (sv' & E & Hr'). exists sv'. split; [|done]. rewrite <- E, Et, Em. f_equal; lia.
  - pose proof (represents_size _ _ Hr) as (Hs & _). unfold erase_range. rewrite decide_False by tauto.
    destruct (_ && _) eqn:E; [|done]. rewrite Hs in E. apply andb_true_iff in E as [H1%Nat.leb_le H2%Nat.leb_le]. lia.
Qed.
Lemma pop_back_refines sv l : represents sv l → refines (pop_back sv) (asserted (0 < length l) (Holds (take (length l - 1) l))).
Proof.
  intros Hr. apply asserted_refines; intros HP.
  - destruct l as [|x l _] using rev_ind; [simpl in HP; lia|]. rewrite length_app. simpl.
    rewrite take_app_le, take_ge by lia. by eapply pop_back_rep.
  - pose proof (represents_size _ _ Hr) as (Hs & _). unfold pop_back. by rewrite (proj2 (Nat.ltb_ge _ _)) by lia.
Qed.

Lemma sv_exec_refines op sv l : fits → represents sv l → refines (sv_exec op sv) (sv_spec op l).
Proof.
  intros Hf Hr. destruct op as [x| |pos|first last|pos x|pos n x|pos xs| |sz|sz c|n u|xs]; cbn [sv_exec sv_spec].
  - apply asserted_refines; intros HP; [by apply push_back_rep|]. apply (push_back_full x sv l Hr). lia.
  - by apply pop_back_refines.
  - by apply erase_refines.
  - by apply erase_range_refines.
  - rewrite insert_as_range by done. by apply insert_range_refines.
  - by apply insert_range_refines.
  - by apply insert_range_refines.
  - by eapply clear_rep.
  - by apply resize_refines.
  - by apply resize_value_refines.
  - by apply assign_n_refines.
  - by apply assign_range_refines.
Qed.
(** *** Constructors, copies and reading *)

Lemma new_sv_rep : represents new_sv [].
Proof. exists (replicate N Raw). rewrite length_replicate. done. Qed.
Lemma read_at_rep i sv l : represents sv l → read_at i sv = match l !! i with Some v => Ok v | None => read_at i sv end.
Proof.
  intros (rest & Hd & _). destruct (l !! i) as [v|] eqn:E; [|done]. unfold read_at. rewrite Hd, lookup_app, list_lookup_fmap, E. done.
Qed.
Lemma index_rep i sv l : represents sv l → index i sv = match l !! i with Some v => Ok v | None => AssertFails end.
Proof.
  intros Hr. pose proof (represents_size _ _ Hr) as (Hs & _). unfold index, at_pos. rewrite Hs. destruct (l !! i) as [v|] eqn:E.
  - pose proof (lookup_lt_Some _ _ _ E) as Hi. apply Nat.ltb_lt in Hi as ->. cbn [assert mbind result_bind].
    rewrite (read_at_rep i sv l Hr), E. done.
  - apply lookup_ge_None in E. by rewrite (proj2 (Nat.ltb_ge _ _)).
Qed.
Lemma read_loop_rep sv l : represents sv l → ∀ l2 l1, l = l1 ++ l2 → read_loop (length l2) (length l1) sv = Ok l2.
Proof.
  intros Hr l2. induction l2 as [|x l2 IH]; intros l1 El; [done|]. cbn [length read_loop].
  rewrite (read_at_rep _ sv l Hr), El, list_lookup_middle by done. cbn [mbind result_bind].
  specialize (IH (l1 ++ [x])). rewrite length_app, Nat.add_1_r in IH. rewrite IH; [done|]. by rewrite <- app_assoc.
Qed.
Lemma elements_rep sv l : represents sv l → elements sv = Ok l.
Proof.
  intros Hr. unfold elements. pose proof (represents_size _ _ Hr) as (-> & _). by apply (read_loop_rep sv l Hr l []).
Qed.
Lemma copy_construct_rep other l : fits → represents other l → ∃ sv', copy_construct other = Ok sv' ∧ represents sv' l.
Proof.
  intros Hf Hr. pose proof (represents_size _ _ Hr) as (Hs & Hl & _). unfold copy_construct. rewrite Hs, (proj2 (Nat.leb_le _ _)) by done.
  cbn [assert mbind result_bind]. rewrite (elements_rep _ _ Hr). by apply (push_all_rep l new_sv [] Hf new_sv_rep).
Qed.
Lemma copy_assign_rep sv l other l2 : fits → represents sv l → represents other l2 →
  ∃ sv', copy_assign (Some other) sv = Ok sv' ∧ represents sv' l2.
Proof.
  intros Hf Hr Hr2. pose proof (represents_size _ _ Hr2) as (Hs & Hl & _). unfold copy_assign. cbn [default from_option id].
  rewrite Hs, (proj2 (Nat.leb_le _ _)) by done. cbn [assert mbind result_bind].
  destruct (clear_rep _ _ Hr) as (sv1 & E1 & Hr1). rewrite E1. cbn [mbind result_bind]. rewrite (elements_rep _ _ Hr2).
  by apply (push_all_rep l2 sv1 [] Hf Hr1).
Qed.
(** A vector that is assigned to itself is cleared before it is read. *)
Lemma self_assignment_clears sv l : fits → represents sv l → ∃ sv', copy_assign None sv = Ok sv' ∧ represents sv' [].
Proof.
  intros Hf Hr. pose proof (represents_size _ _ Hr) as (Hs & Hl & _). unfold copy_assign. cbn [default from_option].
  rewrite Hs, (proj2 (Nat.leb_le _ _)) by done. cbn [assert mbind result_bind].
  destruct (clear_rep _ _ Hr) as (sv1 & E1 & Hr1). rewrite E1. cbn [mbind result_bind]. rewrite (elements_rep _ _ Hr1).
  by exists sv1.
Qed.

Lemma move_out_rep l2 : ∀ D rest k i sv l, i = length D → Forall (λ s, is_raw s = false) D →
  fits → represents sv l → length l + length l2 <= N →
  ∃ D' sv', move_out (length l2) i (mkSV (D ++ (Alive <$> l2) ++ rest) k) sv = Ok (mkSV (D' ++ rest) k, sv') ∧
    represents sv' (l ++ l2) ∧ length D' = length D + length l2 ∧ Forall (λ s, is_raw s = false) D'.
Proof.
  induction l2 as [|x l2 IH]; intros D rest k i sv l -> HD Hf Hr Hl.
  { exists D, sv. rewrite app_nil_r. simpl. by rewrite Nat.add_0_r. }
  simpl in Hl. cbn [length move_out]. rewrite fmap_cons. change ((Alive x :: (Alive <$> l2)) ++ rest) with (Alive x :: (Alive <$> l2) ++ rest).
  rewrite take_at_middle by done. cbn [mbind result_bind]. destruct (push_back_rep x sv l Hf Hr) as (sv1 & E1 & Hr1); [lia|].
  rewrite E1. cbn [mbind result_bind].
  replace (D ++ left_of x :: (Alive <$> l2) ++ rest) with ((D ++ [left_of x]) ++ (Alive <$> l2) ++ rest) by (by rewrite <- app_assoc).
  destruct (IH (D ++ [left_of x]) rest k (S (length D)) sv1 (l ++ [x])) as (D' & sv' & E & Hr' & HD' & Hraw); [| |done|done| |].
  - rewrite length_app. simpl. lia.
  - apply Forall_app. split; [done|]. constructor; [apply left_of_not_raw|done].
  - rewrite length_app. simpl. lia.
  - exists D', sv'. rewrite E. rewrite <- app_assoc in Hr'. rewrite length_app in HD'. simpl in HD'. split; [done|]. split; [done|].
    split; [lia|done].
Qed.
(** Moving: the elements arrive, the other vector is empty. *)
Lemma move_into_rep other l sv : fits → represents other l → represents sv [] →
  ∃ other' sv', move_into other sv = Ok (other', sv') ∧ represents other' [] ∧ represents sv' l.
Proof.
  intros Hf Ho Hs. pose proof (represents_size _ _ Ho) as (_ & Hl & _). destruct Ho as (rest & Hd & HN & Hk & Hr).
  destruct other as [data k]. simpl in *. subst data k. unfold move_into. cbn [v_size].
  destruct (move_out_rep l [] rest (length l) 0 sv [] eq_refl ltac:(constructor) Hf Hs Hl) as (D & sv' & E & Hr' & HD & Hraw).
  cbn [app length] in *. rewrite E. cbn [mbind result_bind]. unfold clear. cbn [v_size]. rewrite Nat.add_0_l in HD. rewrite <- HD.
  destruct trivial eqn:Ht.
  - cbn [mbind result_bind]. eexists _, sv'. split; [done|]. split; [|done]. exists (D ++ rest). rewrite Ht, length_app. simpl.
    repeat split; [lia|done].
  - rewrite (destroy_loop_middle D [] rest _ 0 eq_refl Hraw). cbn [mbind result_bind]. eexists _, sv'. split; [done|]. split; [|done].
    exists (replicate (length D) Raw ++ rest). rewrite length_app, length_replicate. simpl. repeat split; [lia|].
    intros _. rewrite replicate_add, <- Hr; done.
Qed.
Lemma move_assign_rep other l sv l0 : fits → represents other l → represents sv l0 →
  ∃ other' sv', move_assign other sv = Ok (other', sv') ∧ represents other' [] ∧ represents sv' l.
Proof.
  intros Hf Ho Hs. pose proof (represents_size _ _ Ho) as (Hk & Hl & _). unfold move_assign. rewrite Hk, (proj2 (Nat.leb_le _ _)) by done.
  cbn [assert mbind result_bind]. destruct (clear_rep _ _ Hs) as (sv1 & E1 & Hr1). rewrite E1. cbn [mbind result_bind].
  by apply (move_into_rep other l sv1 Hf Ho).
Qed.

Lemma swap_loop_middle X : ∀ Y A1 A2 B1 B2 ka kb i, length A1 = i → length B1 = i → length X = length Y →
  (trivial = true ∨ Forall (λ s, is_raw s = false) X ∧ Forall (λ s, is_raw s = false) Y) →
  swap_loop (length X) i (mkSV (A1 ++ X ++ A2) ka) (mkSV (B1 ++ Y ++ B2) kb) =
    Ok (mkSV (A1 ++ Y ++ A2) ka, mkSV (B1 ++ X ++ B2) kb).
Proof.
  induction X as [|x X IH]; intros [|y Y] A1 A2 B1 B2 ka kb i <- HB HXY Hr; try done. cbn [length swap_loop v_data].
  change ((x :: X) ++ A2) with (x :: X ++ A2). change ((y :: Y) ++ B2) with (y :: Y ++ B2). rewrite !list_lookup_middle by done.
  assert (trivial || negb (is_raw x || is_raw y) = true) as ->.
  { destruct Hr as [->|[H1 H2]]; [done|]. inversion H1 as [|? ? Hx _]; inversion H2 as [|? ? Hy _]; subst. rewrite Hx, Hy. apply orb_true_r. }
  cbn [require mbind result_bind]. unfold set_slot. cbn [v_data v_size]. rewrite insert_middle. rewrite <- HB, insert_middle, HB.
  specialize (IH Y (A1 ++ [y]) A2 (B1 ++ [x]) B2 ka kb (S (length A1))). rewrite <- !app_assoc in IH. apply IH.
  - rewrite length_app. simpl. lia.
  - rewrite length_app. simpl. lia.
  - simpl in HXY. lia.
  - destruct Hr as [?|[H1 H2]]; [by left|right]. inversion H1; inversion H2; subst. done.
Qed.
Lemma swapped_rep la ra lb rb n : length la + length ra = N → length lb + length rb = N → n = length la `max` length lb →
  trivial = true ∨ length la = length lb → (trivial = false → ra = replicate (length ra) Raw) →
  represents (mkSV (take n ((Alive <$> lb) ++ rb) ++ drop n ((Alive <$> la) ++ ra)) (length lb)) lb.
Proof.
  intros Ha Hb Hn Hc Hr. rewrite take_app, length_fmap, take_ge, <- app_assoc by (rewrite length_fmap; lia).
  apply represents_intro; [rewrite length_app, length_take, length_drop, length_app, length_fmap; lia|done|]. intros Ht.
  destruct Hc as [?|Hc]; [congruence|]. replace (n - length lb) with 0 by lia. rewrite take_0, app_nil_l.
  rewrite drop_app_ge by (rewrite length_fmap; lia). rewrite length_fmap. replace (n - length la) with 0 by lia. by apply Hr.
Qed.
(** Vectors of a trivial type, or of the same size, exchange their contents. *)
Lemma swap_rep a b la lb : represents a la → represents b lb → trivial = true ∨ length la = length lb →
  ∃ a' b', swap a b = Ok (a', b') ∧ represents a' lb ∧ represents b' la.
Proof.
  intros Ha Hb Hc. pose proof (represents_size _ _ Ha) as (Hsa & Hla & Hda). pose proof (represents_size _ _ Hb) as (Hsb & Hlb & Hdb).
  destruct Ha as (ra & Ea & HNa & _ & Hra), Hb as (rb & Eb & HNb & _ & Hrb). destruct a as [da ka], b as [db kb]. simpl in *. subst ka kb.
  unfold swap. cbn [v_size]. rewrite !(proj2 (Nat.leb_le _ _)) by done. cbn [assert mbind result_bind]. set (n := length la `max` length lb).
  assert (length (take n da) = n ∧ length (take n db) = n) as [Hna Hnb] by (rewrite !length_take; lia).
  pose proof (swap_loop_middle (take n da) (take n db) [] (drop n da) [] (drop n db) (length la) (length lb) 0) as E.
  cbn [app] in E. rewrite !take_drop, Hna in E. rewrite E; clear E; [|done..|by rewrite Hnb|].
  - cbn [mbind result_bind]. unfold set_size. cbn [v_data]. eexists _, _. split; [done|]. rewrite Ea, Eb.
    split; apply swapped_rep; (done || lia || (destruct Hc; [by left|by right])).
  - destruct Hc as [?|Hc]; [by left|right]. subst n. rewrite Ea, Eb, Hc, Nat.max_id. split.
    + rewrite take_app_le by (rewrite length_fmap; lia). apply Forall_take, alive_not_raw.
    + rewrite take_app_le by (rewrite length_fmap; lia). apply Forall_take, alive_not_raw.
Qed.
End StaticVector.

Arguments sv_op : clear implicits.

(** ** Properties *)


(** ** Oddities *)

(** [assign(first, last)] of five elements to a vector of four: the assertion lets
    the index [N] pass and the last element is written behind the storage. *)
Lemma assign_writes_past_the_end : assign_range true false 4 [1; 2; 3; 4; 5] (new_sv 4) = Undefined.
Proof. reflexivity. Qed.
(** For a capacity of 255 the size wraps around and the next assertion fails. *)
Lemma assign_wraps_around : assign_range true false 255 (replicate 256 7) (new_sv 255) = AssertFails.
Proof. vm_compute. reflexivity. Qed.
(** [assign] leaves the elements behind the new ones. *)
Lemma assign_keeps_the_tail :
  (construct_list true false 4 [1; 2; 3] ≫= λ sv, assign_n true false 4 1 9 sv ≫= elements) = Ok [9; 2; 3].
Proof. reflexivity. Qed.
(** [insert] in front of an element that is not trivial assigns to raw memory. *)
Lemma insert_before_an_object movable :
  (construct_list false false 4 [1; 2] ≫= insert false false movable 4 0 9) = Undefined.
Proof. by destruct movable. Qed.
(** The calls of test/StlTests.cpp on a type that is not trivial, whose assignment does not look at
    what was there. *)
Lemma test_of_inserts :
  (assign_range false true 8 [1; 2; 3; 4] (new_sv 8) ≫= λ sv, insert false true true 8 1 5 sv ≫= λ sv, insert false true true 8 3 15 sv ≫= λ sv,
   insert false true true 8 0 25 sv ≫= λ sv, insert false true true 8 7 35 sv ≫= elements) = Ok [25; 1; 5; 2; 15; 3; 4; 35].
Proof. reflexivity. Qed.

(** [operator<] of two vectors: shorter and, as sequences, less. *)
Fixpoint lexicographical_compare (a b : list Z) : bool :=
  match a, b with
  | _, [] => false
  | [], _ :: _ => true
  | x :: a', y :: b' => if (x <? y)%Z then true else if (y <? x)%Z then false else lexicographical_compare a' b'
  end.
Definition sv_less (a b : list Z) : bool := (length a <? length b) && lexicographical_compare a b.
(** Neither of two different vectors is less than the other one. *)
Lemma less_is_not_total : sv_less [1%Z] [2%Z] = false ∧ sv_less [2%Z] [1%Z] = false.
Proof. done. Qed.

(** [SVIterator::operator++]: the iterator afterwards and the result. *)
Definition pre_increment (it : nat) : nat * nat := (S it, S it).
Definition post_increment (it : nat) : nat * nat := (S it, S it).

(** ** Witnesses *)

Definition abc : StaticVector nat := match construct_list true false 4 [1; 2; 3] with Ok sv => sv | _ => new_sv 4 end.
