(* ===== verification/ReferenceCount.v ===== *)
(** * Reference counted pointers

    include/ichor/stl/ReferenceCountedPointer.h: a pointer with a counter, shared
    between all pointers to the same object, which is deleted with the last of them.
    An object may have such pointers as members; deleting it destroys them, which may
    delete further objects.  Pointers are variables with a number, [None] is a null
    pointer; the control blocks are numbered as well.  An operation gives [None] for
    undefined behaviour: a null pointer or a deleted block is dereferenced, a pointer
    that was destroyed is used. *)

From stdpp Require Import base gmap fin_maps list sets.
From Stdlib Require Import Lia.
From S2P Require Import Prelude.

Local Open Scope nat_scope.

(** [Detail::ReferenceCountedPointerBase]: the counter and the pointers that are
    destroyed with the object.  The counter has 64 bits, more than there can be
    pointers. *)
Record block := mkBlock { bl_useCount : nat; bl_members : list nat }.
Record rc := mkRC {
  rc_vars : gmap nat (option nat);
  rc_blocks : gmap nat block;
  rc_deleted : list nat }.

Definition set_var (v : nat) (t : option nat) (σ : rc) : rc := mkRC (<[v := t]> (rc_vars σ)) (rc_blocks σ) (rc_deleted σ).
Definition remove_var (v : nat) (σ : rc) : rc := mkRC (delete v (rc_vars σ)) (rc_blocks σ) (rc_deleted σ).
Definition set_count (b n : nat) (bl : block) (σ : rc) : rc :=
  mkRC (rc_vars σ) (<[b := mkBlock n (bl_members bl)]> (rc_blocks σ)) (rc_deleted σ).
Definition delete_block (b : nat) (σ : rc) : rc := mkRC (rc_vars σ) (delete b (rc_blocks σ)) (rc_deleted σ ++ [b]).

(** [decrement]: the counter of a block; gives the pointers of the object if it was
    the last one. *)
Definition drop_reference (b : nat) (σ : rc) : option (list nat * rc) :=
  bl ← rc_blocks σ !! b;
  if decide (bl_useCount bl - 1 = 0) then Some (bl_members bl, delete_block b σ)
  else Some ([], set_count b (bl_useCount bl - 1) bl σ).

(** [~ReferenceCountedPointer] of the pointers [work], one after the other; the
    members of an object that is deleted come first. *)
Fixpoint destroy_all (fuel : nat) (work : list nat) (σ : rc) : option rc :=
  match work with
  | [] => Some σ
  | v :: work' =>
      match fuel with
      | O => None
      | S fuel' =>
          match rc_vars σ !! v with
          | None => None
          | Some None => destroy_all fuel' work' (remove_var v σ)
          | Some (Some b) =>
              '(members, σ1) ← drop_reference b (remove_var v σ);
              destroy_all fuel' (members ++ work') σ1
          end
      end
  end.
Definition fuel_of (σ : rc) : nat := S (size (rc_vars σ)).

(** [decrement()] of a pointer that lives on and is written next. *)
Definition decrement (v : nat) (σ : rc) : option rc :=
  match rc_vars σ !! v with
  | None => None
  | Some None => Some σ
  | Some (Some b) =>
      '(members, σ1) ← drop_reference b (set_var v None σ);
      destroy_all (fuel_of σ1) members σ1
  end.

(** [_ptr->useCount++] *)
Definition increment (t : option nat) (σ : rc) : option rc :=
  b ← t; bl ← rc_blocks σ !! b; Some (set_count b (S (bl_useCount bl)) bl σ).
(** A new control block for an object with the null pointers [members]. *)
Definition new_block (b : nat) (members : list nat) (σ : rc) : rc :=
  mkRC (foldr (λ m vars, <[m := None]> vars) (rc_vars σ) members) (<[b := mkBlock 1 members]> (rc_blocks σ)) (rc_deleted σ).
(** A pointer that still exists. *)
Definition alive (v : nat) (σ : rc) : option rc := rc_vars σ !! v ≫= λ _, Some σ.

(** ** The operations *)

Definition rcp_default (v : nat) (σ : rc) : option rc := Some (set_var v None σ).
Definition rcp_object (v b : nat) (members : list nat) (σ : rc) : option rc := Some (set_var v (Some b) (new_block b members σ)).
Definition rcp_copy (v o : nat) (σ : rc) : option rc := t ← rc_vars σ !! o; σ1 ← increment t σ; Some (set_var v t σ1).
Definition rcp_move (v o : nat) (σ : rc) : option rc := t ← rc_vars σ !! o; Some (set_var o None (set_var v t σ)).
Definition rcp_destroy (v : nat) (σ : rc) : option rc := destroy_all (fuel_of σ) [v] σ.
Definition rcp_assign (v o : nat) (σ : rc) : option rc :=
  if decide (v = o) then Some σ
  else
    σ1 ← decrement v σ; σ2 ← alive v σ1;
    t ← rc_vars σ2 !! o; σ3 ← increment t (set_var v t σ2); Some σ3.
Definition rcp_move_assign (v o : nat) (σ : rc) : option rc :=
  if decide (v = o) then Some σ
  else σ1 ← decrement v σ; σ2 ← alive v σ1; t ← rc_vars σ2 !! o; Some (set_var o None (set_var v t σ2)).
Definition rcp_assign_object (v b : nat) (members : list nat) (σ : rc) : option rc :=
  σ1 ← decrement v σ; σ2 ← alive v σ1; Some (set_var v (Some b) (new_block b members σ2)).
Definition rcp_assign_null (v : nat) (σ : rc) : option rc := σ1 ← decrement v σ; σ2 ← alive v σ1; Some (set_var v None σ2).
Definition rcp_swap (v o : nat) (σ : rc) : option rc :=
  s ← rc_vars σ !! v; t ← rc_vars σ !! o; Some (set_var o s (set_var v t σ)).
(** [use_count()], [has_value()] and [operator*]. *)
Definition rcp_use_count (v : nat) (σ : rc) : option nat :=
  t ← rc_vars σ !! v; match t with None => Some 0 | Some b => bl_useCount <$> rc_blocks σ !! b end.
Definition rcp_has_value (v : nat) (σ : rc) : option bool := t ← rc_vars σ !! v; Some (bool_decide (is_Some t)).
Definition rcp_get (v : nat) (σ : rc) : option (outcome nat) :=
  t ← rc_vars σ !! v;
  match t with None => Some Terminated | Some b => rc_blocks σ !! b ≫= λ _, Some (Done b) end.

(** ** The invariant *)

(** The pointers to a block. *)
Definition pointers (b : nat) (vars : gmap nat (option nat)) : nat := size (filter (λ kv, kv.2 = Some b) vars).

Lemma pointers_insert_new b v t vars : vars !! v = None →
  pointers b (<[v := t]> vars) = (if decide (t = Some b) then 1 else 0) + pointers b vars.
Proof.
  intros Hv. unfold pointers. rewrite map_filter_insert. cbn [snd]. case_decide.
  - rewrite map_size_insert_None; [lia|]. rewrite map_lookup_filter_None. by left.
  - rewrite delete_id by done. done.
Qed.
Lemma pointers_delete b v t vars : vars !! v = Some t →
  pointers b vars = (if decide (t = Some b) then 1 else 0) + pointers b (delete v vars).
Proof. intros Hv. rewrite <- (insert_delete_id vars v t) at 1 by done. apply pointers_insert_new, lookup_delete_eq. Qed.
Lemma pointers_insert b v s t vars : vars !! v = Some s →
  (if decide (s = Some b) then 1 else 0) + pointers b (<[v := t]> vars) = (if decide (t = Some b) then 1 else 0) + pointers b vars.
Proof.
  intros Hv. rewrite (pointers_delete b v s vars) by done. rewrite <- insert_delete_eq, pointers_insert_new by (apply lookup_delete_eq). lia.
Qed.
Lemma pointers_pos b v vars : vars !! v = Some (Some b) → 0 < pointers b vars.
Proof. intros Hv. rewrite (pointers_delete b v (Some b)) by done. rewrite decide_True by done. lia. Qed.
Lemma pointers_zero b v vars : pointers b vars = 0 → vars !! v ≠ Some (Some b).
Proof. intros H Hv. apply pointers_pos in Hv. lia. Qed.

Lemma one_some (b c : nat) : (if decide (Some b = Some c) then 1 else 0) = if decide (b = c) then 1 else 0.
Proof. destruct (decide (b = c)) as [->|Hne]; [by rewrite decide_True|by rewrite decide_False by congruence]. Qed.

(** [work]: the pointers that are about to be destroyed. *)
Record rc_inv (work : list nat) (σ : rc) : Prop := {
  inv_target v b : rc_vars σ !! v = Some (Some b) → is_Some (rc_blocks σ !! b);
  inv_count b bl : rc_blocks σ !! b = Some bl → bl_useCount bl = pointers b (rc_vars σ) ∧ 0 < bl_useCount bl;
  inv_member b bl m : rc_blocks σ !! b = Some bl → m ∈ bl_members bl → is_Some (rc_vars σ !! m) ∧ m ∉ work;
  inv_members b bl : rc_blocks σ !! b = Some bl → NoDup (bl_members bl);
  inv_owner b1 b2 bl1 bl2 m : rc_blocks σ !! b1 = Some bl1 → rc_blocks σ !! b2 = Some bl2 →
    m ∈ bl_members bl1 → m ∈ bl_members bl2 → b1 = b2;
  inv_work v : v ∈ work → is_Some (rc_vars σ !! v);
  inv_work_nodup : NoDup work;
  inv_deleted b : b ∈ rc_deleted σ → rc_blocks σ !! b = None;
  inv_deleted_once : NoDup (rc_deleted σ) }.

Definition is_member (σ : rc) (x : nat) : Prop := ∃ c bl, rc_blocks σ !! c = Some bl ∧ x ∈ bl_members bl.

Lemma counted_block σ b bl n c bl' : rc_blocks σ !! b = Some bl →
  <[b := mkBlock n (bl_members bl)]> (rc_blocks σ) !! c = Some bl' →
  ∃ bl0, rc_blocks σ !! c = Some bl0 ∧ bl_members bl0 = bl_members bl' ∧ bl_useCount bl' = if decide (b = c) then n else bl_useCount bl0.
Proof.
  intros Hbl [[-> <-]|[Hne Hc']]%lookup_insert_Some; [exists bl|exists bl']; split; try done; split; try done; simpl; by case_decide.
Qed.

(** One pointer to [b] is gone: the counter goes down, and with the last pointer the
    block goes and its members have to be destroyed. *)
Section drop_reference.
Context (work work' : list nat) (b : nat) (bl : block) (σ : rc) (vars' : gmap nat (option nat)).
Context (H : rc_inv work σ) (Hbl : rc_blocks σ !! b = Some bl) (Hsub : work' ⊆ work) (Hnd : NoDup work').
Context (Hcnt : ∀ c, pointers c (rc_vars σ) = (if decide (b = c) then 1 else 0) + pointers c vars').
Context (Htgt : ∀ x c, vars' !! x = Some (Some c) → rc_vars σ !! x = Some (Some c)).
Context (Hlive : ∀ x, is_Some (rc_vars σ !! x) → x ∈ work' ∨ is_member σ x → is_Some (vars' !! x)).

Lemma last_reference_inv : bl_useCount bl - 1 = 0 →
  rc_inv (bl_members bl ++ work') (delete_block b (mkRC vars' (rc_blocks σ) (rc_deleted σ))).
Proof using All.
  intros Hz. destruct (inv_count _ _ H b bl Hbl) as [Hc Hpos]. pose proof (Hcnt b) as Hcb. rewrite decide_True in Hcb by done.
  constructor; simpl.
  - intros v c Hv. rewrite lookup_delete_ne; [by eapply inv_target, Htgt|]. intros ->. apply (pointers_zero c v vars'); [lia|done].
  - intros c bl' [Hne Hc']%lookup_delete_Some. destruct (inv_count _ _ H c bl' Hc') as [E ?]. split; [|done].
    rewrite E, Hcnt, decide_False by done. done.
  - intros c bl' m [Hne Hc']%lookup_delete_Some Hm. split; [apply Hlive; [by eapply inv_member|by right; exists c, bl']|].
    rewrite not_elem_of_app. split; [|by intros ?%Hsub; eapply inv_member].
    intros Hm'. apply Hne. by eapply (inv_owner _ _ H b c).
  - intros c bl' [_ Hc']%lookup_delete_Some. by eapply inv_members.
  - intros b1 b2 bl1 bl2 m [_ H1]%lookup_delete_Some [_ H2]%lookup_delete_Some. by eapply inv_owner.
  - intros v [Hv|Hv]%elem_of_app; apply Hlive; [by eapply inv_member|right; by exists b, bl|by eapply inv_work, Hsub|by left].
  - apply NoDup_app. split; [by eapply inv_members|]. split; [|done]. intros m Hm ?%Hsub. by eapply inv_member.
  - intros c [Hc'|Hc'%list_elem_of_singleton]%elem_of_app; [|subst c; apply lookup_delete_eq].
    apply lookup_delete_None. right. by eapply inv_deleted.
  - apply NoDup_app. split; [by eapply inv_deleted_once|]. split; [|apply NoDup_singleton].
    intros c Hc' E%list_elem_of_singleton. subst c. apply (inv_deleted _ _ H) in Hc'. congruence.
Qed.

Lemma other_reference_inv : bl_useCount bl - 1 ≠ 0 →
  rc_inv work' (set_count b (bl_useCount bl - 1) bl (mkRC vars' (rc_blocks σ) (rc_deleted σ))).
Proof using All.
  intros Hz. constructor; simpl.
  - intros v c Hv. apply lookup_insert_is_Some'. right. by eapply inv_target, Htgt.
  - intros c bl' (bl0 & H0 & _ & E)%(counted_block _ _ _ _ _ _ Hbl). destruct (inv_count _ _ H c bl0 H0) as [E0 ?]. specialize (Hcnt c).
    case_decide; [|lia]. subst c. simplify_eq. lia.
  - intros c bl' m (bl0 & H0 & E & _)%(counted_block _ _ _ _ _ _ Hbl) Hm. rewrite <- E in Hm.
    split; [apply Hlive; [by eapply inv_member|by right; exists c, bl0]|]. intros ?%Hsub. by eapply inv_member.
  - intros c bl' (bl0 & H0 & <- & _)%(counted_block _ _ _ _ _ _ Hbl). by eapply inv_members.
  - intros b1 b2 bl1 bl2 m (bl1' & H1 & <- & _)%(counted_block _ _ _ _ _ _ Hbl) (bl2' & H2 & <- & _)%(counted_block _ _ _ _ _ _ Hbl). by eapply inv_owner.
  - intros v Hv. apply Hlive; [by eapply inv_work, Hsub|by left].
  - done.
  - intros c Hc'. rewrite lookup_insert_ne; [by eapply inv_deleted|]. intros ->. apply (inv_deleted _ _ H) in Hc'. congruence.
  - by eapply inv_deleted_once.
Qed.

Lemma drop_reference_inv :
  ∃ ms σ', drop_reference b (mkRC vars' (rc_blocks σ) (rc_deleted σ)) = Some (ms, σ') ∧ rc_inv (ms ++ work') σ' ∧
    rc_vars σ' = vars' ∧ (∀ x, x ∈ ms ∨ is_member σ' x → is_member σ x).
Proof using All.
  unfold drop_reference. cbn [rc_blocks]. rewrite Hbl. cbn [mbind option_bind]. case_decide as Hz; eexists _, _; (split; [done|]).
  - split; [by apply last_reference_inv|]. split; [done|]. intros x [Hx|(c & bl' & Hc' & Hx)]; [by exists b, bl|]. simpl in Hc'.
    apply lookup_delete_Some in Hc' as [_ Hc']. by exists c, bl'.
  - split; [by apply other_reference_inv|]. split; [done|]. intros x [Hx|(c & bl' & Hc' & Hx)]; [by apply not_elem_of_nil in Hx|].
    apply (counted_block _ _ _ _ _ _ Hbl) in Hc' as (bl0 & ? & E & _). rewrite <- E in Hx. by exists c, bl0.
Qed.
End drop_reference.

(** ** Destroying pointers *)

Lemma remove_null_inv v work σ : rc_inv (v :: work) σ → rc_vars σ !! v = Some None → rc_inv work (remove_var v σ).
Proof.
  intros H Hv. pose proof (inv_work_nodup _ _ H) as Hnd. apply NoDup_cons in Hnd as [Hnv Hnd].
  constructor; simpl.
  - intros x b [_ Hx]%lookup_delete_Some. by eapply inv_target.
  - intros b bl Hb. destruct (inv_count _ _ H b bl Hb) as [E ?]. split; [|done]. rewrite E, (pointers_delete b v None) by done.
    by rewrite decide_False.
  - intros b bl m Hb Hm. destruct (inv_member _ _ H b bl m Hb Hm) as [Hs Hw]. apply not_elem_of_cons in Hw as [Hne Hw].
    split; [|done]. by rewrite lookup_delete_ne.
  - intros b bl. apply (inv_members _ _ H).
  - intros b1 b2 bl1 bl2 m. apply (inv_owner _ _ H).
  - intros x Hx. rewrite lookup_delete_ne by (by intros ->). apply (inv_work _ _ H). by right.
  - done.
  - apply (inv_deleted _ _ H).
  - apply (inv_deleted_once _ _ H).
Qed.

(** The fuel is enough, and pointers that are neither to be destroyed nor members of
    an object keep their values. *)
Lemma destroy_all_inv fuel : ∀ work σ, rc_inv work σ → size (rc_vars σ) < fuel →
  ∃ σ', destroy_all fuel work σ = Some σ' ∧ rc_inv [] σ' ∧ rc_vars σ' ⊆ rc_vars σ ∧
    (∀ x, x ∉ work → ~ is_member σ x → rc_vars σ' !! x = rc_vars σ !! x).
Proof.
  induction fuel as [|fuel IH]; intros work σ H Hf; [lia|]. destruct work as [|v work]; [by exists σ|].
  cbn [destroy_all]. destruct (inv_work _ _ H v) as [t Hv]; [by left|]. rewrite Hv.
  assert (size (delete v (rc_vars σ)) < fuel) as Hf'.
  { rewrite map_size_delete, Hv. assert (0 < size (rc_vars σ)); [|lia]. apply Nat.neq_0_lt_0. intros E%map_size_empty_inv.
    rewrite E in Hv. by rewrite lookup_empty in Hv. }
  pose proof (inv_work_nodup _ _ H) as Hnd. apply NoDup_cons in Hnd as [Hnv Hnd]. destruct t as [b|].
  - destruct (inv_target _ _ H v b Hv) as [bl Hbl].
    destruct (drop_reference_inv (v :: work) work b bl σ (delete v (rc_vars σ))) as (ms & σ1 & E & H1 & Evars & Hm); [done..| | | | | |].
    + intros x Hx. by right.
    + done.
    + intros c. rewrite (pointers_delete c v (Some b)) by done. by rewrite one_some.
    + by intros x c [_ ?]%lookup_delete_Some.
    + intros x Hx Hcase. rewrite lookup_delete_ne; [done|]. intros <-. destruct Hcase as [?|(c & bl' & Hc & Hin)]; [done|].
      destruct (inv_member _ _ H c bl' v Hc Hin) as [_ Hw]. apply Hw. by left.
    + unfold remove_var. rewrite E. cbn [mbind option_bind].
      destruct (IH (ms ++ work) σ1 H1) as (σ' & E' & H' & Hincl & Hkeep); [by rewrite Evars|]. exists σ'. split; [done|]. split; [done|].
      split; [etrans; [exact Hincl|]; rewrite Evars; apply delete_subseteq|].
      intros x Hx Hxm. apply not_elem_of_cons in Hx as [Hxv Hx]. rewrite Hkeep, Evars.
      * by apply lookup_delete_ne.
      * rewrite not_elem_of_app. split; [|done]. intros ?. apply Hxm, Hm. by left.
      * intros ?. apply Hxm, Hm. by right.
  - destruct (IH work (remove_var v σ)) as (σ' & E' & H' & Hincl & Hkeep); [by apply remove_null_inv|done|]. exists σ'. split; [done|]. split; [done|].
    split; [etrans; [exact Hincl|]; apply delete_subseteq|].
    intros x Hx Hxm. apply not_elem_of_cons in Hx as [Hxv Hx]. rewrite Hkeep; [by apply lookup_delete_ne|done|done].
Qed.

Lemma decrement_inv v σ : rc_inv [] σ → is_Some (rc_vars σ !! v) →
  ∃ σ', decrement v σ = Some σ' ∧ rc_inv [] σ' ∧ (is_Some (rc_vars σ' !! v) → rc_vars σ' !! v = Some None) ∧
    (~ is_member σ v → is_Some (rc_vars σ' !! v)) ∧ (∀ x, x ≠ v → ~ is_member σ x → rc_vars σ' !! x = rc_vars σ !! x).
Proof.
  intros H [t Hv]. unfold decrement. rewrite Hv. destruct t as [b|].
  2: { exists σ. split; [done|]. split; [done|]. split; [done|]. split; [|done]. intros _. by rewrite Hv. }
  destruct (inv_target _ _ H v b Hv) as [bl Hbl].
  destruct (drop_reference_inv [] [] b bl σ (<[v := None]> (rc_vars σ))) as (ms & σ1 & E & H1 & Evars & Hm); [done..|constructor| | | |].
  - intros c. pose proof (pointers_insert c v (Some b) None _ Hv) as Hp. rewrite (decide_False (P := None = Some c)) in Hp by done.
    rewrite one_some in Hp. lia.
  - intros x c [[_ ?]|[_ ?]]%lookup_insert_Some; done.
  - intros x Hx _. apply lookup_insert_is_Some'. by right.
  - unfold set_var. rewrite E. cbn [mbind option_bind]. rewrite app_nil_r in H1.
    destruct (destroy_all_inv (fuel_of σ1) ms σ1 H1) as (σ' & E' & H' & Hincl & Hkeep); [unfold fuel_of; lia|].
    exists σ'. split; [done|]. split; [done|]. rewrite Evars in *. split; [|split].
    + intros [t Ht]. pose proof (lookup_weaken _ _ _ _ Ht Hincl) as Ht'. rewrite lookup_insert_eq in Ht'. by simplify_eq.
    + intros Hnm. rewrite Hkeep, lookup_insert_eq; [done| |].
      * intros ?. apply Hnm, Hm. by left.
      * intros ?. apply Hnm, Hm. by right.
    + intros x Hne Hnm. rewrite Hkeep, lookup_insert_ne; [done|done| |].
      * intros ?. apply Hnm, Hm. by left.
      * intros ?. apply Hnm, Hm. by right.
Qed.

(** ** Writing pointers *)

Lemma pointers_pos_inv b vars : 0 < pointers b vars → ∃ v, vars !! v = Some (Some b).
Proof.
  unfold pointers. intros Hpos. destruct (map_choose (filter (λ kv : nat * option nat, kv.2 = Some b) vars)) as (v & t & Hv).
  { intros E. rewrite E, map_size_empty in Hpos. lia. }
  apply map_lookup_filter_Some in Hv as [Hv E]. simpl in E. subst t. by exists v.
Qed.

(** Pointers change places, or null pointers appear. *)
Lemma rearranged_inv σ vars' : rc_inv [] σ → (∀ c, pointers c vars' = pointers c (rc_vars σ)) →
  (∀ x, is_Some (rc_vars σ !! x) → is_Some (vars' !! x)) → rc_inv [] (mkRC vars' (rc_blocks σ) (rc_deleted σ)).
Proof.
  intros H Hp Hd. constructor; simpl.
  - intros v b Hv%pointers_pos. rewrite Hp in Hv. apply pointers_pos_inv in Hv as [y Hy]. by eapply inv_target.
  - intros b bl Hb. rewrite Hp. by eapply inv_count.
  - intros b bl m Hb Hm. split; [apply Hd; by eapply inv_member|by eapply inv_member].
  - apply (inv_members _ _ H).
  - apply (inv_owner _ _ H).
  - by intros v ?%not_elem_of_nil.
  - constructor.
  - apply (inv_deleted _ _ H).
  - apply (inv_deleted_once _ _ H).
Qed.

(** A pointer that may be written: it is new or null. *)
Definition writable (v : nat) (σ : rc) : Prop := rc_vars σ !! v = None ∨ rc_vars σ !! v = Some None.
Lemma pointers_write c v t σ : writable v σ →
  pointers c (<[v := t]> (rc_vars σ)) = (if decide (t = Some c) then 1 else 0) + pointers c (rc_vars σ).
Proof.
  intros [Hv|Hv]; [by apply pointers_insert_new|]. pose proof (pointers_insert c v None t _ Hv) as Hp.
  by rewrite (decide_False (P := None = Some c)) in Hp by done.
Qed.
Lemma null_inv v σ : rc_inv [] σ → writable v σ → rc_inv [] (set_var v None σ).
Proof.
  intros H Hv. apply (rearranged_inv σ); [done| |].
  - intros c. rewrite pointers_write, decide_False by done. done.
  - intros x Hx. apply lookup_insert_is_Some'. by right.
Qed.
Lemma moved_inv v o t σ : rc_inv [] σ → writable v σ → v ≠ o → rc_vars σ !! o = Some t →
  rc_inv [] (set_var o None (set_var v t σ)).
Proof.
  intros H Hv Hne Ho. apply (rearranged_inv σ); [done| |].
  - intros c. cbn [set_var rc_vars]. pose proof (pointers_insert c o t None (<[v := t]> (rc_vars σ))) as Hp.
    rewrite lookup_insert_ne in Hp by done. specialize (Hp Ho). rewrite (decide_False (P := None = Some c)), pointers_write in Hp by done. lia.
  - intros x Hx. apply lookup_insert_is_Some'. right. apply lookup_insert_is_Some'. by right.
Qed.
Lemma shared_inv v b bl σ : rc_inv [] σ → writable v σ → rc_blocks σ !! b = Some bl →
  rc_inv [] (set_count b (S (bl_useCount bl)) bl (set_var v (Some b) σ)).
Proof.
  intros H Hv Hbl. constructor; simpl.
  - intros x c Hx. apply lookup_insert_is_Some'. apply lookup_insert_Some in Hx as [[_ Hx]|[_ Hx]]; [left; congruence|right; by eapply inv_target].
  - intros c bl' (bl0 & H0 & _ & E)%(counted_block _ _ _ _ _ _ Hbl). rewrite pointers_write by done.
    destruct (inv_count _ _ H c bl0 H0) as [E0 ?]. rewrite E, one_some.
    destruct (decide (b = c)) as [->|]; [|lia]. simplify_eq. lia.
  - intros c bl' m (bl0 & H0 & E & _)%(counted_block _ _ _ _ _ _ Hbl) Hm. rewrite <- E in Hm.
    split; [|set_solver]. apply lookup_insert_is_Some'. right. by eapply inv_member.
  - intros c bl' (bl0 & H0 & <- & _)%(counted_block _ _ _ _ _ _ Hbl). by eapply inv_members.
  - intros b1 b2 bl1 bl2 m (bl1' & H1 & <- & _)%(counted_block _ _ _ _ _ _ Hbl) (bl2' & H2 & <- & _)%(counted_block _ _ _ _ _ _ Hbl). by eapply inv_owner.
  - by intros x ?%not_elem_of_nil.
  - constructor.
  - intros c Hc'. rewrite lookup_insert_ne; [by eapply inv_deleted|]. intros ->. apply (inv_deleted _ _ H) in Hc'. congruence.
  - by eapply inv_deleted_once.
Qed.

(** A new object with the new pointers [members]. *)
Definition new_object (b : nat) (members : list nat) (σ : rc) : Prop :=
  rc_blocks σ !! b = None ∧ b ∉ rc_deleted σ ∧ NoDup members ∧ ∀ m, m ∈ members → rc_vars σ !! m = None.

Lemma new_members_lookup (members : list nat) (vars : gmap nat (option nat)) (x : nat) :
  foldr (λ m vars, <[m := None]> vars) vars members !! x = if decide (x ∈ members) then Some (None : option nat) else vars !! x.
Proof.
  induction members as [|m members IH]; [by rewrite decide_False by apply not_elem_of_nil|]. simpl.
  destruct (decide (x = m)) as [->|Hne]; [by rewrite lookup_insert_eq, decide_True by (by left)|]. rewrite lookup_insert_ne, IH by done.
  destruct (decide (x ∈ members)); [by rewrite decide_True by (by right)|]. rewrite decide_False; [done|].
  by intros [?|?]%elem_of_cons.
Qed.
Lemma new_members_pointers c (members : list nat) (vars : gmap nat (option nat)) : NoDup members → (∀ m, m ∈ members → vars !! m = None) →
  pointers c (foldr (λ m vars, <[m := None]> vars) vars members) = pointers c vars.
Proof.
  induction members as [|m members IH]; intros Hnd Hv; [done|]. apply NoDup_cons in Hnd as [Hm Hnd]. simpl.
  rewrite pointers_insert_new, decide_False, IH; [done|done| |done|].
  - intros m' Hm'. apply Hv. by right.
  - rewrite new_members_lookup, decide_False by done. apply Hv. by left.
Qed.

Lemma new_block_lookup b members σ c bl : rc_blocks (new_block b members σ) !! c = Some bl →
  b = c ∧ mkBlock 1 members = bl ∨ b ≠ c ∧ rc_blocks σ !! c = Some bl.
Proof. apply lookup_insert_Some. Qed.
Lemma new_block_inv v b members σ : rc_inv [] σ → writable v σ → v ∉ members → new_object b members σ →
  rc_inv [] (set_var v (Some b) (new_block b members σ)).
Proof.
  intros H Hv Hvm (Hb & Hdel & Hnd & Hnew).
  assert (∀ x c, rc_vars σ !! x ≠ Some (Some c) ∨ c ≠ b) as Hnob.
  { intros x c. destruct (decide (c = b)) as [->|]; [|by right]. left. intros [? E]%(inv_target _ _ H). congruence. }
  assert (writable v (new_block b members σ)) as Hw.
  { unfold writable, new_block. cbn [rc_vars]. rewrite new_members_lookup, decide_False by done. done. }
  assert (∀ x, is_Some (rc_vars σ !! x) ∨ x ∈ members → is_Some (<[v := Some b]> (rc_vars (new_block b members σ)) !! x)) as Hd.
  { intros x Hx. apply lookup_insert_is_Some'. right. cbn [rc_vars new_block]. rewrite new_members_lookup. case_decide; [done|by destruct Hx]. }
  assert (∀ m, m ∈ members → ~ is_member σ m) as Hfresh.
  { intros m Hm (c & bl & Hc & Hin). destruct (inv_member _ _ H c bl m Hc Hin) as [[t Ht] _]. rewrite (Hnew m Hm) in Ht. done. }
  constructor; cbn [set_var rc_vars rc_blocks rc_deleted].
  - intros x c [[_ Hx]|[_ Hx]]%lookup_insert_Some; apply lookup_insert_is_Some'; [left; congruence|right]. cbn [new_block rc_vars] in Hx.
    rewrite new_members_lookup in Hx. case_decide; [done|]. by eapply inv_target.
  - intros c bl [[-> <-]|[Hne Hc]]%new_block_lookup; cbn [bl_useCount].
    + rewrite pointers_write, decide_True by done. cbn [new_block rc_vars]. rewrite new_members_pointers by done.
      destruct (Nat.eq_0_gt_0_cases (pointers c (rc_vars σ))) as [E|[x Hx]%pointers_pos_inv]; [rewrite E; lia|]. destruct (Hnob x c); done.
    + rewrite pointers_write, decide_False by congruence. cbn [new_block rc_vars]. rewrite new_members_pointers by done. by eapply inv_count.
  - intros c bl m [[-> <-]|[Hne Hc]]%new_block_lookup Hm; (split; [|apply not_elem_of_nil]); apply Hd; [by right|left; by eapply inv_member].
  - intros c bl [[-> <-]|[Hne Hc]]%new_block_lookup; [done|by eapply inv_members].
  - intros b1 b2 bl1 bl2 m [[<- <-]|[H1 Hb1]]%new_block_lookup [[<- <-]|[H2 Hb2]]%new_block_lookup Hm1 Hm2; [done| | |by eapply inv_owner].
    + destruct (Hfresh m Hm1). by exists b2, bl2.
    + destruct (Hfresh m Hm2). by exists b1, bl1.
  - by intros x ?%not_elem_of_nil.
  - constructor.
  - intros c Hc. cbn [new_block rc_deleted rc_blocks] in *. rewrite lookup_insert_ne; [by eapply inv_deleted|]. by intros ->.
  - apply (inv_deleted_once _ _ H).
Qed.

(** ** All operations *)

Inductive rc_op : Type :=
  | Default (v : nat)
  | Object (v b : nat) (members : list nat)
  | Copy (v o : nat)
  | Move (v o : nat)
  | Destroy (v : nat)
  | Assign (v o : nat)
  | MoveAssign (v o : nat)
  | AssignObject (v b : nat) (members : list nat)
  | AssignNull (v : nat)
  | Swap (v o : nat).
Definition rc_exec (op : rc_op) (σ : rc) : option rc :=
  match op with
  | Default v => rcp_default v σ
  | Object v b members => rcp_object v b members σ
  | Copy v o => rcp_copy v o σ
  | Move v o => rcp_move v o σ
  | Destroy v => rcp_destroy v σ
  | Assign v o => rcp_assign v o σ
  | MoveAssign v o => rcp_move_assign v o σ
  | AssignObject v b members => rcp_assign_object v b members σ
  | AssignNull v => rcp_assign_null v σ
  | Swap v o => rcp_swap v o σ
  end.

(** What the program has to respect: constructors are for new pointers, other members
    for pointers that exist, destructors of members are called by their object; a
    pointer is not copied when it is null; and an assignment must not destroy the
    pointer that is assigned or the one that is read. *)
Definition exists_after (v x : nat) (σ : rc) : Prop := ∀ σ1, decrement v σ = Some σ1 → is_Some (rc_vars σ1 !! x).
Definition rc_allowed (op : rc_op) (σ : rc) : Prop :=
  match op with
  | Default v => rc_vars σ !! v = None
  | Object v b members => rc_vars σ !! v = None ∧ v ∉ members ∧ new_object b members σ
  | Copy v o => rc_vars σ !! v = None ∧ ∃ b, rc_vars σ !! o = Some (Some b)
  | Move v o => rc_vars σ !! v = None ∧ is_Some (rc_vars σ !! o)
  | Destroy v => is_Some (rc_vars σ !! v) ∧ ~ is_member σ v
  | Assign v o => is_Some (rc_vars σ !! v) ∧ exists_after v v σ ∧
      (v = o ∨ ∀ σ1, decrement v σ = Some σ1 → ∃ b, rc_vars σ1 !! o = Some (Some b))
  | MoveAssign v o => is_Some (rc_vars σ !! v) ∧ exists_after v v σ ∧ exists_after v o σ
  | AssignObject v b members => is_Some (rc_vars σ !! v) ∧ exists_after v v σ ∧
      (∀ σ1, decrement v σ = Some σ1 → v ∉ members ∧ new_object b members σ1)
  | AssignNull v => is_Some (rc_vars σ !! v) ∧ exists_after v v σ
  | Swap v o => is_Some (rc_vars σ !! v) ∧ is_Some (rc_vars σ !! o)
  end.
(** Pointers that are not members of an object always survive. *)
Lemma top_level_survives v x σ : rc_inv [] σ → is_Some (rc_vars σ !! v) → is_Some (rc_vars σ !! x) →
  ~ is_member σ v → ~ is_member σ x → exists_after v x σ.
Proof.
  intros H Hv Hx Hnv Hnx σ1 E. destruct (decrement_inv v σ H Hv) as (σ' & E' & _ & _ & Hlive & Hkeep). simplify_eq.
  destruct (decide (x = v)) as [->|Hne]; [by apply Hlive|]. by rewrite Hkeep.
Qed.

(** The first part of an assignment. *)
Lemma assign_begin v σ : rc_inv [] σ → is_Some (rc_vars σ !! v) → exists_after v v σ →
  ∃ σ1, decrement v σ = Some σ1 ∧ alive v σ1 = Some σ1 ∧ rc_inv [] σ1 ∧ rc_vars σ1 !! v = Some None.
Proof.
  intros H Hv He. destruct (decrement_inv v σ H Hv) as (σ1 & E & H1 & Hnull & _). exists σ1. pose proof (Hnull (He _ E)) as Hn.
  split; [done|]. split; [|done]. unfold alive. by rewrite Hn.
Qed.

Lemma rc_exec_inv op σ : rc_inv [] σ → rc_allowed op σ → ∃ σ', rc_exec op σ = Some σ' ∧ rc_inv [] σ'.
Proof.
  intros H. destruct op as [v|v b ms|v o|v o|v|v o|v o|v b ms|v|v o]; cbn [rc_exec rc_allowed].
  - intros Hv. eexists. split; [done|]. apply null_inv; [done|by left].
  - intros (Hv & Hm & Hn). eexists. split; [done|]. apply new_block_inv; [done|by left|done|done].
  - intros (Hv & b & Ho). destruct (inv_target _ _ H o b Ho) as [bl Hb]. unfold rcp_copy, increment. rewrite Ho. cbn [mbind option_bind].
    rewrite Hb. cbn [mbind option_bind]. eexists. split; [done|]. by apply (shared_inv v b bl σ H (or_introl Hv)).
  - intros (Hv & t & Ho). unfold rcp_move. rewrite Ho. cbn [mbind option_bind]. eexists. split; [done|].
    apply moved_inv; [done|by left| |done]. intros ->. congruence.
  - intros (Hv & Hnm). destruct (destroy_all_inv (fuel_of σ) [v] σ) as (σ' & E & H' & _).
    + constructor; try apply H; [|by intros x ->%list_elem_of_singleton|apply NoDup_singleton].
      intros b bl m Hb Hm. split; [by eapply inv_member|]. intros ->%list_elem_of_singleton. apply Hnm. by exists b, bl.
    + unfold fuel_of. lia.
    + by exists σ'.
  - intros (Hv & He & Ho). unfold rcp_assign. case_decide as Hvo; [by exists σ|]. destruct Ho as [?|Ho]; [done|].
    destruct (assign_begin v σ H Hv He) as (σ1 & E & Ea & H1 & Hn). rewrite E. cbn [mbind option_bind]. rewrite Ea. cbn [mbind option_bind].
    destruct (Ho σ1 E) as [b Hb]. rewrite Hb. cbn [mbind option_bind increment]. destruct (inv_target _ _ H1 o b Hb) as [bl Hbl].
    cbn [set_var rc_blocks]. rewrite Hbl. cbn [mbind option_bind]. eexists. split; [done|]. by apply (shared_inv v b bl σ1 H1 (or_intror Hn)).
  - intros (Hv & He & Ho). unfold rcp_move_assign. case_decide as Hvo; [by exists σ|].
    destruct (assign_begin v σ H Hv He) as (σ1 & E & Ea & H1 & Hn). rewrite E. cbn [mbind option_bind]. rewrite Ea. cbn [mbind option_bind].
    destruct (Ho σ1 E) as [t Ht]. rewrite Ht. cbn [mbind option_bind]. eexists. split; [done|]. by apply moved_inv; [|right| |].
  - intros (Hv & He & Hn). unfold rcp_assign_object. destruct (assign_begin v σ H Hv He) as (σ1 & E & Ea & H1 & Hnull).
    rewrite E. cbn [mbind option_bind]. rewrite Ea. cbn [mbind option_bind]. destruct (Hn σ1 E) as [Hm Hnew]. eexists. split; [done|].
    by apply new_block_inv; [|right| |].
  - intros (Hv & He). unfold rcp_assign_null. destruct (assign_begin v σ H Hv He) as (σ1 & E & Ea & H1 & Hnull).
    rewrite E. cbn [mbind option_bind]. rewrite Ea. cbn [mbind option_bind]. eexists. split; [done|]. apply null_inv; [done|by right].
  - intros ([s Hs] & [t Ht]). unfold rcp_swap. rewrite Hs, Ht. cbn [mbind option_bind]. eexists. split; [done|]. apply (rearranged_inv σ); [done| |].
    + intros c. cbn [set_var rc_vars]. destruct (decide (v = o)) as [->|Hne].
      { simplify_eq. by rewrite insert_insert_eq, insert_id. }
      pose proof (pointers_insert c v s t _ Hs) as H1. pose proof (pointers_insert c o t s (<[v := t]> (rc_vars σ))) as H2.
      rewrite lookup_insert_ne in H2 by done. specialize (H2 Ht). lia.
    + intros x Hx. apply lookup_insert_is_Some'. right. apply lookup_insert_is_Some'. by right.
Qed.

Definition rc_start : rc := mkRC ∅ ∅ [].
Inductive rc_reachable : rc → Prop :=
  | rc_reachable_start : rc_reachable rc_start
  | rc_reachable_step op σ σ' : rc_reachable σ → rc_allowed op σ → rc_exec op σ = Some σ' → rc_reachable σ'.

Lemma rc_reachable_inv σ : rc_reachable σ → rc_inv [] σ.
Proof.
  induction 1 as [|op σ σ' _ IH Ha E].
  - constructor; cbn [rc_start rc_vars rc_blocks rc_deleted]; try (intros *; rewrite lookup_empty; done); try constructor;
      by intros x ?%not_elem_of_nil.
  - destruct (rc_exec_inv op σ IH Ha) as (σ1 & E1 & H1). by simplify_eq.
Qed.

(** ** Properties *)

(** C38: reference counting is exact.  However pointers are created, copied, moved,
    assigned, swapped and destroyed, also as members of the objects they keep alive, as
    long as the program respects [rc_allowed]: no operation has undefined behaviour, an
    object exists exactly as long as a pointer to it, [use_count()] is the number of
    these pointers, and no object is deleted twice. *)
Theorem reference_counts_exact σ : rc_reachable σ →
  (∀ op, rc_allowed op σ → ∃ σ', rc_exec op σ = Some σ') ∧
  (∀ b, is_Some (rc_blocks σ !! b) ↔ ∃ v, rc_vars σ !! v = Some (Some b)) ∧
  (∀ v b, rc_vars σ !! v = Some (Some b) →
    rcp_get v σ = Some (Done b) ∧ rcp_use_count v σ = Some (pointers b (rc_vars σ)) ∧ b ∉ rc_deleted σ) ∧
  NoDup (rc_deleted σ).
Proof.
  intros H%rc_reachable_inv. split; [|split; [|split]].
  - intros op Ha. destruct (rc_exec_inv op σ H Ha) as (σ' & E & _). by exists σ'.
  - intros b. split; [|intros [v Hv]; by eapply inv_target]. intros [bl Hb]. apply pointers_pos_inv.
    destruct (inv_count _ _ H b bl Hb) as [<- ?]. done.
  - intros v b Hv. destruct (inv_target _ _ H v b Hv) as [bl Hb]. unfold rcp_get, rcp_use_count. rewrite Hv. cbn [mbind option_bind].
    rewrite Hb. split; [done|]. split; [simpl; f_equal; by eapply inv_count|]. intros Hd%(inv_deleted _ _ H). congruence.
  - by eapply inv_deleted_once.
Qed.

(** ** What [rc_allowed] is for *)

(** A null pointer cannot be copied: the counter is increased through it. *)
Lemma copy_of_null v o σ : rc_vars σ !! o = Some None → rcp_copy v o σ = None.
Proof. intros Ho. unfold rcp_copy. by rewrite Ho. Qed.

(** A list of two nodes: 0 points to the first node, whose member 10 points to the
    second one. *)
Definition two_nodes : option rc :=
  σ1 ← rc_exec (Object 0 100 [10]) rc_start; rc_exec (AssignObject 10 101 [11]) σ1.
(** [head = head->next] deletes the first node, and with it the pointer that is
    read, before it is read. *)
Lemma advance_reads_a_deleted_pointer : (two_nodes ≫= rc_exec (Assign 0 10)) = None ∧ (two_nodes ≫= rc_exec (MoveAssign 0 10)) = None.
Proof. split; vm_compute; reflexivity. Qed.

(** ** Witness *)

(** The list, and a copy of the pointer to its first node. *)
Lemma reference_counts_exact_witness :
  ∃ σ, two_nodes = Some σ ∧ rcp_use_count 0 σ = Some 1 ∧ ∃ σ', rc_exec (Copy 1 0) σ = Some σ'.
Proof.
  assert (rc_allowed (Object 0 100 [10]) rc_start) as H1.
  { split; [done|]. split; [by intros ?%list_elem_of_singleton|]. split; [done|]. split; [apply not_elem_of_nil|].
    split; [apply NoDup_singleton|done]. }
  destruct (rc_exec (Object 0 100 [10]) rc_start) as [σ1|] eqn:E1; [|done].
  pose proof (rc_reachable_step _ _ _ rc_reachable_start H1 E1) as R1. vm_compute in E1. injection E1 as E1.
  assert (rc_allowed (AssignObject 10 101 [11]) σ1) as H2.
  { subst σ1. split; [by vm_compute; eauto|]. split; intros σ2 E; vm_compute in E; injection E as <-; [by vm_compute; eauto|].
    split; [by intros ?%list_elem_of_singleton|]. split; [done|]. split; [apply not_elem_of_nil|]. split; [apply NoDup_singleton|].
    by intros m ->%list_elem_of_singleton. }
  destruct (rc_exec (AssignObject 10 101 [11]) σ1) as [σ2|] eqn:E2; [|subst σ1; vm_compute in E2; done].
  pose proof (rc_reachable_step _ _ _ R1 H2 E2) as R2. exists σ2.
  assert (rc_vars σ2 !! 0 = Some (Some 100) ∧ rc_vars σ2 !! 1 = None ∧ pointers 100 (rc_vars σ2) = 1) as (E0 & Ef & Ep).
  { subst σ1. vm_compute in E2. injection E2 as <-. repeat split. }
  destruct (reference_counts_exact σ2 R2) as (Hop & _ & Hcount & _). split; [|split].
  - subst σ1. vm_compute in E2 |- *. done.
  - destruct (Hcount 0 100 E0) as (_ & -> & _). by rewrite Ep.
  - apply Hop. split; [done|]. by exists 100.
Defined.
