(* ===== verification/Generator.v ===== *)
(** * Asynchronous generators

    include/ichor/coroutines/AsyncGenerator.h, AsyncGeneratorPromiseBase.h and
    AsyncGeneratorDetail.h: a coroutine that yields values (the producer) and the code
    that asks for them (the consumer), with the state machine of its promise.

    The members of the promise and of the awaiters are functions on the promise.  Two
    machines compose them.  In the first one the consumer is a coroutine as well:
    [resume()] is a call, so that the producer can run inside of the consumer and the
    consumer inside of the producer, and the machine keeps the stack of these calls.
    In the second one the consumer is the manager, which asks for the first value,
    keeps a generator that is not finished, and goes on with it when a
    [ContinuableEvent] with its id comes out of the queue. *)

From stdpp Require Import base list option.
From Stdlib Require Import ZArith Lia.
From S2P Require Import Prelude.

Local Open Scope Z_scope.

(** ** The promise *)

Inductive state : Type :=
  | unknown
  | value_not_ready_consumer_active
  | value_not_ready_consumer_suspended
  | value_ready_producer_active
  | value_ready_producer_suspended
  | cancelled.
#[global] Instance state_eq_dec : EqDecision state.
Proof. solve_decision. Defined.

(** The type of the values: [StartBehaviour], [IchorBehaviour] or another one. *)
Inductive value_kind : Type := KStart | KIchor | KOther.
(** The events a promise pushes, with its service, priority and id. *)
Inductive continuation : Type :=
  | ContinuableEvent (svcId priority id : Z)
  | ContinuableStartEvent (svcId priority id : Z).

Record promise := mkPromise {
  p_state : state;
  p_id : Z;
  p_priority : Z;
  p_svcId : Z;
  p_hasSuspended : option bool;
  p_currentValue : option Z;
  p_finished : bool }.
(** [AsyncGeneratorPromiseBase()]: the id comes from a counter that skips 0. *)
Definition new_promise (id : Z) : promise := mkPromise value_ready_producer_suspended id 100 0 None None false.
Definition next_id (idCounter : Z) : Z := if wrap64 (idCounter + 1) =? 0 then 1 else wrap64 (idCounter + 1).

Definition set_state (s : state) (p : promise) : promise :=
  mkPromise s (p_id p) (p_priority p) (p_svcId p) (p_hasSuspended p) (p_currentValue p) (p_finished p).
Definition set_hasSuspended (b : bool) (p : promise) : promise :=
  mkPromise (p_state p) (p_id p) (p_priority p) (p_svcId p) (Some b) (p_currentValue p) (p_finished p).
Definition set_currentValue (v : Z) (p : promise) : promise :=
  mkPromise (p_state p) (p_id p) (p_priority p) (p_svcId p) (p_hasSuspended p) (Some v) (p_finished p).
Definition set_priority (prio : Z) (p : promise) : promise :=
  mkPromise (p_state p) (p_id p) prio (p_svcId p) (p_hasSuspended p) (p_currentValue p) (p_finished p).
Definition set_service_id (svc : Z) (p : promise) : promise :=
  mkPromise (p_state p) (p_id p) (p_priority p) svc (p_hasSuspended p) (p_currentValue p) (p_finished p).
(** [if(!_hasSuspended.has_value()) _hasSuspended = false;] *)
Definition engage (p : promise) : promise := match p_hasSuspended p with None => set_hasSuspended false p | Some _ => p end.

(** [set_finished()] of a promise with values; hardened. *)
Definition set_finished (p : promise) : outcome promise :=
  match p_currentValue p with
  | None => Terminated
  | Some _ => Done (mkPromise (p_state p) (p_id p) (p_priority p) (p_svcId p) (p_hasSuspended p) (p_currentValue p) true)
  end.
(** [yield_value(v)] up to [internal_yield_value()]. *)
Definition yield_value (v : Z) (p : promise) : promise * list continuation :=
  (set_currentValue v p, [ContinuableEvent (p_svcId p) (p_priority p) (p_id p)]).
(** [return_value(v)]. *)
Definition return_value (kind : value_kind) (v : Z) (p : promise) : promise * list continuation :=
  (set_currentValue v p,
   if bool_decide (p_hasSuspended p = Some true)
   then match kind with
        | KStart => [ContinuableStartEvent (p_svcId p) (p_priority p) (p_id p)]
        | KIchor => [ContinuableEvent (p_svcId p) (p_priority p) (p_id p)]
        | KOther => []
        end
   else []).
(** [internal_yield_value()] up to the point where the consumer is resumed: whether
    it is.  The assertions are those of the source. *)
Definition internal_yield_value (p : promise) : outcome (bool * promise) :=
  if bool_decide (p_state p = value_ready_producer_active) then Terminated
  else if bool_decide (p_state p = value_ready_producer_suspended) then Terminated
  else if bool_decide (p_state p = value_not_ready_consumer_suspended) then Done (true, set_state value_ready_producer_active p)
  else Done (false, p).

(** [AsyncGeneratorYieldOperation]. *)
Definition yield_await_ready (initialState : state) : bool := bool_decide (initialState = value_not_ready_consumer_suspended).
Inductive yield_result : Type := ProducerSuspends (p : promise) | ProducerDestroyed.
Definition yield_await_suspend (initialState : state) (p0 : promise) : outcome yield_result :=
  let p := engage p0 in
  if bool_decide (initialState = value_not_ready_consumer_active) then
    if bool_decide (p_state p = initialState)
    then let p' := set_state value_ready_producer_suspended p in
         Done (ProducerSuspends (if p_finished p' then p' else set_hasSuspended true p'))
    else Terminated
  else if bool_decide (initialState = value_ready_producer_active) then
    if bool_decide (p_state p = initialState)
    then Done (ProducerSuspends (set_hasSuspended true (set_state value_ready_producer_suspended p)))
    else Terminated
  else if bool_decide (initialState = cancelled) then Done ProducerDestroyed
  else Terminated.

(** The constructor of [AsyncGeneratorAdvanceOperation] up to the point where the
    producer is resumed: whether it is. *)
Definition advance_construct (p : promise) : bool * promise :=
  if bool_decide (p_state p = value_ready_producer_suspended)
  then (true, set_state value_not_ready_consumer_active p) else (false, p).
Definition advance_await_ready (initialState : state) : bool := bool_decide (initialState = value_ready_producer_suspended).
(** [await_suspend] in two parts: up to the point where the producer is resumed, if
    it is, and behind it. *)
Inductive advance_result : Type := ConsumerSuspends (p : promise) | ResumesProducer (p : promise) | ConsumerGoesOn (p : promise).
Definition advance_await_suspend_end (currentState : state) (p : promise) : outcome advance_result :=
  if bool_decide (currentState = value_not_ready_consumer_active) then
    if bool_decide (p_state p = currentState)
    then Done (ConsumerSuspends (set_hasSuspended true (set_state value_not_ready_consumer_suspended p)))
    else Done (ConsumerGoesOn p)
  else Terminated.
Definition advance_await_suspend (initialState : state) (p0 : promise) : outcome advance_result :=
  let p := engage p0 in
  if bool_decide (initialState = value_ready_producer_active) then
    if bool_decide (p_state p = initialState) then
      let p' := set_state value_not_ready_consumer_suspended p in
      Done (ConsumerSuspends (if p_finished p' then p' else set_hasSuspended true p'))
    else if bool_decide (p_state p = value_ready_producer_suspended)
         then Done (ResumesProducer (set_state value_not_ready_consumer_active p)) else Terminated
  else advance_await_suspend_end initialState p.
Definition advance_await_suspend_resumed (p : promise) : outcome advance_result :=
  if bool_decide (p_state p = value_ready_producer_suspended) then Done (ConsumerGoesOn p)
  else advance_await_suspend_end (p_state p) p.

(** [request_cancellation()]: whether the coroutine can be destroyed at once. *)
Definition request_cancellation (p : promise) : outcome (bool * promise) :=
  if bool_decide (p_state p = value_not_ready_consumer_suspended) then Terminated
  else if bool_decide (p_state p = cancelled) then Terminated
  else Done (bool_decide (p_state p = value_ready_producer_suspended), set_state cancelled p).
(** [get_has_suspended()] of the begin operation. *)
Definition get_has_suspended (p : option promise) : bool :=
  match p with Some p => bool_decide (p_hasSuspended p ≠ Some false) | None => false end.

(** ** Coroutines *)

(** The body of a producer. *)
Inductive body : Type :=
  | Ret (v : Z)              (* co_return v *)
  | Yield (v : Z) (k : body) (* co_yield v *)
  | Wait (k : body).         (* co_await of something that is not ready *)
(** What it yields and returns; the flag marks the value that is returned. *)
Fixpoint outputs (b : body) : list (bool * Z) :=
  match b with
  | Ret v => [(true, v)]
  | Yield v k => (false, v) :: outputs k
  | Wait k => outputs k
  end.
(** A consumer: it asks for the next value ([co_await gen.begin()]), waits for
    something else, or ends, which destroys the generator. *)
Inductive consumer : Type :=
  | CNext (k : bool → Z → consumer)
  | CWait (k : consumer)
  | CEnd.

Inductive producer_status : Type :=
  | PSuspended (k : body)    (* at its start or at a co_yield *)
  | PWaiting (k : body)
  | PFinal                   (* at the final suspend point *)
  | PActive
  | PDestroyed.
Inductive consumer_status : Type :=
  | CSuspended (k : bool → Z → consumer)
  | CWaiting (k : consumer)
  | CActive
  | CEnded.

(** ** A coroutine as consumer *)

(** The calls on the stack: the code of a coroutine, [internal_yield_value] of the
    producer while the consumer runs, the constructor of the advance operation and its
    [await_suspend] while the producer runs. *)
Inductive call : Type :=
  | RunProducer (b : body)
  | InYield (k : option body)
  | RunConsumer (c : consumer)
  | InConstruct (k : bool → Z → consumer)
  | InSuspend (k : bool → Z → consumer).

Record config := mkConfig {
  g_promise : option promise;   (* None: the frame is destroyed *)
  g_producer : producer_status;
  g_consumer : consumer_status;
  g_stack : list call;
  g_queue : list continuation;
  g_received : list (bool * Z) }.

Definition new_config (id : Z) (b : body) (c : consumer) : config :=
  mkConfig (Some (new_promise id)) (PSuspended b) CActive [RunConsumer c] [] [].

(** [await_resume()] and [*it]: the consumer goes on with the value. *)
Definition receive (k : bool → Z → consumer) (p : promise) (below : list call) (σ : config) : outcome config :=
  match p_currentValue p with
  | Some v => Done (mkConfig (Some p) (g_producer σ) CActive (RunConsumer (k (p_finished p) v) :: below) (g_queue σ)
                      (g_received σ ++ [(p_finished p, v)]))
  | None => Terminated
  end.
(** [coroutine_handle::resume()] of the producer: only where it is suspended and not
    at its end. *)
Definition resume_producer (p : promise) (above : list call) (σ : config) : outcome config :=
  match g_producer σ with
  | PSuspended b => Done (mkConfig (Some p) PActive CActive (RunProducer b :: above) (g_queue σ) (g_received σ))
  | _ => Terminated
  end.
(** The yield operation: after [internal_yield_value]; [None] for [final_suspend]. *)
Definition finish_yield (k : option body) (p : promise) (below : list call) (σ : config) : outcome config :=
  if yield_await_ready (p_state p) then
    match k with
    | Some b => Done (mkConfig (Some p) PActive (g_consumer σ) (RunProducer b :: below) (g_queue σ) (g_received σ))
    | None => Done (mkConfig None PDestroyed (g_consumer σ) below (g_queue σ) (g_received σ))
    end
  else
    match yield_await_suspend (p_state p) p with
    | Done (ProducerSuspends p') =>
        Done (mkConfig (Some p') (match k with Some b => PSuspended b | None => PFinal end) (g_consumer σ) below (g_queue σ) (g_received σ))
    | Done ProducerDestroyed => Done (mkConfig None PDestroyed (g_consumer σ) below (g_queue σ) (g_received σ))
    | Terminated => Terminated
    end.
(** [internal_yield_value()], with the consumer's [resume()]. *)
Definition yield_point (k : option body) (p : promise) (below : list call) (σ : config) : outcome config :=
  match internal_yield_value p with
  | Done (true, p') =>
      match g_consumer σ with
      | CSuspended c => receive c p' (InYield k :: below) σ
      | _ => Terminated
      end
  | Done (false, p') => finish_yield k p' below σ
  | Terminated => Terminated
  end.
Definition after_advance (r : outcome advance_result) (k : bool → Z → consumer) (below : list call) (σ : config) : outcome config :=
  match r with
  | Done (ConsumerSuspends p) => Done (mkConfig (Some p) (g_producer σ) (CSuspended k) below (g_queue σ) (g_received σ))
  | Done (ResumesProducer p) => resume_producer p (InSuspend k :: below) σ
  | Done (ConsumerGoesOn p) => receive k p below σ
  | Terminated => Terminated
  end.
(** [co_await] of the advance operation, once it is constructed. *)
Definition await_advance (k : bool → Z → consumer) (p : promise) (below : list call) (σ : config) : outcome config :=
  if advance_await_ready (p_state p) then receive k p below σ
  else after_advance (advance_await_suspend (p_state p) p) k below σ.
(** [~AsyncGenerator()]. *)
Definition destroy_generator (below : list call) (σ : config) : outcome config :=
  match g_promise σ with
  | None => Done (mkConfig None (g_producer σ) CEnded below (g_queue σ) (g_received σ))
  | Some p =>
      match request_cancellation p with
      | Done (true, _) => Done (mkConfig None PDestroyed CEnded below (g_queue σ) (g_received σ))
      | Done (false, p') => Done (mkConfig (Some p') (g_producer σ) CEnded below (g_queue σ) (g_received σ))
      | Terminated => Terminated
      end
  end.

Definition set_queue (q : list continuation) (σ : config) : config :=
  mkConfig (g_promise σ) (g_producer σ) (g_consumer σ) (g_stack σ) q (g_received σ).

(** One step of the call on top of the stack. *)
Definition gstep (kind : value_kind) (σ : config) : outcome config :=
  match g_stack σ, g_promise σ with
  | [], _ => Done σ
  | RunProducer (Ret v) :: below, Some p =>
      let '(p1, pushed) := return_value kind v p in
      match set_finished p1 with
      | Done p2 => yield_point None p2 below (set_queue (g_queue σ ++ pushed) σ)
      | Terminated => Terminated
      end
  | RunProducer (Yield v b) :: below, Some p =>
      let '(p1, pushed) := yield_value v p in yield_point (Some b) p1 below (set_queue (g_queue σ ++ pushed) σ)
  | RunProducer (Wait b) :: below, Some p =>
      Done (mkConfig (Some p) (PWaiting b) (g_consumer σ) below (g_queue σ) (g_received σ))
  | InYield k :: below, Some p => finish_yield k p below σ
  | RunConsumer (CNext k) :: below, Some p =>
      let '(resumes, p') := advance_construct p in
      if resumes then resume_producer p' (InConstruct k :: below) σ else await_advance k p' below σ
  | InConstruct k :: below, Some p => await_advance k p below σ
  | InSuspend k :: below, Some p => after_advance (advance_await_suspend_resumed p) k below σ
  | RunConsumer (CWait c) :: below, _ =>
      Done (mkConfig (g_promise σ) (g_producer σ) (CWaiting c) below (g_queue σ) (g_received σ))
  | RunConsumer CEnd :: below, _ => destroy_generator below σ
  | _, None => Terminated
  end.

(** What the others may do: resume a coroutine that waits for something else. *)
Inductive resumption : Type := ResumeProducer | ResumeConsumer.
Definition gresume (r : resumption) (σ : config) : option config :=
  match r, g_producer σ, g_consumer σ with
  | ResumeProducer, PWaiting b, _ =>
      Some (mkConfig (g_promise σ) PActive (g_consumer σ) (RunProducer b :: g_stack σ) (g_queue σ) (g_received σ))
  | ResumeConsumer, _, CWaiting c =>
      Some (mkConfig (g_promise σ) (g_producer σ) CActive (RunConsumer c :: g_stack σ) (g_queue σ) (g_received σ))
  | _, _, _ => None
  end.

Inductive greachable (kind : value_kind) (σ0 : config) : config → Prop :=
  | greachable_start : greachable kind σ0 σ0
  | greachable_step σ σ' : greachable kind σ0 σ → gstep kind σ = Done σ' → greachable kind σ0 σ'
  | greachable_resume r σ σ' : greachable kind σ0 σ → gresume r σ = Some σ' → greachable kind σ0 σ'.

(** *** The invariant *)

(** A consumer that asks no more once the generator is finished. *)
Fixpoint quiet (c : consumer) : Prop :=
  match c with CNext _ => False | CWait k => quiet k | CEnd => True end.
Fixpoint polite (c : consumer) : Prop :=
  match c with
  | CNext k => ∀ v, polite (k false v) ∧ quiet (k true v)
  | CWait k => polite k
  | CEnd => True
  end.
Definition consumer_ok (finished : bool) (c : consumer) : Prop := if finished then quiet c else polite c.
Definition polite_next (k : bool → Z → consumer) : Prop := ∀ v, polite (k false v) ∧ quiet (k true v).

(** What the producer has still to give, by where it is suspended. *)
Definition rest_of (k : option body) : list (bool * Z) := match k with Some b => outputs b | None => [] end.
Definition is_final (k : option body) : bool := match k with Some _ => false | None => true end.
Definition suspended_at (k : option body) : producer_status := match k with Some b => PSuspended b | None => PFinal end.

(** The states of both coroutines, the state of the promise and the calls on the
    stack that occur together. *)
Inductive ginv (b0 : body) : config → Prop :=
  | inv_ready p k c cons stack q r :
      p_state p = value_ready_producer_suspended → p_finished p = is_final k → r ++ rest_of k = outputs b0 →
      consumer_ok (is_final k) c → (cons, stack) = (CWaiting c, []) ∨ (cons, stack) = (CActive, [RunConsumer c]) →
      ginv b0 (mkConfig (Some p) (suspended_at k) cons stack q r)
  | inv_asked p b k q r :
      p_state p = value_not_ready_consumer_active → p_finished p = false → r ++ outputs b = outputs b0 → polite_next k →
      ginv b0 (mkConfig (Some p) PActive CActive [RunProducer b; InConstruct k] q r)
  | inv_asked_waiting p b k q r :
      p_state p = value_not_ready_consumer_active → p_finished p = false → r ++ outputs b = outputs b0 → polite_next k →
      ginv b0 (mkConfig (Some p) (PWaiting b) CActive [InConstruct k] q r)
  | inv_asked_ready p kp v k q r :
      p_state p = value_ready_producer_suspended → p_finished p = is_final kp → p_currentValue p = Some v →
      r ++ (is_final kp, v) :: rest_of kp = outputs b0 → polite_next k →
      ginv b0 (mkConfig (Some p) (suspended_at kp) CActive [InConstruct k] q r)
  | inv_blocked p b k prod stack q r :
      p_state p = value_not_ready_consumer_suspended → p_finished p = false → r ++ outputs b = outputs b0 → polite_next k →
      (prod, stack) = (PWaiting b, []) ∨ (prod, stack) = (PActive, [RunProducer b]) ∨ (prod, stack) = (PActive, [InYield (Some b)]) →
      ginv b0 (mkConfig (Some p) prod (CSuspended k) stack q r)
  | inv_nested p kp c cons stack q r :
      p_state p = value_ready_producer_active → p_finished p = is_final kp → r ++ rest_of kp = outputs b0 → consumer_ok (is_final kp) c →
      (cons, stack) = (CWaiting c, [InYield kp]) ∨ (cons, stack) = (CActive, [RunConsumer c; InYield kp]) →
      ginv b0 (mkConfig (Some p) PActive cons stack q r)
  | inv_cancelled p b kp prod stack q r :
      p_state p = cancelled → (∃ s, r ++ s = outputs b0) →
      (prod, stack) = (PWaiting b, []) ∨ (prod, stack) = (PActive, [RunProducer b]) ∨ (prod, stack) = (PActive, [InYield kp]) →
      ginv b0 (mkConfig (Some p) prod CEnded stack q r)
  | inv_destroyed q r :
      (∃ s, r ++ s = outputs b0) → ginv b0 (mkConfig None PDestroyed CEnded [] q r).

Ltac decide_states :=
  repeat match goal with
  | |- context [bool_decide (?a = ?b)] =>
      first [ rewrite (bool_decide_eq_true_2 (a = b)) by reflexivity
            | rewrite (bool_decide_eq_false_2 (a = b)) by discriminate ]
  end.

(** Evaluates a step of the machine whose promise has a known state. *)
Ltac gstep_eval :=
  unfold yield_point, finish_yield, await_advance, after_advance, destroy_generator, resume_producer, receive,
    internal_yield_value, yield_await_ready, yield_await_suspend, advance_construct, advance_await_ready,
    advance_await_suspend, advance_await_suspend_end, advance_await_suspend_resumed, request_cancellation, engage;
  cbn [p_state p_finished p_currentValue p_hasSuspended set_state set_hasSuspended set_currentValue g_promise g_producer
    g_consumer g_stack g_queue g_received set_queue suspended_at];
  decide_states; cbn [negb andb orb].

Lemma engage_fields p : p_state (engage p) = p_state p ∧ p_finished (engage p) = p_finished p ∧ p_currentValue (engage p) = p_currentValue p.
Proof. unfold engage. by destruct (p_hasSuspended p). Qed.

(** A yield operation that suspends the producer. *)
Lemma yield_suspends k p below σ :
  p_state p = value_not_ready_consumer_active ∨ p_state p = value_ready_producer_active →
  ∃ p', finish_yield k p below σ = Done (mkConfig (Some p') (suspended_at k) (g_consumer σ) below (g_queue σ) (g_received σ)) ∧
    p_state p' = value_ready_producer_suspended ∧ p_finished p' = p_finished p ∧ p_currentValue p' = p_currentValue p.
Proof.
  intros Hst. destruct (engage_fields p) as (E1 & E2 & E3). unfold finish_yield, yield_await_ready, yield_await_suspend. rewrite E1.
  destruct Hst as [Hst|Hst]; rewrite !Hst; decide_states; eexists; (split; [done|]).
  - destruct (p_finished (set_state _ (engage p))) eqn:E; simpl in *; rewrite ?E2, ?E3; split; try done; congruence.
  - simpl. by rewrite E2, E3.
Qed.
Lemma yield_cancelled k p below σ : p_state p = cancelled →
  finish_yield k p below σ = Done (mkConfig None PDestroyed (g_consumer σ) below (g_queue σ) (g_received σ)).
Proof.
  intros Hst. destruct (engage_fields p) as (E1 & _). unfold finish_yield, yield_await_ready, yield_await_suspend. rewrite Hst. by decide_states.
Qed.
Lemma yield_goes_on b p below σ : p_state p = value_not_ready_consumer_suspended →
  finish_yield (Some b) p below σ = Done (mkConfig (Some p) PActive (g_consumer σ) (RunProducer b :: below) (g_queue σ) (g_received σ)).
Proof. intros Hst. unfold finish_yield, yield_await_ready. rewrite Hst. by decide_states. Qed.

(** [internal_yield_value] in the three states in which a producer runs. *)
Lemma yield_point_asked k p below σ : p_state p = value_not_ready_consumer_active ∨ p_state p = cancelled →
  yield_point k p below σ = finish_yield k p below σ.
Proof. unfold yield_point, internal_yield_value. intros [Hst|Hst]; rewrite Hst; by decide_states. Qed.
Lemma yield_point_wakes k c p below σ v : p_state p = value_not_ready_consumer_suspended → g_consumer σ = CSuspended c →
  p_currentValue p = Some v →
  yield_point k p below σ = Done (mkConfig (Some (set_state value_ready_producer_active p)) (g_producer σ) CActive
    (RunConsumer (c (p_finished p) v) :: InYield k :: below) (g_queue σ) (g_received σ ++ [(p_finished p, v)])).
Proof.
  intros Hst Hc Hv. unfold yield_point, internal_yield_value. rewrite Hst. decide_states. rewrite Hc. unfold receive. cbn. by rewrite Hv.
Qed.

(** [co_await] of an advance operation. *)
Lemma advance_gets k p below σ v : p_state p = value_ready_producer_suspended → p_currentValue p = Some v →
  await_advance k p below σ = Done (mkConfig (Some p) (g_producer σ) CActive (RunConsumer (k (p_finished p) v) :: below) (g_queue σ)
    (g_received σ ++ [(p_finished p, v)])).
Proof. intros Hst Hv. unfold await_advance, advance_await_ready. rewrite Hst. decide_states. unfold receive. by rewrite Hv. Qed.
Lemma advance_suspends k p below σ :
  p_state p = value_not_ready_consumer_active ∨ p_state p = value_ready_producer_active →
  ∃ p', await_advance k p below σ = Done (mkConfig (Some p') (g_producer σ) (CSuspended k) below (g_queue σ) (g_received σ)) ∧
    p_state p' = value_not_ready_consumer_suspended ∧ p_finished p' = p_finished p.
Proof.
  intros Hst. destruct (engage_fields p) as (E1 & E2 & _). unfold await_advance, advance_await_ready, advance_await_suspend, advance_await_suspend_end.
  rewrite E1. destruct Hst as [Hst|Hst]; rewrite !Hst; decide_states; cbn [after_advance]; eexists; (split; [done|]).
  - simpl. by rewrite E2.
  - destruct (p_finished (set_state _ (engage p))) eqn:E; simpl in *; rewrite ?E2; split; try done; congruence.
Qed.

(** *** Steps keep it *)

(** Each step brings the stack closer to being empty: the body of the producer gets
    shorter, and between two of its steps the calls come in a fixed order. *)
Fixpoint body_size (b : body) : nat := match b with Ret _ => 1 | Yield _ k | Wait k => S (body_size k) end.
Definition rest_size (k : option body) : nat := match k with Some b => body_size b | None => 0 end.
Definition producer_size (s : producer_status) : nat :=
  match s with PSuspended b | PWaiting b => body_size b | _ => 0 end.
Definition gmeasure (σ : config) : nat :=
  match g_stack σ with
  | [] => 0
  | RunProducer b :: _ => 4 * body_size b + 1
  | InYield k :: _ => 4 * rest_size k + 2
  | RunConsumer _ :: InYield k :: _ => 4 * rest_size k + 3
  | RunConsumer _ :: _ => 4 * producer_size (g_producer σ) + 2
  | InConstruct _ :: _ => 4 * producer_size (g_producer σ) + 3
  | InSuspend _ :: _ => 0
  end.
Definition gprogress (kind : value_kind) (b0 : body) (σ : config) : Prop :=
  ∃ σ', gstep kind σ = Done σ' ∧ ginv b0 σ' ∧ (gmeasure σ' < gmeasure σ)%nat.
Lemma suspended_size k : producer_size (suspended_at k) = rest_size k.
Proof. by destruct k. Qed.
Tactic Notation "progress_by" tactic3(tac) :=
  eexists; split; [reflexivity|split; [solve [tac]|cbn [gmeasure g_stack g_producer producer_size rest_size body_size]; rewrite ?suspended_size; cbn; lia]].

(** What the producer does when it runs. *)
Lemma producer_output kind v kb b p σ below : b = match kb with Some k => Yield v k | None => Ret v end →
  g_stack σ = RunProducer b :: below → g_promise σ = Some p →
  ∃ p1 q, gstep kind σ = yield_point kb p1 below (set_queue q σ) ∧ p_state p1 = p_state p ∧
    (p_finished p = false → p_finished p1 = is_final kb) ∧ p_currentValue p1 = Some v.
Proof.
  intros -> Hs Hp. unfold gstep. rewrite Hs, Hp.
  destruct kb as [k|]; cbn [yield_value return_value set_finished set_currentValue p_currentValue]; eexists _, _; (split; [done|]); done.
Qed.
Lemma outputs_cases b : (∃ k, b = Wait k) ∨ ∃ v kb, b = match kb with Some k => Yield v k | None => Ret v end ∧ outputs b = (is_final kb, v) :: rest_of kb.
Proof. destruct b as [v|v k|k]; [right; by exists v, None|right; by exists v, (Some k)|left; by exists k]. Qed.
Lemma consumer_receives (fin : bool) k v : polite_next k → consumer_ok fin (k fin v).
Proof. intros Hk. destruct fin; apply Hk. Qed.

(** The configurations in which the producer is on top of the stack. *)
Lemma producer_running b0 σ b below : ginv b0 σ → g_stack σ = RunProducer b :: below →
  ∃ p q r, g_promise σ = Some p ∧
    (σ = mkConfig (Some p) PActive (g_consumer σ) (RunProducer b :: below) q r) ∧
    ((∃ k, g_consumer σ = CActive ∧ below = [InConstruct k] ∧ p_state p = value_not_ready_consumer_active ∧ p_finished p = false ∧
        r ++ outputs b = outputs b0 ∧ polite_next k) ∨
     (∃ k, g_consumer σ = CSuspended k ∧ below = [] ∧ p_state p = value_not_ready_consumer_suspended ∧ p_finished p = false ∧
        r ++ outputs b = outputs b0 ∧ polite_next k) ∨
     (g_consumer σ = CEnded ∧ below = [] ∧ p_state p = cancelled ∧ ∃ s, r ++ s = outputs b0)).
Proof.
  intros H Hs. destruct H as [p k c cons stack q r H1 H2 H3 H4 H5|p b' k q r H1 H2 H3 H4|p b' k q r H1 H2 H3 H4|p kp v k q r H1 H2 H3 H4 H5
    |p b' k prod stack q r H1 H2 H3 H4 H5|p kp c cons stack q r H1 H2 H3 H4 H5|p b' kp prod stack q r H1 H2 H3|q r H1]; simpl in *; simplify_eq.
  - destruct H5; simplify_eq.
  - exists p, q, r. split; [done|]. split; [done|]. left. by exists k.
  - destruct H5 as [|[|]]; simplify_eq. exists p, q, r. split; [done|]. split; [done|]. right. left. by exists k.
  - destruct H5; simplify_eq.
  - destruct H3 as [|[|]]; simplify_eq. exists p, q, r. split; [done|]. split; [done|]. by right; right.
Qed.

Lemma gstep_producer kind b0 σ b below : ginv b0 σ → g_stack σ = RunProducer b :: below → gprogress kind b0 σ.
Proof.
  intros H Hs. destruct (producer_running b0 σ b below H Hs) as (p & q & r & Hp & Hσ & Hcase). unfold gprogress.
  assert (gmeasure σ = 4 * body_size b + 1)%nat as -> by (unfold gmeasure; by rewrite Hs).
  destruct (outputs_cases b) as [[b' ->]|(v & kb & Hb & Ho)].
  - unfold gstep. rewrite Hs, Hp, Hσ. cbn [g_consumer g_queue g_received].
    destruct Hcase as [(k & -> & -> & ? & ? & ? & ?)|[(k & -> & -> & ? & ? & ? & ?)|(-> & -> & ? & ?)]].
    + progress_by (by apply inv_asked_waiting).
    + progress_by (apply (inv_blocked _ _ b'); auto).
    + progress_by (apply (inv_cancelled _ _ b' None); auto).
  - assert (body_size b = S (rest_size kb)) as -> by (rewrite Hb; by destruct kb).
    destruct (producer_output kind v kb b p σ below Hb Hs Hp) as (p1 & q1 & -> & Hst & Hfin & Hv). rewrite Hσ.
    unfold set_queue. cbn [g_promise g_producer g_consumer g_stack g_received].
    destruct Hcase as [(k & -> & -> & Hs0 & Hf & Hr & Hk)|[(k & -> & -> & Hs0 & Hf & Hr & Hk)|(-> & -> & Hs0 & Hr)]];
      rewrite Hs0 in Hst; try (specialize (Hfin Hf); rewrite Ho in Hr).
    + rewrite yield_point_asked by auto. destruct (yield_suspends kb p1 [InConstruct k]
        (mkConfig (Some p) PActive CActive [RunProducer b; InConstruct k] q1 r)) as (p2 & -> & E1 & E2 & E3); [auto|].
      progress_by (apply (inv_asked_ready _ _ kb v); [done|congruence|congruence|done|done]).
    + rewrite (yield_point_wakes kb k p1 [] _ v) by done. rewrite Hfin.
      progress_by (apply (inv_nested _ _ kb (k (is_final kb) v)); [done|done|by rewrite <- app_assoc|by apply consumer_receives|by right]).
    + rewrite yield_point_asked, yield_cancelled by auto. progress_by (by apply inv_destroyed).
Qed.

(** The consumer on top of the stack. *)
Lemma gstep_consumer kind b0 σ c below : ginv b0 σ → g_stack σ = RunConsumer c :: below → gprogress kind b0 σ.
Proof.
  unfold gprogress. intros H Hs. destruct H as [p kp c' cons stack q r H1 H2 H3 H4 H5|p b' k q r H1 H2 H3 H4|p b' k q r H1 H2 H3 H4|p kp v k q r H1 H2 H3 H4 H5
    |p b' k prod stack q r H1 H2 H3 H4 H5|p kp c' cons stack q r H1 H2 H3 H4 H5|p b' kp prod stack q r H1 H2 H3|q r H1]; simpl in *; simplify_eq.
  - destruct H5; simplify_eq. destruct c' as [k|c|].
    + destruct kp as [b|]; [|done]. unfold gstep, advance_construct. cbn [g_stack g_promise]. rewrite H1. decide_states. cbn.
      progress_by (by apply inv_asked).
    + progress_by (apply (inv_ready _ _ _ c); [done..|by left]).
    + unfold gstep, destroy_generator, request_cancellation. cbn [g_stack g_promise]. rewrite H1. decide_states.
      progress_by (apply inv_destroyed; by eexists).
  - destruct H5 as [|[|]]; simplify_eq.
  - destruct H5; simplify_eq. destruct c' as [k|c|].
    + destruct kp as [b|]; [|done]. unfold gstep, advance_construct. cbn [g_stack g_promise]. rewrite H1. decide_states.
      destruct (advance_suspends k p [InYield (Some b)] (mkConfig (Some p) PActive CActive [RunConsumer (CNext k); InYield (Some b)] q r))
        as (p' & -> & E1 & E2); [by right|]. progress_by (apply (inv_blocked _ _ b); [done|by rewrite E2|done|done|by right; right]).
    + progress_by (apply (inv_nested _ _ kp c); [done..|by left]).
    + unfold gstep, destroy_generator, request_cancellation. cbn [g_stack g_promise]. rewrite H1. decide_states.
      progress_by (apply (inv_cancelled _ _ (Ret 0) kp); [done|by eexists|by right; right]).
  - destruct H3 as [|[|]]; simplify_eq.
Qed.

(** A call on top of the stack that another one returned to. *)
Lemma gstep_returned kind b0 σ f below : ginv b0 σ → g_stack σ = f :: below →
  match f with RunProducer _ | RunConsumer _ => False | _ => True end → gprogress kind b0 σ.
Proof.
  unfold gprogress. intros H Hs Hf. destruct H as [p kp c' cons stack q r H1 H2 H3 H4 H5|p b' k q r H1 H2 H3 H4|p b' k q r H1 H2 H3 H4|p kp v k q r H1 H2 H3 H4 H5
    |p b' k prod stack q r H1 H2 H3 H4 H5|p kp c' cons stack q r H1 H2 H3 H4 H5|p b' kp prod stack q r H1 H2 H3|q r H1]; simpl in *; simplify_eq.
  - destruct H5; by simplify_eq.
  - done.
  - unfold gstep. cbn [g_stack g_promise]. destruct (advance_suspends k p [] (mkConfig (Some p) (PWaiting b') CActive [InConstruct k] q r))
      as (p' & -> & E1 & E2); [by left|]. progress_by (apply (inv_blocked _ _ b'); [done|congruence|done|done|by left]).
  - unfold gstep. cbn [g_stack g_promise]. rewrite (advance_gets k p [] _ v) by done. rewrite H2.
    progress_by (apply (inv_ready _ _ _ (k (is_final kp) v)); [done|done|by simpl; rewrite <- app_assoc|by apply consumer_receives|by right]).
  - destruct H5 as [|[|]]; simplify_eq; [done|]. unfold gstep. cbn [g_stack g_promise]. rewrite yield_goes_on by done.
    progress_by (apply (inv_blocked _ _ b'); [done..|by right; left]).
  - destruct H5; simplify_eq; [|done]. unfold gstep. cbn [g_stack g_promise].
    destruct (yield_suspends kp p [] (mkConfig (Some p) PActive (CWaiting c') [InYield kp] q r)) as (p' & -> & E1 & E2 & _); [by right|].
    progress_by (apply (inv_ready _ _ _ c'); [done|congruence|done|done|by left]).
  - destruct H3 as [|[|]]; simplify_eq; [done|]. unfold gstep. cbn [g_stack g_promise]. rewrite yield_cancelled by done.
    progress_by (by apply inv_destroyed).
Qed.

Lemma gstep_progress kind b0 σ : ginv b0 σ → g_stack σ ≠ [] → gprogress kind b0 σ.
Proof.
  intros H Hs. destruct (g_stack σ) as [|f below] eqn:E; [done|].
  destruct f; [by eapply gstep_producer| |by eapply gstep_consumer| |]; by eapply gstep_returned.
Qed.
Lemma gstep_idle kind σ : g_stack σ = [] → gstep kind σ = Done σ.
Proof. intros Hs. unfold gstep. by rewrite Hs. Qed.
Lemma gresume_inv b0 r σ σ' : ginv b0 σ → gresume r σ = Some σ' → ginv b0 σ'.
Proof.
  intros H E. destruct H as [p kp c' cons stack q rr H1 H2 H3 H4 H5|p b' k q rr H1 H2 H3 H4|p b' k q rr H1 H2 H3 H4|p kp v k q rr H1 H2 H3 H4 H5
    |p b' k prod stack q rr H1 H2 H3 H4 H5|p kp c' cons stack q rr H1 H2 H3 H4 H5|p b' kp prod stack q rr H1 H2 H3|q rr H1];
    destruct r; unfold gresume in E; simpl in E; try discriminate E; try (destruct kp; discriminate E).
  - destruct kp as [b|]; simpl in E; destruct H5; simplify_eq.
    + apply (inv_ready _ _ (Some b) c'); auto.
    + apply (inv_ready _ _ None c'); auto.
  - simplify_eq. by apply inv_asked.
  - destruct H5 as [|[|]]; simplify_eq. apply (inv_blocked _ _ b'); auto.
  - destruct H5; simplify_eq.
    apply (inv_nested _ _ kp c'); try done. by right.
  - destruct H3 as [|[|]]; simplify_eq. apply (inv_cancelled _ _ b' kp); auto.
Qed.

Lemma greachable_inv kind id b c σ : polite c → greachable kind (new_config id b c) σ → ginv b σ.
Proof.
  intros Hc. induction 1 as [|σ σ' _ IH E|r σ σ' _ IH E].
  - apply (inv_ready b (new_promise id) (Some b) c); [done|done|done|done|by right].
  - destruct (decide (g_stack σ = [])) as [Hs|Hs]; [rewrite gstep_idle in E by done; by simplify_eq|].
    destruct (gstep_progress kind b σ IH Hs) as (σ1 & E1 & H1 & _). rewrite E in E1. by simplify_eq.
  - by eapply gresume_inv.
Qed.
Fixpoint gsteps (kind : value_kind) (n : nat) (σ : config) : outcome config :=
  match n with O => Done σ | S n' => match gstep kind σ with Done σ' => gsteps kind n' σ' | Terminated => Terminated end end.
Lemma gsteps_settle kind b0 n : ∀ σ, ginv b0 σ → (gmeasure σ <= n)%nat → ∃ σ', gsteps kind n σ = Done σ' ∧ g_stack σ' = [].
Proof.
  induction n as [|n IH]; intros σ H Hm; cbn [gsteps]; (destruct (decide (g_stack σ = [])) as [Hs|Hs]).
  - by exists σ.
  - destruct (gstep_progress kind b0 σ H Hs) as (σ1 & _ & _ & Hlt). lia.
  - rewrite gstep_idle by done. apply IH; [done|]. unfold gmeasure. rewrite Hs. lia.
  - destruct (gstep_progress kind b0 σ H Hs) as (σ1 & -> & H1 & Hlt). apply IH; [done|lia].
Qed.

(** *** The transition diagram of Enums.h *)

Inductive party : Type := Consumer | Producer.
Inductive transition : party → state → state → Prop :=
  | t_suspend_consumer : transition Consumer value_not_ready_consumer_active value_not_ready_consumer_suspended
  | t_produce : transition Producer value_not_ready_consumer_active value_ready_producer_suspended
  | t_ask : transition Consumer value_ready_producer_suspended value_not_ready_consumer_active
  | t_wake : transition Producer value_not_ready_consumer_suspended value_ready_producer_active
  | t_ask_again : transition Consumer value_ready_producer_active value_not_ready_consumer_suspended
  | t_suspend_producer : transition Producer value_ready_producer_active value_ready_producer_suspended
  | t_cancel_asked : transition Consumer value_not_ready_consumer_active cancelled
  | t_cancel_ready : transition Consumer value_ready_producer_suspended cancelled
  | t_cancel_nested : transition Consumer value_ready_producer_active cancelled.
#[local] Hint Constructors transition : core.
(** The party whose code is on top of the stack. *)
Definition runs_now (σ : config) : party :=
  match g_stack σ with RunProducer _ :: _ | InYield _ :: _ => Producer | _ => Consumer end.
Definition follows (who : party) (s : state) (r : outcome config) : Prop :=
  match r with
  | Done σ' => match g_promise σ' with Some p' => p_state p' = s ∨ transition who s (p_state p') | None => True end
  | Terminated => True
  end.

Ltac split_states :=
  repeat first [ case_bool_decide | match goal with |- context [match ?x with _ => _ end] => destruct x eqn:? end ]; simplify_eq; try done.
Lemma receive_follows who s k p below σ : p_state p = s ∨ transition who s (p_state p) → follows who s (receive k p below σ).
Proof. intros H. unfold receive. by destruct (p_currentValue p). Qed.
Lemma resume_follows who s p above σ : p_state p = s ∨ transition who s (p_state p) → follows who s (resume_producer p above σ).
Proof. intros H. unfold resume_producer. by destruct (g_producer σ). Qed.
Lemma finish_yield_follows k p below σ : follows Producer (p_state p) (finish_yield k p below σ).
Proof.
  destruct (engage_fields p) as (Es & _). unfold finish_yield, yield_await_ready, yield_await_suspend. rewrite Es.
  split_states; cbn [follows g_promise set_state set_hasSuspended p_state]; auto;
    match goal with H : p_state p = _ |- _ => rewrite H end; auto.
Qed.
Lemma yield_point_follows k p below σ : follows Producer (p_state p) (yield_point k p below σ).
Proof.
  unfold yield_point, internal_yield_value. repeat case_bool_decide; try done; [|apply finish_yield_follows].
  destruct (g_consumer σ); try done. apply receive_follows. right. cbn. match goal with H : p_state p = _ |- _ => rewrite H end. auto.
Qed.
Lemma after_advance_follows s r k below σ : 
  match r with
  | Done (ConsumerSuspends p) | Done (ResumesProducer p) | Done (ConsumerGoesOn p) => p_state p = s ∨ transition Consumer s (p_state p)
  | Terminated => True
  end → follows Consumer s (after_advance r k below σ).
Proof. unfold after_advance. destruct r as [[]|]; [done|apply resume_follows|apply receive_follows|done]. Qed.
Lemma await_end_follows st k p below σ : follows Consumer (p_state p) (after_advance (advance_await_suspend_end st p) k below σ).
Proof.
  apply after_advance_follows. unfold advance_await_suspend_end. repeat case_bool_decide; try done; [|by left]. right. cbn.
  match goal with H : p_state p = _ |- _ => rewrite H end. subst. auto.
Qed.
Lemma await_advance_follows k p below σ : follows Consumer (p_state p) (await_advance k p below σ).
Proof.
  destruct (engage_fields p) as (Es & _). unfold await_advance. destruct (advance_await_ready (p_state p)); [apply receive_follows; by left|].
  unfold advance_await_suspend. rewrite Es. repeat case_bool_decide; try done; try congruence.
  - apply after_advance_follows. right. rewrite H. destruct (p_finished _); cbn; auto.
  - rewrite <- Es at 1. apply await_end_follows.
Qed.

Lemma gstep_follows kind σ : match g_promise σ with Some p => p_state p ≠ unknown → follows (runs_now σ) (p_state p) (gstep kind σ) | None => True end.
Proof.
  destruct (g_promise σ) as [p|] eqn:Ep; [|done]. intros Hu. unfold gstep, runs_now. destruct (g_stack σ) as [|[[v|v k|k]|k|[k|c|]|k|k] below]; rewrite ?Ep.
  - cbn. rewrite Ep. by left.
  - cbn [return_value set_finished set_currentValue p_currentValue]. apply (yield_point_follows None (mkPromise _ _ _ _ _ _ _)).
  - cbn [yield_value]. apply (yield_point_follows (Some k) (set_currentValue v p)).
  - by left.
  - apply finish_yield_follows.
  - unfold advance_construct. case_bool_decide as Hs; [|apply await_advance_follows]. apply resume_follows. right. rewrite Hs. cbn. auto.
  - cbn. by left.
  - unfold destroy_generator, request_cancellation. rewrite Ep. repeat case_bool_decide; try done. cbn. right. destruct (p_state p); done || auto.
  - apply await_advance_follows.
  - unfold advance_await_suspend_resumed. case_bool_decide; [|apply await_end_follows]. apply after_advance_follows. by left.
Qed.

(** ** The manager as consumer *)

Record mconfig := mkM {
  m_promise : option promise;
  m_producer : producer_status;
  m_scoped : bool;               (* it is in _scopedGenerators *)
  m_queue : list continuation;   (* its events in the queue *)
  m_result : option Z }.         (* the value the manager found at its end *)

(** [internal_yield_value] and the yield operation; there is no coroutine to resume. *)
Definition yield_alone (k : option body) (p : promise) : outcome (option promise * producer_status) :=
  match internal_yield_value p with
  | Done (false, p') =>
      if yield_await_ready (p_state p') then Terminated
      else match yield_await_suspend (p_state p') p' with
           | Done (ProducerSuspends p'') => Done (Some p'', suspended_at k)
           | Done ProducerDestroyed => Done (None, PDestroyed)
           | Terminated => Terminated
           end
  | _ => Terminated
  end.
(** The producer runs until it is suspended. *)
Definition run_alone (kind : value_kind) (b : body) (p : promise) : outcome (option promise * producer_status * list continuation) :=
  match b with
  | Wait k => Done (Some p, PWaiting k, [])
  | Yield v k =>
      let '(p1, pushed) := yield_value v p in
      match yield_alone (Some k) p1 with Done (p2, s) => Done (p2, s, pushed) | Terminated => Terminated end
  | Ret v =>
      let '(p1, pushed) := return_value kind v p in
      match set_finished p1 with
      | Done p2 => match yield_alone None p2 with Done (p3, s) => Done (p3, s, pushed) | Terminated => Terminated end
      | Terminated => Terminated
      end
  end.
(** [begin()] and [begin_interface()]: the constructor of the begin operation. *)
Definition begin_alone (kind : value_kind) (s : producer_status) (p : promise) : outcome (option promise * producer_status * list continuation) :=
  let '(resumes, p') := advance_construct p in
  if resumes then match s with PSuspended b => run_alone kind b p' | _ => Terminated end else Done (Some p', s, []).
Definition get_finished (p : option promise) : bool := match p with Some p => p_finished p | None => true end.
Definition done (p : option promise) (s : producer_status) : bool :=
  match p, s with None, _ => true | Some _, PFinal => true | _, _ => false end.
(** [get_value()] and [~AsyncGenerator()] of a generator that is finished. *)
Definition erase_generator (p : option promise) (q : list continuation) : outcome mconfig :=
  match p with
  | None => Done (mkM None PDestroyed false q None)
  | Some p =>
      match request_cancellation p with
      | Done (true, _) => Done (mkM None PDestroyed false q (p_currentValue p))
      | _ => Terminated
      end
  end.
(** An event is handled: the handler is called and asked for its value; a generator
    that is not finished is moved into the table. *)
Definition m_start (kind : value_kind) (id svc priority : Z) (b : body) : outcome mconfig :=
  match begin_alone kind (PSuspended b) (set_priority priority (set_service_id svc (new_promise id))) with
  | Done (p, s, pushed) =>
      if get_finished p then erase_generator p pushed
      else Done (mkM (set_hasSuspended true <$> p) s true pushed None)
  | Terminated => Terminated
  end.

Inductive maction : Type :=
  | MResume     (* what the producer waits for happens *)
  | MContinue.  (* the manager takes its event out of the queue *)
(** [None]: this cannot happen now. *)
Definition mstep (kind : value_kind) (a : maction) (σ : mconfig) : option (outcome mconfig) :=
  match a with
  | MResume =>
      match m_producer σ, m_promise σ with
      | PWaiting b, Some p =>
          Some (match run_alone kind b p with
                | Done (p', s, pushed) => Done (mkM p' s (m_scoped σ) (m_queue σ ++ pushed) (m_result σ))
                | Terminated => Terminated
                end)
      | _, _ => None
      end
  | MContinue =>
      match m_queue σ with
      | [] => None
      | _ :: q =>
          Some (if negb (m_scoped σ) then Done (mkM (m_promise σ) (m_producer σ) false q (m_result σ))
                else if done (m_promise σ) (m_producer σ) then erase_generator (m_promise σ) q
                else match m_promise σ with
                     | None => Terminated
                     | Some p =>
                         match begin_alone kind (m_producer σ) p with
                         | Done (p', s, pushed) =>
                             if get_finished p' then erase_generator p' (q ++ pushed)
                             else Done (mkM p' s true (q ++ pushed) (m_result σ))
                         | Terminated => Terminated
                         end
                     end)
      end
  end.

(** What a body returns in the end. *)
Fixpoint result_of (b : body) : Z := match b with Ret v => v | Yield _ k | Wait k => result_of k end.
(** The event that belongs to a suspended generator. *)
Definition its_event (id svc priority : Z) (e : continuation) : Prop :=
  e = ContinuableEvent svc priority id ∨ e = ContinuableStartEvent svc priority id.

Definition owned (id svc priority : Z) (p : promise) : Prop :=
  p_id p = id ∧ p_svcId p = svc ∧ p_priority p = priority ∧ p_hasSuspended p = Some true.
Inductive minv (id svc priority : Z) (b0 : body) : mconfig → Prop :=
  | minv_waiting p b :
      p_state p = value_not_ready_consumer_active → p_finished p = false → owned id svc priority p → result_of b = result_of b0 →
      minv id svc priority b0 (mkM (Some p) (PWaiting b) true [] None)
  | minv_suspended p b e :
      p_state p = value_ready_producer_suspended → p_finished p = false → owned id svc priority p → result_of b = result_of b0 →
      its_event id svc priority e → minv id svc priority b0 (mkM (Some p) (PSuspended b) true [e] None)
  | minv_final p e :
      p_state p = value_ready_producer_suspended → p_finished p = true → p_currentValue p = Some (result_of b0) →
      its_event id svc priority e → minv id svc priority b0 (mkM (Some p) PFinal true [e] None)
  | minv_gone q : (length q <= 1)%nat → minv id svc priority b0 (mkM None PDestroyed false q (Some (result_of b0))).

Definition mmeasure (σ : mconfig) : nat :=
  match m_producer σ with
  | PWaiting b | PSuspended b => 2 * body_size b
  | PFinal => 1
  | _ => length (m_queue σ)
  end.

(** The producer runs on behalf of nobody. *)
Lemma yield_alone_suspends k p : p_state p = value_not_ready_consumer_active →
  ∃ p', yield_alone k p = Done (Some p', suspended_at k) ∧ p_state p' = value_ready_producer_suspended ∧ p_finished p' = p_finished p ∧
    p_currentValue p' = p_currentValue p ∧ p_id p' = p_id p ∧ p_svcId p' = p_svcId p ∧ p_priority p' = p_priority p ∧
    (p_hasSuspended p = Some true → p_hasSuspended p' = Some true).
Proof.
  intros Hst. unfold yield_alone, internal_yield_value. rewrite Hst. decide_states. cbn [yield_await_ready]. rewrite Hst.
  unfold yield_await_ready, yield_await_suspend. decide_states. destruct (engage_fields p) as (-> & _). rewrite Hst. decide_states.
  eexists. split; [done|]. unfold engage. destruct (p_hasSuspended p) eqn:Eh; cbn; destruct (p_finished p) eqn:Ef; cbn; rewrite ?Eh, ?Ef;
    repeat split; congruence.
Qed.
(** The three ways in which a producer stops to run. *)
Lemma run_alone_cases kind b p : p_state p = value_not_ready_consumer_active → p_finished p = false →
  (∃ k, b = Wait k ∧ run_alone kind b p = Done (Some p, PWaiting k, [])) ∨
  ∃ v kb p' pushed, b = match kb with Some k => Yield v k | None => Ret v end ∧
    run_alone kind b p = Done (Some p', suspended_at kb, pushed) ∧ p_state p' = value_ready_producer_suspended ∧
    p_finished p' = is_final kb ∧ p_currentValue p' = Some v ∧ p_id p' = p_id p ∧ p_svcId p' = p_svcId p ∧ p_priority p' = p_priority p ∧
    (p_hasSuspended p = Some true → p_hasSuspended p' = Some true) ∧
    pushed = match kb with Some _ => snd (yield_value v p) | None => snd (return_value kind v p) end.
Proof.
  intros Hst Hf. destruct b as [v|v k|k]; [right|right|left; by exists k].
  - set (p1 := fst (return_value kind v p)). destruct (set_finished p1) as [p2|] eqn:E; [|done].
    destruct (yield_alone_suspends None p2) as (p3 & E3 & H1 & H2 & H3 & H4 & H5 & H6 & H7).
    { unfold set_finished in E. simpl in E. by simplify_eq. }
    exists v, None, p3, (snd (return_value kind v p)). unfold run_alone. cbn [return_value fst snd].
    change (set_currentValue v p) with p1. rewrite E, E3. unfold set_finished in E. simpl in E. simplify_eq. by repeat split.
  - destruct (yield_alone_suspends (Some k) (fst (yield_value v p))) as (p3 & E3 & H1 & H2 & H3 & H4 & H5 & H6 & H7); [done|].
    exists v, (Some k), p3, (snd (yield_value v p)). unfold run_alone. cbn [yield_value fst snd] in *. rewrite E3. repeat split; simpl in *; try done; congruence.
Qed.

Lemma pushed_event kind v (kb : option body) p id svc priority : kind ≠ KOther → owned id svc priority p →
  ∃ e, its_event id svc priority e ∧ match kb with Some _ => snd (yield_value v p) | None => snd (return_value kind v p) end = [e].
Proof.
  intros Hk (<- & <- & <- & Hs). unfold its_event. destruct kb as [k|]; cbn [yield_value return_value snd]; [eauto|].
  rewrite Hs, bool_decide_eq_true_2 by done. destruct kind; [eauto|eauto|done].
Qed.

(** A producer in the table that runs. *)
Lemma run_owned kind id svc priority b0 b p : kind ≠ KOther → p_state p = value_not_ready_consumer_active → p_finished p = false →
  owned id svc priority p → result_of b = result_of b0 →
  ∃ p' s pushed, run_alone kind b p = Done (Some p', s, pushed) ∧ p_finished p' = match s with PFinal => true | _ => false end ∧
    minv id svc priority b0 (mkM (Some p') s true pushed None) ∧ (mmeasure (mkM (Some p') s true pushed None) < 2 * body_size b)%nat.
Proof.
  intros Hk Hst Hf Hown Hr. destruct (run_alone_cases kind b p Hst Hf) as [(k & -> & ->)|(v & kb & p' & pushed & -> & -> & H1 & H2 & H3 & H4 & H5 & H6 & H7 & ->)].
  - exists p, (PWaiting k), []. repeat split; [done|by apply minv_waiting|unfold mmeasure; simpl; lia].
  - destruct (pushed_event kind v kb p id svc priority Hk Hown) as (e & He & ->).
    destruct Hown as (<- & <- & <- & Hs). exists p', (suspended_at kb), [e].
    destruct kb as [k|]; cbn [suspended_at is_final] in *; split_and!; try done.
    + apply minv_suspended; try done. repeat split; auto.
    + unfold mmeasure; cbn; lia.
    + apply minv_final; try done. by rewrite H3, <- Hr.
    + unfold mmeasure; cbn; lia.
Qed.

Lemma erase_final p q : p_state p = value_ready_producer_suspended → erase_generator (Some p) q = Done (mkM None PDestroyed false q (p_currentValue p)).
Proof. intros Hst. unfold erase_generator, request_cancellation. rewrite Hst. by decide_states. Qed.

(** What can happen does not terminate the program, keeps the invariant and brings the
    generator closer to its end. *)
Lemma mstep_progress kind id svc priority b0 a σ r : kind ≠ KOther → minv id svc priority b0 σ → mstep kind a σ = Some r →
  ∃ σ', r = Done σ' ∧ minv id svc priority b0 σ' ∧ (mmeasure σ' < mmeasure σ)%nat.
Proof.
  intros Hk H E. destruct H as [p b Hst Hf Hown Hr|p b e Hst Hf Hown Hr He|p e Hst Hf Hv He|q Hq]; destruct a; cbn [mstep m_producer m_promise m_queue m_scoped m_result negb done app] in E.
  - destruct (run_owned kind id svc priority b0 b p Hk Hst Hf Hown Hr) as (p' & s & pushed & Er & _ & Hi & Hm). rewrite Er in E. simplify_eq. eauto.
  - done.
  - done.
  - unfold begin_alone, advance_construct in E. rewrite Hst in E. rewrite bool_decide_eq_true_2 in E by done.
    destruct (run_owned kind id svc priority b0 b (set_state value_not_ready_consumer_active p) Hk eq_refl Hf Hown Hr) as (p' & s & pushed & Er & Hfin & Hi & Hm).
    rewrite Er in E. cbn [get_finished] in E. destruct (p_finished p') eqn:Ep; simplify_eq; [|by eauto].
    destruct s; try done. inversion Hi; subst. rewrite erase_final by done. eexists; split; [done|]. split; [|unfold mmeasure in *; simpl in *; lia].
    match goal with HH : p_currentValue p' = _ |- _ => rewrite HH end. apply minv_gone. simpl. lia.
  - done.
  - simplify_eq. rewrite erase_final by done. eexists; split; [done|]. split; [|unfold mmeasure; simpl; lia]. rewrite Hv. apply minv_gone. simpl. lia.
  - done.
  - destruct q as [|e q]; [done|]. simplify_eq. eexists; split; [done|]. split; [|unfold mmeasure; simpl; lia]. apply minv_gone. simpl in Hq. lia.
Qed.

Lemma m_start_ok kind id svc priority b : ∃ σ0, m_start kind id svc priority b = Done σ0 ∧ minv id svc priority b σ0 ∧ (mmeasure σ0 <= 2 * body_size b)%nat.
Proof.
  set (p := set_priority priority (set_service_id svc (new_promise id))). set (p0 := set_state value_not_ready_consumer_active p).
  unfold m_start. fold p. assert (begin_alone kind (PSuspended b) p = run_alone kind b p0) as -> by done.
  destruct (run_alone_cases kind b p0 eq_refl eq_refl) as [(k & -> & ->)|(v & kb & p' & pushed & -> & -> & H1 & H2 & H3 & H4 & H5 & H6 & H7 & ->)].
  - eexists; split; [done|]. split; [by apply minv_waiting|unfold mmeasure; simpl; lia].
  - cbn [get_finished]. rewrite H2. destruct kb as [k|]; cbn [is_final suspended_at].
    + eexists; split; [done|]. split; [apply minv_suspended; try done|unfold mmeasure; simpl; lia]. by left.
    + rewrite erase_final, H3 by done. eexists; split; [done|]. split; [apply (minv_gone _ _ _ (Ret v)); simpl; lia|unfold mmeasure; simpl; lia].
Qed.

Inductive mruns (kind : value_kind) (σ0 : mconfig) : nat → mconfig → Prop :=
  | mruns_start : mruns kind σ0 0 σ0
  | mruns_step n a σ σ' : mruns kind σ0 n σ → mstep kind a σ = Some (Done σ') → mruns kind σ0 (S n) σ'.
Lemma mruns_inv kind id svc priority b0 σ0 n σ : kind ≠ KOther → minv id svc priority b0 σ0 → mruns kind σ0 n σ →
  minv id svc priority b0 σ ∧ (n + mmeasure σ <= mmeasure σ0)%nat.
Proof.
  intros Hk H0. induction 1 as [|n a σ σ' _ [IH Hm] E]; [split; [done|lia]|].
  destruct (mstep_progress kind id svc priority b0 a σ _ Hk IH E) as (σ1 & E1 & Hi & Hlt). simplify_eq. split; [done|lia].
Qed.

(** ** Properties *)

(** C23: A generator that a coroutine asks for its values.  However the two coroutines
    wait for other things in between and are resumed, and however deep they resume one
    another: no assertion of the promise and of the awaiters fails, no coroutine is
    resumed that is not suspended, the consumer receives the values the producer yields
    and returns, in their order, none lost and none twice; the calls that resume the
    one from the other return after finitely many steps, and then a consumer that is
    blocked waits for a producer that waits for something else, and a generator that is
    left is destroyed, unless its producer waits.  The consumer asks for no value behind
    the last one. *)
Theorem generator_delivers_in_order kind id b c σ :
  polite c → greachable kind (new_config id b c) σ →
  gstep kind σ ≠ Terminated ∧
  (∃ s, g_received σ ++ s = outputs b) ∧
  (∃ n σ', gsteps kind n σ = Done σ' ∧ g_stack σ' = []) ∧
  (g_stack σ = [] →
     (∀ k, g_consumer σ = CSuspended k → ∃ b', g_producer σ = PWaiting b') ∧
     (g_consumer σ = CEnded → g_promise σ = None ∨ ∃ b', g_producer σ = PWaiting b')).
Proof.
  intros Hc Hr. pose proof (greachable_inv kind id b c σ Hc Hr) as Hi. split_and!.
  - destruct (decide (g_stack σ = [])) as [Hs|Hs]; [by rewrite gstep_idle|]. by destruct (gstep_progress kind b σ Hi Hs) as (σ' & -> & _).
  - destruct Hi; cbn [g_received]; try done; eauto. 
  - destruct (gsteps_settle kind b (gmeasure σ) σ Hi) as (σ' & H1 & H2); [lia|eauto].
  - intros Hs. destruct Hi; simpl in *; subst; split; intros; simplify_eq; try naive_solver.
Qed.
(** The state of the promise follows the diagram in Enums.h: whatever the
    consumer and the producer do, from any configuration with one of the five states of
    the diagram, a step changes it along one of the edges of the diagram or leaves it, and the edge is one of the party that
    runs. *)
Theorem generator_follows_diagram kind σ σ' p p' :
  gstep kind σ = Done σ' → g_promise σ = Some p → p_state p ≠ unknown → g_promise σ' = Some p' →
  p_state p' = p_state p ∨ transition (runs_now σ) (p_state p) (p_state p').
Proof. intros E Hp Hu Hp'. pose proof (gstep_follows kind σ) as H. rewrite Hp, E in H. specialize (H Hu). cbn in H. by rewrite Hp' in H. Qed.
Lemma generator_diagram_witness : transition Consumer (p_state (new_promise 1)) value_not_ready_consumer_active.
Proof.
  destruct (generator_follows_diagram KOther (new_config 1 (Ret 7) (CNext (λ _ _, CEnd))) _ (new_promise 1) _ eq_refl eq_refl ltac:(discriminate) eq_refl) as [H|H]; [discriminate H|exact H].
Defined.

(** A consumer that takes two values, and a producer that waits before the second. *)
Definition two_values : consumer := CNext (λ fin _, if fin then CEnd else CWait (CNext (λ _ _, CEnd))).
Lemma two_values_polite : polite two_values.
Proof. intros v. split; [|exact I]. intros w. split; exact I. Qed.
Lemma generator_delivers_witness :
  greachable KOther (new_config 1 (Yield 7 (Wait (Ret 8))) two_values) (new_config 1 (Yield 7 (Wait (Ret 8))) two_values) ∧
  ∃ n σ', gsteps KOther n (new_config 1 (Yield 7 (Wait (Ret 8))) two_values) = Done σ' ∧ g_stack σ' = [].
Proof.
  split; [apply greachable_start|].
  apply (generator_delivers_in_order KOther 1 (Yield 7 (Wait (Ret 8))) two_values _ two_values_polite (greachable_start _ _)).
Defined.
(** The whole run, with both coroutines resumed once. *)
Example two_values_run :
  match gsteps KOther 8 (new_config 1 (Yield 7 (Wait (Ret 8))) two_values) with
  | Done σ1 => match gresume ResumeConsumer σ1 with
      | Some σ2 => match gsteps KOther 8 σ2 with
          | Done σ3 => match gresume ResumeProducer σ3 with
              | Some σ4 => match gsteps KOther 8 σ4 with
                  | Done σ5 => g_received σ3 = [(false, 7)] ∧ g_received σ5 = [(false, 7); (true, 8)] ∧ g_promise σ5 = None
                  | Terminated => False end
              | None => False end
          | Terminated => False end
      | None => False end
  | Terminated => False end.
Proof. by vm_compute. Qed.

(** C24: A generator the manager started for an event, of one of the two types of values
    it knows.  Nothing that can happen terminates the program; as long as the generator
    is in the table of the manager there is something that goes on with it: it waits for
    something else and has no event in the queue, or it is suspended and has exactly one
    event there, with its own id, service and priority; after at most twice as many
    steps as its body has it is out of the table, its frame is destroyed, and the manager
    found the value that the body returns. *)
Theorem generator_leaves_table kind id svc priority b : kind ≠ KOther →
  ∃ σ0, m_start kind id svc priority b = Done σ0 ∧
  ∀ n σ, mruns kind σ0 n σ →
    (n <= 2 * body_size b)%nat ∧
    (∀ a, mstep kind a σ ≠ Some Terminated) ∧
    (if m_scoped σ
     then (∃ a σ', mstep kind a σ = Some (Done σ')) ∧
          match m_producer σ with
          | PWaiting _ => m_queue σ = []
          | _ => ∃ e, m_queue σ = [e] ∧ its_event id svc priority e
          end
     else m_promise σ = None ∧ m_result σ = Some (result_of b)).
Proof.
  intros Hk. destruct (m_start_ok kind id svc priority b) as (σ0 & E0 & H0 & Hm0). exists σ0. split; [done|]. intros n σ Hr.
  destruct (mruns_inv kind id svc priority b σ0 n σ Hk H0 Hr) as [Hi Hm]. split_and!; [lia| |].
  - intros a E. by destruct (mstep_progress kind id svc priority b a σ _ Hk Hi E) as (σ' & ? & _).
  - assert (∀ a r, mstep kind a σ = Some r → ∃ a σ', mstep kind a σ = Some (Done σ')) as Hgo.
    { intros a r E. destruct (mstep_progress kind id svc priority b a σ r Hk Hi E) as (σ' & -> & _). by exists a, σ'. }
    destruct Hi; cbn [m_scoped m_producer m_queue m_promise m_result] in *; [split; [by eapply (Hgo MResume)|done]|split; [by eapply (Hgo MContinue)|eauto]..|done].
Qed.
Lemma generator_leaves_witness :
  ∃ σ0, m_start KIchor 5 2 100 (Wait (Yield 0 (Ret 1))) = Done σ0 ∧ m_queue σ0 = [] ∧ m_scoped σ0 = true ∧ ∀ n σ, mruns KIchor σ0 n σ → (n <= 6)%nat.
Proof.
  destruct (generator_leaves_table KIchor 5 2 100 (Wait (Yield 0 (Ret 1)))) as (σ0 & E & H); [discriminate|].
  exists σ0. split; [exact E|]. vm_compute in E. injection E as <-. split; [reflexivity|]. split; [reflexivity|].
  intros n σ Hr. exact (proj1 (H n σ Hr)).
Defined.

(** [co_await gen.begin()] gives no hint that the generator is finished: the iterator
    it returns then is not [end()].  A consumer that asks once more resumes a coroutine
    at its final suspend point. *)
Example asking_after_the_end :
  gsteps KOther 6 (new_config 1 (Ret 7) (CNext (λ _ _, CNext (λ _ _, CEnd)))) = Terminated.
Proof. reflexivity. Qed.
(** The value of another type that is returned after the generator waited pushes no
    event: a generator of such values stays in the table. *)
Example other_values_stay :
  match m_start KOther 5 2 100 (Wait (Ret 1)) with
  | Done σ0 => match mstep KOther MResume σ0 with
      | Some (Done σ1) => m_scoped σ1 = true ∧ mstep KOther MResume σ1 = None ∧ mstep KOther MContinue σ1 = None
      | _ => False end
  | Terminated => False end.
Proof. by vm_compute. Qed.
