(* ===== verification/TaskFrames.v ===== *)
(** * Tasks

    include/ichor/coroutines/Task.h: coroutines that compute one value and are awaited
    by other coroutines, up to the one at the root, which is a generator.

    The machine has the frames of the tasks, with the promise in each of them, and the
    stack of calls: [resume()] is a call, by the awaiting coroutine when the task is
    started and by the task when it is done.  A task is the operand of a [co_await]: it
    is created there, and its frame is destroyed when the awaiting coroutine has the
    result.  What tasks compute is compared with an evaluation without coroutines. *)

From stdpp Require Import base list option gmap.
From Stdlib Require Import ZArith Lia.
From S2P Require Import Prelude.

Local Open Scope Z_scope.

(** ** Promises and frames *)

Inductive handle : Type := Root | Frame (n : nat).
(** [m_resultType], with the value or the exception of the union. *)
Inductive task_result : Type := RtEmpty | RtValue (v : Z) | RtException (e : Z).
(** What [co_await] gives to the code behind it: a value, or it throws. *)
Inductive awaited : Type := Returned (v : Z) | Thrown (e : Z).

(** The body of a task.  The code behind a [co_await] that throws is its handler; where
    there is none it throws again. *)
Inductive task : Type :=
  | TReturn (v : Z)
  | TThrow (e : Z)
  | TWait (k : task)                          (* co_await of something that is not ready *)
  | TAwait (t : task) (k : awaited → task).   (* co_await t() *)

Inductive frame_status : Type :=
  | FStart (b : task)                            (* suspended at its start *)
  | FActive
  | FAwaiting (child : nat) (k : awaited → task)
  | FWaiting (k : task)
  | FFinal.

(** [TaskPromise] in its frame. *)
Record frame := mkFrame {
  f_status : frame_status;
  m_continuation : option handle;
  f_promise_id : Z;
  m_result : task_result }.

Definition new_frame (b : task) : frame := mkFrame (FStart b) None 0 RtEmpty.
(** [set_continuation]: takes over the id of the awaiting coroutine. *)
Definition set_continuation (awaiting : handle) (id : Z) (f : frame) : frame := mkFrame (f_status f) (Some awaiting) id (m_result f).
Definition set_status (s : frame_status) (f : frame) : frame := mkFrame s (m_continuation f) (f_promise_id f) (m_result f).
(** [return_value] and [unhandled_exception]. *)
Definition return_result (r : awaited) (f : frame) : frame :=
  mkFrame (f_status f) (m_continuation f) (f_promise_id f) (match r with Returned v => RtValue v | Thrown e => RtException e end).
(** [result()]: the assertion fails for a task that has none. *)
Definition result_of (f : frame) : outcome awaited :=
  match m_result f with RtException e => Done (Thrown e) | RtValue v => Done (Returned v) | RtEmpty => Terminated end.

(** ** The machine *)

Inductive call : Type :=
  | Running (n : nat) (b : task)   (* the code of a task *)
  | InAwait                        (* await_suspend of the awaitable, behind resume() *)
  | InFinal.                       (* await_suspend of the final awaitable, behind resume() *)

Record config := mkConfig {
  t_rootId : Z;                    (* the id of the promise of the root *)
  t_frames : gmap nat frame;
  t_next : nat;                    (* names of frames are not reused *)
  t_stack : list call;
  t_root : option awaited }.       (* what the root got *)

(** [~Task()] of the operand and the code behind [await_resume]. *)
Definition await_resume (child : nat) (fs : gmap nat frame) : outcome (awaited * gmap nat frame) :=
  match fs !! child with
  | Some f => match result_of f with Done r => Done (r, delete child fs) | Terminated => Terminated end
  | None => Terminated
  end.
(** [resume()] of a coroutine that awaits a task; the root awaits task 0. *)
Definition resume (h : handle) (below : list call) (σ : config) : outcome config :=
  match h with
  | Root =>
      match await_resume 0 (t_frames σ) with
      | Done (r, fs) => Done (mkConfig (t_rootId σ) fs (t_next σ) below (Some r))
      | Terminated => Terminated
      end
  | Frame n =>
      match t_frames σ !! n with
      | Some f =>
          match f_status f with
          | FAwaiting child k =>
              match await_resume child (t_frames σ) with
              | Done (r, fs) => Done (mkConfig (t_rootId σ) (<[n := set_status FActive f]> fs) (t_next σ) (Running n (k r) :: below) (t_root σ))
              | Terminated => Terminated
              end
          | _ => Terminated
          end
      | None => Terminated
      end
  end.
(** [await_suspend] of [co_await t()] in a coroutine with the handle and the id. *)
Definition start_task (h : handle) (id : Z) (b : task) (below : list call) (σ : config) : config :=
  let f := set_continuation h id (new_frame b) in
  mkConfig (t_rootId σ) (<[t_next σ := set_status FActive f]> (t_frames σ)) (S (t_next σ)) (Running (t_next σ) b :: InAwait :: below) (t_root σ).
(** [final_suspend] with its awaitable. *)
Definition finish_task (n : nat) (r : awaited) (below : list call) (σ : config) : outcome config :=
  match t_frames σ !! n with
  | Some f =>
      let f' := set_status FFinal (return_result r f) in
      match m_continuation f' with
      | Some h => resume h (InFinal :: below) (mkConfig (t_rootId σ) (<[n := f']> (t_frames σ)) (t_next σ) below (t_root σ))
      | None => Terminated
      end
  | None => Terminated
  end.

Definition tstep (σ : config) : outcome config :=
  match t_stack σ with
  | [] => Done σ
  | (InAwait | InFinal) :: below => Done (mkConfig (t_rootId σ) (t_frames σ) (t_next σ) below (t_root σ))
  | Running n (TReturn v) :: below => finish_task n (Returned v) below σ
  | Running n (TThrow e) :: below => finish_task n (Thrown e) below σ
  | Running n (TWait k) :: below =>
      match t_frames σ !! n with
      | Some f => Done (mkConfig (t_rootId σ) (<[n := set_status (FWaiting k) f]> (t_frames σ)) (t_next σ) below (t_root σ))
      | None => Terminated
      end
  | Running n (TAwait t k) :: below =>
      match t_frames σ !! n with
      | Some f =>
          Done (start_task (Frame n) (f_promise_id f) t below
                  (mkConfig (t_rootId σ) (<[n := set_status (FAwaiting (t_next σ) k) f]> (t_frames σ)) (t_next σ) below (t_root σ)))
      | None => Terminated
      end
  end.
(** A task that waits for something else is resumed. *)
Definition twake (n : nat) (σ : config) : option config :=
  match t_frames σ !! n with
  | Some f => match f_status f with
      | FWaiting k => Some (mkConfig (t_rootId σ) (<[n := set_status FActive f]> (t_frames σ)) (t_next σ) (Running n k :: t_stack σ) (t_root σ))
      | _ => None
      end
  | None => None
  end.
(** The root with an id awaits a task. *)
Definition new_config (id : Z) (b : task) : config := start_task Root id b [] (mkConfig id ∅ 0 [] None).

(** Runs, with the number of times that a waiting task was resumed. *)
Inductive truns (σ0 : config) : nat → config → Prop :=
  | truns_start : truns σ0 0 σ0
  | truns_step w σ σ' : truns σ0 w σ → tstep σ = Done σ' → truns σ0 w σ'
  | truns_wake w n σ σ' : truns σ0 w σ → twake n σ = Some σ' → truns σ0 (S w) σ'.

(** The destruction of a frame destroys the task it awaits, which is a temporary of it. *)
Fixpoint destroy (fuel : nat) (n : nat) (fs : gmap nat frame) : gmap nat frame :=
  match fuel, fs !! n with
  | S fuel', Some f =>
      match f_status f with FAwaiting child _ => destroy fuel' child (delete n fs) | _ => delete n fs end
  | _, _ => fs
  end.

(** ** Evaluation without coroutines *)

Fixpoint eval (b : task) : awaited :=
  match b with
  | TReturn v => Returned v
  | TThrow e => Thrown e
  | TWait k => eval k
  | TAwait t k => eval (k (eval t))
  end.
(** How often it waits. *)
Fixpoint waits (b : task) : nat :=
  match b with
  | TReturn _ | TThrow _ => 0
  | TWait k => S (waits k)
  | TAwait t k => waits t + waits (k (eval t))
  end.
(** The steps it takes: the calls it leaves on the stack count as well. *)
Fixpoint work (b : task) : nat :=
  match b with
  | TReturn _ | TThrow _ => 2
  | TWait k => 2 + work k
  | TAwait t k => 2 + work t + work (k (eval t))
  end.

(** ** The invariant *)

(** The tasks that await, the innermost first, each with the code behind its
    [co_await]. *)
Definition chain := list (nat * (awaited → task)).
Definition awaiting_handle (c : chain) : handle := match c with [] => Root | (n, _) :: _ => Frame n end.
Fixpoint chain_frames (id : Z) (inner : nat) (c : chain) : gmap nat frame :=
  match c with
  | [] => ∅
  | (n, k) :: c' => <[n := mkFrame (FAwaiting inner k) (Some (awaiting_handle c')) id RtEmpty]> (chain_frames id n c')
  end.
(** The task the root awaits. *)
Fixpoint outermost (inner : nat) (c : chain) : nat := match c with [] => inner | (n, _) :: c' => outermost n c' end.
(** What comes behind the innermost task. *)
Fixpoint eval_chain (c : chain) (r : awaited) : awaited := match c with [] => r | (_, k) :: c' => eval_chain c' (eval (k r)) end.
Fixpoint chain_waits (c : chain) (r : awaited) : nat := match c with [] => 0 | (_, k) :: c' => waits (k r) + chain_waits c' (eval (k r)) end.
Fixpoint chain_work (c : chain) (r : awaited) : nat := match c with [] => 0 | (_, k) :: c' => work (k r) + chain_work c' (eval (k r)) end.
(** Calls that only return. *)
Definition unwinding (stack : list call) : Prop := Forall (λ f, f = InAwait ∨ f = InFinal) stack.

Record chain_ok (next leaf : nat) (c : chain) : Prop := mkChainOk {
  ok_distinct : NoDup (leaf :: map fst c);
  ok_old : Forall (λ n, n < next)%nat (leaf :: map fst c);
  ok_root : outermost leaf c = 0%nat }.

Definition live (id : Z) (next leaf : nat) (s : frame_status) (c : chain) (stack : list call) : config :=
  mkConfig id (<[leaf := mkFrame s (Some (awaiting_handle c)) id RtEmpty]> (chain_frames id leaf c)) next stack None.
(** With the number of resumptions so far and the steps that are left until the stack
    is empty. *)
Inductive tinv (id : Z) (b0 : task) (w : nat) : nat → config → Prop :=
  | tinv_running next leaf b c stack :
      chain_ok next leaf c → eval_chain c (eval b) = eval b0 → (w + waits b + chain_waits c (eval b) = waits b0)%nat → unwinding stack →
      tinv id b0 w (work b + chain_work c (eval b) + length stack) (live id next leaf FActive c (Running leaf b :: stack))
  | tinv_waiting next leaf b c stack :
      chain_ok next leaf c → eval_chain c (eval b) = eval b0 → (S w + waits b + chain_waits c (eval b) = waits b0)%nat → unwinding stack →
      tinv id b0 w (length stack) (live id next leaf (FWaiting b) c stack)
  | tinv_done next stack : unwinding stack → w = waits b0 →
      tinv id b0 w (length stack) (mkConfig id ∅ next stack (Some (eval b0))).

Lemma chain_frames_fresh id inner c n : n ∉ map fst c → chain_frames id inner c !! n = None.
Proof.
  revert inner. induction c as [|[m k] c IH]; intros inner Hn; [apply lookup_empty|]. cbn in *.
  apply not_elem_of_cons in Hn as [Hne Hn]. by rewrite lookup_insert_ne, IH.
Qed.
Lemma chain_ok_pop next leaf n k c : chain_ok next leaf ((n, k) :: c) → chain_ok next n c.
Proof. intros [H1 H2 H3]. apply NoDup_cons in H1 as [_ H1]. apply Forall_cons in H2 as [_ H2]. by constructor. Qed.
Lemma chain_ok_push next leaf k c : chain_ok next leaf c → chain_ok (S next) next ((leaf, k) :: c).
Proof.
  intros [H1 H2 H3]. constructor; cbn [map fst]; [| |done].
  - apply NoDup_cons. split; [|done]. intros Hin. rewrite Forall_forall in H2. specialize (H2 _ Hin). lia.
  - constructor; [lia|]. eapply Forall_impl; [exact H2|]. cbn. lia.
Qed.
Lemma chain_leaf_fresh id next leaf inner c : chain_ok next leaf c → chain_frames id inner c !! leaf = None.
Proof. intros [H1 _ _]. apply chain_frames_fresh. by apply NoDup_cons in H1 as [? _]. Qed.
Lemma live_lookup id next leaf s c stack : t_frames (live id next leaf s c stack) !! leaf = Some (mkFrame s (Some (awaiting_handle c)) id RtEmpty).
Proof. apply lookup_insert_eq. Qed.

(** A task that is done: its frame is destroyed and the one that awaits it goes on. *)
Lemma finish_live id next leaf c r stack stack' : chain_ok next leaf c →
  finish_task leaf r stack (live id next leaf FActive c stack') =
  Done match c with
       | [] => mkConfig id ∅ next (InFinal :: stack) (Some r)
       | (n, k) :: c' => live id next n FActive c' (Running n (k r) :: InFinal :: stack)
       end.
Proof.
  intros Hok. pose proof (chain_leaf_fresh id next leaf leaf c Hok) as Hfr. unfold finish_task. rewrite live_lookup. unfold live.
  cbn [set_status return_result m_continuation t_frames t_rootId t_next t_root]. rewrite insert_insert_eq.
  destruct c as [|[n k] c]; cbn [awaiting_handle resume t_frames t_rootId t_next t_root].
  - destruct Hok as [_ _ H3]. cbn in H3. subst leaf. unfold await_resume. rewrite lookup_insert_eq. cbn [chain_frames].
    destruct r; cbn; by rewrite delete_insert_id.
  - assert (leaf ≠ n) as Hne by (destruct Hok as [H1 _ _]; cbn in H1; apply NoDup_cons in H1 as [H1 _]; set_solver).
    rewrite lookup_insert_ne by done. cbn [chain_frames] in *. rewrite lookup_insert_eq. cbn [f_status]. unfold await_resume. rewrite lookup_insert_eq.
    assert (result_of (mkFrame FFinal (Some (Frame n)) id match r with Returned v => RtValue v | Thrown e => RtException e end) = Done r) as Hr by (by destruct r).
    unfold set_status, return_result. cbn [m_continuation f_promise_id m_result f_status]. rewrite Hr.
    rewrite delete_insert_id by done. by rewrite insert_insert_eq.
Qed.

(** A task that finishes, in both ways. *)
Lemma finish_progress id b0 w next leaf b r c stack : eval b = r → (work b = 2 ∧ waits b = 0)%nat →
  chain_ok next leaf c → eval_chain c r = eval b0 → (w + chain_waits c r = waits b0)%nat → unwinding stack →
  ∃ σ' m', finish_task leaf r stack (live id next leaf FActive c (Running leaf b :: stack)) = Done σ' ∧ tinv id b0 w m' σ' ∧
    (m' < work b + chain_work c r + length stack)%nat.
Proof.
  intros Hr [Hw Hq] Hok He Hn Hs. rewrite finish_live by done. assert (unwinding (InFinal :: stack)) as Hs' by (constructor; auto).
  destruct c as [|[n k] c]; cbn in He, Hn.
  - rewrite He. eexists _, _. split; [done|]. split; [apply tinv_done; [done|lia]|cbn; lia].
  - eexists _, _. split; [done|]. split; [apply tinv_running; [by eapply chain_ok_pop|done|lia|done]|cbn; lia].
Qed.
Lemma unwinding_step σ f stack : t_stack σ = f :: stack → f = InAwait ∨ f = InFinal →
  tstep σ = Done (mkConfig (t_rootId σ) (t_frames σ) (t_next σ) stack (t_root σ)).
Proof. intros E H. unfold tstep. rewrite E. by destruct H; subst. Qed.

Lemma tstep_progress id b0 w m σ : tinv id b0 w m σ → t_stack σ ≠ [] →
  ∃ σ' m', tstep σ = Done σ' ∧ tinv id b0 w m' σ' ∧ (m' < m)%nat.
Proof.
  intros H Hne. destruct H as [next leaf b c stack Hok He Hn Hs|next leaf b c stack Hok He Hn Hs|next stack Hs Hw].
  - unfold tstep. cbn [live t_stack]. destruct b as [v|e|k|t k].
    + apply (finish_progress id b0 w next leaf (TReturn v) (Returned v)); try done. cbn in Hn. lia.
    + apply (finish_progress id b0 w next leaf (TThrow e) (Thrown e)); try done. cbn in Hn. lia.
    + fold (live id next leaf FActive c (Running leaf (TWait k) :: stack)). rewrite live_lookup. eexists _, _. split; [done|].
      cbn [live t_frames t_rootId t_next t_root]. rewrite insert_insert_eq. split; [by apply (tinv_waiting _ _ _ next leaf k); [..|cbn in Hn; lia|]|cbn; lia].
    + fold (live id next leaf FActive c (Running leaf (TAwait t k) :: stack)). rewrite live_lookup. eexists _, _. split; [done|].
      unfold start_task. cbn [live t_frames t_rootId t_next t_root set_status set_continuation new_frame f_status m_continuation f_promise_id m_result].
      rewrite insert_insert_eq. split; [|].
      * apply (tinv_running _ _ _ (S next) next t ((leaf, k) :: c)); [by apply chain_ok_push|done|cbn in Hn |- *; lia|constructor; auto].
      * cbn. lia.
  - destruct stack as [|f stack]; [done|]. apply Forall_cons in Hs as [Hf Hs].
    rewrite (unwinding_step _ f stack) by done. eexists _, _. split; [done|]. split; [by apply (tinv_waiting _ _ _ next leaf b)|cbn; lia].
  - destruct stack as [|f stack]; [done|]. apply Forall_cons in Hs as [Hf Hs].
    rewrite (unwinding_step _ f stack) by done. eexists _, _. split; [done|]. split; [by apply tinv_done|cbn; lia].
Qed.

Lemma chain_active id inner c n f : chain_frames id inner c !! n = Some f → ∃ child k, f_status f = FAwaiting child k ∧ f_promise_id f = id.
Proof.
  revert inner. induction c as [|[m k] c IH]; intros inner E; cbn in E; [by rewrite lookup_empty in E|].
  apply lookup_insert_Some in E as [[<- <-]|[_ E]]; [by exists inner, k|by eapply IH].
Qed.
Lemma twake_inv id b0 w m σ n σ' : tinv id b0 w m σ → twake n σ = Some σ' → ∃ m', tinv id b0 (S w) m' σ'.
Proof.
  intros H E. unfold twake in E. destruct H as [next leaf b c stack Hok He Hn Hs|next leaf b c stack Hok He Hn Hs|next stack Hs Hw];
    cbn [live t_frames t_rootId t_next t_root t_stack] in E; [| |by rewrite lookup_empty in E];
    (destruct (_ !! n) as [f|] eqn:Ef; [|done]; apply lookup_insert_Some in Ef as [[<- <-]|[_ Ef]];
     [|apply chain_active in Ef as (child & k & Hf & _); by rewrite Hf in E]); cbn in E; [done|].
  simplify_eq. rewrite insert_insert_eq. eexists. by apply (tinv_running _ _ _ next leaf b).
Qed.
Lemma new_config_inv id b : tinv id b 0 (work b + 0 + 1) (new_config id b).
Proof.
  apply (tinv_running id b 0 1 0 b [] [InAwait]); [|done|cbn; lia|by constructor; auto].
  constructor; cbn; [by apply NoDup_singleton|by constructor; auto|done].
Qed.
Lemma truns_inv id b w σ : truns (new_config id b) w σ → ∃ m, tinv id b w m σ.
Proof.
  induction 1 as [|w σ σ' _ [m IH] E|w n σ σ' _ [m IH] E]; [eexists; apply new_config_inv| |by eapply twake_inv].
  destruct (decide (t_stack σ = [])) as [Hs|Hs].
  - unfold tstep in E. rewrite Hs in E. simplify_eq. eauto.
  - destruct (tstep_progress id b w m σ IH Hs) as (σ1 & m' & E1 & Hi & _). rewrite E in E1. simplify_eq. eauto.
Qed.
Fixpoint tsteps (n : nat) (σ : config) : outcome config :=
  match n with O => Done σ | S n' => match tstep σ with Done σ' => tsteps n' σ' | Terminated => Terminated end end.
Lemma tsteps_settle id b w n : ∀ m σ, tinv id b w m σ → (m <= n)%nat → ∃ σ', tsteps n σ = Done σ' ∧ t_stack σ' = [].
Proof.
  induction n as [|n IH]; intros m σ H Hm; cbn [tsteps]; (destruct (decide (t_stack σ = [])) as [Hs|Hs]).
  - by exists σ.
  - destruct (tstep_progress id b w m σ H Hs) as (σ1 & m' & _ & _ & Hlt). lia.
  - assert (tstep σ = Done σ) as -> by (unfold tstep; by rewrite Hs). destruct H; cbn in Hs; subst; simplify_eq; (eapply IH; [|apply Nat.le_0_l]).
    + by apply (tinv_waiting _ _ _ next leaf b0 c []).
    + by apply (tinv_done _ _ _ next []).
  - destruct (tstep_progress id b w m σ H Hs) as (σ1 & m' & -> & H1 & Hlt). eapply IH; [done|lia].
Qed.
Lemma truns_steps n : ∀ σ0 w σ σ', truns σ0 w σ → tsteps n σ = Done σ' → truns σ0 w σ'.
Proof.
  induction n as [|n IH]; intros σ0 w σ σ' Hr E; cbn in E; [by simplify_eq|]. destruct (tstep σ) as [σ1|] eqn:E1; [|done].
  eapply IH; [|exact E]. by eapply truns_step.
Qed.
(** A chain is destroyed from its outermost task: the tasks inside of it, in order. *)
Fixpoint inside (inner : nat) (c : chain) (acc : list nat) : list nat :=
  match c with [] => acc | (n, _) :: c' => inside n c' (inner :: acc) end.
Fixpoint links (fs : gmap nat frame) (n : nat) (p : list nat) : Prop :=
  ∃ f, fs !! n = Some f ∧
    match p with
    | [] => ∀ child k, f_status f ≠ FAwaiting child k
    | m :: p' => (∃ k, f_status f = FAwaiting m k) ∧ links fs m p'
    end.
Lemma inside_perm c : ∀ inner acc, outermost inner c :: inside inner c acc ≡ₚ inner :: map fst c ++ acc.
Proof.
  induction c as [|[n k] c IH]; intros inner acc; cbn [outermost inside map fst app]; [done|].
  rewrite IH. change ((n :: map fst c) ++ acc) with (n :: (map fst c ++ acc)). rewrite <- Permutation_middle. apply perm_swap.
Qed.
Lemma links_delete fs n p d : d ∉ n :: p → links fs n p → links (delete d fs) n p.
Proof.
  revert n. induction p as [|m p IH]; intros n Hd (f & E & H); exists f; (split; [rewrite lookup_delete_ne; [done|set_solver]|]); [done|].
  destruct H as [Hk H]. split; [done|]. apply IH; [set_solver|done].
Qed.
Lemma destroy_links p : ∀ n fs fuel, links fs n p → NoDup (n :: p) → (∀ m, m ∉ n :: p → fs !! m = None) → (length p < fuel)%nat →
  destroy fuel n fs = ∅.
Proof.
  induction p as [|m p IH]; intros n fs [|fuel] (f & E & H) Hnd Hdom Hfuel; cbn in Hfuel; try lia; cbn [destroy]; rewrite E.
  - assert (delete n fs = ∅) as Hd.
    { apply map_eq. intros j. rewrite lookup_empty. destruct (decide (j = n)) as [->|Hj]; [by rewrite lookup_delete_eq|].
      rewrite lookup_delete_ne by done. apply Hdom. set_solver. }
    destruct (f_status f); try done. by destruct (H child k).
  - destruct H as [[k ->] H]. apply NoDup_cons in Hnd as [Hn Hnd]. apply IH; [by apply links_delete|done| |lia].
    intros j Hj. destruct (decide (j = n)) as [->|Hne]; [by rewrite lookup_delete_eq|]. rewrite lookup_delete_ne by done. apply Hdom. set_solver.
Qed.
Lemma chain_links id c : ∀ inner acc fs, chain_frames id inner c ⊆ fs → NoDup (map fst c) → links fs inner acc →
  links fs (outermost inner c) (inside inner c acc).
Proof.
  induction c as [|[n k] c IH]; intros inner acc fs Hsub Hnd Hl; [done|]. cbn [outermost inside chain_frames] in *. apply NoDup_cons in Hnd as [Hn Hnd].
  apply IH; [|done|].
  - etrans; [|exact Hsub]. apply insert_subseteq. by apply chain_frames_fresh.
  - exists (mkFrame (FAwaiting inner k) (Some (awaiting_handle c)) id RtEmpty). split; [|split; [by exists k|done]].
    eapply lookup_weaken; [apply lookup_insert_eq|exact Hsub].
Qed.
Lemma destroy_live id next leaf s c stack : chain_ok next leaf c → (∀ child k, s ≠ FAwaiting child k) →
  destroy (size (t_frames (live id next leaf s c stack))) 0 (t_frames (live id next leaf s c stack)) = ∅.
Proof.
  intros Hok Hs. pose proof (chain_leaf_fresh id next leaf leaf c Hok) as Hfr. destruct Hok as [Hnd _ Hroot].
  cbn [live t_frames]. set (f := mkFrame s _ _ _). set (fs := <[leaf := f]> _).
  pose proof (inside_perm c leaf []) as Hp. rewrite app_nil_r in Hp. rewrite Hroot in Hp.
  apply (destroy_links (inside leaf c [])).
  - rewrite <- Hroot at 1. apply (chain_links id); [by apply insert_subseteq|by apply NoDup_cons in Hnd as [_ ?]|]. exists f. split; [apply lookup_insert_eq|done].
  - by rewrite Hp.
  - intros m Hm. rewrite Hp in Hm. apply not_elem_of_cons in Hm as [Hm1 Hm2]. unfold fs. rewrite lookup_insert_ne by done. by apply chain_frames_fresh.
  - assert (length (0%nat :: inside leaf c []) = length (leaf :: map fst c)) as Hlen by (by rewrite Hp). cbn in Hlen. rewrite length_map in Hlen.
    assert (size fs = S (length c)) as ->; [|lia]. unfold fs. rewrite map_size_insert_None by done. f_equal.
    clear -Hnd. apply NoDup_cons in Hnd as [_ Hnd]. revert leaf. induction c as [|[n k] c IH]; intros leaf; [apply map_size_empty|].
    cbn in *. apply NoDup_cons in Hnd as [Hn Hnd]. rewrite map_size_insert_None by (by apply chain_frames_fresh). by rewrite IH.
Qed.

(** ** Properties *)

(** C25: A coroutine that awaits a task gets what the task computes when it is evaluated
    like a function: the tasks it awaits in turn, the exceptions they throw and the
    handlers included, wherever tasks wait for something else in between.  No coroutine
    is resumed that is not suspended and no result is read that is not there; the calls
    return after finitely many steps; while the result is not there and nothing runs,
    exactly one task waits for something else; there are no more resumptions than the
    waits of the evaluation, and when all have come the result is there and no frame is
    left.  Every task has the id of the promise at the root, and when the root is
    destroyed before, the frames of all tasks are. *)
Theorem tasks_compute_like_functions id b w σ : truns (new_config id b) w σ →
  tstep σ ≠ Terminated ∧
  (∃ n σ', tsteps n σ = Done σ' ∧ t_stack σ' = []) ∧
  (∀ r, t_root σ = Some r → r = eval b ∧ w = waits b ∧ t_frames σ = ∅) ∧
  (t_stack σ = [] → t_root σ = None →
     (w < waits b)%nat ∧ ∃ n f k, t_frames σ !! n = Some f ∧ f_status f = FWaiting k ∧
       ∀ n' f', t_frames σ !! n' = Some f' → n' ≠ n → ∃ child k', f_status f' = FAwaiting child k') ∧
  (∀ n f, t_frames σ !! n = Some f → f_promise_id f = id) ∧
  (t_root σ = None → destroy (size (t_frames σ)) 0 (t_frames σ) = ∅).
Proof.
  intros Hr. destruct (truns_inv id b w σ Hr) as [m Hi]. split_and!.
  - destruct (decide (t_stack σ = [])) as [Hs|Hs]; [unfold tstep; by rewrite Hs|]. by destruct (tstep_progress id b w m σ Hi Hs) as (σ' & m' & -> & _).
  - destruct (tsteps_settle id b w m m σ Hi) as (σ' & H1 & H2); [lia|eauto].
  - intros r E. by destruct Hi; cbn in E; simplify_eq.
  - intros Hs E. destruct Hi as [| next leaf b' c stack Hok He Hn Hst|]; cbn in Hs, E; simplify_eq. split; [lia|].
    exists leaf, (mkFrame (FWaiting b') (Some (awaiting_handle c)) id RtEmpty), b'. split; [apply live_lookup|]. split; [done|].
    intros n' f' Ef Hne. cbn in Ef. rewrite lookup_insert_ne in Ef by done. apply chain_active in Ef as (child & k & ? & _). eauto.
  - intros n f Ef. destruct Hi; cbn in Ef; [| |by rewrite lookup_empty in Ef];
      (apply lookup_insert_Some in Ef as [[<- <-]|[_ Ef]]; [done|by apply chain_active in Ef as (? & ? & _ & ?)]).
  - intros E. destruct Hi; cbn in E; [| |done]; by apply destroy_live.
Qed.

(** Two tasks inside of a third one; the second one throws, the third one catches. *)
Definition nested : task :=
  TAwait (TWait (TReturn 20)) (λ a, match a with
    | Returned x => TAwait (TThrow 1) (λ r, match r with Returned y => TReturn (x + y) | Thrown e => TReturn (x + 2 * e) end)
    | Thrown e => TThrow e end).
Lemma tasks_compute_witness :
  ∃ σ, truns (new_config 9 nested) 0 σ ∧ t_stack σ = [] ∧ t_root σ = None ∧ (0 < waits nested)%nat ∧ size (t_frames σ) = 2%nat.
Proof.
  assert (∃ σ, truns (new_config 9 nested) 0 σ ∧ t_stack σ = [] ∧ t_root σ = None ∧ size (t_frames σ) = 2%nat) as (σ & Hr & Hs & Hn & Hz).
  { eexists. split; [eapply (truns_steps 4); [apply truns_start|vm_compute; reflexivity]|]. vm_compute. auto. }
  exists σ. split; [exact Hr|]. split; [exact Hs|]. split; [exact Hn|]. split; [|exact Hz].
  exact (proj1 (proj1 (proj2 (proj2 (proj2 (tasks_compute_like_functions 9 nested 0 σ Hr)))) Hs Hn)).
Defined.
Example nested_run :
  eval nested = Returned 22 ∧
  match tsteps 4 (new_config 9 nested) with
  | Done σ1 => match twake 1 σ1 with
      | Some σ2 => match tsteps 20 σ2 with
          | Done σ3 => t_root σ3 = Some (Returned 22) ∧ t_frames σ3 = ∅ ∧ t_stack σ3 = []
          | Terminated => False end
      | None => False end
  | Terminated => False end.
Proof. by vm_compute. Qed.

(** *** The stack *)

(** A task that awaits [n] tasks, one behind the other, which do not wait. *)
Fixpoint await_ready_tasks (n : nat) : task :=
  match n with O => TReturn 0 | S n' => TAwait (TReturn 0) (λ _, await_ready_tasks n') end.
Fixpoint pending (n : nat) (stack : list call) : list call :=
  match n with O => stack | S n' => pending n' (InFinal :: InAwait :: stack) end.
Lemma tsteps_add i j σ σ' : tsteps i σ = Done σ' → tsteps (i + j) σ = tsteps j σ'.
Proof.
  revert σ. induction i as [|i IH]; intros σ E; cbn in *; [by simplify_eq|]. destruct (tstep σ); [by apply IH|done].
Qed.
Lemma ready_tasks_stack id n : ∀ next stack, (0 < next)%nat →
  ∃ next', tsteps (2 * n) (live id next 0 FActive [] (Running 0 (await_ready_tasks n) :: stack)) =
    Done (live id next' 0 FActive [] (Running 0 (TReturn 0) :: pending n stack)).
Proof.
  induction n as [|n IH]; intros next stack Hn; [by exists next|].
  destruct (IH (S next) (InFinal :: InAwait :: stack)) as [next' E]; [lia|]. exists next'. replace (2 * S n)%nat with (2 + 2 * n)%nat by lia.
  rewrite (tsteps_add 2 (2 * n) _ (live id (S next) 0 FActive [] (Running 0 (await_ready_tasks n) :: InFinal :: InAwait :: stack))); [done|].
  assert (tstep (live id next 0 FActive [] (Running 0 (await_ready_tasks (S n)) :: stack)) =
    Done (live id (S next) next FActive [(0%nat, λ _, await_ready_tasks n)] (Running next (TReturn 0) :: InAwait :: stack))) as E1.
  { unfold tstep. cbn [live t_stack await_ready_tasks]. fold (live id next 0 FActive [] (Running 0 (await_ready_tasks (S n)) :: stack)).
    rewrite live_lookup. unfold start_task. cbn [live t_frames t_rootId t_next t_root]. rewrite insert_insert_eq. done. }
  cbn [tsteps]. rewrite E1. unfold tstep at 1. cbn [live t_stack]. fold (live id (S next) next FActive [(0%nat, λ _, await_ready_tasks n)] (Running next (TReturn 0) :: InAwait :: stack)).
  rewrite finish_live; [done|]. constructor; cbn; [|by repeat constructor; lia|done].
  apply NoDup_cons. split; [|by apply NoDup_singleton]. intros Hin. apply list_elem_of_singleton in Hin. lia.
Qed.
(** The calls of [resume()] of a task that does not wait do not return before the one
    that awaits it goes on: each such [co_await] leaves two calls on the stack, which
    grows with the number of them. *)
Lemma ready_tasks_fill_stack id n : ∃ σ, tsteps (2 * n) (new_config id (await_ready_tasks n)) = Done σ ∧ length (t_stack σ) = (2 * n + 2)%nat.
Proof.
  destruct (ready_tasks_stack id n 1 [InAwait]) as [next' E]; [lia|]. eexists. split; [exact E|]. cbn.
  assert (∀ k s, length (pending k s) = 2 * k + length s)%nat as Hp; [|rewrite Hp; cbn; lia].
  intros k. induction k as [|k IH]; intros s; cbn [pending]; [done|]. rewrite IH. cbn. lia.
Qed.
