(* ===== verification/Channel.v ===== *)
(** * The communication channel between managers

    include/ichor/CommunicationChannel.h: a table of managers, each with its own thread,
    and events that a thread pushes into the queues of the managers of other threads.

    The table is the vector of entries of an [unordered_map].  A readers-writer lock is
    held: exclusively while the table changes, shared while a thread walks over it; the
    walk is one step per entry, so that broadcasts of several threads interleave.
    [pushEvent] of a queue is atomic.  All pushes, of all threads, are kept in the order
    in which they happened; the queue of a manager got the ones that are for it. *)

From stdpp Require Import base list option gmap.
From Stdlib Require Import ZArith Lia.
From S2P Require Import Prelude.
From S2P Require Import DenseMap.

Local Open Scope Z_scope.

Section channel.
Context {V : Type}.
(** What an object is after something was constructed from it as an rvalue. *)
Variable moved_from : V → V.

(** An argument of [broadcastEvent] or [sendEventTo], as [Args&&] refers to it. *)
Inductive arg : Type := Lvalue (v : V) | Rvalue (v : V).
Definition arg_value (a : arg) : V := match a with Lvalue v | Rvalue v => v end.
(** The argument after [std::forward] of it was used. *)
Definition forwarded (a : arg) : arg := match a with Lvalue v => Lvalue v | Rvalue v => Rvalue (moved_from v) end.

(** What a thread does: [broadcastEvent] at an entry of the table. *)
Inductive thread : Type :=
  | Idle
  | Broadcasting (b : nat) (originatingManager : Z) (i : nat) (args : list arg).
Record push := mkPush { u_broadcast : option nat; u_manager : Z; u_args : list V }.
Record channel := mkChannel {
  c_managers : list (Z * Z);                  (* _managers: id to manager, which is known by its id *)
  c_linked : gset Z;                          (* the managers whose channel is set *)
  c_threads : list thread;
  c_pushed : list push;
  c_begun : list (Z * list arg * list (Z * Z)) }.  (* the broadcasts so far: from where, with what, and the table *)

Definition new_channel (threads : nat) : channel := mkChannel [] ∅ (replicate threads Idle) [] [].
Definition shared_lock_held (c : channel) : bool := existsb (λ t, match t with Idle => false | Broadcasting _ _ _ _ => true end) (c_threads c).

Definition addManager (id : Z) (c : channel) : channel :=
  mkChannel (demplace id id (c_managers c)) ({[id]} ∪ c_linked c) (c_threads c) (c_pushed c) (c_begun c).
Definition removeManager (id : Z) (c : channel) : channel :=
  mkChannel (derase id (c_managers c)) (c_linked c ∖ {[id]}) (c_threads c) (c_pushed c) (c_begun c).
Definition pushEvent (b : option nat) (manager : Z) (args : list arg) (c : channel) : channel :=
  mkChannel (c_managers c) (c_linked c) (c_threads c) (c_pushed c ++ [mkPush b manager (map arg_value args)]) (c_begun c).
(** [sendEventTo]; [None]: it throws. *)
Definition sendEventTo (id : Z) (args : list arg) (c : channel) : option channel :=
  match dfind id (c_managers c) with Some manager => Some (pushEvent None manager args c) | None => None end.
Definition set_thread (t : nat) (s : thread) (c : channel) : channel :=
  mkChannel (c_managers c) (c_linked c) (<[t := s]> (c_threads c)) (c_pushed c) (c_begun c).
Definition broadcast_begin (t : nat) (originatingManager : Z) (args : list arg) (c : channel) : channel :=
  mkChannel (c_managers c) (c_linked c) (<[t := Broadcasting (length (c_begun c)) originatingManager 0 args]> (c_threads c)) (c_pushed c)
    (c_begun c ++ [(originatingManager, args, c_managers c)]).
(** An entry of the loop of [broadcastEvent], or its end. *)
Definition broadcast_next (t b : nat) (originatingManager : Z) (i : nat) (args : list arg) (c : channel) : channel :=
  match c_managers c !! i with
  | None => set_thread t Idle c
  | Some (_, manager) =>
      if bool_decide (manager = originatingManager) then set_thread t (Broadcasting b originatingManager (S i) args) c
      else set_thread t (Broadcasting b originatingManager (S i) (map forwarded args)) (pushEvent (Some b) manager args c)
  end.

Inductive action : Type :=
  | AddManager (id : Z)
  | RemoveManager (id : Z)
  | SendEventTo (id : Z) (args : list arg)
  | BroadcastBegin (t : nat) (originatingManager : Z) (args : list arg)
  | BroadcastNext (t : nat).
(** [None]: the thread waits for the lock, or does something else. *)
Definition cstep (a : action) (c : channel) : option channel :=
  match a with
  | AddManager id => if shared_lock_held c then None else Some (addManager id c)
  | RemoveManager id => if shared_lock_held c then None else Some (removeManager id c)
  | SendEventTo id args => Some (match sendEventTo id args c with Some c' => c' | None => c end)
  | BroadcastBegin t originatingManager args =>
      match c_threads c !! t with Some Idle => Some (broadcast_begin t originatingManager args c) | _ => None end
  | BroadcastNext t =>
      match c_threads c !! t with Some (Broadcasting b orig i args) => Some (broadcast_next t b orig i args c) | _ => None end
  end.
Inductive creachable (threads : nat) : channel → Prop :=
  | creachable_start : creachable threads (new_channel threads)
  | creachable_step a c c' : creachable threads c → cstep a c = Some c' → creachable threads c'.
Fixpoint crun (actions : list action) (c : channel) : option channel :=
  match actions with [] => Some c | a :: l => match cstep a c with Some c' => crun l c' | None => None end end.
Lemma crun_reachable n l : ∀ c c', creachable n c → crun l c = Some c' → creachable n c'.
Proof.
  induction l as [|a l IH]; intros c c' Hr E; cbn in E; [by simplify_eq|].
  destruct (cstep a c) as [c1|] eqn:E1; [|done]. eapply IH; [|exact E]. by eapply creachable_step.
Qed.

(** ** What a broadcast has to do *)

Fixpoint deliveries (originatingManager : Z) (managers : list (Z * Z)) (args : list arg) : list (Z * list V) :=
  match managers with
  | [] => []
  | (_, manager) :: ms =>
      if bool_decide (manager = originatingManager) then deliveries originatingManager ms args
      else (manager, map arg_value args) :: deliveries originatingManager ms (map forwarded args)
  end.
(** The pushes of a broadcast. *)
Definition pushes_of (b : nat) (l : list push) : list (Z * list V) :=
  map (λ u, (u_manager u, u_args u)) (filter (λ u, u_broadcast u = Some b) l).

#[local] Arguments pushes_of : simpl never.

(** ** The invariant *)

Definition running (b : nat) (s : thread) : Prop := match s with Idle => False | Broadcasting b' _ _ _ => b' = b end.
Definition thread_ok (c : channel) (s : thread) : Prop :=
  match s with
  | Idle => True
  | Broadcasting b orig i args =>
      ∃ args0, c_begun c !! b = Some (orig, args0, c_managers c) ∧
        pushes_of b (c_pushed c) ++ deliveries orig (drop i (c_managers c)) args = deliveries orig (c_managers c) args0
  end.
Definition finished_ok (c : channel) (b : nat) (e : Z * list arg * list (Z * Z)) : Prop :=
  (∀ t s, c_threads c !! t = Some s → ¬ running b s) → let '(orig, args, ms) := e in pushes_of b (c_pushed c) = deliveries orig ms args.
Definition table_ok (ms : list (Z * Z)) : Prop := dwf ms ∧ ∀ id m, (id, m) ∈ ms → m = id.
Record cinv (c : channel) : Prop := mkCinv {
  ci_table : table_ok (c_managers c);
  ci_begun : ∀ b orig args ms, c_begun c !! b = Some (orig, args, ms) → table_ok ms;
  ci_linked : ∀ id, id ∈ c_linked c ↔ id ∈ dkeys (c_managers c);
  ci_known : ∀ u b, u ∈ c_pushed c → u_broadcast u = Some b → (b < length (c_begun c))%nat;
  ci_threads : ∀ t s, c_threads c !! t = Some s → thread_ok c s;
  ci_alone : ∀ t t' s s' b, c_threads c !! t = Some s → c_threads c !! t' = Some s' → running b s → running b s' → t = t';
  ci_finished : ∀ b e, c_begun c !! b = Some e → finished_ok c b e }.

Lemma lock_free c t s : shared_lock_held c = false → c_threads c !! t = Some s → s = Idle.
Proof.
  unfold shared_lock_held. intros H E. destruct s as [|b o i a]; [done|]. apply list_elem_of_lookup_2, list_elem_of_In in E.
  assert (existsb (λ t, match t with Idle => false | Broadcasting _ _ _ _ => true end) (c_threads c) = true) as H' by (apply existsb_exists; by exists (Broadcasting b o i a)).
  by rewrite H in H'.
Qed.
Lemma pushes_of_snoc b l u :
  pushes_of b (l ++ [u]) = pushes_of b l ++ (if bool_decide (u_broadcast u = Some b) then [(u_manager u, u_args u)] else []).
Proof.
  unfold pushes_of. rewrite filter_app, map_app. f_equal. rewrite filter_cons, filter_nil. case_bool_decide; by case_decide.
Qed.
Lemma pushes_of_other b l u : u_broadcast u ≠ Some b → pushes_of b (l ++ [u]) = pushes_of b l.
Proof. intros H. by rewrite pushes_of_snoc, bool_decide_eq_false_2, app_nil_r. Qed.
Lemma pushes_of_new b l : (∀ u, u ∈ l → u_broadcast u ≠ Some b) → pushes_of b l = [].
Proof.
  intros H. induction l as [|u l IH] using rev_ind; [done|]. rewrite pushes_of_other by (apply H; set_solver). apply IH. set_solver.
Qed.
Lemma new_channel_inv n : cinv (new_channel n).
Proof.
  assert (∀ t s, c_threads (new_channel n) !! t = Some s → s = Idle) as Hi by (intros t s E; by apply lookup_replicate in E as [-> _]).
  constructor; cbn; [split; [apply NoDup_nil_2|set_solver]|done|set_solver|set_solver| | |done].
  - intros t s E. by rewrite (Hi t s E).
  - intros t t' s s' b E _ Hr. rewrite (Hi t s E) in Hr. done.
Qed.

(** Only the table changes, and nobody walks over it. *)
Lemma table_inv c ms linked : cinv c → shared_lock_held c = false → table_ok ms →
  (∀ id, id ∈ linked ↔ id ∈ dkeys ms) → cinv (mkChannel ms linked (c_threads c) (c_pushed c) (c_begun c)).
Proof.
  intros [H1 H2 H3 H4 H5 H6 H7] Hl Hwf Hlinked. constructor; cbn; try done.
  intros t s E. by rewrite (lock_free c t s Hl E).
Qed.
Lemma addManager_inv id c : cinv c → shared_lock_held c = false → cinv (addManager id c).
Proof.
  intros Hi Hl. pose proof Hi as [[H1 H2] _ H3 _ _ _ _]. apply table_inv; [done|done|split; [by apply dwf_demplace|]|].
  - intros k m. unfold demplace. destruct (dfind id (c_managers c)); [apply H2|]. intros [Hin|Hin]%elem_of_app; [by apply H2|]. set_solver.
  - intros k. rewrite elem_of_union, elem_of_singleton, H3. unfold demplace. destruct (dfind id (c_managers c)) eqn:E.
    + assert (id ∈ dkeys (c_managers c)) by (apply dfind_is_Some; by eexists). naive_solver.
    + unfold dkeys. rewrite fmap_app, elem_of_app. cbn. rewrite list_elem_of_singleton. naive_solver.
Qed.
Lemma removeManager_inv id c : cinv c → shared_lock_held c = false → cinv (removeManager id c).
Proof.
  intros Hi Hl. pose proof Hi as [[H1 H2] _ H3 _ _ _ _]. apply table_inv; [done|done|split; [by apply dwf_derase|]|].
  - intros k m Hin. rewrite derase_perm in Hin by done. apply list_elem_of_filter in Hin as [_ Hin]. by apply H2.
  - intros k. rewrite elem_of_difference, elem_of_singleton, H3, elem_of_dkeys_derase by done. naive_solver.
Qed.

Lemma sendEventTo_inv id args c c' : cinv c → sendEventTo id args c = Some c' → cinv c'.
Proof.
  unfold sendEventTo. intros [H1 H2 H3 H4 H5 H6 H7] E. destruct (dfind id (c_managers c)) as [m|]; simplify_eq.
  constructor; cbn; try done.
  - intros u b [Hu|Hu]%elem_of_app; [by apply H4|]. apply list_elem_of_singleton in Hu as ->. done.
  - intros t [|b orig i a] E; [done|]. destruct (H5 t _ E) as (a0 & Ha & Hp). exists a0. cbn. by rewrite pushes_of_other.
  - intros b e E Hr. specialize (H7 b e E Hr). destruct e as [[orig a] ms]. cbn in *. by rewrite pushes_of_other.
Qed.
Lemma broadcast_begin_inv t orig args c : cinv c → c_threads c !! t = Some Idle → cinv (broadcast_begin t orig args c).
Proof.
  intros [H1 H2 H3 H4 H5 H6 H7] Et. assert (t < length (c_threads c))%nat as Hlt by (by eapply lookup_lt_Some).
  assert (∀ t' s, c_threads c !! t' = Some s → ¬ running (length (c_begun c)) s) as Hnew.
  { intros t' [|b o i a] E Hr; [done|]. cbn in Hr. subst b. destruct (H5 t' _ E) as (a0 & Ha & _). apply lookup_lt_Some in Ha. lia. }
  constructor; cbn; try done.
  - intros b o a ms E. apply lookup_app_Some in E as [E|[_ E]]; [by eapply H2|]. apply list_lookup_singleton_Some in E as [_ E]. by simplify_eq.
  - intros u b Hu Hb. specialize (H4 u b Hu Hb). rewrite length_app. cbn. lia.
  - intros t' s E. apply list_lookup_insert_Some in E as [(<- & <- & _)|[Hne E]].
    + exists args. split; [by apply list_lookup_middle|]. cbn. rewrite pushes_of_new; [done|]. intros u Hu Hb. specialize (H4 u _ Hu Hb). lia.
    + destruct s as [|b o i a]; [done|]. destruct (H5 t' _ E) as (a0 & Ha & Hp). exists a0. cbn. split; [by apply lookup_app_l_Some|done].
  - intros t1 t2 s1 s2 b E1 E2 R1 R2. apply list_lookup_insert_Some in E1 as [(<- & <- & _)|[Hn1 E1]]; apply list_lookup_insert_Some in E2 as [(<- & <- & _)|[Hn2 E2]]; try done.
    + cbn in R1. subst b. by destruct (Hnew _ _ E2).
    + cbn in R2. subst b. by destruct (Hnew _ _ E1).
    + by eapply H6.
  - intros b e E Hr. apply lookup_app_Some in E as [E|[Hle E]].
    + apply (H7 b e E). intros t' s Es R. destruct (decide (t' = t)) as [->|Hne]; [rewrite Et in Es; by simplify_eq|].
      apply (Hr t' s); [cbn; by rewrite list_lookup_insert_ne|done].
    + apply list_lookup_singleton_Some in E as [E _].
      destruct (Hr t (Broadcasting (length (c_begun c)) orig 0 args)); [cbn; by apply list_lookup_insert_eq|]. cbn. lia.
Qed.

(** A thread that goes on with its own broadcast, with what it pushed. *)
Lemma own_progress t b orig i args c new us : cinv c → c_threads c !! t = Some (Broadcasting b orig i args) →
  (∀ u, u ∈ us → u_broadcast u = Some b) →
  match new with
  | Idle => us = [] ∧ drop i (c_managers c) = []
  | Broadcasting b' orig' i' args' => b' = b ∧ orig' = orig ∧
      pushes_of b (c_pushed c ++ us) ++ deliveries orig (drop i' (c_managers c)) args' =
      pushes_of b (c_pushed c) ++ deliveries orig (drop i (c_managers c)) args
  end →
  cinv (mkChannel (c_managers c) (c_linked c) (<[t := new]> (c_threads c)) (c_pushed c ++ us) (c_begun c)).
Proof.
  intros [H1 H2 H3 H4 H5 H6 H7] Et Hus Hnew. destruct (H5 t _ Et) as (a0 & Ha & Hp). assert (t < length (c_threads c))%nat as Hlt by (by eapply lookup_lt_Some).
  assert (∀ b', b' ≠ b → pushes_of b' (c_pushed c ++ us) = pushes_of b' (c_pushed c)) as Hother.
  { intros b' Hb. clear -Hus Hb. induction us as [|u us IH] using rev_ind; [by rewrite app_nil_r|]. rewrite app_assoc, pushes_of_other; [apply IH; set_solver|].
    rewrite (Hus u) by set_solver. congruence. }
  constructor; cbn; try done.
  - intros u b' [Hu|Hu]%elem_of_app Hb; [by eapply H4|]. rewrite (Hus u Hu) in Hb. simplify_eq. by eapply lookup_lt_Some.
  - intros t' s E. apply list_lookup_insert_Some in E as [(<- & <- & _)|[Hne E]].
    + destruct new as [|b' o' i' a']; [done|]. destruct Hnew as (-> & -> & Hnew). exists a0. cbn. by rewrite Hnew.
    + destruct s as [|b' o' i' a']; [done|]. destruct (H5 t' _ E) as (a1 & Ha1 & Hp1). exists a1. cbn. rewrite Hother; [done|].
      intros ->. destruct Hne. symmetry. by eapply (H6 t' t).
  - assert (∀ t' s b', <[t:=new]> (c_threads c) !! t' = Some s → running b' s → ∃ s0, c_threads c !! t' = Some s0 ∧ running b' s0) as Hold.
    { intros t' s b' E R. apply list_lookup_insert_Some in E as [(<- & <- & _)|[Hne E]]; [|by exists s].
      exists (Broadcasting b orig i args). split; [done|]. destruct new as [|b1 o1 i1 a1]; [done|]. destruct Hnew as (-> & _). done. }
    intros t1 t2 s1 s2 b' E1 E2 R1 R2. destruct (Hold _ _ _ E1 R1) as (s1' & E1' & R1'). destruct (Hold _ _ _ E2 R2) as (s2' & E2' & R2'). by eapply H6.
  - intros b' e E Hr. destruct (decide (b' = b)) as [->|Hb].
    + destruct new as [|b1 o1 i1 a1].
      * destruct Hnew as [-> Hd]. rewrite Ha in E. simplify_eq. cbn. rewrite app_nil_r. rewrite Hd in Hp. cbn in Hp. by rewrite app_nil_r in Hp.
      * destruct Hnew as (-> & _). destruct (Hr t (Broadcasting b o1 i1 a1)); [cbn; by apply list_lookup_insert_eq|done].
    + assert (∀ t' s, c_threads c !! t' = Some s → ¬ running b' s) as Hr'.
      { intros t' s Es R. destruct (decide (t' = t)) as [->|Hne]; [rewrite Et in Es; simplify_eq; cbn in R; congruence|].
        apply (Hr t' s); [cbn; by rewrite list_lookup_insert_ne|done]. }
      specialize (H7 b' e E Hr'). destruct e as [[o a] ms]. cbn in *. by rewrite Hother.
Qed.
Lemma broadcast_next_inv t b orig i args c : cinv c → c_threads c !! t = Some (Broadcasting b orig i args) →
  cinv (broadcast_next t b orig i args c).
Proof.
  intros Hi Et. unfold broadcast_next. destruct (c_managers c !! i) as [[k m]|] eqn:Em.
  - pose proof (drop_S (c_managers c) _ i Em) as Hd. case_bool_decide as Hm.
    + unfold set_thread. replace (c_pushed c) with (c_pushed c ++ []) by apply app_nil_r.
      apply (own_progress t b orig i args); [done|done|set_solver|]. split; [done|]. split; [done|]. rewrite app_nil_r, Hd. cbn. by rewrite bool_decide_eq_true_2.
    + unfold set_thread, pushEvent. cbn. apply (own_progress t b orig i args); [done|done| |].
      * intros u Hu. by apply list_elem_of_singleton in Hu as ->.
      * split; [done|]. split; [done|]. rewrite pushes_of_snoc, Hd. cbn.
        rewrite (bool_decide_eq_false_2 (m = orig)), (bool_decide_eq_true_2 (Some b = Some b)) by done. by rewrite <- app_assoc.
  - unfold set_thread. replace (c_pushed c) with (c_pushed c ++ []) by apply app_nil_r.
    apply (own_progress t b orig i args); [done|done|set_solver|]. split; [done|]. apply drop_ge. by apply lookup_ge_None.
Qed.
Lemma creachable_inv n c : creachable n c → cinv c.
Proof.
  induction 1 as [|a c c' _ IH E]; [apply new_channel_inv|]. destruct a as [id|id|id args|t orig args|t]; cbn in E.
  - destruct (shared_lock_held c) eqn:El; simplify_eq. by apply addManager_inv.
  - destruct (shared_lock_held c) eqn:El; simplify_eq. by apply removeManager_inv.
  - destruct (sendEventTo id args c) as [c1|] eqn:Es; simplify_eq; [by eapply sendEventTo_inv|done].
  - destruct (c_threads c !! t) as [[|]|] eqn:Et; simplify_eq. by apply broadcast_begin_inv.
  - destruct (c_threads c !! t) as [[|]|] eqn:Et; simplify_eq. by apply broadcast_next_inv.
Qed.

(** ** Properties *)

Lemma deliveries_managers orig ms : ∀ args, map fst (deliveries orig ms args) = filter (λ m, m ≠ orig) (map snd ms).
Proof.
  induction ms as [|[k m] ms IH]; intros args; [done|]. cbn [deliveries map snd]. rewrite filter_cons.
  case_bool_decide; case_decide; try done. cbn [map fst]. by rewrite IH.
Qed.
Lemma deliveries_lvalues orig ms args : Forall (λ a, forwarded a = a) args → Forall (λ d, d.2 = map arg_value args) (deliveries orig ms args).
Proof.
  intros Ha. assert (map forwarded args = args) as He by (induction Ha; cbn; congruence).
  induction ms as [|[k m] ms IH]; cbn; [constructor|]. case_bool_decide; [done|]. constructor; [done|]. by rewrite He.
Qed.

(** C26: Threads broadcast, send, add and remove managers in any interleaving the lock
    allows.  A broadcast that is finished has pushed one event into the queue of each
    manager that was in the table when it began, except the one it comes from, in the
    order of the table, and into no other queue; and if none of the arguments is changed
    by being moved from, all events have the same arguments, those of the call.
    A manager refers to the channel exactly while it is in the table. *)
Theorem broadcast_reaches_all_others n c b orig args ms :
  creachable n c → c_begun c !! b = Some (orig, args, ms) → (∀ t s, c_threads c !! t = Some s → ¬ running b s) →
  map fst (pushes_of b (c_pushed c)) = filter (λ m, m ≠ orig) (map fst ms) ∧
  NoDup (map fst (pushes_of b (c_pushed c))) ∧
  (Forall (λ a, forwarded a = a) args → Forall (λ d, d.2 = map arg_value args) (pushes_of b (c_pushed c))) ∧
  (∀ id, id ∈ c_linked c ↔ id ∈ dkeys (c_managers c)).
Proof.
  intros Hr Hb Hf. pose proof (creachable_inv n c Hr) as [_ H2 H3 _ _ _ H7]. destruct (H2 _ _ _ _ Hb) as [Hwf Hself].
  specialize (H7 b _ Hb Hf). cbn in H7. rewrite H7, deliveries_managers.
  assert (map snd ms = map fst ms) as ->.
  { clear -Hself. induction ms as [|[k m] ms IH]; [done|]. cbn. rewrite (Hself k m) by set_solver. f_equal. apply IH. set_solver. }
  split_and!; [done|by apply NoDup_filter|apply deliveries_lvalues|done].
Qed.
End channel.

(** Three managers; the first one broadcasts, the third one is added while nobody does. *)
Definition no_move : Z → Z := λ v, v.
Definition broadcast_actions : list (action (V:=Z)) :=
  [AddManager 1; AddManager 2; AddManager 3; BroadcastBegin 0 1 [Lvalue 5]; BroadcastNext 0; BroadcastNext 0; BroadcastNext 0; BroadcastNext 0].
Definition after_broadcast : channel (V:=Z) :=
  match crun no_move broadcast_actions (new_channel 2) with Some c => c | None => new_channel 0 end.
Lemma after_broadcast_reachable : creachable no_move 2 after_broadcast.
Proof. apply (crun_reachable no_move 2 broadcast_actions (new_channel 2)); [apply creachable_start|by vm_compute]. Qed.
Lemma broadcast_reaches_witness :
  pushes_of 0 (c_pushed after_broadcast) = [(2, [5]); (3, [5])] ∧ NoDup (map fst (pushes_of 0 (c_pushed after_broadcast))).
Proof.
  split; [reflexivity|].
  apply (broadcast_reaches_all_others no_move 2 after_broadcast 0 1 [Lvalue 5] [(1, 1); (2, 2); (3, 3)] after_broadcast_reachable); [reflexivity|].
  intros [|[|t]] s E; [injection E as <-; exact id|injection E as <-; exact id|discriminate E].
Defined.

(** The arguments are forwarded to every manager: what the first one moved from is not
    there for the second one. *)
Lemma broadcast_moves_arguments {V} (moved_from : V → V) (v : V) :
  deliveries moved_from 1 [(1, 1); (2, 2); (3, 3)] [Rvalue v] = [(2, [v]); (3, [moved_from v])].
Proof. reflexivity. Qed.
