(* ===== verification/TcpConnection.v ===== *)
(** * TCP connections

    src/services/network/tcp/TcpConnectionService.cpp: a connection over a blocking
    socket that is polled by a timer, and IOUringTcpConnectionService.cpp: a connection
    whose calls are completed by io_uring.

    What the kernel answers is an argument: how many bytes a call of [send] takes, what
    [recv] returns, and so on.  Each state has, next to the members of the service, what
    happened outside: the bytes the kernel took, the bytes it handed out, the calls of
    the receive handler and the events that were pushed.

    [IConnectionService] is what the services on top rely on; both services are shown
    to provide it. *)

From stdpp Require Import base list option.
From Stdlib Require Import ZArith Lia.
From S2P Require Import Prelude.
From S2P Require Import StringUtils.

Local Open Scope Z_scope.

(** ** Errors *)

Inductive IOError : Type :=
  | FAILED | SERVICE_QUITTING | FILE_DOES_NOT_EXIST | NO_PERMISSION | IS_DIR_SHOULD_BE_FILE | IS_FILE_SHOULD_BE_DIR
  | INTERRUPTED_BY_SIGNAL | BASENAME_CONTAINS_INVALID_CHARACTERS | TOO_MANY_SYMBOLIC_LINKS | PER_PROCESS_LIMIT_REACHED
  | FILEPATH_TOO_LONG | SERVICE_STOPPED | FILE_SIZE_TOO_BIG | SYSTEM_BUG | READ_ONLY_FS | USER_QUOTA_REACHED | NO_SPACE_LEFT
  | IO_ERROR | BAD_FILE_DESCRIPTOR | NOT_CONNECTED | NOT_A_SOCKET | MESSAGE_SIZE_TOO_BIG | CONNECTION_RESET
  | DESTINATION_ADDRESS_REQUIRED | ALREADY_CONNECTED | NETWORK_INTERFACE_OUTPUT_QUEUE_FULL | NO_MEMORY_AVAILABLE
  | NOT_SUPPORTED | KERNEL_TOO_OLD.
(** Numbers of errno.h on Linux. *)
Definition EAGAIN : Z := 11.
Definition ECONNRESET : Z := 104.
Definition EISCONN : Z := 106.
Definition EALREADY : Z := 114.
Definition EINPROGRESS : Z := 115.
Definition mapErrnoToError (err : Z) : IOError :=
  if (err =? 13) || (err =? 14) || (err =? 1) then NO_PERMISSION           (* EACCES, EFAULT, EPERM *)
  else if err =? 4 then INTERRUPTED_BY_SIGNAL                              (* EINTR *)
  else if err =? 22 then BASENAME_CONTAINS_INVALID_CHARACTERS              (* EINVAL *)
  else if err =? 40 then TOO_MANY_SYMBOLIC_LINKS                           (* ELOOP *)
  else if err =? 24 then PER_PROCESS_LIMIT_REACHED                         (* EMFILE *)
  else if err =? 36 then FILEPATH_TOO_LONG                                 (* ENAMETOOLONG *)
  else if err =? 2 then FILE_DOES_NOT_EXIST                                (* ENOENT *)
  else if err =? 21 then IS_DIR_SHOULD_BE_FILE                             (* EISDIR *)
  else if err =? 20 then IS_FILE_SHOULD_BE_DIR                             (* ENOTDIR *)
  else if err =? 30 then READ_ONLY_FS                                      (* EROFS *)
  else if err =? 122 then USER_QUOTA_REACHED                               (* EDQUOT *)
  else if err =? 28 then NO_SPACE_LEFT                                     (* ENOSPC *)
  else if err =? 9 then BAD_FILE_DESCRIPTOR                                (* EBADF *)
  else if err =? 5 then IO_ERROR                                           (* EIO *)
  else if err =? 107 then NOT_CONNECTED                                    (* ENOTCONN *)
  else if err =? 88 then NOT_A_SOCKET                                      (* ENOTSOCK *)
  else if err =? 90 then MESSAGE_SIZE_TOO_BIG                              (* EMSGSIZE *)
  else if err =? ECONNRESET then CONNECTION_RESET
  else if err =? 89 then DESTINATION_ADDRESS_REQUIRED                      (* EDESTADDRREQ *)
  else if err =? EISCONN then ALREADY_CONNECTED
  else if err =? 105 then NETWORK_INTERFACE_OUTPUT_QUEUE_FULL              (* ENOBUFS *)
  else if err =? 12 then NO_MEMORY_AVAILABLE                               (* ENOMEM *)
  else if err =? 95 then NOT_SUPPORTED                                     (* EOPNOTSUPP *)
  else FAILED.
(** An error number is positive. *)
Lemma mapErrno_negative err : err < 0 → mapErrnoToError err = FAILED.
Proof.
  intros H. unfold mapErrnoToError, ECONNRESET, EISCONN.
  repeat match goal with |- context [err =? ?n] => replace (err =? n) with false by (symmetry; apply Z.eqb_neq; lia) end. done.
Qed.

(** ** The connection that is polled *)

Inductive send_result : Type := SendOk | SendError (e : IOError).
Inductive start_result : Type := Started | StartFailed.
(** The properties of a service, those of both kinds of connections. *)
Record connection_properties := mkProps {
  pr_Priority : option Z;
  pr_TimeoutSendUs : option Z;
  pr_TimeoutRecvUs : option Z;
  pr_Socket : option Z;
  pr_hasAddress : bool;
  pr_hasPort : bool;
  pr_RecvBufferSize : option nat;
  pr_BufferEntries : option Z;
  pr_BufferEntrySize : option Z }.
Definition override (p : option Z) (d : Z) : Z := match p with Some v => v | None => d end.

Section connection.
Context {B : Type}.

(** The events a connection pushes. *)
Inductive pushed_event : Type :=
  | PushStopService     (* of itself, to be removed *)
  | PushStartTimer.     (* the function that starts the timer *)

Record TcpConnection := mkTcp {
  tc_socket : Z;
  tc_attempts : Z;
  tc_priority : Z;
  tc_sendTimeout : Z;
  tc_quit : bool;
  tc_timer : option bool;               (* whether it was started, once there is one *)
  tc_queuedMessages : list (list B);
  tc_recvHandler : bool;                (* whether there is one *)
  (* outside *)
  tc_calls : nat;                       (* calls of send *)
  tc_sent : list B;
  tc_received : list B;
  tc_delivered : list (list B);         (* calls of the receive handler *)
  tc_pushed : list pushed_event }.
(** The priority is [INTERNAL_EVENT_PRIORITY]. *)
Definition new_tcp : TcpConnection := mkTcp (-1) 0 1000 250000 false None [] false 0 [] [] [] [].

(** *** Starting *)

(** [poll] and [getsockopt] for a connection in progress. *)
Inductive poll_answer : Type :=
  | PollError
  | PollTimeout
  | PollErrHup                                     (* POLLERR or POLLHUP *)
  | PollOut (getsockopt connect_result : Z)
  | PollNothing.
(** One call of [connect] with what [errno] is behind it, and of [poll] if there is one. *)
Record connect_answer := mkConnect { ca_ret : Z; ca_errno : Z; ca_poll : poll_answer }.
Inductive connect_end : Type := Connected (connected : bool) (attempts : Z) | ConnectFailed.
(** The while loop; [None]: it goes on behind the answers that are given. *)
Fixpoint connect_loop (answers : list connect_answer) (attempts : Z) : option connect_end :=
  if 5 <=? attempts then Some (Connected false attempts)
  else
    match answers with
    | [] => None
    | a :: answers' =>
        if ca_ret a <? 0 then Some (Connected true attempts)
        else if ca_errno a =? EINPROGRESS then
          match ca_poll a with
          | PollError | PollTimeout | PollErrHup | PollNothing => connect_loop answers' attempts
          | PollOut getsockopt connect_result =>
              if getsockopt <? 0 then Some ConnectFailed
              else if connect_result <? 0 then Some (Connected false attempts)
              else Some (Connected true attempts)
          end
        else if ca_errno a =? EISCONN then Some (Connected true attempts)
        else if ca_errno a =? EALREADY then connect_loop answers' attempts
        else connect_loop answers' (attempts + 1)
    end.
Definition connect_all (answers : list connect_answer) (attempts : Z) : option connect_end :=
  match answers with
  | [] => None
  | a :: answers' => if ca_ret a <? 0 then Some (Connected true attempts) else connect_loop answers' attempts
  end.

Definition set_tcp (socket attempts priority sendTimeout : Z) (timer : option bool) (pushed : list pushed_event) (c : TcpConnection) : TcpConnection :=
  mkTcp socket attempts priority sendTimeout (tc_quit c) timer (tc_queuedMessages c) (tc_recvHandler c) (tc_calls c) (tc_sent c) (tc_received c)
    (tc_delivered c) pushed.
(** [start()], with what [socket], [inet_pton] and [connect] return. *)
Definition tcp_start (p : connection_properties) (socket pton : Z) (connects : list connect_answer) (c : TcpConnection)
    : option (start_result * TcpConnection) :=
  let priority := override (pr_Priority p) (tc_priority c) in
  let timeout := override (pr_TimeoutSendUs p) (tc_sendTimeout c) in
  let fail s a e := Some (StartFailed, set_tcp s a priority timeout (tc_timer c) e c) in
  match pr_Socket p with
  | Some s => Some (Started, set_tcp s (tc_attempts c) priority timeout (Some true) (tc_pushed c) c)
  | None =>
      if negb (pr_hasAddress p) || negb (pr_hasPort p) then fail (tc_socket c) (tc_attempts c) (tc_pushed c)
      else
        let s := if tc_socket c =? -1 then socket else tc_socket c in
        if s =? -1 then fail s (tc_attempts c) (tc_pushed c)
        else if pton =? 0 then fail s (tc_attempts c) (tc_pushed c)
        else
          match connect_all connects (tc_attempts c) with
          | None => None
          | Some ConnectFailed => fail s (tc_attempts c) (tc_pushed c)
          | Some (Connected false a) => fail s a (tc_pushed c ++ [PushStopService])
          | Some (Connected true a) => Some (Started, set_tcp s a priority timeout (Some true) (tc_pushed c) c)
          end
  end.
Definition tcp_stop (c : TcpConnection) : TcpConnection :=
  mkTcp (tc_socket c) (tc_attempts c) (tc_priority c) (tc_sendTimeout c) true None (tc_queuedMessages c) (tc_recvHandler c) (tc_calls c)
    (tc_sent c) (tc_received c) (tc_delivered c) (tc_pushed c).
Definition tcp_setPriority (priority : Z) (c : TcpConnection) : TcpConnection :=
  set_tcp (tc_socket c) (tc_attempts c) priority (tc_sendTimeout c) (tc_timer c) (tc_pushed c) c.
Definition isClient (p : connection_properties) : bool := match pr_Socket p with Some _ => false | None => true end.

(** *** Sending *)

(** What a call of [send] returns for the bytes it is given, by the number of the
    call: as documented, a negative number or how many bytes were taken, at least one of
    a message that is not empty. *)
Variable send : nat → list B → Z.
Definition send_takes : Prop := ∀ n l, l ≠ [] → send n l < 0 ∨ 0 < send n l ≤ Z.of_nat (length l).

(** The while loop of [sendAsync] on the bytes behind [sent_bytes]. *)
Fixpoint send_loop (fuel : nat) (rest : list B) (calls : nat) (sent : list B) : outcome (send_result * nat * list B) :=
  match rest, fuel with
  | [], _ => Done (SendOk, calls, sent)
  | _, O => Terminated
  | _, S fuel' =>
      let ret := send calls rest in
      if ret <? 0 then Done (SendError FAILED, S calls, sent)
      else send_loop fuel' (drop (Z.to_nat ret) rest) (S calls) (sent ++ take (Z.to_nat ret) rest)
  end.
Definition set_sent (calls : nat) (sent : list B) (c : TcpConnection) : TcpConnection :=
  mkTcp (tc_socket c) (tc_attempts c) (tc_priority c) (tc_sendTimeout c) (tc_quit c) (tc_timer c) (tc_queuedMessages c) (tc_recvHandler c)
    calls sent (tc_received c) (tc_delivered c) (tc_pushed c).
Fixpoint send_each (msgs : list (list B)) (calls : nat) (sent : list B) : outcome (send_result * nat * list B) :=
  match msgs with
  | [] => Done (SendOk, calls, sent)
  | msg :: msgs' =>
      match send_loop (length msg) msg calls sent with
      | Done (SendOk, calls', sent') => send_each msgs' calls' sent'
      | r => r
      end
  end.
(** [sendAsync] of several messages, and of one. *)
Definition tcp_sendAsyncAll (msgs : list (list B)) (c : TcpConnection) : outcome (send_result * TcpConnection) :=
  if tc_quit c then Done (SendError SERVICE_QUITTING, c)
  else match send_each msgs (tc_calls c) (tc_sent c) with
       | Done (r, calls, sent) => Done (r, set_sent calls sent c)
       | Terminated => Terminated
       end.
Definition tcp_sendAsync (msg : list B) (c : TcpConnection) : outcome (send_result * TcpConnection) :=
  if tc_quit c then Done (SendError SERVICE_QUITTING, c)
  else match send_loop (length msg) msg (tc_calls c) (tc_sent c) with
       | Done (r, calls, sent) => Done (r, set_sent calls sent c)
       | Terminated => Terminated
       end.

(** *** Receiving *)

Inductive recv_answer : Type :=
  | RecvData (bytes : list B)   (* at least one, at most 4096 *)
  | RecvClosed                  (* 0 *)
  | RecvError (errno : Z).
Definition set_receiving (queued : list (list B)) (handler : bool) (received : list B) (delivered : list (list B)) (timer : option bool)
    (pushed : list pushed_event) (c : TcpConnection) : TcpConnection :=
  mkTcp (tc_socket c) (tc_attempts c) (tc_priority c) (tc_sendTimeout c) (tc_quit c) timer queued handler
    (tc_calls c) (tc_sent c) received delivered pushed.
(** The loop over [recv]: the message and the last answer; [None]: it goes on. *)
Fixpoint recv_loop (quit : bool) (answers : list recv_answer) (msg : list B) : option (list B * recv_answer) :=
  match answers with
  | [] => None
  | RecvData bytes :: answers' => if quit then Some (msg ++ bytes, RecvData bytes) else recv_loop quit answers' (msg ++ bytes)
  | a :: _ => Some (msg, a)
  end.
(** [recvHandler()]; [starts]: what [startTimer()] returns at its end. *)
Definition recvHandler (answers : list recv_answer) (starts : bool) (c : TcpConnection) : option TcpConnection :=
  match recv_loop (tc_quit c) answers [] with
  | None => None
  | Some (msg, last) =>
      let received := tc_received c ++ msg in
      if tc_quit c then Some (set_receiving (tc_queuedMessages c) (tc_recvHandler c) received (tc_delivered c) (tc_timer c) (tc_pushed c) c)
      else
        let delivered := if bool_decide (msg = []) || negb (tc_recvHandler c) then tc_delivered c else tc_delivered c ++ [msg] in
        let queued := if bool_decide (msg = []) || tc_recvHandler c then tc_queuedMessages c else tc_queuedMessages c ++ [msg] in
        let stops := match last with RecvClosed => [PushStopService] | RecvError e => if e =? EAGAIN then [] else [PushStopService] | RecvData _ => [] end in
        Some (set_receiving queued (tc_recvHandler c) received delivered (if starts then Some true else tc_timer c)
                (tc_pushed c ++ stops ++ if starts then [] else [PushStartTimer]) c)
  end.
Definition tcp_setReceiveHandler (c : TcpConnection) : TcpConnection :=
  set_receiving [] true (tc_received c) (tc_delivered c ++ tc_queuedMessages c) (tc_timer c) (tc_pushed c) c.
End connection.

(** *** The while loop and the service *)

Section tcp_lemmas.
Context {B : Type} (send : nat → list B → Z) (Hsend : send_takes send).

Lemma send_loop_ends fuel : ∀ rest calls sent, (length rest <= fuel)%nat →
  ∃ r calls' p, send_loop send fuel rest calls sent = Done (r, calls', sent ++ p) ∧
    match r with SendOk => p = rest | SendError e => e = FAILED ∧ ∃ q, q ≠ [] ∧ p ++ q = rest end.
Proof.
  induction fuel as [|fuel IH]; intros rest calls sent Hf.
  - destruct rest; [|cbn in Hf; lia]. exists SendOk, calls, []. by rewrite app_nil_r.
  - destruct rest as [|x rest]; [exists SendOk, calls, []; by rewrite app_nil_r|]. cbn [send_loop].
    destruct (Hsend calls (x :: rest)) as [Hr|[Hr Hl]]; [done| |].
    + rewrite (proj2 (Z.ltb_lt _ _) Hr). exists (SendError FAILED), (S calls), []. rewrite app_nil_r. split; [done|]. split; [done|]. by exists (x :: rest).
    + rewrite (proj2 (Z.ltb_ge _ _)) by lia. set (n := Z.to_nat (send calls (x :: rest))). assert (0 < n)%nat as Hn by lia.
      destruct (IH (drop n (x :: rest)) (S calls) (sent ++ take n (x :: rest))) as (r & calls' & p & E & Hp).
      { rewrite length_drop. cbn in *. lia. }
      exists r, calls', (take n (x :: rest) ++ p). rewrite E, app_assoc. split; [done|].
      destruct r; [rewrite Hp; apply take_drop|]. destruct Hp as (He & q & Hq & Hpq). split; [done|]. exists q. split; [done|].
      by rewrite <- app_assoc, Hpq, take_drop.
Qed.
Lemma send_each_ends msgs : ∀ calls sent,
  ∃ r calls' p, send_each send msgs calls sent = Done (r, calls', sent ++ p) ∧
    match r with SendOk => p = concat msgs | SendError e => e = FAILED ∧ ∃ q, q ≠ [] ∧ p ++ q = concat msgs end.
Proof.
  induction msgs as [|msg msgs IH]; intros calls sent; cbn [send_each concat]; [exists SendOk, calls, []; by rewrite app_nil_r|].
  destruct (send_loop_ends (length msg) msg calls sent) as (r & calls1 & p & -> & Hp); [done|]. destruct r as [|e].
  - subst p. destruct (IH calls1 (sent ++ msg)) as (r & calls2 & p & -> & Hp). exists r, calls2, (msg ++ p). rewrite app_assoc. split; [done|].
    destruct r; [by subst|]. destruct Hp as (He & q & Hq & Hpq). split; [done|]. exists q. split; [done|]. by rewrite <- app_assoc, Hpq.
  - exists (SendError e), calls1, p. split; [done|]. destruct Hp as (-> & q & Hq & Hpq). split; [done|]. exists (q ++ concat msgs).
    split; [by destruct q|]. by rewrite app_assoc, Hpq.
Qed.
End tcp_lemmas.

Section tcp_receive.
Context {B : Type}.
Implicit Types (c : TcpConnection (B:=B)).

(** What arrived is with the receive handler, or waits for one. *)
Definition tcp_open c : Prop :=
  tc_quit c = false ∧ concat (tc_delivered c) ++ concat (tc_queuedMessages c) = tc_received c ∧ (tc_recvHandler c = true → tc_queuedMessages c = []).

Lemma recv_loop_data answers msg msg' last : recv_loop (B:=B) false answers msg = Some (msg', last) → ∃ bytes, msg' = msg ++ bytes.
Proof.
  revert msg. induction answers as [|[bytes| |e] answers IH]; intros msg E; cbn in E; try done; simplify_eq; try (exists []; by rewrite app_nil_r).
  apply IH in E as (more & ->). exists (bytes ++ more). by rewrite app_assoc.
Qed.
Lemma recvHandler_open answers starts c c' : tcp_open c → recvHandler answers starts c = Some c' → tcp_open c' ∧ tc_sent c' = tc_sent c.
Proof.
  intros (Hq & Hs & Hh) E. unfold recvHandler in E. rewrite Hq in E. destruct (recv_loop false answers []) as [[msg last]|] eqn:El; [|done]. simplify_eq.
  split; [|done]. split; [done|]. cbn. case_bool_decide as Hm; cbn [orb].
  - subst msg. by rewrite app_nil_r.
  - destruct (tc_recvHandler c) eqn:Eh; cbn [negb orb].
    + rewrite (Hh eq_refl) in *. split; [|done]. rewrite <- Hs, concat_app. cbn. by rewrite !app_nil_r.
    + split; [|done]. rewrite concat_app, app_assoc, Hs. cbn. by rewrite app_nil_r.
Qed.
Lemma tcp_setReceiveHandler_open c : tcp_open c → tcp_open (tcp_setReceiveHandler c).
Proof. intros (Hq & Hs & Hh). split; [done|]. cbn. split; [|done]. by rewrite app_nil_r, concat_app. Qed.
End tcp_receive.

(** ** The interface *)

(** What a connection promises to the services that use it, while it is open. *)
Class IConnectionService (B C : Type) := {
  cs_open : C → Prop;
  cs_sent : C → list B;               (* what the kernel took *)
  cs_received : C → list B;           (* what the kernel handed out *)
  cs_delivered : C → list (list B);   (* the calls of the receive handler *)
  cs_handler : C → bool;
  cs_sendAsync : list B → send_result → C → C → Prop;   (* a call and its result *)
  cs_receive : C → C → Prop;                            (* the kernel hands out something *)
  cs_setReceiveHandler : C → C;
  cs_send_law c msg r c' : cs_open c → cs_sendAsync msg r c c' →
    cs_open c' ∧ cs_received c' = cs_received c ∧ cs_handler c' = cs_handler c ∧
    ∃ p, cs_sent c' = cs_sent c ++ p ∧ match r with SendOk => p = msg | SendError _ => ∃ q, q ≠ [] ∧ p ++ q = msg end;
  cs_receive_law c c' : cs_open c → cs_receive c c' → cs_open c' ∧ cs_sent c' = cs_sent c ∧ cs_handler c' = cs_handler c;
  cs_handler_law c : cs_open c →
    cs_open (cs_setReceiveHandler c) ∧ cs_handler (cs_setReceiveHandler c) = true ∧
    cs_sent (cs_setReceiveHandler c) = cs_sent c ∧ cs_received (cs_setReceiveHandler c) = cs_received c;
  cs_stream_law c : cs_open c → cs_handler c = true → concat (cs_delivered c) = cs_received c }.

#[global] Program Instance tcp_connection_service {B} (send : nat → list B → Z) (Hsend : send_takes send) : IConnectionService B (TcpConnection (B:=B)) := {|
  cs_open := tcp_open;
  cs_sent := tc_sent;
  cs_received := tc_received;
  cs_delivered := tc_delivered;
  cs_handler := tc_recvHandler;
  cs_sendAsync msg r c c' := tcp_sendAsync send msg c = Done (r, c') ∨ ∃ msgs, concat msgs = msg ∧ tcp_sendAsyncAll send msgs c = Done (r, c');
  cs_receive c c' := ∃ answers starts, recvHandler answers starts c = Some c';
  cs_setReceiveHandler := tcp_setReceiveHandler |}.
Next Obligation.
  intros B send Hsend c msg r c' Ho Hs. pose proof Ho as (Hq & _).
  assert (∀ p calls, c' = set_sent calls (tc_sent c ++ p) c → match r with SendOk => p = msg | SendError _ => ∃ q, q ≠ [] ∧ p ++ q = msg end →
    tcp_open c' ∧ tc_received c' = tc_received c ∧ tc_recvHandler c' = tc_recvHandler c ∧
    ∃ p, tc_sent c' = tc_sent c ++ p ∧ match r with SendOk => p = msg | SendError _ => ∃ q, q ≠ [] ∧ p ++ q = msg end) as Hgen.
  { intros p calls -> Hp. split; [exact Ho|]. split; [done|]. split; [done|]. by exists p. }
  destruct Hs as [E|(msgs & <- & E)].
  - unfold tcp_sendAsync in E. rewrite Hq in E. destruct (send_loop_ends send Hsend (length msg) msg (tc_calls c) (tc_sent c)) as (r' & calls & p & E' & Hp); [done|].
    rewrite E' in E. simplify_eq. eapply Hgen; [done|]. destruct r; [done|]. by destruct Hp.
  - unfold tcp_sendAsyncAll in E. rewrite Hq in E. destruct (send_each_ends send Hsend msgs (tc_calls c) (tc_sent c)) as (r' & calls & p & E' & Hp).
    rewrite E' in E. simplify_eq. eapply Hgen; [done|]. destruct r; [done|]. by destruct Hp.
Qed.
Next Obligation.
  intros B send Hsend c c' Ho (answers & starts & E). destruct (recvHandler_open answers starts c c' Ho E) as [Ho' Hs]. split; [done|]. split; [done|].
  destruct Ho as (Hq & _). unfold recvHandler in E. rewrite Hq in E. destruct (recv_loop _ _ _) as [[]|]; [|done]. by simplify_eq.
Qed.
Next Obligation. intros B send Hsend c Ho. split; [by apply tcp_setReceiveHandler_open|done]. Qed.
Next Obligation. intros B send Hsend c (Hq & Hs & Hh) Hr. rewrite (Hh Hr) in Hs. cbn in Hs. by rewrite app_nil_r in Hs. Qed.

(** ** Properties *)

(** C27: [sendAsync] of any messages, whatever amounts the kernel takes at once: it
    returns; if it reports success the kernel was given all messages completely and in
    order, otherwise a proper beginning of them, and nothing twice. *)
Theorem tcp_sends_in_order {B} (send : nat → list B → Z) msgs c : send_takes send → tc_quit c = false →
  ∃ r c' p, tcp_sendAsyncAll send msgs c = Done (r, c') ∧ tc_sent c' = tc_sent c ++ p ∧
    match r with SendOk => p = concat msgs | SendError e => e = FAILED ∧ ∃ q, q ≠ [] ∧ p ++ q = concat msgs end.
Proof.
  intros Hsend Hq. unfold tcp_sendAsyncAll. rewrite Hq. destruct (send_each_ends send Hsend msgs (tc_calls c) (tc_sent c)) as (r & calls & p & -> & Hp).
  by exists r, (set_sent calls (tc_sent c ++ p) c), p.
Qed.
(** A kernel that takes two bytes at once. *)
Definition takes_two (n : nat) (l : list Z) : Z := Z.min 2 (Z.of_nat (length l)).
Lemma tcp_sends_witness :
  ∃ r c' p, tcp_sendAsyncAll takes_two [[1; 2; 3]; []; [4]] new_tcp = Done (r, c') ∧ tc_sent c' = [] ++ p ∧
    match r with SendOk => p = [1; 2; 3; 4] | SendError e => e = FAILED ∧ ∃ q, q ≠ [] ∧ p ++ q = [1; 2; 3; 4] end.
Proof.
  apply (tcp_sends_in_order takes_two [[1; 2; 3]; []; [4]] new_tcp); [|reflexivity].
  intros n l Hl. right. unfold takes_two. destruct l; [done|]. cbn [length]. lia.
Defined.

(** [start()] takes the result of [connect] for the opposite: when the first call
    fails, whatever the error, the service is started and polls a socket that is not
    connected. *)
Theorem refused_connection_starts {B} (p : connection_properties) socket pton errno more (c : TcpConnection (B:=B)) :
  pr_Socket p = None → pr_hasAddress p = true → pr_hasPort p = true → tc_socket c = -1 → 0 <= socket → 0 < pton →
  ∃ c', tcp_start p socket pton (mkConnect (-1) errno PollNothing :: more) c = Some (Started, c') ∧
    tc_socket c' = socket ∧ tc_timer c' = Some true ∧ tc_pushed c' = tc_pushed c.
Proof.
  intros H1 H2 H3 H4 H5 H6. unfold tcp_start. rewrite H1, H2, H3, H4. cbn [negb orb]. change (-1 =? -1) with true. cbv iota zeta beta.
  rewrite (proj2 (Z.eqb_neq socket (-1))), (proj2 (Z.eqb_neq pton 0)) by lia. eexists. split; [reflexivity|]. done.
Qed.
(** ECONNREFUSED. *)
Definition to_address : connection_properties := mkProps None None None None true true None None None.
Lemma refused_connection_witness :
  ∃ c', tcp_start to_address 5 1 [mkConnect (-1) 111 PollNothing] (new_tcp (B:=Z)) = Some (Started, c') ∧
    tc_socket c' = 5 ∧ tc_timer c' = Some true ∧ tc_pushed c' = [].
Proof. apply (refused_connection_starts to_address 5 1 111 [] new_tcp); reflexivity || lia. Defined.
(** A connection that succeeds is noticed by the second call, which fails because there
    is one already. *)
Example connected_starts :
  match tcp_start to_address 5 1 [mkConnect 0 0 PollNothing; mkConnect (-1) EISCONN PollNothing] (new_tcp (B:=Z)) with
  | Some (Started, c) => tc_timer c = Some true
  | _ => False
  end.
Proof. reflexivity. Qed.

(** [stop()] leaves [_quit] set: a connection that is started again sends nothing. *)
Lemma restarted_connection_sends_nothing {B} (send : nat → list B → Z) p socket pton connects msg (c c' : TcpConnection (B:=B)) :
  tcp_start p socket pton connects (tcp_stop c) = Some (Started, c') → tcp_sendAsync send msg c' = Done (SendError SERVICE_QUITTING, c').
Proof.
  intros E. unfold tcp_sendAsync. assert (tc_quit c' = true) as ->; [|done]. unfold tcp_start in E.
  destruct (pr_Socket p); [by simplify_eq|]. destruct (_ || _); [done|]. destruct (_ =? -1); [done|]. destruct (pton =? 0); [done|].
  destruct (connect_all _ _) as [[[] ?|]|]; by simplify_eq.
Qed.
