(* ===== verification/UringConnection.v ===== *)
(** * TCP connections over io_uring

    src/services/network/tcp/IOUringTcpConnectionService.cpp, [mapErrnoToError] of
    ErrnoUtils.h and the buffers of IOUringQueue.cpp.  A call is submitted to the kernel
    and completed later; in between other coroutines run, and so a connection can have
    several messages in flight.  Submitted messages are completed in their order.
    Socket options, which are only logged when they fail, are left out. *)

From stdpp Require Import base list option.
From Stdlib Require Import ZArith Lia.
From S2P Require Import Prelude.
From S2P Require Import StringUtils.
From S2P Require Import TcpConnection.

Local Open Scope Z_scope.

Section uring.
Context {B : Type} (zero : B).

(** A message in flight: the coroutine that awaits it, what is left of it, and whether
    it was submitted as [sendmsg]. *)
Record sending := mkSending { sd_id : nat; sd_rest : list B; sd_all : bool }.
Record UringConnection := mkUring {
  ur_socket : Z;
  ur_sendTimeout : Z;
  ur_recvTimeout : Z;
  ur_bufferEntries : Z;
  ur_bufferEntrySize : Z;
  ur_buffer : bool;                    (* whether there are provided buffers *)
  ur_quit : bool;
  ur_recvBuf : list B;
  ur_queuedMessages : list (list B);
  ur_recvHandler : bool;
  ur_quitEvt : bool;
  (* outside *)
  ur_armed : option nat;               (* the size of the buffer of a submitted recv *)
  ur_sending : list sending;
  ur_finished : list (nat * send_result);
  ur_sent : list B;
  ur_received : list B;
  ur_delivered : list (list B);
  ur_pushed : list pushed_event }.
Definition new_uring : UringConnection := mkUring (-1) 250000 250000 16 8192 false false [] [] false false None [] [] [] [] [] [].

(** *** Starting and stopping *)

Definition at_least (v : Version) (major minor patch : Z) : bool :=
  match version_compare v (mkVersion major minor patch) with Lt => false | _ => true end.
(** [resize] of a vector. *)
Definition resize (n : nat) (l : list B) : list B := take n l ++ replicate (n - length l) zero.
Definition set_up (socket : Z) (p : connection_properties) (buffer : bool) (recvBuf : list B) (armed : option nat) (u : UringConnection) : UringConnection :=
  mkUring socket (override (pr_TimeoutSendUs p) (ur_sendTimeout u)) (override (pr_TimeoutRecvUs p) (ur_recvTimeout u))
    (override (pr_BufferEntries p) (ur_bufferEntries u)) (override (pr_BufferEntrySize p) (ur_bufferEntrySize u)) buffer (ur_quit u) recvBuf
    (ur_queuedMessages u) (ur_recvHandler u) (ur_quitEvt u) armed (ur_sending u) (ur_finished u) (ur_sent u) (ur_received u) (ur_delivered u) (ur_pushed u).
(** [start()]: with the version of the kernel, what [socket], [inet_pton] and [connect]
    return, and whether provided buffers can be created. *)
Definition uring_start (v : Version) (p : connection_properties) (socket pton connect : Z) (buffers : bool) (u : UringConnection)
    : start_result * UringConnection :=
  if negb (at_least v 5 5 0) then (StartFailed, u)
  else
    let fail s := (StartFailed, set_up s p (ur_buffer u) (ur_recvBuf u) (ur_armed u) u) in
    let go s :=
      if at_least v 6 0 0 && buffers then (Started, set_up s p true (ur_recvBuf u) (Some (Z.to_nat (override (pr_BufferEntrySize p) (ur_bufferEntrySize u)))) u)
      else
        let buf := match pr_RecvBufferSize p with Some _ => ur_recvBuf u | None => resize 2048 (ur_recvBuf u) end in
        (Started, set_up s p (ur_buffer u) buf (Some (length buf)) u) in
    match pr_Socket p with
    | Some s => go s
    | None =>
        if negb (pr_hasAddress p) || negb (pr_hasPort p) then fail (ur_socket u)
        else if at_least v 5 19 0 && (socket <? 0) then fail (ur_socket u)
        else if pton =? 0 then fail socket
        else go socket
    end.
Definition set_quit (socket : Z) (u : UringConnection) : UringConnection :=
  mkUring socket (ur_sendTimeout u) (ur_recvTimeout u) (ur_bufferEntries u) (ur_bufferEntrySize u) (ur_buffer u) true (ur_recvBuf u)
    (ur_queuedMessages u) (ur_recvHandler u) (ur_quitEvt u) (ur_armed u) (ur_sending u) (ur_finished u) (ur_sent u) (ur_received u) (ur_delivered u) (ur_pushed u).
(** [stop()] up to the point where it waits for [_quitEvt], and its end. *)
Definition uring_stop_begin (u : UringConnection) : UringConnection := set_quit (ur_socket u) u.
Definition uring_stop_end (u : UringConnection) : option UringConnection :=
  if 0 <=? ur_socket u then if ur_quitEvt u then Some (set_quit 0 u) else None else Some u.

(** *** Receiving *)

(** A completion: [res], the bytes the kernel wrote, and IORING_CQE_F_BUFFER. *)
Record cqe := mkCqe { cqe_res : Z; cqe_data : list B; cqe_hasBuffer : bool }.
Definition set_receiving (recvBuf : list B) (queued : list (list B)) (handler quitEvt : bool) (armed : option nat) (received : list B)
    (delivered : list (list B)) (pushed : list pushed_event) (u : UringConnection) : UringConnection :=
  mkUring (ur_socket u) (ur_sendTimeout u) (ur_recvTimeout u) (ur_bufferEntries u) (ur_bufferEntrySize u) (ur_buffer u) (ur_quit u) recvBuf
    queued handler quitEvt armed (ur_sending u) (ur_finished u) (ur_sent u) received delivered pushed.
(** The function of [createRecvHandler()]. *)
Definition recv_completed (e : cqe) (u : UringConnection) : UringConnection :=
  let received := ur_received u ++ cqe_data e in
  let keep := set_receiving (ur_recvBuf u) (ur_queuedMessages u) (ur_recvHandler u) in
  if ur_quit u then keep true (ur_armed u) received (ur_delivered u) (ur_pushed u) u
  else if cqe_res e <=? 0 then keep true None received (ur_delivered u) (ur_pushed u ++ [PushStopService]) u
  else if ur_buffer u then
    if negb (cqe_hasBuffer e) then keep (ur_quitEvt u) (ur_armed u) received (ur_delivered u) (ur_pushed u) u
    else
      let data := take (Nat.min (Z.to_nat (ur_bufferEntrySize u)) (Z.to_nat (cqe_res e))) (cqe_data e) in
      if ur_recvHandler u then keep (ur_quitEvt u) (ur_armed u) received (ur_delivered u ++ [data]) (ur_pushed u) u
      else set_receiving (ur_recvBuf u) (ur_queuedMessages u ++ [data]) false (ur_quitEvt u) (ur_armed u) received (ur_delivered u) (ur_pushed u) u
  else
    let buf := cqe_data e ++ drop (length (cqe_data e)) (ur_recvBuf u) in
    if ur_recvHandler u
    then set_receiving buf (ur_queuedMessages u) true (ur_quitEvt u) (Some (length buf)) received
           (ur_delivered u ++ [take (Z.to_nat (cqe_res e)) buf]) (ur_pushed u) u
    else set_receiving [] (ur_queuedMessages u ++ [buf]) false (ur_quitEvt u) (Some 0%nat) received (ur_delivered u) (ur_pushed u) u.
Definition uring_setReceiveHandler (u : UringConnection) : UringConnection :=
  set_receiving (ur_recvBuf u) [] true (ur_quitEvt u) (ur_armed u) (ur_received u) (ur_delivered u ++ ur_queuedMessages u) (ur_pushed u) u.
(** What the kernel writes fits into the buffer of the recv, is [res] bytes long, and
    with provided buffers it says in which one. *)
Definition fits (e : cqe) (u : UringConnection) : Prop :=
  (0 < cqe_res e → Z.of_nat (length (cqe_data e)) = cqe_res e) ∧ (cqe_res e <= 0 → cqe_data e = []) ∧
  match ur_armed u with Some n => (length (cqe_data e) <= n)%nat | None => False end ∧ (ur_buffer u = true → cqe_hasBuffer e = true).

(** *** Sending *)

Definition set_sending (ss : list sending) (finished : list (nat * send_result)) (sent : list B) (u : UringConnection) : UringConnection :=
  mkUring (ur_socket u) (ur_sendTimeout u) (ur_recvTimeout u) (ur_bufferEntries u) (ur_bufferEntrySize u) (ur_buffer u) (ur_quit u) (ur_recvBuf u)
    (ur_queuedMessages u) (ur_recvHandler u) (ur_quitEvt u) (ur_armed u) ss finished sent (ur_received u) (ur_delivered u) (ur_pushed u).
Definition finish_send (id : nat) (r : send_result) (u : UringConnection) : UringConnection :=
  set_sending (ur_sending u) (ur_finished u ++ [(id, r)]) (ur_sent u) u.
(** The head of the loop of [sendAsync]: done, or submit what is left. *)
Definition submit_rest (id : nat) (rest : list B) (u : UringConnection) : UringConnection :=
  match rest with
  | [] => finish_send id SendOk u
  | _ => if ur_quit u then finish_send id (SendError SERVICE_QUITTING) u
         else set_sending (ur_sending u ++ [mkSending id rest false]) (ur_finished u) (ur_sent u) u
  end.
Definition uring_sendAsync (id : nat) (msg : list B) (u : UringConnection) : UringConnection :=
  if ur_quit u then finish_send id (SendError SERVICE_QUITTING) u else submit_rest id msg u.
(** [sendAsync] of several messages: one [sendmsg] for all of them. *)
Definition uring_sendAsyncAll (id : nat) (msgs : list (list B)) (u : UringConnection) : UringConnection :=
  if ur_quit u then finish_send id (SendError SERVICE_QUITTING) u
  else set_sending (ur_sending u ++ [mkSending id (concat msgs) true]) (ur_finished u) (ur_sent u) u.
(** The first submitted message is completed with a result and its coroutine goes on. *)
Definition send_completed (res : Z) (u : UringConnection) : outcome UringConnection :=
  match ur_sending u with
  | [] => Done u
  | s :: ss =>
      let u' := set_sending ss (ur_finished u) (ur_sent u ++ take (Z.to_nat res) (sd_rest s)) u in
      if res <? 0 then Done (finish_send (sd_id s) (SendError (mapErrnoToError res)) u')
      else if sd_all s then
        if res =? Z.of_nat (length (sd_rest s)) then Done (finish_send (sd_id s) SendOk u') else Terminated
      else Done (submit_rest (sd_id s) (drop (Z.to_nat res) (sd_rest s)) u')
  end.

(** Nobody else sends: the completions of one message, by the number of the call. *)
Variable send : nat → list B → Z.
Fixpoint send_alone (fuel calls : nat) (u : UringConnection) : outcome UringConnection :=
  match ur_sending u, fuel with
  | [], _ => Done u
  | _, O => Terminated
  | s :: _, S fuel' =>
      match send_completed (send calls (sd_rest s)) u with Done u' => send_alone fuel' (S calls) u' | Terminated => Terminated end
  end.

(** ** Lemmas *)

Definition uring_open (u : UringConnection) : Prop :=
  ur_quit u = false ∧ concat (ur_delivered u) ++ concat (ur_queuedMessages u) = ur_received u ∧
  (ur_recvHandler u = true → ur_queuedMessages u = []) ∧ (ur_buffer u = true ∨ ur_recvHandler u = true) ∧
  match ur_armed u with None => True | Some n => n = if ur_buffer u then Z.to_nat (ur_bufferEntrySize u) else length (ur_recvBuf u) end.

Lemma recv_completed_open e u : uring_open u → fits e u →
  uring_open (recv_completed e u) ∧ ur_sent (recv_completed e u) = ur_sent u ∧ ur_recvHandler (recv_completed e u) = ur_recvHandler u.
Proof.
  intros (Hq & Hs & Hh & Hm & Ha) (Hd & Hz & Hf & Hb). unfold recv_completed. rewrite Hq.
  destruct (Z.leb_spec (cqe_res e) 0) as [Hr|Hr].
  - rewrite (Hz Hr), app_nil_r. done.
  - specialize (Hd Hr). destruct (ur_armed u) as [n|] eqn:Ea; [|done]. destruct (ur_buffer u) eqn:Eb.
    + rewrite (Hb eq_refl). cbn [negb]. rewrite take_ge by lia. destruct (ur_recvHandler u) eqn:Eh; (split; [|done]); unfold uring_open; cbn; rewrite ?Eb, ?Ea.
      * split_and!; [done| |done|by left|done]. rewrite (Hh eq_refl) in *. cbn in *. rewrite !app_nil_r in *. rewrite concat_app, Hs. cbn. by rewrite app_nil_r.
      * split_and!; [done| |done|by left|done]. rewrite concat_app, app_assoc, Hs. cbn. by rewrite app_nil_r.
    + destruct Hm as [|Hm]; [done|]. rewrite Hm. split; [|done]. unfold uring_open; cbn; rewrite Eb. split_and!; [done| |by intros _; apply Hh|by right|done].
      rewrite (Hh Hm) in *. cbn in *. rewrite !app_nil_r in *. rewrite concat_app, Hs. cbn. rewrite app_nil_r. by rewrite take_app_length' by lia.
Qed.
Lemma uring_setReceiveHandler_open u : uring_open u → uring_open (uring_setReceiveHandler u).
Proof. intros (Hq & Hs & Hh & Hm & Ha). unfold uring_open; cbn. split_and!; [done| |done|by right|done]. by rewrite app_nil_r, concat_app. Qed.

Lemma send_alone_ends fuel : send_takes send → ∀ rest calls u id, ur_quit u = false → rest ≠ [] → ur_sending u = [mkSending id rest false] →
  (length rest <= fuel)%nat →
  ∃ r p, send_alone fuel calls u = Done (set_sending [] (ur_finished u ++ [(id, r)]) (ur_sent u ++ p) u) ∧
    match r with SendOk => p = rest | SendError _ => ∃ q, q ≠ [] ∧ p ++ q = rest end.
Proof.
  intros Hsend. induction fuel as [|fuel IH]; intros rest calls u id Hq Hne Hs Hf; [destruct rest; [done|cbn in Hf; lia]|].
  cbn [send_alone]. rewrite Hs. cbn [sd_rest]. unfold send_completed. rewrite Hs. cbn [sd_rest sd_id sd_all].
  destruct (Hsend calls rest Hne) as [Hr|[Hr Hl]].
  - rewrite (proj2 (Z.ltb_lt _ _) Hr). assert (Z.to_nat (send calls rest) = 0%nat) as -> by lia. exists (SendError (mapErrnoToError (send calls rest))), [].
    split; [by destruct fuel|]. by exists rest.
  - rewrite (proj2 (Z.ltb_ge _ _)) by lia. set (n := Z.to_nat (send calls rest)). assert (0 < n <= length rest)%nat as Hn by lia.
    unfold submit_rest. destruct (drop n rest) as [|x l] eqn:Ed.
    + exists SendOk, rest. assert (take n rest = rest) as Et by (rewrite <- (take_drop n rest) at 2; by rewrite Ed, app_nil_r). rewrite Et. split; [by destruct fuel|done].
    + cbn [ur_quit set_sending]. rewrite Hq. set (u1 := set_sending _ _ _ _).
      destruct (IH (x :: l) (S calls) u1 id) as (r & p & E & Hp); [done|done|done| |].
      { rewrite <- Ed, length_drop. cbn in *. lia. }
      exists r, (take n rest ++ p). rewrite E. cbn. rewrite <- app_assoc. split; [done|].
      destruct r; [by rewrite Hp, <- Ed, take_drop|]. destruct Hp as (q & Hq1 & Hq2). exists q. split; [done|]. by rewrite <- app_assoc, Hq2, <- Ed, take_drop.
Qed.
End uring.

#[global] Program Instance uring_connection_service {B} (zero : B) (send : nat → list B → Z) (Hsend : send_takes send)
  : IConnectionService B (UringConnection (B:=B)) := {|
  cs_open := uring_open;
  cs_sent := ur_sent;
  cs_received := ur_received;
  cs_delivered := ur_delivered;
  cs_handler := ur_recvHandler;
  cs_sendAsync msg r u u' := ur_sending u = [] ∧ ∃ id calls, send_alone send (length msg) calls (uring_sendAsync id msg u) = Done u' ∧
    ur_finished u' = ur_finished u ++ [(id, r)];
  cs_receive u u' := ∃ e, fits e u ∧ u' = recv_completed e u;
  cs_setReceiveHandler := uring_setReceiveHandler |}.
Next Obligation.
  intros B zero send Hsend u msg r u' Ho (Hs & id & calls & E & Hf). pose proof Ho as (Hq & _).
  unfold uring_sendAsync in E. rewrite Hq in E. destruct msg as [|x msg].
  - cbn [submit_rest length] in E. destruct (ur_sending (finish_send id SendOk u)) eqn:Es; cbn in Es; rewrite Hs in Es; [|done].
    cbn [send_alone] in E. unfold finish_send in E. cbn in E. rewrite Hs in E. simplify_eq. cbn in Hf. apply app_inv_head in Hf. simplify_eq.
    split; [exact Ho|]. split; [done|]. split; [done|]. exists []. cbn. by rewrite app_nil_r.
  - cbn [submit_rest] in E. rewrite Hq in E.
    destruct (send_alone_ends send (length (x :: msg)) Hsend (x :: msg) calls (set_sending (ur_sending u ++ [mkSending id (x :: msg) false]) (ur_finished u) (ur_sent u) u) id)
      as (r' & p & E' & Hp); [done|done|cbn; by rewrite Hs|done|].
    rewrite E' in E. simplify_eq. cbn in Hf. apply app_inv_head in Hf. simplify_eq.
    split; [exact Ho|]. split; [done|]. split; [done|]. exists p. done.
Qed.
Next Obligation. intros B zero send Hsend u u' Ho (e & Hf & ->). by apply recv_completed_open. Qed.
Next Obligation. intros B zero send Hsend u Ho. split; [by apply uring_setReceiveHandler_open|done]. Qed.
Next Obligation. intros B zero send Hsend u (Hq & Hs & Hh & _) Hr. rewrite (Hh Hr) in Hs. cbn in Hs. by rewrite app_nil_r in Hs. Qed.

(** ** What goes wrong *)

(** Two messages that are sent at the same time, the first one in two parts: both
    calls report success, and the second message is in the middle of the first one. *)
Example messages_interleave :
  match send_completed 1 (uring_sendAsync 2 [7] (uring_sendAsync 1 [1; 2] (new_uring (B:=Z)))) with
  | Done u1 => match send_completed 1 u1 with
      | Done u2 => match send_completed 1 u2 with
          | Done u3 => ur_finished u3 = [(2%nat, SendOk); (1%nat, SendOk)] ∧ ur_sent u3 = [1; 7; 2]
          | Terminated => False end
      | Terminated => False end
  | Terminated => False end.
Proof. by vm_compute. Qed.
(** Several messages, of which the kernel takes a part: the program is terminated. *)
Example partial_sendmsg_terminates : send_completed 1 (uring_sendAsyncAll 1 [[1]; [2]] (new_uring (B:=Z))) = Terminated.
Proof. reflexivity. Qed.
(** The errors of [send] are negative when they are mapped, so that they are all FAILED. *)
Lemma uring_send_error_unknown {B} res (s : sending (B:=B)) ss u : ur_sending u = s :: ss → res < 0 →
  ∃ u', send_completed res u = Done u' ∧ ur_finished u' = ur_finished u ++ [(sd_id s, SendError FAILED)].
Proof. intros E Hr. unfold send_completed. rewrite E, (proj2 (Z.ltb_lt _ _) Hr), mapErrno_negative by done. by eexists. Qed.

Definition old_kernel : Version := mkVersion 5 15 0.
Definition with_socket : connection_properties := mkProps None None None (Some 5) false false None None None.
(** Without provided buffers and before there is a receive handler, the whole buffer is
    queued, not the bytes that arrived, and the next recv is given no room. *)
Example queued_buffer_is_padded :
  let u := snd (uring_start 0 old_kernel with_socket 0 0 0 false (new_uring (B:=Z))) in
  let u' := recv_completed (mkCqe 2 [1; 2] false) u in
  ur_received u' = [1; 2] ∧ map (length (A:=Z)) (ur_queuedMessages u') = [2048%nat] ∧ ur_armed u' = Some 0%nat.
Proof. by vm_compute. Qed.
(** The property RecvBufferSize reserves memory but leaves the buffer empty. *)
Example sized_buffer_is_empty :
  ur_armed (snd (uring_start 0 old_kernel (mkProps None None None (Some 5) false false (Some 4096%nat) None None) 0 0 0 false (new_uring (B:=Z)))) = Some 0%nat.
Proof. reflexivity. Qed.
(** The result of [connect] does not matter. *)
Lemma uring_connect_ignored {B} (zero : B) v p socket pton connect connect' buffers u :
  uring_start zero v p socket pton connect buffers u = uring_start zero v p socket pton connect' buffers u.
Proof. reflexivity. Qed.
