(* ===== verification/HttpOverTcp.v ===== *)
(** * HTTP over TCP connections

    The HTTP client and the HTTP server, each on top of a connection that provides
    [IConnectionService], polled or over io_uring: HttpConnectionService.cpp and
    HttpHostService.cpp with TcpConnectionService.cpp or IOUringTcpConnectionService.cpp.
    The theorems are about the interface; they hold for each pair of connections. *)

From Stdlib Require Import Ascii String.
From stdpp Require Import base list sets strings.
From Stdlib Require Import ZArith Lia.
From S2P Require Import Prelude.
From S2P Require Import DenseMap.
From S2P Require Import StringUtils.
From S2P Require Import HttpCommon.
From S2P Require Import HttpText.
From S2P Require Import HttpConnection.
From S2P Require Import HttpHost.
From S2P Require Import HttpRequests.
From S2P Require Import HttpServer.
From S2P Require Import HttpResponses.
From S2P Require Import HttpClient.
From S2P Require Import HttpExamples.
From S2P Require Import TcpConnection.
From S2P Require Import UringConnection.

Open Scope Z_scope.

(** ** Use of a connection *)

Section usage.
Context {B C : Type} `{IConnectionService B C}.
(** Messages that are sent with success, while the kernel hands out what it has at any
    time in between. *)
Inductive usage : C → list (list B) → C → Prop :=
  | usage_done c : usage c [] c
  | usage_send c msg c1 msgs c2 : cs_sendAsync msg SendOk c c1 → usage c1 msgs c2 → usage c (msg :: msgs) c2
  | usage_receive c c1 msgs c2 : cs_receive c c1 → usage c1 msgs c2 → usage c msgs c2.

Lemma usage_law c msgs c' : usage c msgs c' → cs_open c →
  cs_open c' ∧ cs_handler c' = cs_handler c ∧ cs_sent c' = cs_sent c ++ concat msgs.
Proof.
  induction 1 as [c|c msg c1 msgs c2 Hs _ IH|c c1 msgs c2 Hr _ IH]; intros Ho.
  - cbn. by rewrite app_nil_r.
  - destruct (cs_send_law c msg SendOk c1 Ho Hs) as (Ho1 & _ & Hh & p & Hp & ->). destruct (IH Ho1) as (? & Hh2 & Hs2).
    split; [done|]. split; [congruence|]. cbn. by rewrite Hs2, Hp, app_assoc.
  - destruct (cs_receive_law c c1 Ho Hr) as (Ho1 & Hs & Hh). destruct (IH Ho1) as (? & Hh2 & Hs2). split; [done|]. split; congruence.
Qed.
(** A connection that has a receive handler and was not used yet. *)
Definition fresh (c : C) : Prop := cs_open c ∧ cs_handler c = true ∧ cs_sent c = [].
Lemma fresh_used c msgs c' : fresh c → usage c msgs c' →
  cs_sent c' = concat msgs ∧ concat (cs_delivered c') = cs_received c'.
Proof.
  intros (Ho & Hh & Hs) Hu. destruct (usage_law c msgs c' Hu Ho) as (Ho' & Hh' & Hs'). rewrite Hs in Hs'. split; [done|].
  apply cs_stream_law; [done|congruence].
Qed.
End usage.

(** ** An exchange *)

Section exchange.
Context {handler : Type} (fmt_uint : Z → cstring) (answer : HttpRequest → handler → HttpResponse) (react : nat → reply → nat).
Context (Hfmt : prints_decimal fmt_uint).
Context {C S : Type} `{IC : IConnectionService ascii C} `{IS : IConnectionService ascii S}.

(** What the receive handler of the server is called with. *)
Definition segments (ops : list host_op) : list cstring := ops ≫= λ o, match o with Bytes segment => [segment] | Run => [] end.
Lemma arrived_segments ops : arrived ops = concat (segments ops).
Proof. unfold arrived, segments. induction ops as [|[s|] ops IH]; cbn; [done|by rewrite IH|done]. Qed.

Definition given (h : Host) (os : list outgoing) : list HttpResponse := (λ o, respond answer h (received fmt_uint o)) <$> os.
Lemma responses_given h os : responses fmt_uint answer h os = render_response fmt_uint <$> given h os.
Proof. unfold responses, given. by rewrite <- list_fmap_compose. Qed.

(** C16: An HTTP client and an HTTP server that are connected by two connections, each
    of the kind that is polled or the kind over io_uring.  The client sends requests; if
    what the kernel takes from the one connection is what it hands out on the other one,
    however it is cut into pieces on the way, and runs of the server come anywhere in
    between: the server gives the answers of its handlers to its connection, one for each
    request, in their order; and when these arrive at the client in any pieces, each
    waiting request is resumed with the answer to it, whatever the code that waited
    sends.

    A run of the server may be suspended at each of its awaits, of a handler or of a send,
    while anything happens to other connections ([exec_all]); but it is over before more bytes
    arrive on its connection and before the next run for it: of what happens otherwise see
    [request_handled_twice] in HttpAnomalies.v.  Every send succeeds.  The requests are such that the server reads
    them as they were meant ([out_ok]: no blank and no line break in a route, no line break and
    no ': ' in a header, no Content-Length of the client's own), the responses such that the
    client does ([response_ok]), and all requests, and all responses, are together at
    most 512 MiB, the size at which a buffer is given up.  The connections are new, and no bytes wait in
    the buffers. *)
Theorem http_exchange id h os ops (cc cc' : C) (cs cs' : S) replied cl a m fuel :
  Forall (out_ok fmt_uint) os → Forall response_ok (given h os) →
  Z.of_nat (length (stream os)) ≤ buffer_limit → Z.of_nat (length (answers fmt_uint (given h os))) ≤ buffer_limit →
  dcontains id (hs_connections h) = true → buffer id h = [] → cl_buffer cl = [] → waiting cl a m → (length os ≤ m)%nat →
  fresh cc → fresh cs → usage cc (o_bytes <$> os) cc' → usage cs replied cs' →
  cs_received cs' = cs_sent cc' → segments ops = cs_delivered cs' →
  replied = responses fmt_uint answer h os → cs_received cc' = cs_sent cs' →
  (∃ x, exec_all fmt_uint answer id (ops ++ [Run]) h x) ∧
  (∀ x, exec_all fmt_uint answer id (ops ++ [Run]) h x →
     ∃ h', x = Ran h' ∧ sent_to id h' = sent_to id h ++ replied ∧ buffer id h' = []) ∧
  (∃ cl' m', receive_all react fuel (cs_delivered cc') cl = Ran cl' ∧ cl_delivered cl' = cl_delivered cl ++ replies fmt_uint a (given h os) ∧
     waiting cl' (a + length os) m' ∧ cl_buffer cl' = []).
Proof.
  intros Hos Hrs Hb1 Hb2 Hid Hbuf Hclb Hw Hm Hc Hs Huc Hus Hnet1 Hops Hrep Hnet2.
  destruct (fresh_used cc _ cc' Hc Huc) as [Hcs Hcd]. destruct (fresh_used cs _ cs' Hs Hus) as [Hss Hsd]. split_and!.
  - apply exec_all_exists.
  - intros x Hx. rewrite Hrep. apply (server_answers fmt_uint Hfmt answer id os ops h x); try done.
    by rewrite arrived_segments, Hops, Hsd, Hnet1, Hcs.
  - rewrite responses_given in Hrep.
    destruct (client_delivers fmt_uint react Hfmt (cs_delivered cc') (given h os) cl a m fuel) as (cl' & m' & E & Hd & Hw' & He); [done|done| |done|done| |].
    + unfold answers. by rewrite <- Hrep, Hcd, Hnet2, Hss.
    + unfold given. by rewrite length_fmap.
    + exists cl', m'. unfold given in Hw'. rewrite length_fmap in Hw'. done.
Qed.
End exchange.

(** A polled connection on the side of the client, one over io_uring on the side of the
    server, and a kernel that takes at most 30 bytes at once. *)
Definition takes_30 (n : nat) (l : cstring) : Z := Z.min 30 (Z.of_nat (length l)).
Lemma takes_30_ok : send_takes takes_30.
Proof. intros n l Hl. right. unfold takes_30. destruct l; [done|]. cbn [length]. lia. Qed.
Definition given_out {X} (r : outcome (send_result * X)) (d : X) : X := match r with Done (_, x) => x | Terminated => d end.

Definition client_side : TcpConnection := tcp_setReceiveHandler (new_tcp (B:=ascii)).
Definition server_side : UringConnection :=
  uring_setReceiveHandler (snd (uring_start NUL (mkVersion 6 1 0) with_socket 0 0 0 true (new_uring (B:=ascii)))).
Definition posted : cstring := o_bytes post_message.
Definition reply_bytes : cstring := concat (render_response decimal <$> given decimal greet small_host [post_message]).
Definition client_sent : TcpConnection := given_out (tcp_sendAsync takes_30 posted client_side) client_side.
Definition client_end : TcpConnection :=
  match recvHandler [RecvData (take 10 reply_bytes); RecvData (drop 10 reply_bytes); RecvError EAGAIN] true client_sent with Some c => c | None => client_sent end.
Definition server_got : UringConnection := recv_completed (mkCqe (Z.of_nat (length posted)) posted true) server_side.
Definition server_end : UringConnection :=
  match send_alone takes_30 (length reply_bytes) 0 (uring_sendAsync 0 reply_bytes server_got) with Done u => u | Terminated => server_got end.

#[local] Instance client_service : IConnectionService ascii TcpConnection := tcp_connection_service takes_30 takes_30_ok.
#[local] Instance server_service : IConnectionService ascii UringConnection := uring_connection_service NUL takes_30 takes_30_ok.

Lemma client_usage : usage client_side [posted] client_end.
Proof.
  apply (usage_send client_side posted client_sent); [left; vm_compute; reflexivity|].
  apply (usage_receive client_sent client_end); [|apply usage_done].
  exists [RecvData (take 10 reply_bytes); RecvData (drop 10 reply_bytes); RecvError EAGAIN], true. vm_compute. reflexivity.
Qed.
Lemma server_usage : usage server_side [reply_bytes] server_end.
Proof.
  apply (usage_receive server_side server_got).
  - exists (mkCqe (Z.of_nat (length posted)) posted true). split; [|reflexivity]. split_and!; [done|intros H; vm_compute in H; done|vm_compute; lia|done].
  - apply (usage_send server_got reply_bytes server_end); [|apply usage_done]. split; [vm_compute; reflexivity|]. exists 0%nat, 0%nat. split; vm_compute; reflexivity.
Qed.
Lemma http_exchange_witness :
  (∃ x, exec_all decimal greet 7 ([Bytes posted] ++ [Run]) small_host x) ∧
  (∀ x, exec_all decimal greet 7 ([Bytes posted] ++ [Run]) small_host x →
     ∃ h', x = Ran h' ∧ sent_to 7 h' = sent_to 7 small_host ++ [reply_bytes] ∧ buffer 7 h' = []) ∧
  (∃ cl' m', receive_all (λ _ _, 0%nat) 5 (cs_delivered client_end) small_client = Ran cl' ∧
     cl_delivered cl' = cl_delivered small_client ++ replies decimal 0 (given decimal greet small_host [post_message]) ∧
     waiting cl' (0 + 1) m' ∧ cl_buffer cl' = []).
Proof.
  apply (http_exchange decimal greet (λ _ _, 0%nat) decimal_prints 7 small_host [post_message] [Bytes posted]
    client_side client_end server_side server_end [reply_bytes] small_client 0 2 5).
  - constructor; [split; [exact post_message_fits|vm_compute; reflexivity]|constructor].
  - constructor; [|constructor]. unfold response_ok. split_and!; by_evaluation.
  - vm_compute. discriminate.
  - vm_compute. discriminate.
  - vm_compute. reflexivity.
  - vm_compute. reflexivity.
  - reflexivity.
  - split; reflexivity.
  - auto.
  - split_and!; [split_and!; [reflexivity|reflexivity|reflexivity]|reflexivity|reflexivity].
  - split_and!; [split_and!; [reflexivity|reflexivity|reflexivity|left; reflexivity|reflexivity]|reflexivity|reflexivity].
  - exact client_usage.
  - exact server_usage.
  - vm_compute. reflexivity.
  - vm_compute. reflexivity.
  - vm_compute. reflexivity.
  - vm_compute. reflexivity.
Defined.
