(* ===== verification/TcpHost.v ===== *)
(** * TCP hosts

    src/services/network/tcp/TcpHostService.cpp, which accepts connections when a timer
    fires, and IOUringTcpHostService.cpp, which is told by io_uring.  What the kernel and
    the resolver answer are arguments.  The first kind announces a socket by an event,
    which the manager hands to every host that listens for it. *)

From stdpp Require Import base list option.
From Stdlib Require Import ZArith Lia.
From S2P Require Import Prelude.
From S2P Require Import StringUtils.
From S2P Require Import TcpConnection.
From S2P Require Import UringConnection.

Local Open Scope Z_scope.

(** ** Addresses *)

Section hosts.
(** [inet_aton] and [gethostbyname]. *)
Context (inet_aton gethostbyname : cstring → option Z).
Definition INADDR_ANY : Z := 0.
(** The address [start()] binds to; [None]: it fails.  [sin_addr] is 0 at first. *)
Definition resolve (address : option cstring) : option Z :=
  match address with
  | Some hostname =>
      match inet_aton hostname with
      | Some _ => gethostbyname hostname
      | None => Some 0
      end
  | None => Some INADDR_ANY
  end.

(** ** The host that is polled *)

Inductive host_event : Type :=
  | NewSocketEvent (originatingService priority socket : Z)
  | StopHost.
(** The properties a new connection gets. *)
Record connection_request := mkRequested { rq_priority : Z; rq_socket : Z; rq_timeoutSend : Z; rq_timeoutRecv : option Z; rq_hostService : Z;
  rq_bufferEntries : option Z; rq_bufferEntrySize : option Z }.
Record TcpHost := mkHost {
  th_id : Z;
  th_socket : Z;
  th_bindFd : Z;
  th_priority : Z;
  th_sendTimeout : Z;
  th_recvTimeout : Z;
  th_quit : bool;
  th_timer : option bool;
  th_connections : list Z;
  th_registered : bool;                       (* listens for NewSocketEvent *)
  (* outside *)
  th_bound : option Z;
  th_pushed : list host_event;
  th_created : list connection_request }.
Definition new_host (id : Z) : TcpHost := mkHost id (-1) 0 1000 250000 250000 false None [] false None [] [].

(** [start()], with what [socket], [bind] and [listen] return. *)
Definition host_start (priority : option Z) (address : option cstring) (socket bind listen : Z) (h : TcpHost) : start_result * TcpHost :=
  let prio := override priority (th_priority h) in
  let set s b t bound := mkHost (th_id h) s b prio (th_sendTimeout h) (th_recvTimeout h) (th_quit h) t (th_connections h) true bound (th_pushed h) (th_created h) in
  if socket =? -1 then (StartFailed, set socket (th_bindFd h) (th_timer h) (th_bound h))
  else
    match resolve address with
    | None => (StartFailed, set (-1) (th_bindFd h) (th_timer h) (th_bound h))
    | Some a =>
        if bind =? -1 then (StartFailed, set (-1) bind (th_timer h) (th_bound h))
        else if negb (listen =? 0) then (StartFailed, set (-1) bind (th_timer h) (Some a))
        else (Started, set socket bind (Some true) (Some a))
    end.
Definition host_stop (h : TcpHost) : TcpHost :=
  mkHost (th_id h) (th_socket h) (th_bindFd h) (th_priority h) (th_sendTimeout h) (th_recvTimeout h) true None (th_connections h) false (th_bound h) (th_pushed h) (th_created h).
Definition host_setPriority (priority : Z) (h : TcpHost) : TcpHost :=
  mkHost (th_id h) (th_socket h) (th_bindFd h) priority (th_sendTimeout h) (th_recvTimeout h) (th_quit h) (th_timer h) (th_connections h) (th_registered h) (th_bound h)
    (th_pushed h) (th_created h).
Definition set_pushed (timer : option bool) (pushed : list host_event) (h : TcpHost) : TcpHost :=
  mkHost (th_id h) (th_socket h) (th_bindFd h) (th_priority h) (th_sendTimeout h) (th_recvTimeout h) (th_quit h) timer (th_connections h) (th_registered h) (th_bound h)
    pushed (th_created h).
(** [acceptHandler()], with what [accept] returns; the timer is started again. *)
Definition acceptHandler (newConnection errno : Z) (h : TcpHost) : TcpHost :=
  if th_quit h then h
  else if newConnection =? -1 then
    if errno =? EAGAIN then set_pushed (Some true) (th_pushed h) h else set_pushed (Some true) (th_pushed h ++ [StopHost]) h
  else set_pushed (Some true) (th_pushed h ++ [NewSocketEvent (th_id h) (th_priority h) newConnection]) h.
(** [handleEvent(NewSocketEvent)], with the id of the new service. *)
Definition create_connection (service : Z) (r : connection_request) (h : TcpHost) : TcpHost :=
  mkHost (th_id h) (th_socket h) (th_bindFd h) (th_priority h) (th_sendTimeout h) (th_recvTimeout h) (th_quit h) (th_timer h) (th_connections h ++ [service]) (th_registered h)
    (th_bound h) (th_pushed h) (th_created h ++ [r]).
Definition handleNewSocket (socket service : Z) (h : TcpHost) : TcpHost :=
  create_connection service (mkRequested (th_priority h) socket (th_sendTimeout h) None (th_id h) None None) h.
(** The manager hands the event to all that listen; it creates services with ids from
    [next] on. *)
Fixpoint deliver_socket (socket next : Z) (hosts : list TcpHost) : list TcpHost :=
  match hosts with
  | [] => []
  | h :: hs => if th_registered h then handleNewSocket socket next h :: deliver_socket socket (next + 1) hs else h :: deliver_socket socket next hs
  end.
Definition created_for (socket : Z) (hosts : list TcpHost) : list connection_request :=
  filter (λ r, rq_socket r = socket) (hosts ≫= th_created).

(** ** The host over io_uring *)

Record UringHost := mkUHost { uh_host : TcpHost; uh_listenBacklogSize : Z; uh_bufferEntries : option Z; uh_bufferEntrySize : option Z; uh_quitEvt : bool;
  uh_armed : bool }.   (* an accept is submitted *)
(** [start()]; there is no timer and no event handler. *)
Definition uring_host_start (v : Version) (priority backlog entries size : option Z) (address : option cstring) (socket bind listen : Z) (u : UringHost)
    : start_result * UringHost :=
  let h := uh_host u in
  let prio := override priority (th_priority h) in
  let set s b bound armed :=
    mkUHost (mkHost (th_id h) s b prio (th_sendTimeout h) (th_recvTimeout h) (th_quit h) (th_timer h) (th_connections h) (th_registered h) bound (th_pushed h) (th_created h))
      (override backlog (uh_listenBacklogSize u)) (match entries with Some e => Some e | None => uh_bufferEntries u end)
      (match size with Some e => Some e | None => uh_bufferEntrySize u end) (uh_quitEvt u) armed in
  if at_least v 5 19 0 && (socket <? 0) then (StartFailed, set (th_socket h) (th_bindFd h) (th_bound h) (uh_armed u))
  else
    match resolve address with
    | None => (StartFailed, set (-1) (th_bindFd h) (th_bound h) (uh_armed u))
    | Some a =>
        if bind =? -1 then (StartFailed, set (-1) bind (th_bound h) (uh_armed u))
        else if negb (listen =? 0) then (StartFailed, set (-1) bind (Some a) (uh_armed u))
        else (Started, set socket bind (Some a) true)
    end.
Definition set_uhost (h : TcpHost) (quitEvt armed : bool) (u : UringHost) : UringHost :=
  mkUHost h (uh_listenBacklogSize u) (uh_bufferEntries u) (uh_bufferEntrySize u) quitEvt armed.
Definition uring_host_quit (socket : Z) (u : UringHost) : UringHost :=
  let h := uh_host u in
  set_uhost (mkHost (th_id h) socket (th_bindFd h) (th_priority h) (th_sendTimeout h) (th_recvTimeout h) true (th_timer h) (th_connections h) (th_registered h) (th_bound h)
    (th_pushed h) (th_created h)) (uh_quitEvt u) (uh_armed u) u.
Definition uring_host_stop_begin (u : UringHost) : UringHost := uring_host_quit (th_socket (uh_host u)) u.
Definition uring_host_stop_end (u : UringHost) : option UringHost :=
  if 0 <=? th_socket (uh_host u) then if uh_quitEvt u then Some (uring_host_quit 0 u) else None else Some u.
(** The function of [createAcceptHandler()]: [res], whether IORING_CQE_F_MORE is set,
    the id of the new service.  A multishot accept stays submitted as long as it is set. *)
Definition accept_completed (v : Version) (res : Z) (more : bool) (service : Z) (u : UringHost) : UringHost :=
  let h := uh_host u in
  if th_quit h then set_uhost h true (if at_least v 5 19 0 then more else false) u
  else if res <=? 0 then set_uhost (set_pushed (th_timer h) (th_pushed h ++ [StopHost]) h) true (if at_least v 5 19 0 then more else false) u
  else
    let r := mkRequested (th_priority h) res (th_sendTimeout h) (Some (th_recvTimeout h)) (th_id h) (uh_bufferEntries u) (uh_bufferEntrySize u) in
    (* submitted again, or still submitted *)
    set_uhost (create_connection service r h) (uh_quitEvt u) true u.

(** ** Lemmas *)

(** One host: one connection for each socket. *)
Lemma one_host_one_connection socket next h : th_registered h = true →
  created_for socket (deliver_socket socket next [h]) = created_for socket [h] ++ [mkRequested (th_priority h) socket (th_sendTimeout h) None (th_id h) None None].
Proof.
  intros Hr. unfold created_for. cbn [deliver_socket]. rewrite Hr. cbn. rewrite !app_nil_r, list.filter_app. f_equal. rewrite list.filter_cons, list.filter_nil. cbn.
  by rewrite decide_True.
Qed.
(** A host over io_uring that runs has an accept submitted whatever it accepts. *)
Lemma uring_host_keeps_accepting v res more service u : th_quit (uh_host u) = false → 0 < res →
  uh_armed (accept_completed v res more service u) = true ∧ th_connections (uh_host (accept_completed v res more service u)) = th_connections (uh_host u) ++ [service].
Proof. intros Hq Hr. unfold accept_completed. rewrite Hq, (proj2 (Z.leb_gt _ _)) by lia. done. Qed.

(** Hosts do not look from where the event comes: with two of them in a manager, each
    socket gets two connections. *)
Lemma two_hosts_two_connections socket next h1 h2 : th_registered h1 = true → th_registered h2 = true →
  created_for socket (deliver_socket socket next [h1; h2]) ≡ₚ
  mkRequested (th_priority h1) socket (th_sendTimeout h1) None (th_id h1) None None ::
  mkRequested (th_priority h2) socket (th_sendTimeout h2) None (th_id h2) None None :: created_for socket [h1; h2].
Proof.
  intros H1 H2. unfold created_for. cbn [deliver_socket]. rewrite H1, H2. cbn. rewrite !app_nil_r, !list.filter_app, !list.filter_cons, !list.filter_nil. cbn.
  rewrite !decide_True by done. solve_Permutation.
Qed.
(** A name that is not an address in digits is never looked up: the host accepts
    connections on all addresses. *)
Lemma host_name_not_resolved name : inet_aton name = None → resolve (Some name) = Some INADDR_ANY.
Proof. intros E. unfold resolve. by rewrite E. Qed.
End hosts.
