(* ===== verification/TimerFactory.v ===== *)
(** * Timer factories

    include/ichor/services/timer/TemplatedTimerFactory.h: the timers of one service, and
    how they are stopped together; src/services/timer/TimerFactoryFactory.cpp (and
    IOUringTimerFactoryFactory.cpp, which does the same with other timers): one factory
    for each service that asks for timers, and how they are all stopped.

    A timer is the one of Timer.v.  The callback that is given to [stopTimer] is called
    at once or comes later, once ([Timer.timer_callbacks_once]); the callbacks that have
    still to come are counted. *)

From stdpp Require Import base list option sets relations.
From Stdlib Require Import ZArith Lia.
From S2P Require Import Prelude.
From S2P Require Import DenseMap.
From S2P Require Import Timer.

Local Open Scope Z_scope.

(** ** The factory of one service *)

Record Factory := mkFactory {
  tf_active : bool;                 (* isStarted() *)
  tf_timers : list (Z * Timer);     (* with their ids *)
  tf_stoppedTimers : Z;
  tf_quitEvt : bool;
  tf_stoppingTimers : bool;
  (* outside *)
  tf_pending : nat;                 (* callbacks of stopTimer that have still to come *)
  tf_awaiting : nat }.              (* coroutines that await _quitEvt *)

Definition set_timers (ts : list (Z * Timer)) (f : Factory) : Factory :=
  mkFactory (tf_active f) ts (tf_stoppedTimers f) (tf_quitEvt f) (tf_stoppingTimers f) (tf_pending f) (tf_awaiting f).
(** [createTimer()], with the id from the counter; hardened. *)
Definition createTimer (id : Z) (f : Factory) : outcome Factory :=
  if negb (tf_active f) then Terminated else if tf_stoppingTimers f then Terminated
  else Done (set_timers (tf_timers f ++ [(id, new_timer)]) f).
Definition getTimerById (id : Z) (f : Factory) : outcome (option Timer) :=
  if negb (tf_active f) then Terminated else if tf_stoppingTimers f then Terminated
  else Done ((λ found, found.2.2) <$> list_find (λ t, t.1 = id) (tf_timers f)).
(** [destroyTimerIfStopped]: whether a timer was erased. *)
Definition destroyTimerIfStopped (id : Z) (f : Factory) : outcome (bool * Factory) :=
  if negb (tf_active f) then Terminated
  else
    let ts := filter (λ t, ¬ (t.1 = id ∧ tm_state t.2 ≠ RUNNING)) (tf_timers f) in
    Done (negb (Nat.eqb (length ts) (length (tf_timers f))), set_timers ts f).
(** [_quitEvt.set()] resumes all that wait. *)
Definition set_quitEvt (f : Factory) : Factory :=
  mkFactory (tf_active f) (tf_timers f) (tf_stoppedTimers f) true (tf_stoppingTimers f) (tf_pending f) 0.
(** The callback that is given to [stopTimer]. *)
Definition timer_stopped (f : Factory) : Factory :=
  let f' := mkFactory (tf_active f) (tf_timers f) (wrap64 (tf_stoppedTimers f + 1)) (tf_quitEvt f) (tf_stoppingTimers f) (tf_pending f) (tf_awaiting f) in
  if tf_stoppedTimers f' =? Z.of_nat (length (tf_timers f')) then set_quitEvt f' else f'.
Definition set_pending (n : nat) (f : Factory) : Factory :=
  mkFactory (tf_active f) (tf_timers f) (tf_stoppedTimers f) (tf_quitEvt f) (tf_stoppingTimers f) n (tf_awaiting f).
(** The loop of [stopAllTimers()] on the timers from the i-th on. *)
Fixpoint stop_loop (n i : nat) (f : Factory) : Factory :=
  match n with
  | O => f
  | S n' =>
      match tf_timers f !! i with
      | None => f
      | Some (id, t) =>
          let '(_, called, t') := stopTimer (Some 0%nat) t in
          let f' := set_timers (<[i := (id, t')]> (tf_timers f)) f in
          stop_loop n' (S i) (if called then timer_stopped f' else set_pending (S (tf_pending f')) f')
      end
  end.
Definition await_quitEvt (f : Factory) : Factory :=
  if tf_quitEvt f then f
  else mkFactory (tf_active f) (tf_timers f) (tf_stoppedTimers f) (tf_quitEvt f) (tf_stoppingTimers f) (tf_pending f) (S (tf_awaiting f)).
Definition stopAllTimers (f : Factory) : Factory :=
  if tf_stoppingTimers f then await_quitEvt f
  else
    let f1 := mkFactory (tf_active f) (tf_timers f) 0 (tf_quitEvt f) true (tf_pending f) (tf_awaiting f) in
    let f2 := stop_loop (length (tf_timers f)) 0 f1 in
    match tf_timers f2 with [] => set_quitEvt f2 | _ => await_quitEvt f2 end.
(** [stop()] of the service. *)
Definition factory_stop (f : Factory) : Factory := if tf_stoppingTimers f then await_quitEvt f else stopAllTimers f.
(** A callback that was still to come. *)
Definition callback_comes (f : Factory) : Factory := timer_stopped (set_pending (pred (tf_pending f)) f).
(** What happens to a factory whose timers are being stopped: callbacks come, more code stops the
    timers, and timers are destroyed. *)
Inductive stopping_step : Factory → Factory → Prop :=
  | step_callback f : (0 < tf_pending f)%nat → stopping_step f (callback_comes f)
  | step_stop_again f : stopping_step f (stopAllTimers f)
  | step_stop f : stopping_step f (factory_stop f)
  | step_destroy id erased f f' : destroyTimerIfStopped id f = Done (erased, f') → stopping_step f f'.

(** *** Stopping *)

(** The callbacks that were called and those that are to come, while the loop is at the
    i-th timer and behind it. *)
Record stopping_inv (i : nat) (f : Factory) : Prop := mkStopping {
  st_flag : tf_stoppingTimers f = true;
  st_count : tf_stoppedTimers f + Z.of_nat (tf_pending f) = Z.of_nat i;
  st_range : 0 <= tf_stoppedTimers f;
  st_size : (i <= length (tf_timers f))%nat ∧ Z.of_nat (length (tf_timers f)) < u64_mod;
  st_event : tf_quitEvt f = bool_decide (tf_stoppedTimers f = Z.of_nat (length (tf_timers f)) ∧ (0 < length (tf_timers f))%nat);
  st_waiting : tf_quitEvt f = true → tf_awaiting f = 0%nat }.

Lemma timer_stopped_inv i j f : stopping_inv i f → (tf_stoppedTimers f < Z.of_nat (length (tf_timers f))) → (j <= length (tf_timers f))%nat →
  tf_stoppedTimers f + 1 + Z.of_nat (tf_pending f) = Z.of_nat j → stopping_inv j (timer_stopped f).
Proof.
  intros [H1 H2 H3 [H4 H4'] H5 H6] Hlt Hj Hc. unfold timer_stopped. cbn.
  assert (wrap64 (tf_stoppedTimers f + 1) = tf_stoppedTimers f + 1) as -> by (apply Z.mod_small; unfold u64_mod in *; lia).
  destruct (Z.eqb_spec (tf_stoppedTimers f + 1) (Z.of_nat (length (tf_timers f)))) as [E|E]; constructor; cbn; try done; try lia.
  - rewrite bool_decide_eq_true_2; [done|]. split; [done|lia].
  - rewrite H5. apply bool_decide_ext. split; intros [? ?]; lia.
Qed.
Lemma stop_loop_inv n : ∀ i f, stopping_inv i f → (n + i = length (tf_timers f))%nat →
  stopping_inv (length (tf_timers f)) (stop_loop n i f) ∧ length (tf_timers (stop_loop n i f)) = length (tf_timers f).
Proof.
  induction n as [|n IH]; intros i f Hi Hn; cbn [stop_loop]; [by rewrite <- Hn|].
  destruct (tf_timers f !! i) as [[id t]|] eqn:Et; [|apply lookup_ge_None in Et; lia].
  destruct (stopTimer (Some 0%nat) t) as [[r called] t']. set (f' := set_timers (<[i:=(id, t')]> (tf_timers f)) f).
  assert (length (tf_timers f') = length (tf_timers f)) as Hl by apply length_insert.
  assert (stopping_inv i f') as Hi'.
  { destruct Hi as [H1 H2 H3 H4 H5 H6]. constructor; cbn; rewrite ?length_insert; done. }
  destruct called.
  - assert (length (tf_timers (timer_stopped f')) = length (tf_timers f)) as Hl'.
    { unfold timer_stopped. by destruct (_ =? _). }
    destruct (IH (S i) (timer_stopped f')) as [IH1 IH2].
    + destruct Hi' as [H1 H2 H3 H4 H5 H6]. eapply (timer_stopped_inv i); [by constructor|lia|lia|]. lia.
    + lia.
    + rewrite Hl' in *. done.
  - destruct (IH (S i) (set_pending (S (tf_pending f')) f')) as [IH1 IH2].
    + destruct Hi' as [H1 H2 H3 [H4 H4'] H5 H6]. constructor; cbn [set_pending tf_stoppingTimers tf_stoppedTimers tf_pending tf_timers tf_quitEvt tf_awaiting]; try done; lia.
    + cbn [set_pending tf_timers]. lia.
    + cbn [set_pending tf_timers] in *. rewrite Hl in *. done.
Qed.

Lemma await_quitEvt_inv i f : stopping_inv i f → stopping_inv i (await_quitEvt f) ∧ tf_timers (await_quitEvt f) = tf_timers f.
Proof.
  intros Hi. unfold await_quitEvt. destruct (tf_quitEvt f) eqn:Eq; [done|]. destruct Hi as [K1 K2 K3 K4 K5 K6]. split; [|done].
  constructor; cbn; try done. by rewrite Eq in K5.
Qed.
(** A factory whose timers can be stopped. *)
Definition usable (f : Factory) : Prop :=
  tf_stoppingTimers f = false ∧ tf_quitEvt f = false ∧ tf_pending f = 0%nat ∧ tf_awaiting f = 0%nat ∧ Z.of_nat (length (tf_timers f)) < u64_mod.
Lemma stopAllTimers_inv f : usable f → tf_timers f ≠ [] →
  stopping_inv (length (tf_timers f)) (stopAllTimers f) ∧ length (tf_timers (stopAllTimers f)) = length (tf_timers f).
Proof.
  intros (H1 & H2 & H3 & H4 & H5) Hne. unfold stopAllTimers. rewrite H1.
  set (f1 := mkFactory _ _ _ _ _ _ _). assert (stopping_inv 0 f1) as Hi.
  { constructor; cbn; rewrite ?H2, ?H3; try done; try lia. rewrite bool_decide_eq_false_2; [done|]. intros [? ?]; lia. }
  destruct (stop_loop_inv (length (tf_timers f)) 0 f1 Hi) as [Hinv Hlen]; [cbn; lia|]. change (length (tf_timers f1)) with (length (tf_timers f)) in *.
  destruct (tf_timers (stop_loop (length (tf_timers f)) 0 f1)) as [|x l] eqn:E; [destruct (tf_timers f); [done|discriminate Hlen]|].
  destruct (await_quitEvt_inv _ _ Hinv) as [Ha ->]. split; [done|]. by rewrite E.
Qed.
Lemma callback_inv f : stopping_inv (length (tf_timers f)) f → (0 < tf_pending f)%nat →
  stopping_inv (length (tf_timers f)) (callback_comes f) ∧ tf_timers (callback_comes f) = tf_timers f.
Proof.
  intros [H1 H2 H3 [H4 H4'] H5 H6] Hp. unfold callback_comes. set (g := set_pending _ _).
  assert (tf_timers (timer_stopped g) = tf_timers f) as Ht by (unfold timer_stopped; by destruct (_ =? _)).
  split; [|done]. apply (timer_stopped_inv (length (tf_timers f) - 1)); cbn; try lia. constructor; cbn; try done; lia.
Qed.
(** A factory that is being stopped; one without timers is stopped at once. *)
Definition being_stopped (f : Factory) : Prop :=
  tf_stoppingTimers f = true ∧
  (tf_timers f = [] ∧ tf_quitEvt f = true ∧ tf_pending f = 0%nat ∧ tf_awaiting f = 0%nat ∨
   tf_timers f ≠ [] ∧ stopping_inv (length (tf_timers f)) f).
Lemma stopAllTimers_stops f : usable f → being_stopped (stopAllTimers f) ∧ length (tf_timers (stopAllTimers f)) = length (tf_timers f).
Proof.
  intros Hu. destruct (decide (tf_timers f = [])) as [He|He].
  - destruct Hu as (H1 & H2 & H3 & H4 & H5). unfold stopAllTimers, being_stopped. rewrite H1, He. cbn. rewrite H3. auto 10.
  - destruct (stopAllTimers_inv f Hu He) as [Hi Hl]. split; [|done]. split; [apply (st_flag _ _ Hi)|]. right. rewrite Hl. split; [|done].
    intros E. rewrite E in Hl. by destruct (tf_timers f).
Qed.
Lemma await_stopped f : being_stopped f → being_stopped (await_quitEvt f) ∧ tf_timers (await_quitEvt f) = tf_timers f.
Proof.
  intros [Hs [(E & Hq & Hp & Ha)|[Hne Hi]]].
  - unfold await_quitEvt. rewrite Hq. split; [|done]. split; [done|by left].
  - destruct (await_quitEvt_inv _ _ Hi) as [Hi' E]. split; [|done]. split; [apply (st_flag _ _ Hi')|]. right. by rewrite E.
Qed.
Lemma filter_length_or {A} (P : A → Prop) `{∀ x, Decision (P x)} (l : list A) : (length (filter P l) < length l)%nat ∨ filter P l = l.
Proof.
  induction l as [|x l IH]; [by right|]. rewrite filter_cons. pose proof (length_filter P l). case_decide; cbn; [|left; lia].
  destruct IH as [?| ->]; [left; lia|by right].
Qed.
(** A step erases timers or leaves the factory as it is meant to be. *)
Lemma stopping_step_inv f f' : stopping_step f f' → being_stopped f →
  (length (tf_timers f') < length (tf_timers f))%nat ∨ being_stopped f' ∧ length (tf_timers f') = length (tf_timers f).
Proof.
  intros H Hb. destruct H as [f Hp|f|f|id erased f f' H].
  - right. destruct Hb as [Hs [(E & Hq & Hp' & Ha)|[Hne Hi]]]; [lia|].
    destruct (callback_inv f Hi Hp) as [Hi' E]. split; [|by rewrite E]. split; [apply (st_flag _ _ Hi')|]. right. by rewrite E.
  - right. unfold stopAllTimers. rewrite (proj1 Hb). destruct (await_stopped f Hb) as [? ->]. done.
  - right. unfold factory_stop. rewrite (proj1 Hb). destruct (await_stopped f Hb) as [? ->]. done.
  - unfold destroyTimerIfStopped in H. destruct (tf_active f); cbn in H; [|done]. simplify_eq. cbn [set_timers tf_timers].
    destruct (filter_length_or (λ t : Z * Timer, ¬ (t.1 = id ∧ tm_state t.2 ≠ RUNNING)) (tf_timers f)) as [Hl|E]; [by left|right].
    rewrite E. split; [|done]. by destruct f, Hb.
Qed.

Lemma stopping_step_erases f f' : stopping_step f f' → tf_stoppingTimers f = true → (length (tf_timers f') ≤ length (tf_timers f))%nat ∧ tf_stoppingTimers f' = true.
Proof.
  intros H Hs. destruct H as [f Hp|f|f|id erased f f' H]; unfold callback_comes, timer_stopped, stopAllTimers, factory_stop, await_quitEvt in *; rewrite ?Hs.
  - destruct (_ =? _); done.
  - destruct (tf_quitEvt f); done.
  - destruct (tf_quitEvt f); done.
  - unfold destroyTimerIfStopped in H. destruct (tf_active f); cbn in H; [|done]. simplify_eq. split; [|done]. apply length_filter.
Qed.
Lemma stopping_run_inv f f' : rtc stopping_step f f' → being_stopped f → length (tf_timers f') = length (tf_timers f) → being_stopped f'.
Proof.
  intros Hr. induction Hr as [f|f f1 f' Hs Hr IH]; intros Hb Hl; [done|].
  assert (∀ g g', rtc stopping_step g g' → tf_stoppingTimers g = true → (length (tf_timers g') ≤ length (tf_timers g))%nat) as Hm.
  { induction 1 as [g|g g1 g' H _ IH']; intros Hg; [done|]. destruct (stopping_step_erases _ _ H Hg) as [? ?]. etrans; [by apply IH'|done]. }
  destruct (stopping_step_erases _ _ Hs (proj1 Hb)) as [_ Hs1]. pose proof (Hm _ _ Hr Hs1).
  destruct (stopping_step_inv _ _ Hs Hb) as [?|[Hb1 Hl1]]; [lia|]. apply IH; [done|lia].
Qed.
Lemma being_stopped_event f : being_stopped f →
  tf_quitEvt f = bool_decide (tf_pending f = 0%nat) ∧ (tf_quitEvt f = true → tf_awaiting f = 0%nat).
Proof.
  intros [_ [(E & -> & -> & Ha)|[Hne [H1 H2 H3 [H4 H4'] H5 H6]]]]; [done|]. split; [|done]. rewrite H5.
  assert (0 < length (tf_timers f))%nat by (destruct (tf_timers f); [done|cbn; lia]).
  apply bool_decide_ext. split; [intros [? ?]; lia|intros ?; split; lia].
Qed.

(** ** The factories of all services *)

Record FactoryFactory := mkFF {
  ff_factories : list (Z * Z);           (* requesting service to factory *)
  ff_quitting : bool;
  (* outside *)
  ff_undoing : list (Z * Z);             (* suspended handlers of DependencyUndoRequestEvent *)
  ff_stopping : option (list (Z * Z));   (* stop() at the first of these, suspended *)
  ff_pushed : list Z }.                  (* factories for which StopServiceEvent was pushed *)
Definition set_factories (fs : list (Z * Z)) (s : FactoryFactory) : FactoryFactory :=
  mkFF fs (ff_quitting s) (ff_undoing s) (ff_stopping s) (ff_pushed s).
(** With the id the new service has. *)
Definition handleDependencyRequest (svc newId : Z) (s : FactoryFactory) : FactoryFactory :=
  if ff_quitting s then s
  else match dfind svc (ff_factories s) with Some _ => s | None => set_factories (demplace svc newId (ff_factories s)) s end.
(** Up to the point where [stopAllTimers()] of the factory is awaited, if the manager
    still knows it. *)
Definition handleDependencyUndoRequest (known : Z → bool) (svc : Z) (s : FactoryFactory) : FactoryFactory :=
  if ff_quitting s then s
  else match dfind svc (ff_factories s) with
       | None => s
       | Some f =>
           if known f then mkFF (ff_factories s) (ff_quitting s) (ff_undoing s ++ [(svc, f)]) (ff_stopping s) (ff_pushed s)
           else set_factories (derase svc (ff_factories s)) s
       end.
(** Its end. *)
Definition undo_resumed (i : nat) (s : FactoryFactory) : FactoryFactory :=
  match ff_undoing s !! i with
  | None => s
  | Some (svc, f) => mkFF (derase svc (ff_factories s)) (ff_quitting s) (delete i (ff_undoing s)) (ff_stopping s) (ff_pushed s ++ [f])
  end.
(** The loop of [stop()] and the check behind it; hardened. *)
Fixpoint stop_factories (known : Z → bool) (ids : list (Z * Z)) (s : FactoryFactory) : outcome FactoryFactory :=
  match ids with
  | [] => match ff_factories s with [] => Done (mkFF [] (ff_quitting s) (ff_undoing s) None (ff_pushed s)) | _ => Terminated end
  | (svc, f) :: ids' =>
      if known f then Done (mkFF (ff_factories s) (ff_quitting s) (ff_undoing s) (Some ids) (ff_pushed s))
      else stop_factories known ids' (set_factories (derase svc (ff_factories s)) s)
  end.
Definition ff_stop (known : Z → bool) (s : FactoryFactory) : outcome FactoryFactory :=
  if ff_quitting s then Terminated
  else stop_factories known (ff_factories s) (mkFF (ff_factories s) true (ff_undoing s) None (ff_pushed s)).
Definition stop_resumed (known : Z → bool) (s : FactoryFactory) : outcome FactoryFactory :=
  match ff_stopping s with
  | Some ((svc, f) :: ids) => stop_factories known ids (mkFF (derase svc (ff_factories s)) (ff_quitting s) (ff_undoing s) None (ff_pushed s ++ [f]))
  | _ => Done s
  end.
Definition getCreatedTimerFactoryIds (s : FactoryFactory) : list Z := map snd (ff_factories s).

Inductive ff_action : Type :=
  | FRequest (svc newId : Z)
  | FUndo (known : Z → bool) (svc : Z)
  | FUndoResumed (i : nat)
  | FStop (known : Z → bool)
  | FStopResumed (known : Z → bool).
(** The service is stopped once. *)
Definition ff_step (a : ff_action) (s : FactoryFactory) : outcome FactoryFactory :=
  match a with
  | FRequest svc newId => Done (handleDependencyRequest svc newId s)
  | FUndo known svc => Done (handleDependencyUndoRequest known svc s)
  | FUndoResumed i => Done (undo_resumed i s)
  | FStop known => if ff_quitting s then Done s else ff_stop known s
  | FStopResumed known => stop_resumed known s
  end.
Inductive ff_reachable : FactoryFactory → Prop :=
  | ff_start : ff_reachable (mkFF [] false [] None [])
  | ff_next a s s' : ff_reachable s → ff_step a s = Done s' → ff_reachable s'.

Record ff_inv (s : FactoryFactory) : Prop := mkFFinv {
  fi_wf : dwf (ff_factories s);
  fi_idle : ff_quitting s = false → ff_stopping s = None;
  fi_left : ff_quitting s = true → ∀ svc, svc ∈ dkeys (ff_factories s) →
    match ff_stopping s with Some ids => svc ∈ dkeys ids | None => False end }.
Lemma stop_factories_ok known ids : ∀ s, dwf (ff_factories s) → ff_quitting s = true → (∀ svc, svc ∈ dkeys (ff_factories s) → svc ∈ dkeys ids) →
  ∃ s', stop_factories known ids s = Done s' ∧ ff_inv s' ∧ ff_quitting s' = true.
Proof.
  induction ids as [|[svc f] ids IH]; intros s Hwf Hq Hin; cbn [stop_factories].
  - destruct (ff_factories s) as [|[k v] l] eqn:E; [|exfalso; apply (not_elem_of_nil k), Hin; unfold dkeys; cbn; set_solver].
    eexists. split; [done|]. split; [|done]. constructor; cbn; [apply NoDup_nil_2|by rewrite Hq|set_solver].
  - destruct (known f).
    + eexists. split; [done|]. split; [|done]. constructor; cbn; [done|by rewrite Hq|]. intros _ svc' Hs. by apply Hin.
    + apply IH; cbn; [by apply dwf_derase|done|]. intros svc' Hs. apply elem_of_dkeys_derase in Hs as [Hne Hs]; [|done].
      specialize (Hin svc' Hs). unfold dkeys in Hin. cbn in Hin. set_solver.
Qed.
Lemma ff_step_ok a s : ff_inv s → ∃ s', ff_step a s = Done s' ∧ ff_inv s'.
Proof.
  intros Hi. pose proof Hi as [H1 H2 H3]. assert (∀ svc, dwf (derase svc (ff_factories s))) as Hd by (intros; by apply dwf_derase).
  assert (∀ svc' svc, svc' ∈ dkeys (derase svc (ff_factories s)) → svc' ∈ dkeys (ff_factories s)) as Hsub.
  { intros svc' svc Hs. by apply elem_of_dkeys_derase in Hs as [_ Hs]. }
  destruct a as [svc newId|known svc|i|known|known]; cbn.
  - eexists; split; [done|]. unfold handleDependencyRequest. destruct (ff_quitting s) eqn:Eq; [done|]. destruct (dfind svc (ff_factories s)); [done|].
    constructor; cbn; [by apply dwf_demplace|auto|by rewrite Eq].
  - eexists; split; [done|]. unfold handleDependencyUndoRequest. destruct (ff_quitting s) eqn:Eq; [done|]. destruct (dfind svc (ff_factories s)) as [f|]; [|done].
    destruct (known f); constructor; cbn; auto; by rewrite Eq.
  - eexists; split; [done|]. unfold undo_resumed. destruct (ff_undoing s !! i) as [[svc f]|]; [|done]. constructor; cbn; [done|auto|].
    intros Hq svc' Hs. apply H3; [done|]. by eapply Hsub.
  - destruct (ff_quitting s) eqn:Eq; [by exists s|]. unfold ff_stop. rewrite Eq.
    destruct (stop_factories_ok known (ff_factories s) (mkFF (ff_factories s) true (ff_undoing s) None (ff_pushed s))) as (s' & E & Hi' & _); [done..|]. eauto.
  - unfold stop_resumed. destruct (ff_stopping s) as [[|[svc f] ids]|] eqn:Es; [by exists s| |by exists s].
    destruct (ff_quitting s) eqn:Eq; [|first [specialize (H2 Eq)|specialize (H2 eq_refl)]; congruence].
    edestruct (stop_factories_ok known ids (mkFF (derase svc (ff_factories s)) true (ff_undoing s) None (ff_pushed s ++ [f]))) as (s' & E & Hi' & _); cbn; [done|done| |by eauto].
    intros svc' Hs. apply elem_of_dkeys_derase in Hs as [Hne Hs]; [|done]. specialize (H3 eq_refl svc' Hs). unfold dkeys in *. cbn in H3. set_solver.
Qed.
Lemma ff_reachable_inv s : ff_reachable s → ff_inv s.
Proof.
  induction 1 as [|a s s' _ IH E]; [constructor; cbn; [apply NoDup_nil_2|done|done]|].
  destruct (ff_step_ok a s IH) as (s1 & E1 & H1). rewrite E in E1. by simplify_eq.
Qed.

(** ** Properties *)

(** C30: [stopAllTimers()] of a factory whose timers have not been stopped before: whatever the order in which the
    callbacks of the timers that were not stopped at once come, and whatever code stops the
    timers again or tries to destroy them meanwhile, as long as no timer was erased since
    (then the event can be set too early or never: [destroyed_timer_ends_stop_early],
    [destroyed_timer_blocks_stop]): the event it waits for is set exactly when
    no callback has still to come, and then nobody waits any more. *)
Theorem stop_waits_for_every_timer f f' :
  usable f → rtc stopping_step (stopAllTimers f) f' → length (tf_timers f') = length (tf_timers f) →
  tf_quitEvt f' = bool_decide (tf_pending f' = 0%nat) ∧ (tf_quitEvt f' = true → tf_awaiting f' = 0%nat).
Proof.
  intros Hu Hr Hl. destruct (stopAllTimers_stops f Hu) as [Hb Hl0]. rewrite <- Hl0 in Hl. clear Hl0.
  apply being_stopped_event. by apply (stopping_run_inv _ _ Hr).
Qed.
(** Two timers that run and one that does not. *)
Definition running_timer : Timer := set_tm_state RUNNING new_timer.
Definition three_timers : Factory := mkFactory true [(1, running_timer); (2, new_timer); (3, running_timer)] 0 false false 0 0.
(** A callback comes, one timer is not there to be destroyed, the service is stopped, and the
    second callback comes. *)
Definition two_callbacks : Factory := callback_comes (factory_stop (callback_comes (stopAllTimers three_timers))).
Lemma stop_waits_witness : tf_pending (stopAllTimers three_timers) = 2%nat ∧ tf_awaiting (factory_stop (callback_comes (stopAllTimers three_timers))) = 2%nat ∧
  tf_pending two_callbacks = 0%nat ∧
  tf_quitEvt two_callbacks = bool_decide (tf_pending two_callbacks = 0%nat) ∧ (tf_quitEvt two_callbacks = true → tf_awaiting two_callbacks = 0%nat).
Proof.
  split; [reflexivity|]. split; [reflexivity|]. split; [reflexivity|].
  apply (stop_waits_for_every_timer three_timers two_callbacks); [split_and!; reflexivity| |reflexivity].
  eapply rtc_l; [apply step_callback; vm_compute; auto|]. eapply rtc_l; [apply (step_destroy 9 false); vm_compute; reflexivity|].
  eapply rtc_l; [apply step_stop|]. eapply rtc_l; [apply step_callback; vm_compute; auto|]. apply rtc_refl.
Defined.
(** Timers can be destroyed while they are being stopped, but the callbacks that were
    called count: the event is set too early, or never. *)
Example destroyed_timer_ends_stop_early :
  match destroyTimerIfStopped 2 (stopAllTimers three_timers) with
  | Done (true, f) => tf_quitEvt (callback_comes f) = true ∧ tf_pending (callback_comes f) = 1%nat
  | _ => False
  end.
Proof. by vm_compute. Qed.
Example destroyed_timer_blocks_stop :
  match destroyTimerIfStopped 2 (stopAllTimers (mkFactory true [(1, running_timer); (2, new_timer)] 0 false false 0 0)) with
  | Done (true, f) => tf_quitEvt (callback_comes f) = false ∧ tf_pending (callback_comes f) = 0%nat ∧ tf_awaiting (callback_comes f) = 1%nat
  | _ => False
  end.
Proof. by vm_compute. Qed.

(** The service that creates timer factories: whatever requests come and are undone,
    before and while it stops, each service has at most one factory, and [stop()] ends
    with none left; its check of that never terminates the program. *)
Theorem stop_leaves_no_factory a s : ff_reachable s →
  dwf (ff_factories s) ∧ (∃ s', ff_step a s = Done s') ∧
  (ff_quitting s = true → ff_stopping s = None → ff_factories s = []).
Proof.
  intros Hr. pose proof (ff_reachable_inv s Hr) as Hi. destruct (ff_step_ok a s Hi) as (s' & E & _). destruct Hi as [H1 H2 H3].
  split; [done|]. split; [by exists s'|]. intros Hq Hs. specialize (H3 Hq). rewrite Hs in H3.
  destruct (ff_factories s) as [|[k v] l]; [done|]. destruct (H3 k). unfold dkeys. cbn. set_solver.
Qed.
Definition known_all : Z → bool := λ _, true.
Lemma stop_leaves_witness : ∃ s, ff_reachable s ∧ ff_quitting s = true ∧ ff_pushed s = [20; 10] ∧ ff_factories s = [].
Proof.
  exists (mkFF [] true [] None [20; 10]).
  assert (ff_reachable (mkFF [] true [] None [20; 10])) as Hr.
  { apply (ff_next (FStopResumed known_all) (mkFF [(1, 10)] true [] (Some [(1, 10)]) [20])); [|reflexivity].
    apply (ff_next (FStop known_all) (mkFF [(1, 10)] false [] None [20])); [|reflexivity].
    apply (ff_next (FUndoResumed 0) (mkFF [(1, 10); (2, 20)] false [(2, 20)] None [])); [|reflexivity].
    apply (ff_next (FUndo known_all 2) (mkFF [(1, 10); (2, 20)] false [] None [])); [|reflexivity].
    apply (ff_next (FRequest 2 20) (mkFF [(1, 10)] false [] None [])); [|reflexivity].
    apply (ff_next (FRequest 1 10) (mkFF [] false [] None [])); [|reflexivity]. apply ff_start. }
  split; [exact Hr|]. split; [reflexivity|]. split; [reflexivity|].
  exact (proj2 (proj2 (stop_leaves_no_factory (FRequest 3 30) _ Hr)) eq_refl eq_refl).
Defined.
