(* ===== verification/UringTimer.v ===== *)
(** * Timers on io_uring

    src/services/timer/IOUringTimer.cpp: a timer is a timeout of the kernel, which is removed
    to stop it.  The handlers below are those of the completions; the kernel completes a
    timeout when it expires (again and again, if it is a multishot one) and answers the
    request to remove one, which also completes the timeout as cancelled. *)

From stdpp Require Import base list option.
From Stdlib Require Import Lia.
From S2P Require Import Prelude.
From S2P Require Import Timer.

Local Open Scope nat_scope.

(** Completions: a timeout that expired (-ETIME) or was cancelled (-ECANCELED), and answers
    to removals: 0, or -ENOENT and -EALREADY with the id of the timeout. *)
Inductive completion := Expired (id : nat) | Cancelled (id : nat) | RemovalOk | RemovalFailed (id : nat).
Record utimer := mkUtimer {
  ut_state : TimerState;
  ut_fireOnce : bool;
  ut_multishotCapable : bool;
  ut_uringTimerId : nat;
  ut_quitCbs : list nat;
  ut_next : nat;                    (* the next user data *)
  ut_armed : list (nat * bool);     (* timeouts of the kernel, and whether they are multishot ones *)
  ut_removals : list nat;           (* requests to remove a timeout *)
  ut_completed : list completion;
  ut_fired : nat;                   (* calls of the callback *)
  ut_called : list nat }.           (* callbacks of [stopTimer] that were called *)
Definition new_utimer (fireOnce multishot : bool) : utimer := mkUtimer STOPPED fireOnce multishot 0 [] 1 [] [] [] 0 [].

Definition set_ustate (st : TimerState) (t : utimer) : utimer :=
  mkUtimer st (ut_fireOnce t) (ut_multishotCapable t) (ut_uringTimerId t) (ut_quitCbs t) (ut_next t) (ut_armed t) (ut_removals t) (ut_completed t) (ut_fired t) (ut_called t).
(** A new timeout. *)
Definition arm (t : utimer) : utimer :=
  mkUtimer (ut_state t) (ut_fireOnce t) (ut_multishotCapable t) (ut_next t) (ut_quitCbs t) (S (ut_next t))
    (ut_armed t ++ [(ut_next t, negb (ut_fireOnce t) && ut_multishotCapable t)]) (ut_removals t) (ut_completed t) (ut_fired t) (ut_called t).
Definition set_kernel (armed : list (nat * bool)) (removals : list nat) (completed : list completion) (t : utimer) : utimer :=
  mkUtimer (ut_state t) (ut_fireOnce t) (ut_multishotCapable t) (ut_uringTimerId t) (ut_quitCbs t) (ut_next t) armed removals completed (ut_fired t) (ut_called t).
Definition set_calls (cbs : list nat) (fired : nat) (called : list nat) (t : utimer) : utimer :=
  mkUtimer (ut_state t) (ut_fireOnce t) (ut_multishotCapable t) (ut_uringTimerId t) cbs (ut_next t) (ut_armed t) (ut_removals t) (ut_completed t) fired called.
Definition fire (t : utimer) : utimer := set_calls (ut_quitCbs t) (S (ut_fired t)) (ut_called t) t.

Definition u_startTimer (fireImmediately : bool) (t : utimer) : bool * utimer :=
  match ut_state t with
  | STOPPED =>
      let t1 := if negb fireImmediately || negb (ut_fireOnce t) then arm t else t in
      let t2 := set_ustate RUNNING t1 in
      (true, if fireImmediately then fire t2 else t2)
  | _ => (false, t)
  end.
Definition u_stopTimer (cb : option nat) (t : utimer) : bool * utimer :=
  let cbs := match cb with Some c => [c] | None => [] end in
  match ut_state t with
  | RUNNING =>
      (true, set_ustate STOPPING (set_calls (ut_quitCbs t ++ cbs) (ut_fired t) (ut_called t)
         (set_kernel (ut_armed t) (ut_removals t ++ [ut_uringTimerId t]) (ut_completed t) t)))
  | _ => (false, set_calls (ut_quitCbs t) (ut_fired t) (ut_called t ++ cbs) t)
  end.
(** [createNewHandler]: the handler of a timeout; [callback] is what the callback does to the
    timer. *)
Definition timeout_handler (callback : utimer → utimer) (expired : bool) (t : utimer) : utimer :=
  if negb expired then set_ustate STOPPED (set_calls (ut_quitCbs t) (ut_fired t) (ut_called t ++ ut_quitCbs t) t)
  else
    match ut_state t with
    | STOPPING => t
    | _ => let t1 := callback (fire t) in if negb (ut_fireOnce t1) && negb (ut_multishotCapable t1) then arm t1 else t1
    end.
(** [createNewStopHandler]: a removal that failed is tried again. *)
Definition stop_handler (failed : option nat) (t : utimer) : utimer :=
  match failed with
  | Some id => set_kernel (ut_armed t) (ut_removals t ++ [id]) (ut_completed t) t
  | None => t
  end.
(** The queue handles the first completion. *)
Definition handle_completion (callback : utimer → utimer) (t : utimer) : utimer :=
  match ut_completed t with
  | [] => t
  | c :: cs =>
      let t0 := set_kernel (ut_armed t) (ut_removals t) cs t in
      match c with
      | Expired _ => timeout_handler callback true t0
      | Cancelled _ => timeout_handler callback false t0
      | RemovalOk => stop_handler None t0
      | RemovalFailed id => stop_handler (Some id) t0
      end
  end.
(** The kernel: the [i]-th timeout expires; the first removal is done. *)
Definition expire (i : nat) (t : utimer) : option utimer :=
  match ut_armed t !! i with
  | Some (id, multi) => Some (set_kernel (if (multi : bool) then ut_armed t else delete i (ut_armed t)) (ut_removals t) (ut_completed t ++ [Expired id]) t)
  | None => None
  end.
Definition remove_timeout (t : utimer) : option utimer :=
  match ut_removals t with
  | [] => None
  | id :: rs =>
      if bool_decide (id ∈ (ut_armed t).*1)
      then Some (set_kernel (filter (λ x, x.1 ≠ id) (ut_armed t)) rs (ut_completed t ++ [Cancelled id; RemovalOk]) t)
      else Some (set_kernel (ut_armed t) rs (ut_completed t ++ [RemovalFailed id]) t)
  end.
(** A removal may also fail although the timeout is there: -EALREADY, it is just firing. *)
Definition refuse_removal (t : utimer) : option utimer :=
  match ut_removals t with
  | [] => None
  | id :: rs => Some (set_kernel (ut_armed t) rs (ut_completed t ++ [RemovalFailed id]) t)
  end.

(** Any order of calls, completions and of what the kernel does; the list has the callbacks
    that were given to [stopTimer].  With multishot timeouts nothing follows the callback in
    the handler: what it calls are steps of their own. *)
Inductive ut_run (fireOnce multishot : bool) : list nat → utimer → Prop :=
  | utr_new : ut_run fireOnce multishot [] (new_utimer fireOnce multishot)
  | utr_start given t b : ut_run fireOnce multishot given t → ut_run fireOnce multishot given (u_startTimer b t).2
  | utr_stop given t cb : ut_run fireOnce multishot given t →
      ut_run fireOnce multishot (given ++ match cb with Some c => [c] | None => [] end) (u_stopTimer cb t).2
  | utr_handle given t : ut_run fireOnce multishot given t → ut_run fireOnce multishot given (handle_completion id t)
  | utr_expire given t i t' : ut_run fireOnce multishot given t → expire i t = Some t' → ut_run fireOnce multishot given t'
  | utr_remove given t t' : ut_run fireOnce multishot given t → remove_timeout t = Some t' → ut_run fireOnce multishot given t'
  | utr_refuse given t t' : ut_run fireOnce multishot given t → refuse_removal t = Some t' → ut_run fireOnce multishot given t'.

(** ** Periodic timers of kernels with multishot timeouts *)

(** Completions that neither stop the timer nor fail. *)
Definition harmless (c : completion) : Prop := match c with Expired _ | RemovalOk => True | _ => False end.
(** Where the timeout is, in each state. *)
Definition kernel_inv (t : utimer) : Prop :=
  let id := ut_uringTimerId t in
  match ut_state t with
  | STOPPED => ut_armed t = [] ∧ ut_removals t = [] ∧ Forall (λ c, c = RemovalOk) (ut_completed t)
  | RUNNING => ut_armed t = [(id, true)] ∧ ut_removals t = [] ∧ Forall harmless (ut_completed t)
  | STOPPING =>
      (ut_armed t = [(id, true)] ∧ ut_removals t = [id] ∧ Forall harmless (ut_completed t)) ∨
      (ut_armed t = [(id, true)] ∧ ut_removals t = [] ∧
         ∃ cs cs', ut_completed t = cs ++ RemovalFailed id :: cs' ∧ Forall harmless cs ∧ Forall harmless cs') ∨
      (ut_armed t = [] ∧ ut_removals t = [] ∧ ∃ cs, ut_completed t = cs ++ [Cancelled id; RemovalOk] ∧ Forall harmless cs)
  | _ => False
  end.
Definition callbacks_inv (given : list nat) (t : utimer) : Prop :=
  ∀ c, c ∈ given → c ∈ ut_called t ∨ (c ∈ ut_quitCbs t ∧ ut_state t = STOPPING).
Record utimer_inv (given : list nat) (t : utimer) : Prop := {
  uti_flags : ut_fireOnce t = false ∧ ut_multishotCapable t = true;
  uti_kernel : kernel_inv t;
  uti_callbacks : callbacks_inv given t }.

Lemma removal_ok_harmless cs : Forall (λ c, c = RemovalOk) cs → Forall harmless cs.
Proof. apply Forall_impl. by intros c ->. Qed.
Lemma start_timer_inv given t b : utimer_inv given t → utimer_inv given (u_startTimer b t).2.
Proof.
  intros [[F M] K C]. unfold u_startTimer. destruct (ut_state t) eqn:Hs; try done.
  assert (∀ t', ut_state t' = RUNNING → ut_called t' = ut_called t → callbacks_inv given t') as HC.
  { intros t' _ Hc c Hin. left. rewrite Hc. destruct (C c Hin) as [?|[_ ?]]; [done|congruence]. }
  unfold kernel_inv in K. rewrite Hs in K. destruct K as (Ka & Kr & Kc). rewrite F, orb_true_r.
  split; [by destruct b| |by destruct b; apply HC].
  unfold kernel_inv. destruct b; cbn; rewrite Ka, F, M; (split_and!; [done..|by apply removal_ok_harmless]).
Qed.
Lemma stop_timer_inv given t cb : utimer_inv given t → utimer_inv (given ++ match cb with Some c => [c] | None => [] end) (u_stopTimer cb t).2.
Proof.
  intros [[F M] K C]. unfold u_stopTimer. set (cbs := match cb with Some c => [c] | None => [] end).
  destruct (ut_state t) eqn:Hs; (split; [done| |]).
  all: try (unfold kernel_inv in *; cbn; rewrite Hs in *; exact K).
  all: try (intros c [Hin|Hin]%elem_of_app; cbn; rewrite elem_of_app; [|by left; right]; destruct (C c Hin) as [?|[? ?]]; [by left; left|by right]).
  - unfold kernel_inv in *. rewrite Hs in K. cbn. destruct K as (Ka & Kr & Kc). left. by rewrite Kr.
  - intros c [Hin|Hin]%elem_of_app; cbn; rewrite elem_of_app; [|by right; split; [right|]].
    destruct (C c Hin) as [?|[? ?]]; [by left|congruence].
Qed.
Lemma handle_timer_inv given t : utimer_inv given t → utimer_inv given (handle_completion id t).
Proof.
  intros [[F M] K C]. unfold handle_completion. destruct (ut_completed t) as [|c cs] eqn:Hc; [done|].
  unfold kernel_inv in K. destruct (ut_state t) eqn:Hs; [|done| |].
  - destruct K as (Ka & Kr & Kc). rewrite Hc in Kc. apply list.Forall_cons in Kc as [-> Kc].
    split; [done| |]; [|intros x Hx; destruct (C x Hx) as [?|[? ?]]; [by left|congruence]].
    unfold kernel_inv. cbn. by rewrite Hs.
  - destruct K as (Ka & Kr & Kc). rewrite Hc in Kc. apply list.Forall_cons in Kc as [Hh Kc].
    assert (∀ t', ut_called t' = ut_called t → callbacks_inv given t') as HC.
    { intros t' Ht x Hx. left. rewrite Ht. destruct (C x Hx) as [?|[? ?]]; [done|congruence]. }
    destruct c; try done; cbn.
    + rewrite Hs, F, M. cbn. split; [done| |by apply HC]. unfold kernel_inv. cbn. by rewrite Hs.
    + split; [done| |by apply HC]. unfold kernel_inv. cbn. by rewrite Hs.
  - assert (∀ c', harmless c' → utimer_inv given (set_kernel (ut_armed t) (ut_removals t) cs t) →
      utimer_inv given (match c' with
        | Expired _ => timeout_handler id true (set_kernel (ut_armed t) (ut_removals t) cs t)
        | Cancelled _ => timeout_handler id false (set_kernel (ut_armed t) (ut_removals t) cs t)
        | RemovalOk => stop_handler None (set_kernel (ut_armed t) (ut_removals t) cs t)
        | RemovalFailed i => stop_handler (Some i) (set_kernel (ut_armed t) (ut_removals t) cs t)
        end)) as Hharm.
    { intros c' Hh Ht. destruct c'; try done. unfold timeout_handler. cbn [negb].
      change (ut_state (set_kernel _ _ _ t)) with (ut_state t). by rewrite Hs. }
    destruct K as [(Ka & Kr & Kc)|[(Ka & Kr & c1 & c2 & Hcs & K1 & K2)|(Ka & Kr & cs' & Hcs & Kc)]].
    + rewrite Hc in Kc. apply list.Forall_cons in Kc as [Hh Kc]. apply Hharm; [done|].
      split; [done| |done]. unfold kernel_inv. cbn. rewrite Hs. by left.
    + rewrite Hc in Hcs. destruct c1 as [|c' c1]; cbn in Hcs; injection Hcs as -> ->.
      * cbn. split; [done| |done]. unfold kernel_inv. cbn. rewrite Hs. left. by rewrite Kr.
      * apply list.Forall_cons in K1 as [Hh K1]. apply Hharm; [done|].
        split; [done| |done]. unfold kernel_inv. cbn. rewrite Hs. right. left. split_and!; [done..|]. by exists c1, c2.
    + rewrite Hc in Hcs. destruct cs' as [|c' cs']; cbn in Hcs; injection Hcs as -> ->.
      * cbn. split; [done| |].
        -- unfold kernel_inv. cbn. split_and!; [done..|]. by repeat constructor.
        -- intros x Hx. left. cbn. rewrite elem_of_app. destruct (C x Hx) as [?|[? ?]]; [by left|by right].
      * apply list.Forall_cons in Kc as [Hh Kc]. apply Hharm; [done|].
        split; [done| |done]. unfold kernel_inv. cbn. rewrite Hs. right. right. split_and!; [done..|]. by exists cs'.
Qed.
Lemma expire_inv given t i t' : utimer_inv given t → expire i t = Some t' → utimer_inv given t'.
Proof.
  intros [[F M] K C]. unfold expire. destruct (ut_armed t !! i) as [[id multi]|] eqn:Hi; [|done].
  unfold kernel_inv in K. assert (∀ cs, Forall harmless cs → Forall harmless (cs ++ [Expired id])) as Hsnoc.
  { intros cs Hcs. apply list.Forall_app. split; [done|]. by repeat constructor. }
  destruct (ut_state t) eqn:Hs; [by destruct K as (Ka & _); rewrite Ka in Hi|done| |].
  - destruct K as (Ka & Kr & Kc). rewrite Ka in Hi. destruct i; [|by destruct i]. injection Hi as <- <-. intros [= <-].
    split; [done| |done]. unfold kernel_inv. cbn. rewrite Hs. split_and!; [done..|by apply Hsnoc].
  - destruct K as [(Ka & Kr & Kc)|[(Ka & Kr & c1 & c2 & Hcs & K1 & K2)|(Ka & _)]]; [| |by rewrite Ka in Hi];
      rewrite Ka in Hi; (destruct i; [|by destruct i]); injection Hi as <- <-; intros [= <-];
      (split; [done| |done]); unfold kernel_inv; cbn; rewrite Hs.
    + left. split_and!; [done..|by apply Hsnoc].
    + right. left. split_and!; [done..|]. exists c1, (c2 ++ [Expired (ut_uringTimerId t)]). rewrite Hcs, <- app_assoc. by split_and!; [|done|apply Hsnoc].
Qed.
Lemma remove_inv given t t' : utimer_inv given t → remove_timeout t = Some t' → utimer_inv given t'.
Proof.
  intros [[F M] K C]. unfold remove_timeout. destruct (ut_removals t) as [|id rs] eqn:Hr; [done|].
  unfold kernel_inv in K. destruct (ut_state t) eqn:Hs; [by destruct K as (_ & Kr & _); rewrite Hr in Kr|done|by destruct K as (_ & Kr & _); rewrite Hr in Kr|].
  destruct K as [(Ka & Kr & Kc)|[(_ & Kr & _)|(_ & Kr & _)]]; [|by rewrite Hr in Kr..]. rewrite Hr in Kr. injection Kr as -> ->.
  rewrite Ka, bool_decide_true by (by apply list_elem_of_singleton). intros [= <-].
  split; [done| |done]. unfold kernel_inv. cbn. rewrite Hs. right. right. split_and!; [|done|by exists (ut_completed t)].
  rewrite decide_False; [done|]. by intros [].
Qed.
Lemma refuse_inv given t t' : utimer_inv given t → refuse_removal t = Some t' → utimer_inv given t'.
Proof.
  intros [[F M] K C]. unfold refuse_removal. destruct (ut_removals t) as [|id rs] eqn:Hr; [done|]. intros [= <-].
  unfold kernel_inv in K. destruct (ut_state t) eqn:Hs; [by destruct K as (_ & Kr & _); rewrite Hr in Kr|done|by destruct K as (_ & Kr & _); rewrite Hr in Kr|].
  destruct K as [(Ka & Kr & Kc)|[(_ & Kr & _)|(_ & Kr & _)]]; [|by rewrite Hr in Kr..]. rewrite Hr in Kr. injection Kr as -> ->.
  split; [done| |done]. unfold kernel_inv. cbn. rewrite Hs. right. left. split_and!; [done..|]. by exists (ut_completed t), [].
Qed.
Lemma ut_run_inv given t : ut_run false true given t → utimer_inv given t.
Proof.
  induction 1; eauto using start_timer_inv, stop_timer_inv, handle_timer_inv, expire_inv, remove_inv, refuse_inv.
  split; [done|done|]. by intros c Hc%elem_of_nil.
Qed.
(** C29: A periodic timer on a kernel with multishot timeouts, however calls, expirations and
    completions follow each other, and however often the kernel refuses to remove the timeout
    because it is just firing (-EALREADY; any other error but -ENOENT terminates the program
    and is left out): a running timer has exactly one timeout and a stopped
    one none, nor an expiration left that would call its callback; a timer that is being
    stopped is not forgotten, the kernel or the queue still has something to do; and every
    callback given to [stopTimer] has been called unless the timer is being stopped. *)
Theorem uring_timer_stops given t : ut_run false true given t →
  (ut_state t = RUNNING → ut_armed t = [(ut_uringTimerId t, true)]) ∧
  (ut_state t = STOPPED → ut_armed t = [] ∧ ∀ id, Expired id ∉ ut_completed t) ∧
  (ut_state t = STOPPING → ut_removals t ≠ [] ∨ ut_completed t ≠ []) ∧
  (ut_state t ≠ STOPPING → ∀ c, c ∈ given → c ∈ ut_called t).
Proof.
  intros [_ K C]%ut_run_inv. unfold kernel_inv in K. split_and!.
  - intros Hs. rewrite Hs in K. by destruct K.
  - intros Hs. rewrite Hs in K. destruct K as (Ka & _ & Kc). split; [done|]. intros id Hin. rewrite list.Forall_forall in Kc. by specialize (Kc _ Hin).
  - intros Hs. rewrite Hs in K. destruct K as [(_ & Kr & _)|[(_ & _ & cs & ? & Hcs & _)|(_ & _ & cs & Hcs & _)]]; [left; by rewrite Kr|right; rewrite Hcs; by destruct cs..].
  - intros Hs c Hc. by destruct (C c Hc) as [?|[? ?]].
Qed.
(** Here the removal is refused once and tried again. *)
Lemma uring_timer_stops_witness : ∃ t, ut_run false true [7] t ∧ ut_state t ≠ STOPPING ∧ 7 ∈ ut_called t.
Proof.
  destruct (refuse_removal (u_stopTimer (Some 7) (u_startTimer false (new_utimer false true)).2).2) as [t1|] eqn:E1; [|discriminate E1].
  destruct (remove_timeout (handle_completion id t1)) as [t2|] eqn:E; [|vm_compute in E1; injection E1 as <-; discriminate E].
  assert (ut_run false true [7] (handle_completion id t2)) as H.
  { apply utr_handle. refine (utr_remove _ _ _ _ _ _ E). apply utr_handle. refine (utr_refuse _ _ _ _ _ _ E1).
    apply (utr_stop false true [] _ (Some 7)), utr_start, utr_new. }
  exists (handle_completion id t2). split; [exact H|].
  assert (ut_state (handle_completion id t2) ≠ STOPPING) as Hn by (vm_compute in E1; injection E1 as <-; vm_compute in E; by injection E as <-).
  split; [exact Hn|]. apply (uring_timer_stops _ _ H); [exact Hn|by apply list_elem_of_singleton].
Defined.

(** ** Where it goes wrong *)

(** The callbacks of a stop are called again when the timer is stopped a second time. *)
Definition stop_run (cb : nat) (t : utimer) : option utimer :=
  t' ← remove_timeout (u_stopTimer (Some cb) (u_startTimer false t).2).2; Some (handle_completion id (handle_completion id t')).
Lemma stop_callbacks_called_again : ut_called <$> (t ← stop_run 7 (new_utimer false true); stop_run 8 t) = Some [7; 7; 8].
Proof. reflexivity. Qed.
(** A timer that fires once still is RUNNING when it has fired.  Stopping it is a removal of
    a timeout that is no more, which is tried for ever: kernel and handler lead back to the
    same state, and the callback is never called. *)
Lemma fired_once_never_stops :
  ∃ t, (t' ← expire 0 (u_startTimer false (new_utimer true true)).2; Some (u_stopTimer (Some 7) (handle_completion id t')).2) = Some t ∧
    (handle_completion id <$> remove_timeout t) = Some t ∧ ut_state t = STOPPING ∧ ut_called t = [].
Proof. eexists. split; [reflexivity|]. done. Qed.
(** On a kernel without multishot timeouts, a callback that stops its timer: the handler goes
    on and arms another timeout, while the one that is to be removed is no more.  The timer
    is never stopped, and the removal is tried for ever. *)
Lemma stopped_in_callback_arms_again :
  ∃ t, (t' ← expire 0 (u_startTimer false (new_utimer false false)).2; Some (handle_completion (λ t, (u_stopTimer (Some 7) t).2) t')) = Some t ∧
    ut_armed t = [(2, false)] ∧ ut_removals t = [1] ∧
    (handle_completion id <$> remove_timeout t) = Some t ∧ ut_state t = STOPPING.
Proof. eexists. split; [reflexivity|]. done. Qed.
