(* ===== verification/FileIO.v ===== *)
(** * Reading and copying files over io_uring

    src/services/io/IOUringAsyncFileIO.cpp: a file is read in parts of [_bufferSize]
    bytes, of which [maxSubmissions] are submitted at a time.  The handler of a part that
    is completed appends it; the handler of the last part of a batch submits the next
    one.  The handlers refer to variables of the coroutine that waits for their event.

    Completions are handled in the order of the submissions, which is what the handlers
    are written for (a part is appended when it is completed; io_uring itself does not
    promise an order); how many bytes a request transfers is an argument. *)

From stdpp Require Import base list option.
From Stdlib Require Import ZArith Lia.
From S2P Require Import Prelude.
From S2P Require Import StringUtils.
From S2P Require Import TcpConnection.

Local Open Scope nat_scope.

Section files.
Context {B : Type} (bufferSize maxSubmissions : nat).

(** A part that is submitted: where it starts, its length, and [isLastInBatch]. *)
Record part := mkPart { pt_offset : nat; pt_length : nat; pt_last : bool }.
(** The loop of [recursiveSubmitReadWholeFile] and [recursiveSubmitCopyFile]: the parts
    and what is left of the size. *)
Fixpoint submit (submissions sizeLeft offset : nat) : list part * nat :=
  match submissions with
  | O => ([], sizeLeft)
  | S submissions' =>
      if sizeLeft =? 0 then ([], sizeLeft)
      else
        let isLastInBatch := (sizeLeft <? bufferSize) || (submissions =? 1) in
        let '(ps, rest) := submit submissions' (if bufferSize <? sizeLeft then sizeLeft - bufferSize else 0) (offset + bufferSize) in
        (mkPart offset bufferSize isLastInBatch :: ps, rest)
  end.

(** ** [readWholeFile] *)

Record reading := mkReading {
  rd_contents : list B;
  rd_sizeLeft : nat;
  rd_res : Z;
  rd_evt : bool;
  rd_parts : list part;       (* submitted *)
  rd_freed : bool }.          (* a buffer was given to the kernel that had been deleted *)
Definition set_read (res : Z) (evt : bool) (r : reading) : reading :=
  mkReading (rd_contents r) (rd_sizeLeft r) res evt (rd_parts r) (rd_freed r).
Definition read_begin (fileSize : nat) : reading :=
  let '(ps, rest) := submit maxSubmissions fileSize 0 in mkReading [] rest 0 false ps false.
(** The handler of the first part; [bytes] is what was read, [error] a negative result.
    Hardened. *)
Definition read_completed (shouldStop : bool) (fileSize : nat) (answer : list B + Z) (r : reading) : outcome reading :=
  match rd_parts r with
  | [] => Done r
  | p :: ps =>
      let r0 := mkReading (rd_contents r) (rd_sizeLeft r) (rd_res r) (rd_evt r) ps (rd_freed r) in
      if shouldStop || (rd_res r <? 0)%Z then Done (set_read (rd_res r) (rd_evt r || pt_last p) r0)
      else
        match answer with
        | inr error => Done (set_read error (rd_evt r || pt_last p) r0)
        | inl bytes =>
            if fileSize <=? length (rd_contents r) then Done (set_read (-2)%Z (rd_evt r || pt_last p) r0)
            else
              let contents := rd_contents r ++ bytes in
              if length contents =? fileSize then
                if pt_last p then Done (mkReading contents (rd_sizeLeft r) (rd_res r) true ps (rd_freed r)) else Terminated
              else
                let short := length bytes <? bufferSize in
                let again := if short then [mkPart (pt_offset p + length bytes) (bufferSize - length bytes) (pt_last p)] else [] in
                let '(new, rest) := if pt_last p then submit maxSubmissions (rd_sizeLeft r) (pt_offset p + length bytes) else ([], rd_sizeLeft r) in
                Done (mkReading contents rest (rd_res r) (rd_evt r) (ps ++ again ++ new) (rd_freed r || short))
        end
  end.
(** What the kernel reads when it reads all it can. *)
Definition full_read (file : list B) (p : part) : list B := take (pt_length p) (drop (pt_offset p) file).
(** [None]: there are requests left when the fuel is used up. *)
Fixpoint read_all (fuel : nat) (file : list B) (r : reading) : option (outcome reading) :=
  match fuel, rd_parts r with
  | _, [] => Some (Done r)
  | O, _ => None
  | S fuel', p :: _ =>
      match read_completed false (length file) (inl (full_read file p)) r with
      | Done r' => read_all fuel' file r'
      | Terminated => Some Terminated
      end
  end.
(** [readWholeFile]: whether [_shouldStop] is set at each of its checks, and the results
    of open, statx and the reads. *)
Definition readWholeFile (max_size : nat) (stop : nat → bool) (open_res statx_res : Z) (size : nat) (read_res : Z) (contents : list B) : list B + IOError :=
  if stop 0 then inr SERVICE_STOPPED
  else if stop 1 then inr SERVICE_STOPPED
  else if (open_res <? 0)%Z then inr (mapErrnoToError (- open_res))
  else if stop 2 then inr SERVICE_STOPPED
  else if (statx_res <? 0)%Z then inr (mapErrnoToError (- statx_res))
  else if size =? 0 then inl []
  else if max_size <? size then inr FILE_SIZE_TOO_BIG
  else if stop 3 then inr SERVICE_STOPPED
  else if (read_res <? 0)%Z then inr (mapErrnoToError (- read_res))
  else inl contents.

(** ** [copyFile] *)

(** A read of the source or a write at the end of the destination, with
    [isLastInWriteBatch]. *)
Inductive copy_request := CRead (p : part) | CWrite (bytes : list B) (isLastInBatch : bool).
Record copying := mkCopying {
  cp_to : list B;
  cp_sizeLeft : nat;
  cp_res : Z;
  cp_evt : bool;
  cp_requests : list copy_request }.
Definition copy_begin (fileSize : nat) : copying :=
  let '(ps, rest) := submit maxSubmissions fileSize 0 in mkCopying [] rest 0 false (CRead <$> ps).
(** The handler of the first request.  [answer] is the bytes that were read or written,
    or a negative result. *)
Definition copy_completed (shouldStop : bool) (fileSize : nat) (answer : list B + Z) (c : copying) : copying :=
  match cp_requests c with
  | [] => c
  | CRead p :: qs =>
      if shouldStop || (cp_res c <? 0)%Z then mkCopying (cp_to c) (cp_sizeLeft c) (cp_res c) (cp_evt c || pt_last p) qs
      else
        match answer with
        | inr error => mkCopying (cp_to c) (cp_sizeLeft c) error (cp_evt c || pt_last p) qs
        | inl bytes =>
            let isLastInWriteBatch := pt_offset p + length bytes =? fileSize in
            let again := if negb isLastInWriteBatch && (length bytes <? bufferSize)
              then [CRead (mkPart (pt_offset p + length bytes) (bufferSize - length bytes) (pt_last p))] else [] in
            let '(new, rest) := if negb isLastInWriteBatch && pt_last p
              then submit maxSubmissions (cp_sizeLeft c) (pt_offset p + length bytes) else ([], cp_sizeLeft c) in
            mkCopying (cp_to c) rest (cp_res c) (cp_evt c) (qs ++ CWrite bytes isLastInWriteBatch :: again ++ (CRead <$> new))
        end
  | CWrite _ isLastInBatch :: qs =>
      let to := match answer with inl bytes => cp_to c ++ bytes | inr _ => cp_to c end in
      let res := if shouldStop || (cp_res c <? 0)%Z then cp_res c else match answer with inl _ => cp_res c | inr error => error end in
      mkCopying to (cp_sizeLeft c) res (cp_evt c || isLastInBatch) qs
  end.
(** A kernel that reads and writes all that it is asked to. *)
Definition full_answer (file : list B) (q : copy_request) : list B :=
  match q with CRead p => full_read file p | CWrite bytes _ => bytes end.
Fixpoint copy_all (fuel : nat) (file : list B) (c : copying) : option copying :=
  match fuel, cp_requests c with
  | _, [] => Some c
  | O, _ => None
  | S fuel', q :: _ => copy_all fuel' file (copy_completed false (length file) (inl (full_answer file q)) c)
  end.
(** [copyFile]: the results of the two opens, of statx and of the reads and writes. *)
Definition copyFile (stop : nat → bool) (fromFd toFd statx_res : Z) (size : nat) (copy_res : Z) : unit + IOError :=
  if stop 0 then inr SERVICE_STOPPED
  else if stop 1 then inr SERVICE_STOPPED
  else if (fromFd <? 0)%Z then inr (mapErrnoToError (- fromFd))
  else if (toFd <? 0)%Z then inr (mapErrnoToError (- toFd))
  else if stop 2 then inr SERVICE_STOPPED
  else if (statx_res <? 0)%Z then inr (mapErrnoToError (- statx_res))
  else if size =? 0 then inl ()
  else if stop 3 then inr SERVICE_STOPPED
  else if (copy_res <? 0)%Z then inr (mapErrnoToError (- copy_res))
  else inl ().

(** ** [removeFile], [writeFile] and [appendFile] *)

(** The directory entry of the file is [None] when there is none. *)
Definition removeFile (stop : nat → bool) (res : Z) (f : option (list B)) : (unit + IOError) * option (list B) :=
  if stop 0 then (inr SERVICE_STOPPED, f)
  else
    let f' := if (res <? 0)%Z then f else None in
    if stop 1 then (inr SERVICE_STOPPED, f')
    else if (res <? 0)%Z then (inr (mapErrnoToError (- res)), f') else (inl (), f').
(** The two differ in the flags of open: [truncate] for O_TRUNC, else O_APPEND.  The size is a
    32-bit one; [write_res] bytes of it are written. *)
Definition write_to (truncate : bool) (stop : nat → bool) (open_res write_res : Z) (contents : list B) (f : option (list B)) : (unit + IOError) * option (list B) :=
  if stop 0 then (inr SERVICE_STOPPED, f)
  else
    let f' := if (open_res <? 0)%Z then f else if truncate then Some [] else Some (default [] f) in
    if stop 1 then (inr SERVICE_STOPPED, f')
    else if (open_res <? 0)%Z then (inr (mapErrnoToError (- open_res)), f')
    else
      let size := (Z.of_nat (length contents) mod 2 ^ 32)%Z in
      let written := if (write_res <? 0)%Z then [] else take (Z.to_nat (write_res `min` size)) contents in
      (inl (), (.++ written) <$> f').
Definition writeFile := write_to true.
Definition appendFile := write_to false.

(** *** Reading *)

Context (Hbs : 0 < bufferSize) (Hmax : 0 < maxSubmissions).

(** The contents are the first [i] parts; the batch goes on for [k] parts. *)
Definition read_inv (file : list B) (i k : nat) (r : reading) : Prop :=
  i * bufferSize < length file ∧ 0 < k <= maxSubmissions ∧ (∃ q, i + k = q * maxSubmissions) ∧
  r = (let '(ps, sl) := submit k (length file - i * bufferSize) (i * bufferSize) in mkReading (take (i * bufferSize) file) sl 0 false ps false).

Lemma submit_S k sizeLeft offset : sizeLeft ≠ 0 →
  submit (S k) sizeLeft offset =
  (let '(ps, sl) := submit k (if bufferSize <? sizeLeft then sizeLeft - bufferSize else 0) (offset + bufferSize) in
   (mkPart offset bufferSize ((sizeLeft <? bufferSize) || (k =? 0)) :: ps, sl)).
Proof. intros H. cbn [submit]. by rewrite (proj2 (Nat.eqb_neq _ _) H). Qed.
Lemma submit_0 k offset : submit k 0 offset = ([], 0).
Proof. by destruct k. Qed.

(** The size of the last part, and whether it is the last one of its batch. *)
Definition reads_well (n : nat) : Prop := n mod bufferSize ≠ 0 ∨ (n / bufferSize) mod maxSubmissions = 0.
#[local] Instance reads_well_dec n : Decision (reads_well n).
Proof. unfold reads_well. apply _. Defined.
Lemma last_part_in_batch n i k q : i * bufferSize < n → n <= S i * bufferSize → 0 < k <= maxSubmissions → i + k = q * maxSubmissions →
  ((n - i * bufferSize <? bufferSize) || (k =? 1) = true ↔ reads_well n).
Proof.
  intros H1 H2 H3 H4. unfold reads_well. rewrite orb_true_iff, Nat.ltb_lt, Nat.eqb_eq.
  destruct (decide (n = S i * bufferSize)) as [->|Hn].
  - rewrite Nat.Div0.mod_mul, Nat.div_mul by lia.
    assert (k = 1 ↔ S i mod maxSubmissions = 0) as Hl.
    { split.
      - intros ->. replace (S i) with (q * maxSubmissions) by lia. apply Nat.Div0.mod_mul.
      - intros Hm. apply Nat.Div0.div_exact in Hm. set (d := S i / maxSubmissions) in *. clearbody d.
        assert (q = d) as ->; [|lia]. destruct (Nat.lt_trichotomy q d) as [H|[H|H]]; [|done|]; exfalso.
        + pose proof (Nat.mul_le_mono_r (S q) d maxSubmissions H). lia.
        + pose proof (Nat.mul_le_mono_r (S d) q maxSubmissions H). lia. }
    rewrite <- Hl. replace (S i * bufferSize - i * bufferSize) with bufferSize by lia. split; intros [?|?]; [lia|by right|done|by right].
  - assert (n mod bufferSize = n - i * bufferSize) as Hm.
    { symmetry. apply (Nat.mod_unique _ _ i); lia. }
    split; intros _; left; lia.
Qed.

Lemma part_of_file (file : list B) i : take (i * bufferSize) file ++ take bufferSize (drop (i * bufferSize) file) = take (S i * bufferSize) file.
Proof. rewrite take_take_drop. f_equal. lia. Qed.
(** What the reads come to. *)
Definition read_done (file : list B) (r : outcome reading) : Prop :=
  (reads_well (length file) → r = Done (mkReading file 0 0 true [] false)) ∧ (¬ reads_well (length file) → r = Terminated).
Lemma read_step file i k r : read_inv file i k r →
  ∃ p ps, rd_parts r = p :: ps ∧
  let r' := read_completed false (length file) (inl (full_read file p)) r in
  (length file <= S i * bufferSize ∧ read_done file r') ∨
  (S i * bufferSize < length file ∧ ∃ k' s, r' = Done s ∧ read_inv file (S i) k' s).
Proof.
  intros (Hi & Hk & [q Hq] & ->). destruct k as [|k]; [lia|].
  rewrite submit_S by lia.
  destruct (submit k _ _) as [ps sl] eqn:Hs. cbn [rd_parts]. eexists _, _. split; [done|].
  unfold read_completed. cbn [rd_parts rd_res rd_contents rd_sizeLeft rd_evt rd_freed orb].
  change ((0 <? 0)%Z) with false. unfold full_read. cbn [pt_length pt_offset pt_last].
  assert (length (take (i * bufferSize) file) = i * bufferSize) as Hlen by (rewrite length_take; lia).
  rewrite Hlen. rewrite (proj2 (Nat.leb_gt _ _) Hi), part_of_file, length_take.
  destruct (decide (length file <= S i * bufferSize)) as [Hf|Hf].
  - left. split; [done|]. rewrite Nat.min_r, Nat.eqb_refl by lia.
    assert (ps = [] ∧ sl = 0) as [-> ->].
    { rewrite (proj2 (Nat.ltb_ge _ _)), submit_0 in Hs by lia. by simplify_eq. }
    pose proof (last_part_in_batch (length file) i (S k) q Hi Hf Hk Hq) as Hlast. rewrite take_ge by lia.
    change (S k =? 1) with (k =? 0) in Hlast.
    split; intros Hw.
    + by rewrite (proj2 Hlast Hw).
    + destruct ((length file - i * bufferSize <? bufferSize) || (k =? 0)) eqn:E; [|done]. by destruct Hw; apply Hlast.
  - right. apply Nat.nle_gt in Hf. split; [done|]. rewrite Nat.min_l by lia.
    rewrite (proj2 (Nat.eqb_neq _ _)) by lia.
    assert (length (take bufferSize (drop (i * bufferSize) file)) = bufferSize) as Hb by (rewrite length_take, length_drop; lia).
    rewrite Hb, Nat.ltb_irrefl. rewrite (proj2 (Nat.ltb_lt _ _)) in Hs by lia. rewrite (proj2 (Nat.ltb_ge _ _)) by lia. cbn [orb].
    replace (i * bufferSize + bufferSize) with (S i * bufferSize) in * by lia.
    replace (length file - i * bufferSize - bufferSize) with (length file - S i * bufferSize) in Hs by lia.
    destruct k as [|k]; cbn [Nat.eqb].
    + cbn [submit] in Hs. simplify_eq.
      destruct (submit maxSubmissions _ _) as [new rest] eqn:Hn. exists maxSubmissions. eexists. split; [done|].
      split; [lia|]. split; [lia|]. split; [exists (S q); lia|]. by rewrite Hn.
    + exists (S k). eexists. split; [done|]. split; [lia|]. split; [lia|]. split; [exists q; lia|]. by rewrite Hs, app_nil_r.
Qed.
Lemma read_all_inv file fuel i k r : read_inv file i k r → length file <= fuel + i →
  ∃ o, read_all fuel file r = Some o ∧ read_done file o.
Proof.
  revert i k r. induction fuel as [|fuel IH]; intros i k r Hr Hf.
  { destruct Hr as (? & _). nia. }
  destruct (read_step file i k r Hr) as (p & ps & Hps & Hstep). cbn [read_all]. rewrite Hps.
  destruct Hstep as [[_ Hd]|[_ (k' & s & -> & Hs)]].
  - destruct (decide (reads_well (length file))) as [Hw|Hw].
    + rewrite (proj1 Hd Hw). eexists. split; [by destruct fuel|]. by split.
    + rewrite (proj2 Hd Hw). eexists. split; [done|]. by split.
  - apply (IH _ _ _ Hs). lia.
Qed.
(** C33: Reading a file that is not empty, for parts and batches that are not empty, when
    every read gives all there is and the reads are completed in their order: the
    handlers put the file together and set the event once, nothing is submitted any
    more — unless the size is a multiple of the size of a part and the last part is not
    the last of its batch; then a handler of the hardened build calls
    [std::terminate()].  One read for each byte is more than enough for both. *)
Theorem read_gives_the_file file : 0 < length file →
  (reads_well (length file) → read_all (length file) file (read_begin (length file)) = Some (Done (mkReading file 0 0 true [] false))) ∧
  (¬ reads_well (length file) → read_all (length file) file (read_begin (length file)) = Some Terminated).
Proof.
  intros Hn. destruct (read_all_inv file (length file) 0 maxSubmissions (read_begin (length file))) as (o & -> & H1 & H2); [|lia|].
  - split; [lia|]. split; [lia|]. split; [exists 1; lia|]. unfold read_begin. by rewrite Nat.sub_0_r.
  - split; intros Hw; f_equal; auto.
Qed.

(** *** Copying *)

(** The [i]-th part, and the write of it. *)
Definition part_at (file : list B) (i : nat) : list B := take bufferSize (drop (i * bufferSize) file).
Definition write_of (file : list B) (i : nat) : copy_request := CWrite (part_at file i) (length file <=? S i * bufferSize).
Definition writes (file : list B) (a b : nat) : list copy_request := write_of file <$> seq a (b - a).
Lemma writes_cons file a b : a < b → writes file a b = write_of file a :: writes file (S a) b.
Proof. intros H. unfold writes. by replace (b - a) with (S (b - S a)) by lia. Qed.
Lemma writes_snoc file a b : a <= b → writes file a (S b) = writes file a b ++ [write_of file b].
Proof.
  intros H. unfold writes. replace (S b - a) with (S (b - a)) by lia.
  rewrite seq_S, fmap_app. cbn. by replace (a + (b - a)) with b by lia.
Qed.
Lemma writes_nil file a : writes file a a = [].
Proof. unfold writes. by rewrite Nat.sub_diag. Qed.
(** [a] parts are written, [i] are read.  Before the [k] parts of the batch that are
    still to be read there are the writes of the batch before, up to [b]; behind them
    those of this batch. *)
Definition copy_reading (file : list B) (i k a b : nat) (c : copying) : Prop :=
  i * bufferSize < length file ∧ 0 < k ∧ a <= b <= i ∧
  c = (let '(ps, sl) := submit k (length file - i * bufferSize) (i * bufferSize) in
       mkCopying (take (a * bufferSize) file) sl 0 false (writes file a b ++ (CRead <$> ps) ++ writes file b i)).
(** All [n] parts are read. *)
Definition copy_writing (file : list B) (n a : nat) (c : copying) : Prop :=
  length file <= n * bufferSize ∧ (n - 1) * bufferSize < length file ∧ a < n ∧
  c = mkCopying (take (a * bufferSize) file) 0 0 false (writes file a n).
Definition copied (file : list B) : copying := mkCopying file 0 0 true [].

Lemma write_step file a qs sl e : a * bufferSize <= length file →
  copy_completed false (length file) (inl (full_answer file (write_of file a)))
    (mkCopying (take (a * bufferSize) file) sl 0 e (write_of file a :: qs)) =
  mkCopying (take (S a * bufferSize) file) sl 0 (e || (length file <=? S a * bufferSize)) qs.
Proof. intros H. unfold copy_completed, write_of, part_at. cbn -[Nat.mul Nat.leb]. by rewrite part_of_file. Qed.
Lemma copy_writing_step file n a c fuel : copy_writing file n a c → n - a <= fuel → copy_all fuel file c = Some (copied file).
Proof.
  revert a c. induction fuel as [|fuel IH]; intros a c (H1 & H2 & H3 & ->) Hf; [lia|].
  rewrite writes_cons by done. cbn [copy_all cp_requests].
  rewrite write_step by (pose proof (Nat.mul_le_mono_r a (n - 1) bufferSize); lia). cbn [orb].
  destruct (decide (S a = n)) as [<-|Hn].
  - rewrite writes_nil, (proj2 (Nat.leb_le _ _) H1), take_ge by done. by destruct fuel.
  - rewrite (proj2 (Nat.leb_gt _ _)) by (pose proof (Nat.mul_le_mono_r (S a) (n - 1) bufferSize); lia).
    apply (IH (S a)); [|lia]. split_and!; [done..|lia|done].
Qed.
(** A read of a part that is not the last one of the file. *)
Lemma copy_read_step file i k a c : copy_reading file i k a a c → S i * bufferSize < length file →
  ∃ q qs, cp_requests c = q :: qs ∧ ∃ k' b,
    copy_reading file (S i) k' a b (copy_completed false (length file) (inl (full_answer file q)) c).
Proof.
  intros (Hi & Hk & Ha & ->) Hf. destruct k as [|k]; [lia|]. rewrite submit_S, writes_nil by lia. cbn [app].
  rewrite (proj2 (Nat.ltb_lt _ _)), (proj2 (Nat.ltb_ge (_ - _) _)) by lia. cbn [orb].
  replace (i * bufferSize + bufferSize) with (S i * bufferSize) in * by lia.
  replace (length file - i * bufferSize - bufferSize) with (length file - S i * bufferSize) by lia.
  destruct (submit k _ _) as [ps sl] eqn:Hs.
  cbn [fmap list_fmap app cp_requests]. do 2 eexists. split; [done|].
  unfold copy_completed. cbn [cp_requests cp_res cp_to cp_sizeLeft cp_evt orb full_answer pt_offset pt_last].
  change ((0 <? 0)%Z) with false. unfold full_read. cbn [pt_length pt_offset].
  fold (part_at file i).
  assert (length (part_at file i) = bufferSize) as Hb by (unfold part_at; rewrite length_take, length_drop; lia).
  rewrite Hb, Nat.ltb_irrefl, andb_false_r. replace (i * bufferSize + bufferSize) with (S i * bufferSize) in * by lia.
  rewrite (proj2 (Nat.eqb_neq _ _)) by lia. cbn [negb andb app].
  assert (CWrite (part_at file i) false = write_of file i) as ->.
  { unfold write_of. by rewrite (proj2 (Nat.leb_gt _ _)). }
  destruct k as [|k]; cbn [Nat.eqb].
  - cbn [submit] in Hs. simplify_eq. exists maxSubmissions, (S i).
    split; [done|]. split; [done|]. split; [lia|]. destruct (submit maxSubmissions _ _) as [new rest].
    rewrite writes_nil, app_nil_r, writes_snoc by lia. cbn. by rewrite <- app_assoc.
  - exists (S k), a. split; [done|]. split; [lia|]. split; [lia|]. rewrite Hs.
    rewrite writes_nil, writes_snoc by lia. cbn [fmap list_fmap app]. by rewrite <- app_assoc.
Qed.
Lemma copy_last_read_step file i k a c : copy_reading file i k a a c → length file <= S i * bufferSize →
  ∃ q qs, cp_requests c = q :: qs ∧ copy_writing file (S i) a (copy_completed false (length file) (inl (full_answer file q)) c).
Proof.
  intros (Hi & Hk & Ha & ->) Hf. destruct k as [|k]; [lia|].
  rewrite submit_S, writes_nil, (proj2 (Nat.ltb_ge bufferSize _)), submit_0 by lia.
  cbn [fmap list_fmap app cp_requests]. do 2 eexists. split; [done|].
  unfold copy_completed. cbn [cp_requests cp_res cp_to cp_sizeLeft cp_evt orb full_answer pt_offset pt_last].
  change ((0 <? 0)%Z) with false. unfold full_read. cbn [pt_length pt_offset]. fold (part_at file i).
  assert (i * bufferSize + length (part_at file i) = length file) as -> by (unfold part_at; rewrite length_take, length_drop; lia).
  rewrite Nat.eqb_refl. cbn [negb andb app]. split; [done|]. split; [by rewrite Nat.sub_1_r|]. split; [lia|].
  rewrite writes_snoc by lia. unfold write_of. by rewrite (proj2 (Nat.leb_le _ _) Hf).
Qed.
Lemma copy_all_reading file fuel i k a b c : copy_reading file i k a b c → 2 * length file <= fuel + i + a → copy_all fuel file c = Some (copied file).
Proof.
  revert i k a b c. induction fuel as [|fuel IH]; intros i k a b c Hc Hf.
  { destruct Hc as (? & _ & ? & _). nia. }
  destruct (decide (a = b)) as [<-|Hab].
  - destruct (decide (S i * bufferSize < length file)) as [Hi|Hi].
    + destruct (copy_read_step file i k a c Hc Hi) as (q & qs & Hq & k' & b & Hs). cbn [copy_all]. rewrite Hq. apply (IH _ _ _ _ _ Hs). lia.
    + destruct (copy_last_read_step file i k a c Hc ltac:(lia)) as (q & qs & Hq & Hs). cbn [copy_all]. rewrite Hq.
      apply (copy_writing_step _ _ _ _ _ Hs). destruct Hc as (? & _). nia.
  - destruct Hc as (Hi & Hk & Hb & ->). destruct (submit k _ _) as [ps sl] eqn:Hs. rewrite writes_cons by lia. cbn [copy_all cp_requests app].
    pose proof (Nat.mul_le_mono_r (S a) i bufferSize ltac:(lia)).
    rewrite write_step by lia. rewrite (proj2 (Nat.leb_gt _ _)) by lia.
    apply (IH i k (S a) b); [|lia]. split_and!; [done|done|lia|lia|]. by rewrite Hs.
Qed.
(** Copying a file that is not empty, when every read and write is a full one: the
    destination becomes the file, whatever its size; the event is set with the last
    write, and then nothing is submitted that could still refer to the frame of
    [copyFile]. *)
Theorem copy_gives_the_file file : 0 < length file →
  copy_all (2 * length file) file (copy_begin (length file)) = Some (mkCopying file 0 0 true []).
Proof.
  intros Hn. apply (copy_all_reading file _ 0 maxSubmissions 0 0); [|lia].
  split; [lia|]. split; [lia|]. split; [lia|]. unfold copy_begin. rewrite Nat.sub_0_r.
  destruct (submit maxSubmissions _ _) as [ps sl]. by rewrite writes_nil, app_nil_r.
Qed.
(** A write that succeeds: what the file then holds. *)
Lemma write_then_contents stop open_res contents f :
  stop 0 = false → stop 1 = false → (0 <= open_res)%Z → (Z.of_nat (length contents) < 2 ^ 32)%Z →
  writeFile stop open_res (Z.of_nat (length contents)) contents f = (inl (), Some contents) ∧
  appendFile stop open_res (Z.of_nat (length contents)) contents f = (inl (), Some (default [] f ++ contents)).
Proof.
  intros H0 H1 Ho Hl. unfold writeFile, appendFile, write_to. rewrite H0, H1, (proj2 (Z.ltb_ge _ _) Ho), (proj2 (Z.ltb_ge _ _)) by lia.
  rewrite Z.mod_small, Z.min_id, Nat2Z.id, take_ge by lia. done.
Qed.
(** A write that fails, or that is cut short, is reported as a success. *)
Lemma failed_write_reported_written truncate stop open_res write_res contents f :
  stop 0 = false → stop 1 = false → (0 <= open_res)%Z → (write_to truncate stop open_res write_res contents f).1 = inl ().
Proof. intros H0 H1 Ho. unfold write_to. by rewrite H0, H1, (proj2 (Z.ltb_ge _ _) Ho). Qed.

End files.

(** Parts of four bytes, two in a batch: a file of ten bytes, and one of four. *)
Lemma read_gives_the_file_witness :
  read_all 4 2 10 [1; 2; 3; 4; 5; 6; 7; 8; 9; 10] (read_begin 4 2 10) = Some (Done (mkReading [1; 2; 3; 4; 5; 6; 7; 8; 9; 10] 0 0 true [] false)) ∧
  read_all 4 2 4 [1; 2; 3; 4] (read_begin 4 2 4) = Some Terminated.
Proof.
  split.
  - apply (read_gives_the_file (B := nat) 4 2 ltac:(lia) ltac:(lia) [1; 2; 3; 4; 5; 6; 7; 8; 9; 10] ltac:(cbn; lia)). left. vm_compute. lia.
  - apply (read_gives_the_file (B := nat) 4 2 ltac:(lia) ltac:(lia) [1; 2; 3; 4] ltac:(cbn; lia)). unfold reads_well. vm_compute. intros [?|?]; lia.
Defined.
Lemma copy_gives_the_file_witness :
  copy_all 4 2 18 [1; 2; 3; 4; 5; 6; 7; 8; 9] (copy_begin 4 2 9) = Some (mkCopying [1; 2; 3; 4; 5; 6; 7; 8; 9] 0 0 true []).
Proof. exact (copy_gives_the_file (B := nat) 4 2 ltac:(lia) ltac:(lia) [1; 2; 3; 4; 5; 6; 7; 8; 9] ltac:(cbn; lia)). Defined.

(** A read that fails in a batch whose last part was never submitted as the last one:
    the event is not set, and nothing is under way any more. *)
Lemma failed_read_never_wakes :
  (let r := read_begin 4 2 4 in read_completed 4 2 false 4 (inr (-5)%Z) r) = Done (mkReading [] 0 (-5) false ([] : list part) false : reading (B := nat)).
Proof. reflexivity. Qed.
(** A part that is read short is read on behind the parts that follow it: the contents
    are out of order; and it is read into the buffer that was just deleted. *)
Lemma short_read_out_of_order :
  match read_completed 4 2 false 6 (inl [1; 2]) (read_begin 4 2 6) with
  | Done r => match read_completed 4 2 false 6 (inl [5; 6]) r with
              | Done r' => rd_contents r' = [1; 2; 5; 6] ∧ rd_freed r' = true
              | Terminated => False
              end
  | Terminated => False
  end.
Proof. by vm_compute. Qed.
(** A write that writes less than it was asked for goes unnoticed: [copyFile] reports a
    success for half a file. *)
Lemma short_write_unnoticed :
  copy_completed 4 2 false 4 (inl [1; 2]) (copy_completed 4 2 false 4 (inl [1; 2; 3; 4]) (copy_begin 4 2 4)) = mkCopying [1; 2] 0 0 true [].
Proof. reflexivity. Qed.
