(* ===== verification/SharedFileIO.v ===== *)
(** * File IO with one thread for all managers

    src/services/io/SharedOverThreadsAsyncFileIO.cpp: the services of all managers share
    a queue of submissions and one thread, which belongs to the service that was started
    first and which runs one submission after the other.  A submission that is done is
    reported by an event in the queue of the manager that started the thread.

    The steps below are those between two accesses of shared state: the lock is held for
    the look at the queue only. *)

From stdpp Require Import base list option gmap.
From Stdlib Require Import ZArith Lia.
From S2P Require Import Prelude.
From S2P Require Import TcpConnection.

Local Open Scope nat_scope.

Section shared.
(** [FS] is what the operations work on. *)
Context {FS : Type}.

(** What a submission does with the files, and its result. *)
Definition io_fn := FS → FS * (unit + IOError).
(** [io_operation_submission]: its id, the manager whose coroutine awaits it and [fn]. *)
Record submission := mkSubmission { sub_id : nat; sub_manager : nat; sub_fn : io_fn }.

(** Where the thread is: at the condition of its outer loop, with the lock at the inner one,
    running a submission, about to push its event, asleep, or at its end. *)
Inductive thread_pc := AtCheck | AtQueue | Running (s : submission) | Reporting (s : submission) (r : unit + IOError) | Asleep | Finished.
(** A service: [_should_stop] and [_io_thread] with the manager whose queue it captured. *)
Record io_service := mkIoService { io_should_stop : bool; io_thread : option (nat * thread_pc) }.
Record shared := mkShared {
  sh_initialized : bool;
  sh_evts : list submission;
  sh_services : gmap nat io_service;
  sh_fs : FS;
  sh_events : list (nat * (nat * (unit + IOError))) }.   (* queue, submission, result *)

Definition set_service (v : nat) (x : io_service) (s : shared) : shared :=
  mkShared (sh_initialized s) (sh_evts s) (<[v := x]> (sh_services s)) (sh_fs s) (sh_events s).
(** [start] of service [v] by manager [m]. *)
Definition io_start (m v : nat) (s : shared) : shared :=
  match sh_services s !! v with
  | None => s
  | Some x =>
      if sh_initialized s then s
      else mkShared true (sh_evts s) (<[v := mkIoService (io_should_stop x) (Some (m, AtCheck))]> (sh_services s)) (sh_fs s) (sh_events s)
  end.
(** [stop], up to the join; and what follows it once the thread is finished. *)
Definition io_stop (v : nat) (s : shared) : shared :=
  match sh_services s !! v with
  | Some (mkIoService _ (Some t)) => set_service v (mkIoService true (Some t)) s
  | _ => s
  end.
Definition io_joined (v : nat) (s : shared) : option shared :=
  match sh_services s !! v with
  | Some (mkIoService true (Some (_, Finished))) =>
      Some (mkShared false (sh_evts s) (<[v := mkIoService true None]> (sh_services s)) (sh_fs s) (sh_events s))
  | _ => None
  end.
(** The submission that each of the operations pushes. *)
Definition io_submit (x : submission) (s : shared) : shared :=
  mkShared (sh_initialized s) (sh_evts s ++ [x]) (sh_services s) (sh_fs s) (sh_events s).
(** One step of the thread of service [v]. *)
Definition thread_step (v : nat) (s : shared) : option shared :=
  match sh_services s !! v with
  | Some (mkIoService stop (Some (m, pc))) =>
      let goto pc' := set_service v (mkIoService stop (Some (m, pc'))) in
      match pc with
      | AtCheck => Some (goto (if stop then Finished else AtQueue) s)
      | AtQueue =>
          match sh_evts s with
          | [] => Some (goto Asleep s)
          | x :: xs => Some (goto (Running x) (mkShared (sh_initialized s) xs (sh_services s) (sh_fs s) (sh_events s)))
          end
      | Running x =>
          let '(fs, r) := sub_fn x (sh_fs s) in
          Some (goto (Reporting x r) (mkShared (sh_initialized s) (sh_evts s) (sh_services s) fs (sh_events s)))
      | Reporting x r =>
          Some (goto AtQueue (mkShared (sh_initialized s) (sh_evts s) (sh_services s) (sh_fs s) (sh_events s ++ [(m, (sub_id x, r))])))
      | Asleep => Some (goto AtCheck s)
      | Finished => None
      end
  | _ => None
  end.

(** Any order of the calls and of the steps of the threads; [subs] are the submissions so
    far. *)
Inductive shared_reach (fs0 : FS) (vs : list nat) : list submission → shared → Prop :=
  | shr_init : shared_reach fs0 vs [] (mkShared false [] (list_to_map ((λ v, (v, mkIoService false None)) <$> vs)) fs0 [])
  | shr_start subs s m v : shared_reach fs0 vs subs s → shared_reach fs0 vs subs (io_start m v s)
  | shr_stop subs s v : shared_reach fs0 vs subs s → shared_reach fs0 vs subs (io_stop v s)
  | shr_joined subs s v s' : shared_reach fs0 vs subs s → io_joined v s = Some s' → shared_reach fs0 vs subs s'
  | shr_submit subs s x : shared_reach fs0 vs subs s → shared_reach fs0 vs (subs ++ [x]) (io_submit x s)
  | shr_thread subs s v s' : shared_reach fs0 vs subs s → thread_step v s = Some s' → shared_reach fs0 vs subs s'.

(** The specification: the operations one after the other, in the order of submission. *)
Fixpoint run_in_order (subs : list submission) (fs : FS) : FS * list (nat * (unit + IOError)) :=
  match subs with
  | [] => (fs, [])
  | x :: xs =>
      let '(fs1, r) := sub_fn x fs in
      let '(fs2, rs) := run_in_order xs fs1 in
      (fs2, (sub_id x, r) :: rs)
  end.

(** ** At most one thread, and what it has in its hands *)

Definition threads (s : shared) : nat → Prop := λ v, ∃ b t, sh_services s !! v = Some (mkIoService b (Some t)).
(** What the threads hold: a submission that is taken from the queue and not run, or one
    that is run and not reported. *)
Definition taken (pc : thread_pc) : list submission := match pc with Running x => [x] | _ => [] end.
Definition unreported (pc : thread_pc) : list (nat * (unit + IOError)) := match pc with Reporting x r => [(sub_id x, r)] | _ => [] end.
(** No thread, or one. *)
Inductive holding (s : shared) : list submission → list (nat * (unit + IOError)) → Prop :=
  | holding_none : sh_initialized s = false → (∀ v x, sh_services s !! v = Some x → io_thread x = None) → holding s [] []
  | holding_one v b m pc : sh_initialized s = true → sh_services s !! v = Some (mkIoService b (Some (m, pc))) →
      (∀ w x, w ≠ v → sh_services s !! w = Some x → io_thread x = None) → holding s (taken pc) (unreported pc).
Definition shared_inv (fs0 : FS) (subs : list submission) (s : shared) : Prop :=
  ∃ ran todo reports, holding s todo reports ∧ subs = ran ++ todo ++ sh_evts s ∧
    run_in_order ran fs0 = (sh_fs s, (sh_events s).*2 ++ reports).

Lemma run_in_order_snoc ran x fs0 fs rs : run_in_order ran fs0 = (fs, rs) →
  run_in_order (ran ++ [x]) fs0 = ((sub_fn x fs).1, rs ++ [(sub_id x, (sub_fn x fs).2)]).
Proof.
  revert fs0 rs. induction ran as [|y ran IH]; intros fs0 rs H; cbn in H |- *.
  { simplify_eq. by destruct (sub_fn x fs). }
  destruct (sub_fn y fs0) as [fs1 r]. destruct (run_in_order ran fs1) as [fs2 rs2] eqn:E. simplify_eq.
  by rewrite (IH _ _ E).
Qed.
Lemma no_thread_insert (ss : gmap nat io_service) v x : (∀ w y, ss !! w = Some y → io_thread y = None) →
  ∀ w y, w ≠ v → <[v := x]> ss !! w = Some y → io_thread y = None.
Proof. intros H w y Hw. rewrite lookup_insert_ne by done. apply H. Qed.
Lemma other_thread_insert (ss : gmap nat io_service) v x : (∀ w y, w ≠ v → ss !! w = Some y → io_thread y = None) →
  ∀ w y, w ≠ v → <[v := x]> ss !! w = Some y → io_thread y = None.
Proof. intros H w y Hw. rewrite lookup_insert_ne by done. by apply H. Qed.
(** The service with a thread is the one that is held. *)
Lemma holding_thread s todo reports v b m pc : holding s todo reports → sh_services s !! v = Some (mkIoService b (Some (m, pc))) →
  todo = taken pc ∧ reports = unreported pc ∧ sh_initialized s = true ∧ (∀ w x, w ≠ v → sh_services s !! w = Some x → io_thread x = None).
Proof.
  intros [_ H|v' b' m' pc' Hi Hv Hw] Hs; [by specialize (H _ _ Hs)|].
  destruct (decide (v = v')) as [->|Hne]; [by simplify_eq|]. by specialize (Hw _ _ Hne Hs).
Qed.
(** The thread of [v] goes on, whatever else the step did. *)
Lemma holding_goto v b m pc i evts ss fs events :
  i = true → (∀ w x, w ≠ v → ss !! w = Some x → io_thread x = None) →
  holding (mkShared i evts (<[v := mkIoService b (Some (m, pc))]> ss) fs events) (taken pc) (unreported pc).
Proof. intros -> H. apply (holding_one _ v b m); [done|apply lookup_insert_eq|by apply other_thread_insert]. Qed.

Lemma start_inv fs0 subs m v s : shared_inv fs0 subs s → shared_inv fs0 subs (io_start m v s).
Proof.
  intros H. unfold io_start. destruct (sh_services s !! v) as [x|] eqn:Hv; [|done].
  destruct (sh_initialized s) eqn:Hi; [done|]. destruct H as (ran & todo & reports & Hh & Hsubs & Hran).
  destruct Hh as [_ Hno|]; [|congruence]. exists ran, (taken AtCheck), (unreported AtCheck).
  split; [apply (holding_goto v _ m AtCheck); [done|intros w y _; apply Hno]|done].
Qed.
Lemma stop_inv fs0 subs v s : shared_inv fs0 subs s → shared_inv fs0 subs (io_stop v s).
Proof.
  intros (ran & todo & reports & Hh & H). unfold io_stop.
  destruct (sh_services s !! v) as [[b [[m pc]|]]|] eqn:Hv; [|by exists ran, todo, reports..].
  destruct (holding_thread _ _ _ _ _ _ _ Hh Hv) as (-> & -> & Hi & Hw). exists ran, (taken pc), (unreported pc).
  split; [by apply holding_goto|done].
Qed.
Lemma joined_inv fs0 subs v s s' : shared_inv fs0 subs s → io_joined v s = Some s' → shared_inv fs0 subs s'.
Proof.
  intros (ran & todo & reports & Hh & H). unfold io_joined.
  destruct (sh_services s !! v) as [[[] [[m pc]|]]|] eqn:Hv; try done. destruct pc; try done. intros [= <-].
  destruct (holding_thread _ _ _ _ _ _ _ Hh Hv) as (-> & -> & Hi & Hw). exists ran, [], [].
  split; [|done]. apply holding_none; [done|]. intros w x. cbn. destruct (decide (w = v)) as [->|Hne].
  - rewrite lookup_insert_eq. by intros [= <-].
  - rewrite lookup_insert_ne by done. by apply Hw.
Qed.
Lemma submit_inv fs0 subs x s : shared_inv fs0 subs s → shared_inv fs0 (subs ++ [x]) (io_submit x s).
Proof.
  intros (ran & todo & reports & Hh & -> & Hran). exists ran, todo, reports. split; [|split; [by rewrite <- !app_assoc|done]].
  destruct Hh; [by apply holding_none|by eapply holding_one].
Qed.
Lemma thread_inv fs0 subs v s s' : shared_inv fs0 subs s → thread_step v s = Some s' → shared_inv fs0 subs s'.
Proof.
  intros (ran & todo & reports & Hh & Hsubs & Hran). unfold thread_step.
  destruct (sh_services s !! v) as [[b [[m pc]|]]|] eqn:Hv; try done.
  destruct (holding_thread _ _ _ _ _ _ _ Hh Hv) as (-> & -> & Hi & Hw).
  destruct pc as [| |x|x r| |]; try done.
  - intros [= <-]. exists ran, [], []. split; [|done]. destruct b; by apply (holding_goto v).
  - destruct (sh_evts s) as [|x xs] eqn:He; intros [= <-].
    + exists ran, (taken Asleep), []. split; [by apply (holding_goto v)|]. by rewrite <- He in Hsubs.
    + exists ran, (taken (Running x)), []. by split; [apply (holding_goto v)|].
  - destruct (sub_fn x (sh_fs s)) as [fs r] eqn:Hfn. intros [= <-].
    exists (ran ++ [x]), [], (unreported (Reporting x r)). split; [by apply (holding_goto v)|]. split; [by rewrite <- app_assoc|].
    rewrite (run_in_order_snoc _ _ _ _ _ Hran), Hfn. by rewrite app_nil_r.
  - intros [= <-]. exists ran, [], []. split; [by apply (holding_goto v _ _ AtQueue)|]. split; [done|].
    cbn. by rewrite Hran, fmap_app, app_nil_r.
  - intros [= <-]. exists ran, [], []. by split; [apply (holding_goto v _ _ AtCheck)|].
Qed.
Lemma shared_reach_inv fs0 vs subs s : shared_reach fs0 vs subs s → shared_inv fs0 subs s.
Proof.
  induction 1; eauto using start_inv, stop_inv, joined_inv, submit_inv, thread_inv.
  exists [], [], []. split; [|done]. apply holding_none; [done|]. intros v x Hx.
  apply elem_of_list_to_map_2, list_elem_of_fmap in Hx as (w & [= -> ->] & _). done.
Qed.
(** C34: In every interleaving of starts, stops, submissions of any manager and steps of
    threads, at most one service has a thread, and the files are what the operations give
    when they run one after the other in the order of submission: [ran] of them have run,
    the reports are theirs in that order (all but the last one, perhaps), and the rest
    waits, at most one of them outside the queue. *)
Theorem shared_io_in_order fs0 vs subs s : shared_reach fs0 vs subs s →
  (∀ v w, threads s v → threads s w → v = w) ∧
  ∃ ran waiting, subs = ran ++ waiting ∧ sh_fs s = (run_in_order ran fs0).1 ∧
    (∃ more, (run_in_order ran fs0).2 = (sh_events s).*2 ++ more ∧ length more <= 1) ∧
    (∃ taken, waiting = taken ++ sh_evts s ∧ length taken <= 1).
Proof.
  intros (ran & todo & reports & Hh & Hsubs & Hran)%shared_reach_inv. split.
  - intros v w (b & [m pc] & Hv) (b' & [m' pc'] & Hw).
    destruct (holding_thread _ _ _ _ _ _ _ Hh Hv) as (_ & _ & _ & Ho).
    destruct (decide (w = v)) as [->|Hne]; [done|]. by specialize (Ho _ _ Hne Hw).
  - exists ran, (todo ++ sh_evts s). rewrite Hran. split; [done|]. split; [done|].
    destruct Hh as [|v b m pc]; split; eexists; (split; [done|]); cbn; try lia; destruct pc; cbn; lia.
Qed.

(** ** A thread that is not told to stop empties the queue *)

Fixpoint thread_steps (n : nat) (v : nat) (s : shared) : option shared :=
  match n with O => Some s | S n' => match thread_step v s with Some s' => thread_steps n' v s' | None => None end end.
Lemma thread_steps_app n n' v s s' : thread_steps n v s = Some s' → thread_steps (n + n') v s = thread_steps n' v s'.
Proof.
  revert s. induction n as [|n IH]; intros s H; cbn in H |- *; [by simplify_eq|].
  destruct (thread_step v s); [by apply IH|done].
Qed.
(** Three steps for the first submission of the queue. *)
Lemma thread_runs_first v m i x xs ss fs events : ss !! v = Some (mkIoService false (Some (m, AtQueue))) →
  thread_steps 3 v (mkShared i (x :: xs) ss fs events) =
  Some (mkShared i xs ss (sub_fn x fs).1 (events ++ [(m, (sub_id x, (sub_fn x fs).2))])).
Proof.
  intros H. cbn [thread_steps]. unfold thread_step at 1. cbn [sh_services]. rewrite H. cbn [sh_evts].
  unfold thread_step at 1. unfold set_service. cbn [sh_services]. rewrite lookup_insert_eq. cbn [sh_fs].
  destruct (sub_fn x fs) as [fs' r] eqn:Hfn. cbn [fst snd sh_initialized sh_evts sh_services sh_fs sh_events].
  unfold thread_step, set_service. cbn [sh_services]. rewrite insert_insert_eq, lookup_insert_eq.
  cbn. by rewrite insert_insert_eq, insert_id.
Qed.
(** Three steps for each submission are enough for a thread at the queue that is not
    told to stop to run all that wait, in their order, and to report each one to the
    manager that started the thread. *)
Theorem thread_empties_queue v m s :
  sh_services s !! v = Some (mkIoService false (Some (m, AtQueue))) →
  thread_steps (3 * length (sh_evts s)) v s =
  Some (mkShared (sh_initialized s) [] (sh_services s) (run_in_order (sh_evts s) (sh_fs s)).1
    (sh_events s ++ ((m,.) <$> (run_in_order (sh_evts s) (sh_fs s)).2))).
Proof.
  destruct s as [i evts ss fs events]. cbn [sh_services sh_evts sh_initialized sh_fs sh_events]. intros H.
  revert fs events. induction evts as [|x xs IH]; intros fs events; [cbn; by rewrite app_nil_r|].
  cbn [length]. replace (3 * S (length xs)) with (3 + 3 * length xs) by lia.
  rewrite (thread_steps_app 3 _ _ _ _ (thread_runs_first v m i x xs ss fs events H)), IH.
  cbn. destruct (sub_fn x fs) as [fs1 r]. cbn. destruct (run_in_order xs fs1) as [fs2 rs]. cbn. by rewrite <- app_assoc.
Qed.
End shared.

(** * The operations

    Files by their path.  What the system calls return is an argument: [None] for
    success, else errno.  The parts for Linux are modelled; opening and writing through
    fmt is a call that succeeds or throws an error code. *)
Section operations.
Context {B : Type}.
Local Notation files := (gmap nat (list B)).
Definition io_failed (errno : Z) : unit + IOError := inr (mapErrnoToError errno).

(** [readWholeFile]: the contents that the coroutine returns come with the files. *)
Definition read_fn (max_size : nat) (open_err : option Z) (path : nat) (s : files * list B) : (files * list B) * (unit + IOError) :=
  match open_err with
  | Some e => (s, io_failed e)
  | None =>
      let file := default [] (s.1 !! path) in
      if max_size <? length file then (s, inr FILE_SIZE_TOO_BIG) else ((s.1, file), inl ())
  end.
(** The loop over copy_file_range: both files are at [pos]; [rets] is what the calls
    return, and [None] is a loop that goes on after them. *)
Fixpoint copy_loop (rets : list (nat + Z)) (src : list B) (pos len : nat) (dest : list B) : option (list B * (unit + IOError)) :=
  match rets with
  | [] => None
  | inr e :: _ => Some (dest, io_failed e)
  | inl ret :: rets' =>
      let dest' := dest ++ take ret (drop pos src) in
      if (0 <? len - ret) && (0 <? ret) then copy_loop rets' src (pos + ret) (len - ret) dest' else Some (dest', inl ())
  end.
Definition copy_fn (in_err stat_err out_err : option Z) (rets : list (nat + Z)) (from to : nat) (fs : files) : option (files * (unit + IOError)) :=
  match in_err, stat_err, out_err with
  | Some e, _, _ | None, Some e, _ | None, None, Some e => Some (fs, io_failed e)
  | None, None, None =>
      let len := length (default [] (fs !! from)) in
      let fs1 := <[to := []]> fs in
      '(dest, r) ← copy_loop rets (default [] (fs1 !! from)) 0 len [];
      Some (<[to := dest]> fs1, r)
  end.
Definition remove_fn (err : option Z) (path : nat) (fs : files) : files * (unit + IOError) :=
  match err with Some e => (fs, io_failed e) | None => (delete path fs, inl ()) end.
Definition write_fn (err : option Z) (path : nat) (contents : list B) (fs : files) : files * (unit + IOError) :=
  match err with Some e => (fs, io_failed e) | None => (<[path := contents]> fs, inl ()) end.
Definition append_fn (err : option Z) (path : nat) (contents : list B) (fs : files) : files * (unit + IOError) :=
  match err with Some e => (fs, io_failed e) | None => (<[path := default [] (fs !! path) ++ contents]> fs, inl ()) end.

Lemma copy_loop_copies ns src pos dest : Forall (λ n, 0 < n) ns → ns ≠ [] → pos + sum_list ns = length src →
  copy_loop (inl <$> ns) src pos (length src - pos) dest = Some (dest ++ drop pos src, inl ()).
Proof.
  intros Hns. revert pos dest. induction Hns as [|n ns Hn Hns IH]; intros pos dest Hne Hsum; [done|]. cbn in Hsum. cbn [fmap list_fmap copy_loop].
  destruct ns as [|n' ns].
  - cbn in Hsum. rewrite (proj2 (Nat.ltb_ge 0 _)) by lia. cbn. by rewrite (take_ge (drop pos src)) by (rewrite length_drop; lia).
  - pose proof (Forall_inv Hns) as Hn'. cbn in Hn', Hsum. rewrite !(proj2 (Nat.ltb_lt 0 _)) by (cbn; lia).
    cbn [andb].
    replace (length src - pos - n) with (length src - (pos + n)) by lia.
    rewrite IH by (done || (cbn; lia)). by rewrite <- app_assoc, <- drop_drop, take_drop.
Qed.
(** Copying one file to another on the shared thread, when every call of
    copy_file_range copies something until all of it is copied: the destination is a copy
    of the source, whatever the calls copy at a time, and all other files stay. *)
Theorem shared_copy_copies ns from to (fs : files) src :
  from ≠ to → fs !! from = Some src → Forall (λ n, 0 < n) ns → ns ≠ [] → sum_list ns = length src →
  copy_fn None None None (inl <$> ns) from to fs = Some (<[to := src]> fs, inl ()).
Proof.
  intros Hft Hfrom Hns Hne Hsum. unfold copy_fn. cbv zeta. rewrite lookup_insert_ne, Hfrom by done. cbn [from_option id].
  pose proof (copy_loop_copies ns src 0 [] Hns Hne Hsum) as Hc. rewrite Nat.sub_0_r in Hc. rewrite Hc. cbn. by rewrite insert_insert_eq.
Qed.
(** Copying a file to itself empties it, as the documentation of the interface warns. *)
Lemma copy_to_itself_empties from (fs : files) src : fs !! from = Some src →
  copy_fn None None None [inl 0] from from fs = Some (<[from := []]> fs, inl ()).
Proof.
  intros Hfrom. unfold copy_fn. cbv zeta. rewrite lookup_insert_eq, Hfrom. cbn [from_option id copy_loop].
  rewrite andb_false_r. cbn. by rewrite insert_insert_eq.
Qed.
End operations.

Lemma shared_copy_copies_witness :
  copy_fn None None None [inl 2; inl 1] 0 1 (<[0 := [7; 8; 9]]> ∅) = Some (<[1 := [7; 8; 9]]> (<[0 := [7; 8; 9]]> (∅ : gmap nat (list nat))), inl ()).
Proof.
  apply (shared_copy_copies [2; 1] 0 1 (<[0 := [7; 8; 9]]> (∅ : gmap nat (list nat))) [7; 8; 9]); [done|reflexivity|repeat constructor|done|reflexivity].
Defined.

(** ** Runs *)

(** A service 1 of manager 10 and a service 2 of manager 20; service 1 has the thread.
    The files are a number that the submissions count up. *)
Definition count_up (m : nat) : @submission nat := mkSubmission m m (λ n, (S n, inl ())).
Definition two_services : @shared nat :=
  io_start 20 2 (io_start 10 1 (mkShared false [] (list_to_map [(1, mkIoService false None); (2, mkIoService false None)]) 0 [])).
Lemma two_services_reach : shared_reach 0 [1; 2] [] two_services.
Proof. do 2 apply shr_start. exact (shr_init 0 [1; 2]). Qed.
(** The submission of manager 20 is run, and reported to the queue of manager 10: that
    manager's thread sets the event and with it resumes the coroutine of the other one. *)
Lemma reported_to_the_wrong_manager :
  sh_events <$> thread_steps 4 1 (io_submit (count_up 20) two_services) = Some [(10, (20, inl ()))].
Proof. reflexivity. Qed.
(** When service 1 is stopped, service 2 is left without a thread: what it submits waits. *)
Lemma stopped_service_strands_others :
  (s ← thread_steps 1 1 (io_stop 1 two_services); s' ← io_joined 1 s; Some (sh_evts (io_submit (count_up 20) s'), (thread_step 1 s', thread_step 2 s')))
  = Some ([count_up 20], (None, None)).
Proof. reflexivity. Qed.
(** A service that is started again still has [_should_stop] set: its thread ends at once, and with
    [_initialized] set no other service makes one. *)
Lemma restarted_service_stops_at_once :
  (s ← thread_steps 1 1 (io_stop 1 two_services);
   s' ← io_joined 1 s;
   s'' ← thread_steps 1 1 (io_start 10 1 s');
   let s3 := io_submit (count_up 20) (io_start 20 2 s'') in
   Some (sh_evts s3, (thread_step 1 s3, thread_step 2 s3))) = Some ([count_up 20], (None, None)).
Proof. reflexivity. Qed.
Lemma shared_io_in_order_witness : ∃ s, shared_reach 0 [1; 2] [count_up 20] s ∧ ∃ ran waiting, [count_up 20] = ran ++ waiting ∧ sh_fs s = (run_in_order ran 0).1.
Proof.
  exists (io_submit (count_up 20) two_services).
  assert (shared_reach 0 [1; 2] [count_up 20] (io_submit (count_up 20) two_services)) as H by apply (shr_submit 0 [1; 2] [] _ _ two_services_reach).
  split; [exact H|]. destruct (shared_io_in_order 0 [1; 2] _ _ H) as [_ (ran & waiting & H1 & H2 & _)]. by exists ran, waiting.
Defined.
Definition at_queue : @shared nat :=
  mkShared true [count_up 20; count_up 10] (<[1 := mkIoService false (Some (10, AtQueue))]> (sh_services two_services)) 0 [].
Lemma thread_empties_queue_witness : sh_fs <$> thread_steps 6 1 at_queue = Some 2.
Proof. exact (f_equal (fmap sh_fs) (thread_empties_queue 1 10 at_queue eq_refl)). Defined.
