(* ===== verification/UringQueue.v ===== *)
(** * The event queue on io_uring

    src/ichor/event_queues/IOUringQueue.cpp: events are the user data of requests in a ring
    shared with the kernel, plain events of no-ops and [UringResponseEvent]s of the requests
    of services; the loop of [start()] handles completions.

    The kernel and liburing are outside of the model: how many requests a submission
    takes ([submit_ret]), in what order requests are completed, and whether more
    completions of a request follow.  The ring has a number of entries of its own, which
    the kernel rounds up from the one it is asked for. *)

From stdpp Require Import base list option.
From Stdlib Require Import ZArith Lia.
From S2P Require Import Prelude.
From S2P Require Import TcpConnection.

Local Open Scope Z_scope.

(** ** State *)

(** The two kinds of event the loop tells apart, by their ids. *)
Inductive uevent := Plain (id : nat) | Response (id : nat).
(** A completion: its user data (null for [getSqe]) and IORING_CQE_F_MORE. *)
Record cqe := mkCqe { cq_data : option uevent; cq_more : bool }.
#[export] Instance uevent_eq_dec : EqDecision uevent.
Proof. solve_decision. Defined.

Record uqueue := mkUqueue {
  uq_ring : nat;                       (* entries of the submission ring *)
  uq_entriesCount : nat;
  uq_sq : list (option uevent);        (* prepared, not submitted *)
  uq_flight : list (option uevent);    (* with the kernel *)
  uq_cq : list cqe;                    (* completed, not handled *)
  uq_pendingEvents : Z;
  uq_quit : bool;
  uq_quitEventSent : option Z;         (* when *)
  uq_done : list (uevent * bool) }.    (* in order: deleted, or moved away by [processEvent] *)

Definition set_rings (sq flight : list (option uevent)) (cq : list cqe) (s : uqueue) : uqueue :=
  mkUqueue (uq_ring s) (uq_entriesCount s) sq flight cq (uq_pendingEvents s) (uq_quit s) (uq_quitEventSent s) (uq_done s).
Definition set_pending (p : Z) (s : uqueue) : uqueue :=
  mkUqueue (uq_ring s) (uq_entriesCount s) (uq_sq s) (uq_flight s) (uq_cq s) p (uq_quit s) (uq_quitEventSent s) (uq_done s).
Definition set_quit (q : bool) (sent : option Z) (s : uqueue) : uqueue :=
  mkUqueue (uq_ring s) (uq_entriesCount s) (uq_sq s) (uq_flight s) (uq_cq s) (uq_pendingEvents s) q sent (uq_done s).
Definition add_done (e : uevent) (kept : bool) (s : uqueue) : uqueue :=
  mkUqueue (uq_ring s) (uq_entriesCount s) (uq_sq s) (uq_flight s) (uq_cq s) (uq_pendingEvents s) (uq_quit s) (uq_quitEventSent s) (uq_done s ++ [(e, kept)]).
(** After [createEventLoop] and [useEventLoop]. *)
Definition new_queue (ring entriesCount : nat) : uqueue := mkUqueue ring entriesCount [] [] [] 0 false None [].

(** ** Submitting *)

Section queue.
(** What a submission returns. *)
Context (submit_ret : uqueue → Z).
Context (quitTimeoutMs : Z).

Definition wrap32 (z : Z) : Z := z mod 2 ^ 32.
(** io_uring_sq_space_left, io_uring_submit and io_uring_get_sqe with the user data of the
    request. *)
Definition space_left (s : uqueue) : Z := Z.of_nat (uq_ring s) - Z.of_nat (length (uq_sq s)).
Definition sqeSpaceLeft (s : uqueue) : Z := wrap32 (space_left s).
Definition submitted (s : uqueue) : uqueue :=
  let n := Z.to_nat (submit_ret s) in set_rings (drop n (uq_sq s)) (uq_flight s ++ take n (uq_sq s)) (uq_cq s) s.
Definition get_sqe (d : option uevent) (s : uqueue) : option uqueue :=
  if bool_decide (length (uq_sq s) < uq_ring s)%nat then Some (set_rings (uq_sq s ++ [d]) (uq_flight s) (uq_cq s) s) else None.
(** A submission that has to take a number of requests. *)
Definition submit_exactly (n : Z) (s : uqueue) : outcome uqueue :=
  if submit_ret s <? 0 then Terminated else if wrap32 (submit_ret s) =? n then Done (submitted s) else Terminated.
Definition submitIfNeeded (s : uqueue) : outcome uqueue :=
  if sqeSpaceLeft s =? 0 then submit_exactly (Z.of_nat (uq_entriesCount s)) s else Done s.
Definition forceSubmit (s : uqueue) : outcome uqueue :=
  submit_exactly (wrap32 (Z.of_nat (uq_entriesCount s) - sqeSpaceLeft s)) s.
Definition submitAndWait (s : uqueue) : outcome uqueue := forceSubmit s.
Definition getSqe (d : option uevent) (s : uqueue) : outcome uqueue :=
  match get_sqe d s with
  | Some s' => Done s'
  | None =>
      match submitIfNeeded s with
      | Done s1 => match get_sqe d s1 with Some s2 => Done s2 | None => Terminated end
      | Terminated => Terminated
      end
  end.
Definition getSqeWithData (id : nat) (s : uqueue) : outcome uqueue :=
  match getSqe (Some (Response id)) s with
  | Done s' => Done (set_pending (wrap64 (uq_pendingEvents s' + 1)) s')
  | Terminated => Terminated
  end.

(** ** Events *)

Definition shouldQuit (now : Z) (s : uqueue) : bool * uqueue :=
  let late := match uq_quitEventSent s with Some t => quitTimeoutMs <=? now - t | None => false end in
  let q := uq_quit s || late in (q, set_quit q (uq_quitEventSent s) s).
Definition quit (s : uqueue) : uqueue := set_quit true (uq_quitEventSent s) s.
Definition is_running (s : uqueue) : bool := negb (uq_quit s).
Definition size (s : uqueue) : Z := uq_pendingEvents s.
Definition empty (s : uqueue) : bool := uq_pendingEvents s =? 0.
(** The part of [pushEventInternal] for the thread of the queue. *)
Definition push_here (e : uevent) (s : uqueue) : outcome uqueue :=
  match get_sqe (Some e) s with
  | Some s' => submitIfNeeded s'
  | None =>
      if submit_ret s <? 0 then Terminated
      else match get_sqe (Some e) (submitted s) with Some s' => submitIfNeeded s' | None => Terminated end
  end.
(** ... and for other threads: the event arrives as a message in the ring; [msg_works] is
    that the kernel is not older than 5.18 and that sending it succeeds. *)
Definition push_elsewhere (msg_works : bool) (e : uevent) (s : uqueue) : outcome uqueue :=
  if msg_works then Done (set_rings (uq_sq s) (uq_flight s ++ [Some e]) (uq_cq s) s) else Terminated.
Definition pushEventInternal (here msg_works : bool) (now : Z) (id : nat) (s : uqueue) : outcome uqueue :=
  let '(q, s0) := shouldQuit now s in
  if q then Done s0
  else
    let s1 := set_pending (wrap64 (uq_pendingEvents s0 + 1)) s0 in
    if here then push_here (Plain id) s1 else push_elsewhere msg_works (Plain id) s1.
Definition shouldAddQuitEvent (sigint : bool) (now : Z) (id : nat) (s : uqueue) : outcome uqueue :=
  match uq_quitEventSent s with
  | None =>
      if sigint then
        match pushEventInternal true true now id s with
        | Done s' => Done (set_quit (uq_quit s') (Some now) s')
        | Terminated => Terminated
        end
      else Done s
  | Some _ => Done s
  end.

(** ** The loop of [start()] *)

(** The submission before the loop. *)
Definition start_submit (s : uqueue) : outcome uqueue := forceSubmit s.
(** The wait of a pass, given what io_uring_wait_cqes returned: whether there is something to
    handle.  Every error but the timeout terminates. *)
Definition ETIME : Z := 62.
Definition EINTR : Z := 4.
Definition wait_cqes (ret : Z) : outcome bool :=
  if (ret <? 0) && negb (ret =? - ETIME) then Terminated else Done (negb (ret =? - ETIME)).
(** The waits of a pass of the last loop: io_uring_wait_cqes and io_uring_get_events. *)
Definition last_wait (ret ret' : Z) : outcome () :=
  match wait_cqes ret with Done _ => if ret' <? 0 then Terminated else Done () | Terminated => Terminated end.
(** The body of io_uring_for_each_cqe for the first completion; [kept]: [processEvent] has
    moved the event away. *)
Definition handle_one (kept : bool) (s : uqueue) : uqueue :=
  match uq_cq s with
  | [] => s
  | c :: cs =>
      let s0 := set_rings (uq_sq s) (uq_flight s) cs s in
      match cq_data c with
      | None => s0
      | Some (Response id) =>
          if cq_more c then s0
          else set_pending (wrap64 (uq_pendingEvents s - 1)) (add_done (Response id) false s0)
      | Some (Plain id) =>
          if kept then add_done (Plain id) true s0
          else set_pending (wrap64 (uq_pendingEvents s - 1)) (add_done (Plain id) false s0)
      end
  end.
(** The end of a pass in which something was there to handle. *)
Definition end_of_pass (s : uqueue) : outcome uqueue :=
  let space := sqeSpaceLeft s in
  if (space <? Z.of_nat (uq_entriesCount s)) && bool_decide (uq_cq s = []) then submit_exactly (wrap32 (Z.of_nat (uq_entriesCount s) - space)) s
  else Done s.
(** One completion in the last loop, after the loop: the event is deleted, whatever the flags. *)
Definition last_loop_one (s : uqueue) : uqueue :=
  match uq_cq s with
  | [] => s
  | c :: cs =>
      let s0 := set_rings (uq_sq s) (uq_flight s) cs s in
      match cq_data c with
      | None => s0
      | Some e => set_pending (wrap64 (uq_pendingEvents s - 1)) (add_done e false s0)
      end
  end.

(** ** Runs *)

(** The kernel completes the [i]-th request it has; [more] completions follow only for
    requests of services. *)
Definition complete (i : nat) (more : bool) (s : uqueue) : option uqueue :=
  match uq_flight s !! i with
  | Some d =>
      if more then
        match d with
        | Some (Response id) => Some (set_rings (uq_sq s) (uq_flight s) (uq_cq s ++ [mkCqe d true]) s)
        | _ => None
        end
      else Some (set_rings (uq_sq s) (delete i (uq_flight s)) (uq_cq s ++ [mkCqe d false]) s)
  | None => None
  end.
(** Where the thread of the queue is: before [start()], at the condition of the loop, in
    the body with completions to handle, in the last loop, or behind it; in the last two it is recorded
    whether each event that was deleted there had its last completion. *)
Inductive upc := Before | AtLoop | Handling | Last (clean : bool) | Ended (clean : bool).
Definition more_first (s : uqueue) : bool := match uq_cq s with c :: _ => cq_more c | [] => false end.
(** What code of the thread of the queue may do: events and requests it adds.  The list has
    the events that enter the queue. *)
Inductive own_step (s : uqueue) : list uevent → uqueue → Prop :=
  | own_push now id s' : pushEventInternal true true now id s = Done s' → own_step s (if (shouldQuit now s).1 then [] else [Plain id]) s'
  | own_request id s' : getSqeWithData id s = Done s' → own_step s [Response id] s'
  | own_sqe s' : getSqe None s = Done s' → own_step s [] s'
  | own_submit s' : forceSubmit s = Done s' → own_step s [] s'
  | own_quit : own_step s [] (quit s).
(** [ordered]: requests are completed in the order of submission, once, and no other thread
    pushes events. *)
Inductive ureach (ordered : bool) (ring entriesCount : nat) : list uevent → upc → uqueue → Prop :=
  | ur_init : ureach ordered ring entriesCount [] Before (new_queue ring entriesCount)
  | ur_own es pc s new s' : ureach ordered ring entriesCount es pc s → pc = Before ∨ pc = Handling → own_step s new s' →
      ureach ordered ring entriesCount (es ++ new) pc s'
  | ur_elsewhere es pc s now id s' : ureach ordered ring entriesCount es pc s → ordered = false →
      pushEventInternal false true now id s = Done s' →
      ureach ordered ring entriesCount (es ++ if (shouldQuit now s).1 then [] else [Plain id]) pc s'
  | ur_complete es pc s i more s' : ureach ordered ring entriesCount es pc s → (ordered = true → i = 0%nat ∧ more = false) →
      complete i more s = Some s' → ureach ordered ring entriesCount es pc s'
  | ur_start es s s' : ureach ordered ring entriesCount es Before s → start_submit s = Done s' → ureach ordered ring entriesCount es AtLoop s'
  | ur_timeout es s sigint now id ret s' : ureach ordered ring entriesCount es AtLoop s → (shouldQuit now s).1 = false → wait_cqes ret = Done false →
      shouldAddQuitEvent sigint now id (shouldQuit now s).2 = Done s' →
      ureach ordered ring entriesCount (es ++ if sigint && bool_decide (uq_quitEventSent s = None) then [Plain id] else []) AtLoop s'
  | ur_enter es s now ret : ureach ordered ring entriesCount es AtLoop s → (shouldQuit now s).1 = false → wait_cqes ret = Done true →
      ureach ordered ring entriesCount es Handling (shouldQuit now s).2
  | ur_handle es s kept : ureach ordered ring entriesCount es Handling s → ureach ordered ring entriesCount es Handling (handle_one kept s)
  | ur_end es s s1 sigint now id s' : ureach ordered ring entriesCount es Handling s → end_of_pass s = Done s1 →
      shouldAddQuitEvent sigint now id s1 = Done s' →
      ureach ordered ring entriesCount
        (es ++ if sigint && bool_decide (uq_quitEventSent s1 = None) && negb (shouldQuit now s1).1 then [Plain id] else []) AtLoop s'
  | ur_leave es s now : ureach ordered ring entriesCount es AtLoop s → (shouldQuit now s).1 = true →
      ureach ordered ring entriesCount es (Last true) (shouldQuit now s).2
  | ur_last es s clean ret ret' : ureach ordered ring entriesCount es (Last clean) s → last_wait ret ret' = Done () → uq_cq s ≠ [] →
      ureach ordered ring entriesCount es (Last (clean && negb (more_first s))) (last_loop_one s)
  | ur_ended es s clean ret ret' : ureach ordered ring entriesCount es (Last clean) s → last_wait ret ret' = Done () → uq_cq s = [] →
      ureach ordered ring entriesCount es (Ended clean) s.
Definition clean_pc (pc : upc) : bool := match pc with Last clean | Ended clean => clean | _ => true end.

(** The events that are in the queue, those that were first to enter first when requests are completed in
    order. *)
Definition final_data (c : cqe) : option uevent := if cq_more c then None else cq_data c.
Definition live (s : uqueue) : list uevent := omap final_data (uq_cq s) ++ omap id (uq_flight s) ++ omap id (uq_sq s).
Definition kept_events (s : uqueue) : list (uevent * bool) := filter (λ x, x.2 = true) (uq_done s).

Lemma omap_take_drop {A} n (l : list (option A)) : omap id (take n l) ++ omap id (drop n l) = omap id l.
Proof. by rewrite <- omap_app, take_drop. Qed.
(** A submission changes no event's place in the order. *)
Lemma live_submitted s : live (submitted s) = live s.
Proof. unfold live, submitted, set_rings. cbn. by rewrite omap_app, <- (app_assoc (omap id (uq_flight s))), omap_take_drop. Qed.

(** The effect of a call on the events: [new] ones enter at the end; what is done and what is completed stay. *)
Record enters (new : list uevent) (s s' : uqueue) : Prop := {
  en_live : live s' = live s ++ new;
  en_done : uq_done s' = uq_done s;
  en_cq : uq_cq s' = uq_cq s;
  en_flight x : x ∈ uq_flight s → x ∈ uq_flight s';
  en_ring : uq_ring s' = uq_ring s ∧ uq_entriesCount s' = uq_entriesCount s;
  en_sq : (length (uq_sq s) <= uq_ring s → length (uq_sq s') <= uq_ring s')%nat }.
(** The counter and the flags stay. *)
Definition frame (s s' : uqueue) : Prop :=
  uq_pendingEvents s' = uq_pendingEvents s ∧ uq_quit s' = uq_quit s ∧ uq_quitEventSent s' = uq_quitEventSent s.
Definition adds (new : list uevent) (s s' : uqueue) : Prop := enters new s s' ∧ frame s s'.
Lemma adds_refl s : adds [] s s.
Proof. split; [|done]. split; try done. by rewrite app_nil_r. Qed.
Lemma adds_trans new new' s s1 s2 : adds new s s1 → adds new' s1 s2 → adds (new ++ new') s s2.
Proof.
  intros [[L D C F R Q] (P & U & T)] [[L' D' C' F' R' Q'] (P' & U' & T')]. split; [|by split_and!; etrans].
  split; [by rewrite L', L, app_assoc|by etrans..|by auto|by destruct R as [<- <-]|by auto].
Qed.
(** Setting the counter or a flag changes no event. *)
Lemma enters_set p q t new s s' : enters new (set_pending p (set_quit q t s)) s' → enters new s s'.
Proof. intros [L D C F R Q]. by split. Qed.
Lemma set_enters p q t new s s' : enters new s s' → enters new s (set_pending p (set_quit q t s')).
Proof. intros [L D C F R Q]. by split. Qed.
Lemma submitted_adds s : adds [] s (submitted s).
Proof.
  split; [|done]. split; try done; cbn.
  - rewrite app_nil_r. apply live_submitted.
  - intros x Hx. apply elem_of_app. by left.
  - rewrite length_drop. lia.
Qed.
Lemma submit_exactly_adds n s s' : submit_exactly n s = Done s' → adds [] s s'.
Proof. unfold submit_exactly. destruct (_ <? _); [done|]. destruct (_ =? _); [|done]. intros [= <-]. apply submitted_adds. Qed.
Lemma submitIfNeeded_adds s s' : submitIfNeeded s = Done s' → adds [] s s'.
Proof. unfold submitIfNeeded. destruct (_ =? _); [apply submit_exactly_adds|]. intros [= <-]. apply adds_refl. Qed.
Lemma get_sqe_adds d s s' : get_sqe d s = Some s' → adds (omap id [d]) s s'.
Proof.
  unfold get_sqe. case_bool_decide; [|done]. intros [= <-]. split; [|done]. split; try done; cbn.
  - unfold live. cbn. rewrite omap_app. by rewrite <- !(app_assoc (omap _ _)).
  - rewrite length_app. cbn. lia.
Qed.
Lemma getSqe_adds d s s' : getSqe d s = Done s' → adds (omap id [d]) s s'.
Proof.
  unfold getSqe. destruct (get_sqe d s) as [s1|] eqn:E.
  - intros [= <-]. by apply get_sqe_adds.
  - destruct (submitIfNeeded s) as [s1|] eqn:E1; [|done]. destruct (get_sqe d s1) as [s2|] eqn:E2; [|done]. intros [= <-].
    apply (adds_trans [] _ s s1); [by apply submitIfNeeded_adds|by apply get_sqe_adds].
Qed.
Lemma push_here_adds e s s' : push_here e s = Done s' → adds [e] s s'.
Proof.
  unfold push_here. destruct (get_sqe (Some e) s) as [s1|] eqn:E.
  - intros H. apply (adds_trans [e] [] s s1); [by apply (get_sqe_adds (Some e))|by apply submitIfNeeded_adds].
  - destruct (_ <? _); [done|]. destruct (get_sqe (Some e) (submitted s)) as [s1|] eqn:E1; [|done]. intros H.
    apply (adds_trans [] [e] s (submitted s)); [apply submitted_adds|].
    apply (adds_trans [e] [] _ s1); [by apply (get_sqe_adds (Some e))|by apply submitIfNeeded_adds].
Qed.

(** ** Every event once *)

Definition tracked (ordered : bool) (es l : list uevent) : Prop := if ordered then es = l else es ≡ₚ l.
Lemma tracked_snoc ordered es l new : tracked ordered es l → tracked ordered (es ++ new) (l ++ new).
Proof. destruct ordered; cbn; by intros ->. Qed.
(** A completion with more to follow: its event is still with the kernel, or its last
    completion is behind it. *)
Definition more_alive (s : uqueue) : Prop := ∀ a c b, uq_cq s = a ++ c :: b → cq_more c = true →
  ∃ id, cq_data c = Some (Response id) ∧ (Some (Response id) ∈ uq_flight s ∨ mkCqe (Some (Response id)) false ∈ b).
Record uinv (ordered : bool) (ring entriesCount : nat) (es : list uevent) (s : uqueue) : Prop := {
  uinv_events : tracked ordered es ((uq_done s).*1 ++ live s);
  uinv_pending : uq_pendingEvents s = wrap64 (Z.of_nat (length (live s) + length (kept_events s)));
  uinv_more : more_alive s;
  uinv_ring : uq_ring s = ring ∧ uq_entriesCount s = entriesCount;
  uinv_sq : (length (uq_sq s) <= uq_ring s)%nat }.

Lemma more_alive_enters new s s' : enters new s s' → more_alive s → more_alive s'.
Proof.
  intros H Hm a c b Hc Hmore. rewrite (en_cq _ _ _ H) in Hc. destruct (Hm a c b Hc Hmore) as (e & He & Hin).
  exists e. split; [done|]. destruct Hin as [Hin|Hin]; [left; by apply (en_flight _ _ _ H)|by right].
Qed.
(** Calls that add events, and count them. *)
Lemma uinv_enters ordered ring n es s s' new : uinv ordered ring n es s → enters new s s' →
  uq_pendingEvents s' = wrap64 (uq_pendingEvents s + Z.of_nat (length new)) → uinv ordered ring n (es ++ new) s'.
Proof.
  intros H He Hp. split.
  - rewrite (en_live _ _ _ He), (en_done _ _ _ He), app_assoc. apply tracked_snoc, H.
  - rewrite Hp, (uinv_pending _ _ _ _ _ H). unfold kept_events. rewrite (en_live _ _ _ He), (en_done _ _ _ He), length_app.
    unfold wrap64. rewrite Zplus_mod_idemp_l. f_equal. lia.
  - apply (more_alive_enters _ _ _ He), H.
  - destruct (en_ring _ _ _ He) as [-> ->]. apply H.
  - apply (en_sq _ _ _ He), H.
Qed.
Lemma uinv_same ordered ring n es s s' : uinv ordered ring n es s → enters [] s s' → uq_pendingEvents s' = uq_pendingEvents s → uinv ordered ring n es s'.
Proof.
  intros H He Hp. rewrite <- (app_nil_r es). apply (uinv_enters _ _ _ _ s); [done..|].
  rewrite Hp, (uinv_pending _ _ _ _ _ H), Z.add_0_r. unfold wrap64. by rewrite Zmod_mod.
Qed.
Lemma uinv_adds ordered ring n es s s' : uinv ordered ring n es s → adds [] s s' → uinv ordered ring n es s'.
Proof. intros H [He [Hp _]]. by apply (uinv_same _ _ _ _ s). Qed.
Lemma uinv_set_quit ordered ring n es s q t : uinv ordered ring n es s → uinv ordered ring n es (set_quit q t s).
Proof. intros H. apply (uinv_same _ _ _ _ s); [done| |done]. apply (set_enters (uq_pendingEvents s)), (proj1 (adds_refl s)). Qed.
(** [pushEventInternal] on the thread of the queue. *)
Lemma push_own ordered ring n es s now id s' m : uinv ordered ring n es s → pushEventInternal true m now id s = Done s' →
  uinv ordered ring n (es ++ if (shouldQuit now s).1 then [] else [Plain id]) s'.
Proof.
  intros H. unfold pushEventInternal. destruct (shouldQuit now s) as [q s0] eqn:Hq. cbn [fst].
  assert (∃ q' t, s0 = set_quit q' t s) as (q' & t & ->) by (unfold shouldQuit in Hq; simplify_eq; eauto).
  destruct q; [intros [= <-]; rewrite app_nil_r; by apply uinv_set_quit|].
  intros [He [Hp _]]%push_here_adds. apply (uinv_enters _ _ _ _ s); [done|by eapply enters_set|exact Hp].
Qed.
Lemma own_step_inv ordered ring n es s new s' : uinv ordered ring n es s → own_step s new s' → uinv ordered ring n (es ++ new) s'.
Proof.
  intros H [now id s1 Hs|id s1 Hs|s1 Hs|s1 Hs|].
  - by eapply push_own.
  - unfold getSqeWithData in Hs. destruct (getSqe _ s) as [s2|] eqn:E; [|done]. injection Hs as <-.
    apply getSqe_adds in E as [He [Hp Hf]]. apply (uinv_enters _ _ _ _ s); [done| |by cbn; rewrite Hp].
    destruct He as [L D C F R Q]. by split.
  - rewrite app_nil_r. apply (uinv_adds _ _ _ _ s); [done|]. by apply (getSqe_adds None).
  - rewrite app_nil_r. apply (uinv_adds _ _ _ _ s); [done|]. by eapply submit_exactly_adds.
  - rewrite app_nil_r. by apply uinv_set_quit.
Qed.
(** Messages of other threads. *)
Lemma push_other_inv ring n es s now id s' m : uinv false ring n es s → pushEventInternal false m now id s = Done s' →
  uinv false ring n (es ++ if (shouldQuit now s).1 then [] else [Plain id]) s'.
Proof.
  intros H. unfold pushEventInternal. destruct (shouldQuit now s) as [q s0] eqn:Hq. cbn [fst].
  assert (∃ q' t, s0 = set_quit q' t s) as (q' & t & ->) by (unfold shouldQuit in Hq; simplify_eq; eauto).
  destruct q; [intros [= <-]; rewrite app_nil_r; by apply uinv_set_quit|].
  unfold push_elsewhere. destruct m; [|done]. intros [= <-].
  assert (∀ X, omap Datatypes.id (uq_flight s ++ [Some (Plain id)]) ++ X ≡ₚ (omap Datatypes.id (uq_flight s) ++ X) ++ [Plain id]) as Hperm.
  { intros X. rewrite omap_app. cbn. solve_Permutation. }
  split; cbn.
  - rewrite (uinv_events _ _ _ _ _ H). unfold live. cbn. rewrite Hperm. by rewrite !app_assoc.
  - rewrite (uinv_pending _ _ _ _ _ H). unfold live, kept_events. cbn. rewrite (length_app (omap final_data _)), Hperm, !length_app.
    unfold wrap64. rewrite Zplus_mod_idemp_l. f_equal. cbn. lia.
  - intros a c b Hc Hm. destruct (uinv_more _ _ _ _ _ H a c b Hc Hm) as (e & He & [Hin|Hin]); exists e; (split; [done|]); [left|by right].
    cbn. apply elem_of_app. by left.
  - apply H.
  - apply H.
Qed.
Lemma complete_inv ordered ring n es s i more s' : uinv ordered ring n es s → (ordered = true → i = 0%nat ∧ more = false) →
  complete i more s = Some s' → uinv ordered ring n es s'.
Proof.
  intros H Ho. unfold complete. destruct (uq_flight s !! i) as [d|] eqn:Hd; [|done]. destruct more.
  - destruct d as [[|id]|]; [done| |done]. intros [= <-].
    assert (live (set_rings (uq_sq s) (uq_flight s) (uq_cq s ++ [mkCqe (Some (Response id)) true]) s) = live s) as Hl.
    { unfold live. cbn. by rewrite omap_app, app_nil_r. }
    split; [rewrite Hl; apply H|rewrite Hl; apply H| |apply H|apply H].
    intros a c b Hc Hm. cbn in Hc |- *. destruct b as [|b0 b _] using rev_ind.
    + apply app_inj_tail in Hc as [_ <-]. exists id. split; [done|]. left. by eapply list_elem_of_lookup_2.
    + rewrite app_comm_cons, app_assoc in Hc. apply app_inj_tail in Hc as [Hc <-].
      destruct (uinv_more _ _ _ _ _ H a c b Hc Hm) as (e & He & [Hin|Hin]); exists e; (split; [done|]); [by left|right]. apply elem_of_app. by left.
  - intros [= <-]. pose proof (delete_Permutation _ _ _ Hd) as Hp.
    assert (live (set_rings (uq_sq s) (delete i (uq_flight s)) (uq_cq s ++ [mkCqe d false]) s) ≡ₚ live s) as Hl.
    { assert (omap id (uq_flight s) ≡ₚ omap id (d :: delete i (uq_flight s))) as Hp' by (by apply (omap_Permutation id)).
      unfold live. cbn [uq_cq uq_flight uq_sq set_rings]. rewrite omap_app, Hp'. destruct d; cbn; solve_Permutation. }
    split; [|unfold live in Hl; rewrite Hl; apply H| |apply H|apply H].
    + destruct ordered; cbn; [|rewrite Hl; apply H]. destruct (Ho eq_refl) as [-> _].
      destruct (uq_flight s) as [|d0 ds] eqn:Hf; [done|]. cbn in Hd. injection Hd as ->.
      etrans; [apply (uinv_events _ _ _ _ _ H)|]. unfold live. rewrite Hf. cbn. rewrite omap_app. cbn. destruct d; cbn; by rewrite <- !app_assoc.
    + intros a c b Hc Hm. cbn in Hc |- *. destruct b as [|b0 b _] using rev_ind.
      * apply app_inj_tail in Hc as [_ <-]. done.
      * rewrite app_comm_cons, app_assoc in Hc. apply app_inj_tail in Hc as [Hc <-].
        destruct (uinv_more _ _ _ _ _ H a c b Hc Hm) as (e & He & [Hin|Hin]); exists e; (split; [done|]).
        -- rewrite Hp, elem_of_cons in Hin. destruct Hin as [<-|Hin]; [right; apply elem_of_app; right; by apply list_elem_of_singleton|by left].
        -- right. apply elem_of_app. by left.
Qed.
(** Events that leave the queue are done. *)
Lemma uinv_finish ordered ring n es s s' e kept : uinv ordered ring n es s →
  live s = e :: live s' → uq_done s' = uq_done s ++ [(e, kept)] →
  uq_pendingEvents s' = (if kept then uq_pendingEvents s else wrap64 (uq_pendingEvents s - 1)) →
  more_alive s' → uq_ring s' = uq_ring s → uq_entriesCount s' = uq_entriesCount s → uq_sq s' = uq_sq s → uinv ordered ring n es s'.
Proof.
  intros H Hl Hd Hp Hm Hr Hc Hs. split.
  - rewrite Hd, fmap_app, <- app_assoc. cbn. rewrite <- Hl. apply H.
  - rewrite Hp, (uinv_pending _ _ _ _ _ H). unfold kept_events. rewrite Hd, Hl, list.filter_app, length_app. cbn [length].
    destruct kept.
    + rewrite list.filter_cons_True by done. cbn. f_equal. lia.
    + rewrite list.filter_cons_False by done. cbn. unfold wrap64. rewrite Zminus_mod_idemp_l. f_equal. lia.
  - done.
  - rewrite Hr, Hc. apply H.
  - rewrite Hs, Hr. apply H.
Qed.
Lemma more_alive_tail s c cs : more_alive s → uq_cq s = c :: cs → more_alive (set_rings (uq_sq s) (uq_flight s) cs s).
Proof. intros H Hc a c' b Hc'. cbn in Hc'. apply (H (c :: a)). by rewrite Hc, Hc'. Qed.
Lemma handle_one_inv ordered ring n es s kept : uinv ordered ring n es s → uinv ordered ring n es (handle_one kept s).
Proof.
  intros H. unfold handle_one. destruct (uq_cq s) as [|[d more] cs] eqn:Hc; [done|].
  pose proof (more_alive_tail _ _ _ (uinv_more _ _ _ _ _ H) Hc) as Hm.
  set (s0 := set_rings (uq_sq s) (uq_flight s) cs s) in *. cbn [cq_data cq_more].
  assert (final_data (mkCqe d more) = None → uinv ordered ring n es s0) as Hskip.
  { intros Hf. assert (live s0 = live s) as Hl by (unfold live; rewrite Hc; cbn; by rewrite Hf).
    split; [rewrite Hl; apply H|rewrite Hl; apply H|done|apply H|apply H]. }
  assert (∀ e, final_data (mkCqe d more) = Some e → live s = e :: live s0) as Hfin.
  { intros e Hf. unfold live. rewrite Hc. cbn. by rewrite Hf. }
  destruct d as [[id|id]|]; [| |apply Hskip; by destruct more].
  - destruct more; [destruct (uinv_more _ _ _ _ _ H [] _ _ Hc eq_refl) as (? & [=] & _)|].
    destruct kept.
    + by apply (uinv_finish _ _ _ _ s _ (Plain id) true); [|by apply Hfin|..].
    + by apply (uinv_finish _ _ _ _ s _ (Plain id) false); [|by apply Hfin|..].
  - destruct more; [by apply Hskip|]. by apply (uinv_finish _ _ _ _ s _ (Response id) false); [|by apply Hfin|..].
Qed.
Lemma quit_event_inv ordered ring n es s sigint now id s' : uinv ordered ring n es s → shouldAddQuitEvent sigint now id s = Done s' →
  uinv ordered ring n (es ++ if sigint && bool_decide (uq_quitEventSent s = None) && negb (shouldQuit now s).1 then [Plain id] else []) s'.
Proof.
  intros H. unfold shouldAddQuitEvent. destruct (uq_quitEventSent s) eqn:Ht.
  - intros [= <-]. rewrite andb_false_r, app_nil_r. done.
  - destruct sigint; [|intros [= <-]; by rewrite app_nil_r]. rewrite bool_decide_true by done. cbn [andb].
    destruct (pushEventInternal true true now id s) as [s1|] eqn:Hp; [|done]. intros [= <-].
    apply uinv_set_quit. pose proof (push_own _ _ _ _ _ _ _ _ _ H Hp) as Hi. by destruct (shouldQuit now s).1.
Qed.
Lemma shouldQuit_again now s : (shouldQuit now (shouldQuit now s).2).1 = (shouldQuit now s).1.
Proof. cbn. by destruct (uq_quit s), (match uq_quitEventSent s with Some t => quitTimeoutMs <=? now - t | None => false end). Qed.
(** The last loop does what the loop does with an event that has its last completion. *)
Lemma last_loop_one_clean s : more_first s = false → last_loop_one s = handle_one false s.
Proof.
  unfold more_first, last_loop_one, handle_one. destruct (uq_cq s) as [|[d more] cs]; [done|]. cbn. intros ->. by destruct d as [[|]|].
Qed.
Lemma ureach_inv ordered ring n es pc s : ureach ordered ring n es pc s → clean_pc pc = true → uinv ordered ring n es s.
Proof.
  induction 1 as [|es pc s new s' _ IH _ Hs|es pc s now id s' _ IH -> Hs|es pc s i more s' _ IH Ho Hs|es s s' _ IH Hs
    |es s sigint now id ret s' _ IH Hq _ Hs|es s now ret _ IH Hq _|es s kept _ IH|es s s1 sigint now id s' _ IH He Hs
    |es s now _ IH _|es s clean ret ret' _ IH _ Hne|es s clean ret ret' _ IH _ _]; cbn [clean_pc] in *; intros Hclean; try specialize (IH Hclean).
  - split; [by destruct ordered|done| |done|cbn; lia]. intros a c b Hc. by destruct a.
  - by eapply own_step_inv.
  - by eapply push_other_inv.
  - by eapply complete_inv.
  - apply (uinv_adds _ _ _ _ s); [done|]. by eapply submit_exactly_adds.
  - assert (uinv ordered ring n es (shouldQuit now s).2) as Hi by (by apply uinv_set_quit).
    apply (quit_event_inv _ _ _ _ _ _ _ _ _ Hi) in Hs. by rewrite shouldQuit_again, Hq, andb_true_r in Hs.
  - by apply uinv_set_quit.
  - by apply handle_one_inv.
  - eapply quit_event_inv; [|done]. unfold end_of_pass in He. destruct (_ && _).
    + apply (uinv_adds _ _ _ _ s); [done|]. by eapply submit_exactly_adds.
    + by injection He as <-.
  - by apply uinv_set_quit.
  - apply andb_true_iff in Hclean as [Hc Hm%negb_true_iff]. rewrite last_loop_one_clean by done. apply handle_one_inv. by apply IH.
  - done.
Qed.
(** C31: In every run of a queue, from its creation to the end of the last loop of [start()], whatever the kernel completes and in whatever order, with other
    threads pushing and multishot requests: an event that entered is done (deleted, or moved
    away by [processEvent]) or still in the queue, not both and not twice; the event of a
    completion that is about to be handled has not been deleted; [size()] counts the events
    in the queue and those that were moved away.  That is as long as the last loop, which does not
    look at the flags, has not taken a completion of a multishot request of which more
    follow ([clean_pc]; it deletes the event then, and once more for the next one:
    [last_loop_deletes_twice]); in the loop before it there is no such condition. *)
Theorem uring_events_once ring n es pc s : ureach false ring n es pc s → clean_pc pc = true → NoDup es →
  es ≡ₚ (uq_done s).*1 ++ live s ∧ NoDup ((uq_done s).*1 ++ live s) ∧
  size s = wrap64 (Z.of_nat (length (live s) + length (kept_events s))) ∧
  (∀ c cs e, uq_cq s = c :: cs → cq_data c = Some e → e ∉ (uq_done s).*1).
Proof.
  intros H Hclean Hnd. apply ureach_inv in H; [|done]. pose proof (uinv_events _ _ _ _ _ H) as He. cbn in He. rewrite He in Hnd.
  split; [done|]. split; [done|]. split; [apply H|]. intros c cs e Hc Hd Hin.
  assert (e ∈ live s) as Hl; [|apply list.NoDup_app in Hnd as (_ & Hno & _); by apply (Hno e)].
  unfold live. rewrite !elem_of_app, !list_elem_of_omap. destruct (cq_more c) eqn:Hm.
  - destruct (uinv_more _ _ _ _ _ H [] c cs Hc Hm) as (id & Hid & [Hf|Hf]); rewrite Hid in Hd; injection Hd as <-.
    + right. left. by eexists.
    + left. rewrite Hc. eexists. split; [by apply elem_of_cons; right|done].
  - left. exists c. rewrite Hc. split; [apply elem_of_cons; by left|]. unfold final_data. by rewrite Hm.
Qed.
(** When the kernel completes requests in the order of their submission and one
    completion each, the loop handles the events of its thread in the order in which they
    were pushed, whatever their priorities: what is done is a first part of what was
    pushed, the rest waits in that order. *)
Theorem uring_in_order ring n es pc s : ureach true ring n es pc s → clean_pc pc = true → es = (uq_done s).*1 ++ live s.
Proof. intros H Hclean. apply ureach_inv in H; [|done]. apply (uinv_events _ _ _ _ _ H). Qed.

(** ** The checks of the numbers of submitted requests *)

(** A ring of the size that was asked for, and a kernel that takes all that is there. *)
Definition submits_all (s : uqueue) : Prop := submit_ret s = Z.of_nat (length (uq_sq s)).
Section exact.
Context (ring : nat) (Hring : 0 < Z.of_nat ring < 2 ^ 32) (Hall : ∀ s, submits_all s).
Definition fits (s : uqueue) : Prop := uq_ring s = ring ∧ uq_entriesCount s = ring ∧ (length (uq_sq s) <= uq_ring s)%nat.
Lemma space_small s : fits s → sqeSpaceLeft s = Z.of_nat ring - Z.of_nat (length (uq_sq s)).
Proof. intros (Hr & _ & Hs). unfold sqeSpaceLeft, space_left, wrap32. rewrite Hr in *. rewrite Z.mod_small; lia. Qed.
Lemma submit_all_done s n : n = Z.of_nat (length (uq_sq s)) → fits s →
  submit_exactly n s = Done (submitted s) ∧ uq_sq (submitted s) = [] ∧ fits (submitted s).
Proof.
  intros -> (Hr & He & Hs). unfold submit_exactly, submitted. rewrite (Hall s). rewrite (proj2 (Z.ltb_ge _ _)) by lia.
  unfold wrap32. rewrite Z.mod_small, Z.eqb_refl by lia. cbn. rewrite Nat2Z.id, drop_all. split; [done|]. split; [done|]. split_and!; cbn; [done|done|lia].
Qed.
Lemma forceSubmit_done s : fits s → ∃ s', forceSubmit s = Done s' ∧ uq_sq s' = [] ∧ fits s'.
Proof.
  intros Hf. eexists. apply submit_all_done; [|done]. rewrite space_small by done. destruct Hf as (Hr & -> & Hs). rewrite Hr in Hs.
  unfold wrap32. rewrite Z.mod_small; lia.
Qed.
Lemma submitIfNeeded_done s : fits s → ∃ s', submitIfNeeded s = Done s' ∧ (length (uq_sq s') < ring)%nat ∧ fits s'.
Proof.
  intros Hf. unfold submitIfNeeded. rewrite space_small by done. destruct (Z.eqb_spec (Z.of_nat ring - Z.of_nat (length (uq_sq s))) 0) as [Hz|Hz].
  - destruct (submit_all_done s (Z.of_nat (uq_entriesCount s))) as (-> & Hs & Hf'); [destruct Hf as (_ & -> & _); lia|done|].
    exists (submitted s). rewrite Hs. split; [done|]. split; [cbn; lia|done].
  - exists s. split; [done|]. split; [|done]. destruct Hf as (Hr & _ & Hs). lia.
Qed.
Lemma get_sqe_done d s : fits s → (length (uq_sq s) < ring)%nat → ∃ s', get_sqe d s = Some s' ∧ fits s'.
Proof.
  intros (Hr & He & Hs) Hl. unfold get_sqe. rewrite bool_decide_true by lia. eexists. split; [done|]. split_and!; cbn; [done|done|].
  rewrite length_app. cbn. lia.
Qed.
Lemma get_sqe_full d s : fits s → get_sqe d s = None → length (uq_sq s) = ring.
Proof. intros (Hr & _ & Hs). unfold get_sqe. case_bool_decide; [done|lia]. Qed.
Lemma getSqe_done d s : fits s → ∃ s', getSqe d s = Done s'.
Proof.
  intros Hf. unfold getSqe. destruct (get_sqe d s); [eauto|].
  destruct (submitIfNeeded_done s Hf) as (s1 & -> & Hl & Hf1). destruct (get_sqe_done d s1 Hf1 Hl) as (s2 & -> & _). eauto.
Qed.
Lemma push_here_done e s : fits s → ∃ s', push_here e s = Done s'.
Proof.
  intros Hf. unfold push_here. destruct (get_sqe (Some e) s) as [s1|] eqn:E.
  - assert (fits s1) as Hf1.
    { unfold get_sqe in E. case_bool_decide; [|done]. injection E as <-. destruct Hf as (? & ? & ?). split_and!; cbn; [done|done|rewrite length_app; cbn; lia]. }
    destruct (submitIfNeeded_done s1 Hf1) as (s2 & -> & _). eauto.
  - rewrite (Hall s), (proj2 (Z.ltb_ge _ _)) by lia.
    destruct (submit_all_done s _ eq_refl Hf) as (_ & Hs & Hf1).
    destruct (get_sqe_done (Some e) (submitted s) Hf1) as (s1 & -> & Hf2); [rewrite Hs; cbn; lia|].
    destruct (submitIfNeeded_done s1 Hf2) as (s2 & -> & _). eauto.
Qed.
Lemma push_done now id s m : fits s → ∃ s', pushEventInternal true m now id s = Done s'.
Proof.
  intros Hf. unfold pushEventInternal. destruct (shouldQuit now s) as [q s0] eqn:Hq. destruct q; [eauto|].
  apply push_here_done. unfold shouldQuit in Hq. injection Hq as _ <-. apply Hf.
Qed.
Lemma end_of_pass_done s : fits s → ∃ s', end_of_pass s = Done s'.
Proof.
  intros Hf. unfold end_of_pass. destruct (_ && _); [|eauto]. destruct (forceSubmit_done s Hf) as (s' & Hs & _). eauto.
Qed.
(** What waiting may give: success or the timeout; getting the events: success. *)
Definition waits_well (ret : Z) : Prop := 0 <= ret ∨ ret = - ETIME.
(** C32: With a ring of exactly the size that was asked for, a kernel that takes all
    requests of a submission, and waits that succeed or time out (for any other error, -EINTR
    of a signal too, [start()] terminates: [interrupted_wait_terminates]), no call of the thread of the queue and no part of the loop
    terminates, in any state of any run before the last loop: there is always room for a request, and the
    numbers of submitted requests that are checked are right.  In the last loop only the waits
    could terminate. *)
Theorem uring_never_terminates ordered es pc s : ureach ordered ring ring es pc s → pc ∈ [Before; AtLoop; Handling] →
  ∀ now id sigint m d ret, waits_well ret →
    (∃ s', pushEventInternal true m now id s = Done s') ∧ (∃ s', getSqe d s = Done s') ∧ (∃ s', getSqeWithData id s = Done s') ∧
    (∃ s', forceSubmit s = Done s') ∧ (∃ s', submitIfNeeded s = Done s') ∧ (∃ s', start_submit s = Done s') ∧
    (∃ b, wait_cqes ret = Done b) ∧ (∃ s', end_of_pass s = Done s') ∧ (∃ s', shouldAddQuitEvent sigint now id s = Done s') ∧
    (∀ ret', 0 <= ret' → last_wait ret ret' = Done ()).
Proof.
  intros H Hpc now id sigint m d ret Hw.
  assert (∃ b, wait_cqes ret = Done b) as [b Hb].
  { unfold wait_cqes. destruct Hw as [Hw| ->]; [rewrite (proj2 (Z.ltb_ge _ _)) by done|]; cbn; eauto. }
  apply ureach_inv in H; [|by repeat (apply elem_of_cons in Hpc as [->|Hpc]; [done|]); apply not_elem_of_nil in Hpc].
  assert (fits s) as Hf by (destruct H as [_ _ _ [? ?] ?]; by split_and!).
  split_and!.
  - by apply push_done.
  - by apply getSqe_done.
  - unfold getSqeWithData. destruct (getSqe_done (Some (Response id)) s Hf) as (s' & ->). eauto.
  - destruct (forceSubmit_done s Hf) as (s' & Hs & _). eauto.
  - destruct (submitIfNeeded_done s Hf) as (s' & Hs & _). eauto.
  - destruct (forceSubmit_done s Hf) as (s' & Hs & _). eauto.
  - eauto.
  - by apply end_of_pass_done.
  - unfold shouldAddQuitEvent. destruct (uq_quitEventSent s); [eauto|]. destruct sigint; [|eauto].
    destruct (push_done now id s true Hf) as (s' & ->). eauto.
  - intros ret' Hr. unfold last_wait. by rewrite Hb, (proj2 (Z.ltb_ge _ _)).
Qed.
End exact.
(** A signal while the loop waits, that of SIGINT too. *)
Lemma interrupted_wait_terminates : wait_cqes (- EINTR) = Terminated.
Proof. reflexivity. Qed.
(** A ring of another size than was asked for, as the kernel makes for a number that is not a
    power of two: [start()] terminates, with or without events. *)
Lemma rounded_ring_terminates s : submits_all s → Z.of_nat (uq_ring s) < 2 ^ 32 → Z.of_nat (uq_entriesCount s) < 2 ^ 32 →
  uq_ring s ≠ uq_entriesCount s → (length (uq_sq s) <= uq_ring s)%nat → start_submit s = Terminated.
Proof.
  intros Ha Hr He Hne Hs. unfold start_submit, forceSubmit, submit_exactly. rewrite Ha, (proj2 (Z.ltb_ge _ _)) by lia.
  destruct (Z.eqb_spec (wrap32 (Z.of_nat (length (uq_sq s)))) (wrap32 (Z.of_nat (uq_entriesCount s) - sqeSpaceLeft s))) as [Heq|]; [|done].
  exfalso. unfold sqeSpaceLeft, space_left, wrap32 in Heq. rewrite Zminus_mod_idemp_r in Heq.
  apply Z.cong_iff_0, Z.mod_divide in Heq as [k Hk]; [|lia]. change (2 ^ 32) with 4294967296 in *. assert (k = 0) by lia. lia.
Qed.
End queue.

(** ** Provided buffers *)

(** [IOUringBuf]: the number of entries, their size, and how many bytes were allocated. *)
Record IOUringBuf := mkIOUringBuf { ub_entries : Z; ub_entryBufferSize : Z; ub_bgid : Z; ub_allocated : Z }.
(** [createProvidedBuffer] with the id counter: [memory] and [advised] are the answers of
    aligned_alloc and madvise, [ring_ret] that of io_uring_setup_buf_ring. *)
Definition createProvidedBuffer (kernel_has_buffers memory advised : bool) (ring_ret : Z) (entries entryBufferSize counter : Z) : (IOUringBuf + IOError) * Z :=
  if entries =? 0 then (inr NOT_SUPPORTED, counter)
  else if 32768 <? entries then (inr MESSAGE_SIZE_TOO_BIG, counter)
  else if negb (Z.land entries (entries - 1) =? 0) then (inr NOT_SUPPORTED, counter)
  else if negb kernel_has_buffers then (inr KERNEL_TOO_OLD, counter)
  else if negb memory then (inr NO_MEMORY_AVAILABLE, counter)
  else if negb advised then (inr NOT_SUPPORTED, counter)
  else if ring_ret <? 0 then (inr (mapErrnoToError (- ring_ret)), counter + 1)
  else (inl (mkIOUringBuf entries entryBufferSize counter (wrap32 (entries * entryBufferSize))), counter + 1).
(** [readMemory], hardened: offset and length of what it returns. *)
Definition readMemory (b : IOUringBuf) (entry : Z) : outcome (Z * Z) :=
  if ub_entries b <? entry then Terminated else Done (wrap32 (ub_entryBufferSize b * entry), ub_entryBufferSize b).
(** The entries of a buffer that was created are inside of what was allocated for it, if that many bytes fit in 32
    bits. *)
Lemma buffer_entries_inside k m a ret entries size counter b counter' entry :
  createProvidedBuffer k m a ret entries size counter = (inl b, counter') → 0 <= entries → 0 <= size → entries * size < 2 ^ 32 →
  0 <= entry < entries →
  ∃ offset, readMemory b entry = Done (offset, size) ∧ 0 <= offset ∧ offset + size <= ub_allocated b.
Proof.
  intros Hc He Hs Hsmall Hentry. unfold createProvidedBuffer in Hc. repeat (case_match; try done).
  injection Hc as <- <-. unfold readMemory. cbn. rewrite (proj2 (Z.ltb_ge _ _)) by lia. eexists. split; [done|].
  unfold wrap32. rewrite !Z.mod_small; nia.
Qed.
(** The check lets the index behind the last entry through: what is returned is not in the
    buffer. *)
Lemma entry_behind_the_last : ∀ b, readMemory b (ub_entries b) = Done (wrap32 (ub_entryBufferSize b * ub_entries b), ub_entryBufferSize b).
Proof. intros b. unfold readMemory. by rewrite Z.ltb_irrefl. Qed.
(** 32768 entries of 128 KiB and more: the size wraps around, and next to nothing is
    allocated. *)
Lemma allocated_size_wraps : (λ r, ub_allocated <$> (match r.1 with inl b => Some b | inr _ => None end)) (createProvidedBuffer true true true 0 32768 131073 1) = Some 32768.
Proof. reflexivity. Qed.

(** ** Runs *)

Definition takes_all (s : uqueue) : Z := Z.of_nat (length (uq_sq s)).
(** A ring of two: an event, a request, [start()], and both completed. *)
Definition after {A B} (o : outcome A) (f : A → outcome B) : outcome B := match o with Done a => f a | Terminated => Terminated end.
Definition two_in_ring : outcome uqueue :=
  after (pushEventInternal takes_all 5000 true true 0 1 (new_queue 2 2)) (getSqeWithData takes_all 2).
Definition two_in_ring_state : uqueue := mkUqueue 2 2 [Some (Plain 1); Some (Response 2)] [] [] 2 false None [].
Lemma two_in_ring_reach ordered : ureach takes_all 5000 ordered 2 2 [Plain 1; Response 2] Before two_in_ring_state.
Proof.
  set (s1 := mkUqueue 2 2 [Some (Plain 1)] [] [] 1 false None []).
  apply (ur_own takes_all 5000 ordered 2 2 [Plain 1] Before s1 [Response 2]); [|by left|by apply own_request].
  apply (ur_own takes_all 5000 ordered 2 2 [] Before (new_queue 2 2) [Plain 1]); [apply ur_init|by left|].
  by apply (own_push takes_all 5000 (new_queue 2 2) 0 1).
Qed.
(** Both are submitted, the event is handled, the queue quits, and the last loop deletes the
    event of the request. *)
Definition two_deleted : uqueue := mkUqueue 2 2 [] [] [] 0 true None [(Plain 1, false); (Response 2, false)].
Lemma two_deleted_reach ordered : ureach takes_all 5000 ordered 2 2 [Plain 1; Response 2] (Last true) two_deleted.
Proof.
  set (s0 := mkUqueue 2 2 [] [Some (Plain 1); Some (Response 2)] [] 2 false None []).
  set (s1 := mkUqueue 2 2 [] [Some (Response 2)] [mkCqe (Some (Plain 1)) false] 2 false None []).
  set (s2 := mkUqueue 2 2 [] [Some (Response 2)] [] 1 true None [(Plain 1, false)]).
  set (s3 := mkUqueue 2 2 [] [] [mkCqe (Some (Response 2)) false] 1 true None [(Plain 1, false)]).
  assert (ureach takes_all 5000 ordered 2 2 [Plain 1; Response 2] AtLoop s0) as H0.
  { apply (ur_start _ _ _ _ _ _ two_in_ring_state); [apply two_in_ring_reach|reflexivity]. }
  assert (ureach takes_all 5000 ordered 2 2 [Plain 1; Response 2] Handling s1) as H1.
  { apply (ur_enter _ _ _ _ _ _ s1 0 0); [|reflexivity|reflexivity]. apply (ur_complete _ _ _ _ _ _ _ s0 0 false); [done|done|reflexivity]. }
  assert (ureach takes_all 5000 ordered 2 2 [Plain 1; Response 2] AtLoop s2) as H2.
  { apply (ur_end takes_all 5000 ordered 2 2 [Plain 1; Response 2] s2 s2 false 0 0); [|reflexivity|reflexivity].
    apply (ur_own _ _ _ _ _ [Plain 1; Response 2] _ (handle_one false s1) []); [by apply ur_handle|by right|apply own_quit]. }
  apply (ur_last _ _ _ _ _ _ s3 true 0 0); [|reflexivity|done].
  apply (ur_leave _ _ _ _ _ _ s3 0); [|reflexivity]. apply (ur_complete _ _ _ _ _ _ _ s2 0 false); [done|done|reflexivity].
Qed.
Lemma uring_events_once_witness :
  NoDup [Plain 1; Response 2] ∧ [Plain 1; Response 2] ≡ₚ (uq_done two_deleted).*1 ++ live two_deleted.
Proof.
  assert (NoDup [Plain 1; Response 2]) as Hnd by (by apply (bool_decide_unpack _); vm_compute).
  split; [done|]. apply (uring_events_once takes_all 5000 2 2 [Plain 1; Response 2] (Last true) two_deleted (two_deleted_reach false) eq_refl Hnd).
Defined.
Lemma uring_in_order_witness : [Plain 1; Response 2] = (uq_done two_deleted).*1 ++ live two_deleted.
Proof. apply (uring_in_order takes_all 5000 2 2 [Plain 1; Response 2] (Last true) two_deleted (two_deleted_reach true) eq_refl). Defined.
Lemma uring_never_terminates_witness :
  (∃ s', pushEventInternal takes_all 5000 true true 3 3 two_in_ring_state = Done s') ∧ (∃ b, wait_cqes (- ETIME) = Done b).
Proof.
  destruct (uring_never_terminates takes_all 5000 2 ltac:(lia) ltac:(reflexivity) true _ _ _ (two_in_ring_reach true) ltac:(left) 3 3%nat true true None (- ETIME) ltac:(by right))
    as (H1 & _ & _ & _ & _ & _ & H2 & _). split; [exact H1|exact H2].
Defined.

(** An event that [processEvent] moves away stays in the count: the queue is never empty
    again. *)
Lemma kept_event_stays_counted :
  after two_in_ring (λ s, after (start_submit takes_all s) (λ s,
    match complete 0 false s with Some s' => Done (size (handle_one true s'), live (handle_one true s')) | None => Terminated end))
  = Done (2, [Response 2]).
Proof. reflexivity. Qed.
(** The loop after the loop deletes the event of a request once for each completion. *)
Lemma last_loop_deletes_twice :
  after two_in_ring (λ s, after (start_submit takes_all s) (λ s,
    match complete 1 true s with
    | Some s' => match complete 1 false s' with Some s'' => Done (uq_done (last_loop_one (last_loop_one s''))) | None => Terminated end
    | None => Terminated
    end)) = Done [(Response 2, false); (Response 2, false)].
Proof. reflexivity. Qed.
(** SIGINT when nothing is under way: the quit event is prepared and, as long as waiting
    times out, not submitted; five seconds later the loop ends without it. *)
Lemma idle_quit_event_not_submitted :
  after (start_submit takes_all (new_queue 32 32)) (λ s,
    after (shouldAddQuitEvent takes_all 5000 true 0 1 (shouldQuit 5000 0 s).2) (λ s,
      after (shouldAddQuitEvent takes_all 5000 true 4999 2 (shouldQuit 5000 4999 s).2) (λ s,
        Done (uq_sq s, uq_flight s, (shouldQuit 5000 4999 s).1, (shouldQuit 5000 5000 s).1))))
  = Done ([Some (Plain 1)], [], false, true).
Proof. reflexivity. Qed.
(** Asking for 100 entries: the kernel makes 128, and [start()] terminates. *)
Lemma hundred_entries_terminate : start_submit takes_all (new_queue 128 100) = Terminated.
Proof. reflexivity. Qed.
