(* ===== verification/SdeventQueue.v ===== *)
(** * The event queue on sd-event

    src/ichor/event_queues/SdeventQueue.cpp: an event is a source of the sd-event loop with a
    priority; events of other threads go through a table, and a semaphore wakes the loop.

    sd-event is outside of the model; of it, that it dispatches a source with the smallest
    priority of those that wait, any one of them. *)

From stdpp Require Import base list option sorting.
From Stdlib Require Import ZArith Lia.
From S2P Require Import Prelude.

Local Open Scope Z_scope.

Section queue.
Context {E : Type}.

(** A source: an event, or the callback that [quit] adds. *)
Inductive source := EventSource (e : E) | ExitSource.
Record queue := mkQueue {
  sd_sources : list (Z * source);
  sd_otherThreadEventQueue : list (Z * E);   (* std::multimap *)
  sd_writers : nat;                          (* threads between emplace and write *)
  sd_eventfd : nat;                          (* the value of the semaphore *)
  sd_quit : bool;
  sd_exited : bool;                          (* sd_event_exit was called *)
  sd_done : list E }.
Definition new_queue : queue := mkQueue [] [] 0 0 false false [].
Definition set_sources (l : list (Z * source)) (q : queue) : queue :=
  mkQueue l (sd_otherThreadEventQueue q) (sd_writers q) (sd_eventfd q) (sd_quit q) (sd_exited q) (sd_done q).
Definition set_other (l : list (Z * E)) (writers fd : nat) (q : queue) : queue :=
  mkQueue (sd_sources q) l writers fd (sd_quit q) (sd_exited q) (sd_done q).
Definition set_flags (quit exited : bool) (q : queue) : queue :=
  mkQueue (sd_sources q) (sd_otherThreadEventQueue q) (sd_writers q) (sd_eventfd q) quit exited (sd_done q).
Definition add_done (e : E) (q : queue) : queue :=
  mkQueue (sd_sources q) (sd_otherThreadEventQueue q) (sd_writers q) (sd_eventfd q) (sd_quit q) (sd_exited q) (sd_done q ++ [e]).

Definition INTERNAL_EVENT_PRIORITY : Z := 1000.
(** static_cast<int64_t>. *)
Definition int64 (z : Z) : Z := if z mod 2 ^ 64 <? 2 ^ 63 then z mod 2 ^ 64 else z mod 2 ^ 64 - 2 ^ 64.
Definition source_priority (priority : Z) : Z := int64 priority - int64 INTERNAL_EVENT_PRIORITY.
(** [pushEventInternal] on the thread of the queue. *)
Definition push_here (priority : Z) (e : E) (q : queue) : queue :=
  set_sources (sd_sources q ++ [(source_priority priority, EventSource e)]) q.
(** std::multimap::emplace: behind the entries with the same key. *)
Fixpoint emplace (priority : Z) (e : E) (l : list (Z * E)) : list (Z * E) :=
  match l with
  | [] => [(priority, e)]
  | (p, x) :: l' => if priority <? p then (priority, e) :: l else (p, x) :: emplace priority e l'
  end.
(** ... and on another one, in two steps: the table is locked in the first one only. *)
Definition push_other (priority : Z) (e : E) (q : queue) : queue :=
  set_other (emplace priority e (sd_otherThreadEventQueue q)) (S (sd_writers q)) (sd_eventfd q) q.
Definition write_eventfd (q : queue) : option queue :=
  match sd_writers q with
  | O => None
  | S n => Some (set_other (sd_otherThreadEventQueue q) n (S (sd_eventfd q)) q)
  end.
(** The callback of [registerEventFd]: the loop calls it when the semaphore is not 0. *)
Definition eventfd_callback (q : queue) : option queue :=
  match sd_eventfd q with
  | O => None
  | S n =>
      match sd_otherThreadEventQueue q with
      | (p, e) :: l => Some (push_here p e (set_other l (sd_writers q) n q))
      | [] => Some (set_other [] (sd_writers q) n q)
      end
  end.
Definition shouldQuit (sigint : bool) (q : queue) : bool * queue :=
  let quit := sd_quit q || sigint in (quit, set_flags quit (sd_exited q) q).
Definition quit (q : queue) : queue :=
  if sd_quit q then q
  else set_flags true (sd_exited q) (set_sources (sd_sources q ++ [(2 ^ 63 - 1, ExitSource)]) q).
Definition quit_if_needed (sigint : bool) (q : queue) : queue :=
  let '(b, q') := shouldQuit sigint q in if b then quit q' else q'.
(** The callback of [registerTimer]. *)
Definition timer_callback (sigint : bool) (q : queue) : queue := quit_if_needed sigint q.
(** The loop dispatches the [i]-th source. *)
Definition dispatch (sigint : bool) (i : nat) (q : queue) : option queue :=
  match sd_sources q !! i with
  | Some (p, x) =>
      if forallb (λ y, p <=? y.1) (sd_sources q) then
        let q0 := set_sources (delete i (sd_sources q)) q in
        match x with
        | EventSource e => Some (add_done e (quit_if_needed sigint q0))
        | ExitSource => Some (set_flags (sd_quit q0) true q0)
        end
      else None
  | None => None
  end.

(** Any order of the callbacks and of calls; the list has the events that were pushed. *)
Inductive step (q : queue) : list E → queue → Prop :=
  | step_here p e : step q [e] (push_here p e q)
  | step_other p e : step q [e] (push_other p e q)
  | step_write q' : write_eventfd q = Some q' → step q [] q'
  | step_eventfd q' : eventfd_callback q = Some q' → step q [] q'
  | step_timer sigint : step q [] (timer_callback sigint q)
  | step_dispatch sigint i q' : dispatch sigint i q = Some q' → step q [] q'
  | step_quit : step q [] (quit q).
Inductive steps (q : queue) : list E → queue → Prop :=
  | steps_refl : steps q [] q
  | steps_snoc es q1 new q2 : steps q es q1 → step q1 new q2 → steps q (es ++ new) q2.

(** ** Every event once *)

Definition source_event (x : Z * source) : option E := match x.2 with EventSource e => Some e | ExitSource => None end.
Definition waiting (q : queue) : list E := (sd_otherThreadEventQueue q).*2 ++ omap source_event (sd_sources q).
(** The semaphore counts the events of the table whose thread has written to it. *)
Definition semaphore_inv (q : queue) : Prop := length (sd_otherThreadEventQueue q) = (sd_eventfd q + sd_writers q)%nat.

Lemma emplace_perm p e l : emplace p e l ≡ₚ (p, e) :: l.
Proof. induction l as [|[p' x] l IH]; cbn [emplace]; [done|]. destruct (Z.ltb p p'); [done|]. rewrite IH. apply Permutation_swap. Qed.
Lemma quit_if_needed_waiting sigint q : waiting (quit_if_needed sigint q) = waiting q ∧ sd_done (quit_if_needed sigint q) = sd_done q ∧
  (semaphore_inv q → semaphore_inv (quit_if_needed sigint q)).
Proof.
  unfold quit_if_needed, shouldQuit, quit. destruct (sd_quit q || sigint) eqn:Hb; cbn; [|done].
  split_and!; try done.
Qed.
Lemma quit_waiting q : waiting (quit q) = waiting q ∧ sd_done (quit q) = sd_done q ∧ (semaphore_inv q → semaphore_inv (quit q)).
Proof. unfold quit. destruct (sd_quit q); [done|]. split; [|done]. unfold waiting. cbn. by rewrite omap_app, app_nil_r. Qed.
Lemma step_events q new q' : step q new q' → semaphore_inv q →
  semaphore_inv q' ∧ sd_done q' ++ waiting q' ≡ₚ (sd_done q ++ waiting q) ++ new.
Proof.
  intros Hs Hi. unfold semaphore_inv in *. destruct Hs as [p e|p e|q' Hq|q' Hq|sigint|sigint i q' Hq|].
  - split; [done|]. unfold waiting. cbn. rewrite omap_app. cbn. by rewrite !app_assoc.
  - unfold waiting. cbn. rewrite emplace_perm. cbn. split; [lia|]. solve_Permutation.
  - unfold write_eventfd in Hq. destruct (sd_writers q) as [|n] eqn:Hw; [done|]. injection Hq as <-. cbn. split; [lia|]. by rewrite app_nil_r.
  - unfold eventfd_callback in Hq. destruct (sd_eventfd q) as [|n] eqn:Hf; [done|].
    destruct (sd_otherThreadEventQueue q) as [|[p e] l] eqn:Ho; injection Hq as <-; cbn in *; [lia|].
    split; [lia|]. unfold waiting. cbn. rewrite Ho, omap_app. cbn. solve_Permutation.
  - destruct (quit_if_needed_waiting sigint q) as (Hw & Hd & Hs). unfold timer_callback. split; [by apply Hs|]. by rewrite Hw, Hd, app_nil_r.
  - unfold dispatch in Hq. destruct (sd_sources q !! i) as [[p x]|] eqn:Hx; [|done]. destruct (forallb _ _); [|done].
    pose proof (omap_Permutation source_event _ _ (delete_Permutation _ _ _ Hx)) as Hp. cbn in Hp.
    destruct x as [e|]; injection Hq as <-; cbn in Hp.
    + destruct (quit_if_needed_waiting sigint (set_sources (delete i (sd_sources q)) q)) as (Hw & Hd & Hs).
      split; [by apply Hs|]. change (waiting (add_done e ?x)) with (waiting x). change (sd_done (add_done e ?x)) with (sd_done x ++ [e]).
      rewrite Hw, Hd. unfold waiting. cbn [sd_done sd_sources sd_otherThreadEventQueue set_sources]. rewrite Hp. solve_Permutation.
    + split; [done|]. unfold waiting. cbn. by rewrite Hp, app_nil_r.
  - destruct (quit_waiting q) as (Hw & Hd & Hs). split; [by apply Hs|]. by rewrite Hw, Hd, app_nil_r.
Qed.
(** However pushes of any thread and callbacks of the loop follow each other: every event that was
    pushed is processed or waits, once; and the semaphore is such that its callback finds an event in the table of
    other threads whenever it is called, and that none is left there when the semaphore is
    0 and no thread is about to write to it. *)
Theorem sdevent_events_once es q : steps new_queue es q →
  es ≡ₚ sd_done q ++ waiting q ∧ (sd_eventfd q ≠ 0%nat → sd_otherThreadEventQueue q ≠ []) ∧
  (sd_eventfd q = 0%nat → sd_writers q = 0%nat → sd_otherThreadEventQueue q = []).
Proof.
  intros H. assert (semaphore_inv q ∧ es ≡ₚ sd_done q ++ waiting q) as [Hi He].
  { induction H as [|es q1 new q2 _ [Hi He] Hs]; [done|]. destruct (step_events _ _ _ Hs Hi) as [Hi' He']. split; [done|]. by rewrite He', He. }
  split; [done|]. unfold semaphore_inv in Hi. split.
  - intros Hf Ho. rewrite Ho in Hi. cbn in Hi. lia.
  - intros Hf Hw. rewrite Hf, Hw in Hi. by apply nil_length_inv.
Qed.
Lemma int64_small z : 0 <= z < 2 ^ 63 → int64 z = z.
Proof.
  change (2 ^ 63) with 9223372036854775808. intros H. unfold int64. change (2 ^ 64) with 18446744073709551616.
  rewrite Z.mod_small by lia. change (2 ^ 63) with 9223372036854775808. by rewrite (proj2 (Z.ltb_lt _ _)) by lia.
Qed.
(** The priorities of events below 2^63 keep their order as priorities of sources. *)
Lemma source_priority_mono p p' : 0 <= p < 2 ^ 63 → 0 <= p' < 2 ^ 63 → (source_priority p <= source_priority p' ↔ p <= p').
Proof. intros H H'. unfold source_priority. rewrite !int64_small by done. lia. Qed.

(** ** SIGINT *)

(** The loop cannot end any more: [quit] thinks it has been called. *)
Definition stuck (q : queue) : Prop := sd_quit q = true ∧ sd_exited q = false ∧ ∀ x, x ∈ sd_sources q → x.2 ≠ ExitSource.
Lemma step_stuck q new q' : step q new q' → stuck q → stuck q'.
Proof.
  intros Hs (Hq & He & Hx). assert (∀ sigint q0, sd_quit q0 = true → quit_if_needed sigint q0 = set_flags true (sd_exited q0) q0) as Hn.
  { intros sigint q0 H0. unfold quit_if_needed, shouldQuit, quit. by rewrite H0. }
  destruct Hs as [p e|p e|q' Hw|q' Hw|sigint|sigint i q' Hw|].
  - split_and!; [done..|]. intros x [Hin|Hin%list_elem_of_singleton]%elem_of_app; [by apply Hx|by subst].
  - done.
  - unfold write_eventfd in Hw. destruct (sd_writers q); [done|]. by injection Hw as <-.
  - unfold eventfd_callback in Hw. destruct (sd_eventfd q) as [|n]; [done|]. destruct (sd_otherThreadEventQueue q) as [|[p e] l]; injection Hw as <-; [done|].
    split_and!; [done..|]. intros x [Hin|Hin%list_elem_of_singleton]%elem_of_app; [by apply Hx|by subst].
  - unfold timer_callback. rewrite Hn by done. done.
  - unfold dispatch in Hw. destruct (sd_sources q !! i) as [[p x]|] eqn:Hi; [|done]. destruct (forallb _ _); [|done].
    assert (∀ y, y ∈ delete i (sd_sources q) → y ∈ sd_sources q) as Hsub.
    { intros y Hy. rewrite (delete_Permutation _ _ _ Hi). by apply elem_of_cons; right. }
    destruct x as [e|]; [|destruct (Hx (p, ExitSource)); [by eapply list_elem_of_lookup_2|done]].
    injection Hw as <-. rewrite Hn by done. split_and!; [done..|]. intros y Hy. by apply Hx, Hsub.
  - unfold quit. by rewrite Hq.
Qed.
(** Once the timer has seen SIGINT in a queue that has not been told to quit, nothing ends
    the loop: [shouldQuit] sets the flag that [quit] takes for a sign that it has been
    called. *)
Theorem sigint_is_lost q es q' : sd_quit q = false → sd_exited q = false → (∀ x, x ∈ sd_sources q → x.2 ≠ ExitSource) →
  steps (timer_callback true q) es q' → sd_exited q' = false.
Proof.
  intros Hq He Hx H. assert (stuck q') as (_ & ? & _); [|done].
  induction H as [|es' q1 new q2 _ IH Hs]; [|by eapply step_stuck].
  unfold timer_callback, quit_if_needed, shouldQuit, quit. rewrite Hq. by split_and!.
Qed.
End queue.

(** An event of another thread. *)
Lemma sdevent_events_once_witness : [7%nat] ≡ₚ sd_done (push_other 5 7%nat new_queue) ++ waiting (push_other 5 7%nat new_queue).
Proof. apply (sdevent_events_once [7%nat]). apply (steps_snoc new_queue [] new_queue [7%nat]); [apply steps_refl|apply step_other]. Defined.
(** A priority of 2^63 and more comes first. *)
Lemma large_priority_first : source_priority (2 ^ 63) < source_priority 0.
Proof. by vm_compute. Qed.
