(* ===== verification/BoostQueue.v ===== *)
(** * The event queue on Boost.Asio

    src/ichor/event_queues/BoostAsioQueue.cpp: an event is a function posted to the io_context,
    which runs what was posted by one thread in that order. *)

From stdpp Require Import base list option.
From Stdlib Require Import ZArith Lia.
From S2P Require Import Prelude.

Local Open Scope Z_scope.

Section queue.
Context {E : Type}.
Record queue := mkQueue {
  bq_posted : list E;
  bq_quit : bool;
  bq_quitEventSent : option Z;
  bq_done : list E }.
(** No constructor gives [_quitTimeoutMs] another value. *)
Definition quitTimeoutMs : Z := 0.
Definition shouldQuit (now : Z) (q : queue) : bool * queue :=
  let b := bq_quit q || match bq_quitEventSent q with Some t => quitTimeoutMs <=? now - t | None => false end in
  (b, mkQueue (bq_posted q) b (bq_quitEventSent q) (bq_done q)).
Definition pushEventInternal (now : Z) (e : E) (q : queue) : queue :=
  let '(b, q') := shouldQuit now q in
  if b then q' else mkQueue (bq_posted q' ++ [e]) (bq_quit q') (bq_quitEventSent q') (bq_done q').
Definition shouldAddQuitEvent (sigint : bool) (now : Z) (quitEvent : E) (q : queue) : queue :=
  match bq_quitEventSent q with
  | None => if sigint then let q' := pushEventInternal now quitEvent q in mkQueue (bq_posted q') (bq_quit q') (Some now) (bq_done q') else q
  | Some _ => q
  end.
(** The function that is posted for an event: [processEvent] pushes some more. *)
Definition run_posted (pushes : E → list E) (sigint : bool) (now : Z) (quitEvent : E) (q : queue) : queue :=
  match bq_posted q with
  | [] => q
  | e :: es =>
      let q1 := mkQueue es (bq_quit q) (bq_quitEventSent q) (bq_done q ++ [e]) in
      shouldAddQuitEvent sigint now quitEvent (foldl (λ q x, pushEventInternal now x q) q1 (pushes e))
  end.
Definition quit (q : queue) : queue := mkQueue (bq_posted q) true (bq_quitEventSent q) (bq_done q).

(** As long as the queue is not told to quit, what is pushed is run in that order. *)
Lemma push_all_in_order now es q : bq_quit q = false → bq_quitEventSent q = None →
  foldl (λ q x, pushEventInternal now x q) q es = mkQueue (bq_posted q ++ es) false None (bq_done q).
Proof.
  intros Hq Hs. destruct q as [p b s d]. cbn in *. subst. revert p. induction es as [|e es IH]; intros p; cbn; [by rewrite app_nil_r|].
  by rewrite IH, <- app_assoc.
Qed.
(** Once SIGINT was seen, the events that processing the quit event pushes are dropped:
    the timeout is 0, so that the queue quits at once. *)
Lemma sigint_drops_stop_events now now' quitEvent q es : bq_quit q = false → bq_quitEventSent q = None → now <= now' →
  let q1 := shouldAddQuitEvent true now quitEvent q in
  bq_posted (foldl (λ q x, pushEventInternal now' x q) q1 es) = bq_posted q ++ [quitEvent].
Proof.
  intros Hq Hs Hn. unfold shouldAddQuitEvent. rewrite Hs. cbn. rewrite Hq, Hs. cbn.
  assert (∀ b, bq_posted (foldl (λ q x, pushEventInternal now' x q) (mkQueue (bq_posted q ++ [quitEvent]) b (Some now) (bq_done q)) es) = bq_posted q ++ [quitEvent]) as H; [|apply H].
  induction es as [|e es IH]; intros b; cbn; [done|].
  rewrite (proj2 (Z.leb_le _ _)) by (unfold quitTimeoutMs; lia). rewrite orb_true_r. apply IH.
Qed.
End queue.
