(* ===== verification/Base64.v ===== *)
(** * Base64

    src/base64/base64.cpp, which the clients for etcd use: encoding bytes and decoding them.
    Bytes and characters are numbers below 256; what is stored in an unsigned char is taken
    modulo 256. *)

From Stdlib Require Import ZArith Lia String Ascii.
From stdpp Require Import base list.
From S2P Require Import Prelude.

Local Open Scope Z_scope.

Definition codes (s : string) : list Z := (λ c, Z.of_nat (nat_of_ascii c)) <$> list_ascii_of_string s.
Definition base64_chars : list Z := codes "ABCDEFGHIJKLMNOPQRSTUVWXYZabcdefghijklmnopqrstuvwxyz0123456789+/".
Definition pad : Z := 61.
Definition is_base64 (c : Z) : bool :=
  ((48 <=? c) && (c <=? 57)) || ((65 <=? c) && (c <=? 90)) || ((97 <=? c) && (c <=? 122)) || (c =? 43) || (c =? 47).
(** base64_chars[k], and base64_chars.find(c) as an unsigned char: npos becomes 255. *)
Definition char_at (k : Z) : Z := nth (Z.to_nat k) base64_chars 0.
Fixpoint find_from (k : Z) (l : list Z) (c : Z) : Z :=
  match l with [] => 2 ^ 64 - 1 | x :: l' => if x =? c then k else find_from (k + 1) l' c end.
Definition find_char (c : Z) : Z := wrap8 (find_from 0 base64_chars c).

(** ** Encoding *)

(** The four elements of [char_array_4] for those of [char_array_3]. *)
Definition encode3 (a b c : Z) : list Z :=
  [ wrap8 (Z.shiftr (Z.land a 0xfc) 2);
    wrap8 (Z.shiftl (Z.land a 0x03) 4 + Z.shiftr (Z.land b 0xf0) 4);
    wrap8 (Z.shiftl (Z.land b 0x0f) 2 + Z.shiftr (Z.land c 0xc0) 6);
    wrap8 (Z.land c 0x3f) ].
(** The loop: [buf] is the used part of [char_array_3]. *)
Fixpoint encode_loop (bytes buf ret : list Z) : list Z * list Z :=
  match bytes with
  | [] => (buf, ret)
  | x :: bytes' =>
      match buf with
      | [a; b] => encode_loop bytes' [] (ret ++ (char_at <$> encode3 a b x))
      | _ => encode_loop bytes' (buf ++ [x]) ret
      end
  end.
Definition base64_encode (bytes : list Z) : list Z :=
  let '(buf, ret) := encode_loop bytes [] [] in
  match buf with
  | [a] => ret ++ (char_at <$> take 2 (encode3 a 0 0)) ++ [pad; pad]
  | [a; b] => ret ++ (char_at <$> take 3 (encode3 a b 0)) ++ [pad]
  | _ => ret
  end.

(** ** Decoding *)

Definition decode4 (p q r s : Z) : list Z :=
  [ wrap8 (Z.shiftl p 2 + Z.shiftr (Z.land q 0x30) 4);
    wrap8 (Z.shiftl (Z.land q 0xf) 4 + Z.shiftr (Z.land r 0x3c) 2);
    wrap8 (Z.shiftl (Z.land r 0x3) 6 + s) ].
(** The loop: [in_len] is the counter, an int, [s] what is left of the string after [in_] and
    [buf] the used part of [char_array_4].  Decrementing the smallest int is undefined
    behaviour, which is [None]; the character after the last one is a null character, with
    which the loop ends. *)
Fixpoint decode_loop (in_len : Z) (s buf ret : list Z) : option (list Z * list Z) :=
  if in_len =? 0 then Some (buf, ret)
  else if in_len =? - 2 ^ 31 then None
  else
    match s with
    | [] => Some (buf, ret)
    | c :: s' =>
        if (c =? pad) || negb (is_base64 c) then Some (buf, ret)
        else
          match buf with
          | [p; q; r] => decode_loop (in_len - 1) s' [] (ret ++ decode4 (find_char p) (find_char q) (find_char r) (find_char c))
          | _ => decode_loop (in_len - 1) s' (buf ++ [c]) ret
          end
    end.
(** What is left in [char_array_4] at the end. *)
Definition decode_rest (buf ret : list Z) : list Z :=
  match buf with
  | [p] => ret
  | [p; q] => ret ++ take 1 (decode4 (find_char p) (find_char q) (find_char 0) (find_char 0))
  | [p; q; r] => ret ++ take 2 (decode4 (find_char p) (find_char q) (find_char r) (find_char 0))
  | _ => ret
  end.
(** The size as an int: modulo 2^32, from -2^31 to 2^31 - 1. *)
Definition as_int (n : Z) : Z := (n + 2 ^ 31) mod 2 ^ 32 - 2 ^ 31.
Definition base64_decode (s : list Z) : option (list Z) :=
  '(buf, ret) ← decode_loop (as_int (Z.of_nat (List.length s))) s [] [];
  Some (decode_rest buf ret).

(** ** Strings whose size is an int *)

(** Decoding without a counter; with a size below 2^31 the two agree. *)
Fixpoint scan (s buf ret : list Z) : list Z * list Z :=
  match s with
  | [] => (buf, ret)
  | c :: s' =>
      if (c =? pad) || negb (is_base64 c) then (buf, ret)
      else
        match buf with
        | [p; q; r] => scan s' [] (ret ++ decode4 (find_char p) (find_char q) (find_char r) (find_char c))
        | _ => scan s' (buf ++ [c]) ret
        end
  end.
Definition decode (s : list Z) : list Z := let '(buf, ret) := scan s [] [] in decode_rest buf ret.
Lemma decode_loop_scan s buf ret : decode_loop (Z.of_nat (List.length s)) s buf ret = Some (scan s buf ret).
Proof.
  revert buf ret. induction s as [|c s IH]; intros buf ret; [done|]. cbn [decode_loop scan].
  rewrite (proj2 (Z.eqb_neq _ 0)) by (cbn [List.length]; lia). rewrite (proj2 (Z.eqb_neq _ (- 2 ^ 31))) by (cbn [List.length]; lia).
  replace (Z.of_nat (List.length (c :: s)) - 1) with (Z.of_nat (List.length s)) by (cbn [List.length]; lia).
  destruct (_ || _); [done|]. by destruct buf as [|p [|q [|r [|t buf]]]].
Qed.
Lemma as_int_small n : - 2 ^ 31 <= n < 2 ^ 31 → as_int n = n.
Proof. intros H. unfold as_int. rewrite Z.mod_small; lia. Qed.
Lemma base64_decode_small s : Z.of_nat (List.length s) < 2 ^ 31 → base64_decode s = Some (decode s).
Proof. intros H. unfold base64_decode, decode. rewrite as_int_small, decode_loop_scan by lia. cbn. by destruct (scan s [] []). Qed.

(** ** The alphabet *)

Definition byte (z : Z) : Prop := 0 <= z < 256.
Definition below (n : nat) (f : Z → bool) : bool := forallb (λ k, f (Z.of_nat k)) (seq 0 n).
Lemma below_spec n f z : below n f = true → 0 <= z < Z.of_nat n → f z = true.
Proof.
  intros H Hz. unfold below in H. rewrite forallb_forall in H. specialize (H (Z.to_nat z)).
  rewrite Z2Nat.id in H by lia. apply H, in_seq. lia.
Qed.
Lemma char_at_spec k : 0 <= k < 64 → find_char (char_at k) = k ∧ is_base64 (char_at k) = true ∧ (char_at k =? pad) = false.
Proof.
  intros Hk. assert (below 64 (λ k, (find_char (char_at k) =? k) && is_base64 (char_at k) && negb (char_at k =? pad)) = true) as Hb by (by vm_compute).
  pose proof (below_spec _ _ k Hb Hk) as H. cbn beta in H. rewrite !andb_true_iff, negb_true_iff in H. destruct H as [[H1 H2] H3].
  split; [by apply Z.eqb_eq|done].
Qed.
(** The bits that are taken of a byte, as divisions. *)
Lemma byte_parts a : byte a →
  Z.shiftr (Z.land a 0xfc) 2 = a / 4 ∧ Z.shiftl (Z.land a 0x03) 4 = (a mod 4) * 16 ∧
  Z.shiftr (Z.land a 0xf0) 4 = a / 16 ∧ Z.shiftl (Z.land a 0x0f) 2 = (a mod 16) * 4 ∧
  Z.shiftr (Z.land a 0xc0) 6 = a / 64 ∧ Z.land a 0x3f = a mod 64.
Proof.
  intros Ha.
  assert (below 256 (λ a, (Z.shiftr (Z.land a 0xfc) 2 =? a / 4) && (Z.shiftl (Z.land a 0x03) 4 =? (a mod 4) * 16) &&
    (Z.shiftr (Z.land a 0xf0) 4 =? a / 16) && (Z.shiftl (Z.land a 0x0f) 2 =? (a mod 16) * 4) &&
    (Z.shiftr (Z.land a 0xc0) 6 =? a / 64) && (Z.land a 0x3f =? a mod 64)) = true) as Hb by (by vm_compute).
  pose proof (below_spec _ _ a Hb Ha) as H. cbn beta in H. rewrite !andb_true_iff, !Z.eqb_eq in H. tauto.
Qed.
(** And of a number below 64. *)
Lemma sextet_parts k : 0 <= k < 64 →
  Z.shiftl k 2 = k * 4 ∧ Z.shiftr (Z.land k 0x30) 4 = k / 16 ∧ Z.shiftl (Z.land k 0xf) 4 = (k mod 16) * 16 ∧
  Z.shiftr (Z.land k 0x3c) 2 = k / 4 ∧ Z.shiftl (Z.land k 0x3) 6 = (k mod 4) * 64.
Proof.
  intros Hk.
  assert (below 64 (λ k, (Z.shiftl k 2 =? k * 4) && (Z.shiftr (Z.land k 0x30) 4 =? k / 16) && (Z.shiftl (Z.land k 0xf) 4 =? (k mod 16) * 16) &&
    (Z.shiftr (Z.land k 0x3c) 2 =? k / 4) && (Z.shiftl (Z.land k 0x3) 6 =? (k mod 4) * 64)) = true) as Hb by (by vm_compute).
  pose proof (below_spec _ _ k Hb Hk) as H. cbn beta in H. rewrite !andb_true_iff, !Z.eqb_eq in H. tauto.
Qed.
Lemma wrap8_byte z : byte z → wrap8 z = z.
Proof. apply Z.mod_small. Qed.
Ltac byte_lia := unfold byte in *; Z.to_euclidean_division_equations; lia.
(** The four indices of three bytes. *)
Lemma encode3_eq a b c : byte a → byte b → byte c →
  encode3 a b c = [a / 4; (a mod 4) * 16 + b / 16; (b mod 16) * 4 + c / 64; c mod 64].
Proof.
  intros Ha Hb Hc. unfold encode3.
  destruct (byte_parts a Ha) as (-> & -> & _). destruct (byte_parts b Hb) as (_ & _ & -> & -> & _). destruct (byte_parts c Hc) as (_ & _ & _ & _ & -> & ->).
  by rewrite !wrap8_byte by byte_lia.
Qed.
(** The three bytes of four numbers below 64; the first two do not depend on the last
    ones. *)
Lemma decode4_first p q r s : 0 <= p < 64 → 0 <= q < 64 → take 1 (decode4 p q r s) = [p * 4 + q / 16].
Proof.
  intros Hp Hq. unfold decode4. cbn [take]. destruct (sextet_parts p Hp) as (-> & _). destruct (sextet_parts q Hq) as (_ & -> & _).
  by rewrite wrap8_byte by byte_lia.
Qed.
Lemma decode4_two p q r s : 0 <= p < 64 → 0 <= q < 64 → 0 <= r < 64 → take 2 (decode4 p q r s) = [p * 4 + q / 16; (q mod 16) * 16 + r / 4].
Proof.
  intros Hp Hq Hr. unfold decode4. cbn [take]. destruct (sextet_parts p Hp) as (-> & _). destruct (sextet_parts q Hq) as (_ & -> & -> & _).
  destruct (sextet_parts r Hr) as (_ & _ & _ & -> & _). by rewrite !wrap8_byte by byte_lia.
Qed.
Lemma decode4_eq p q r s : 0 <= p < 64 → 0 <= q < 64 → 0 <= r < 64 → 0 <= s < 64 →
  decode4 p q r s = [p * 4 + q / 16; (q mod 16) * 16 + r / 4; (r mod 4) * 64 + s].
Proof.
  intros Hp Hq Hr Hs. unfold decode4.
  destruct (sextet_parts p Hp) as (-> & _). destruct (sextet_parts q Hq) as (_ & -> & -> & _). destruct (sextet_parts r Hr) as (_ & _ & _ & -> & ->).
  by rewrite !wrap8_byte by byte_lia.
Qed.

(** ** Round trip *)

Lemma encode_loop_ret bytes buf ret : encode_loop bytes buf ret = ((encode_loop bytes buf []).1, ret ++ (encode_loop bytes buf []).2).
Proof.
  revert buf ret. induction bytes as [|x bytes IH]; intros buf ret; cbn [encode_loop]; [by rewrite app_nil_r|].
  destruct buf as [|a [|b [|c buf]]]; [apply IH..| |apply IH]. rewrite IH, (IH [] ([] ++ _)). cbn [fst snd app]. by rewrite app_assoc.
Qed.
Lemma scan_ret s buf ret : scan s buf ret = ((scan s buf []).1, ret ++ (scan s buf []).2).
Proof.
  revert buf ret. induction s as [|c s IH]; intros buf ret; cbn [scan]; [by rewrite app_nil_r|].
  destruct (_ || _); [by rewrite app_nil_r|]. destruct buf as [|p [|q [|r [|s' buf]]]]; [apply IH..| |apply IH].
  rewrite IH, (IH [] ([] ++ _)). cbn [fst snd app]. by rewrite app_assoc.
Qed.
(** Three bytes more, four characters more. *)
Lemma encode_three a b c bytes : base64_encode (a :: b :: c :: bytes) = (char_at <$> encode3 a b c) ++ base64_encode bytes.
Proof.
  unfold base64_encode. cbn [encode_loop app]. rewrite encode_loop_ret. destruct (encode_loop bytes [] []) as [buf ret]. cbn [fst snd].
  destruct buf as [|x [|y [|z buf]]]; by rewrite ?app_assoc.
Qed.
Lemma decode_char k s buf ret : 0 <= k < 64 →
  scan (char_at k :: s) buf ret =
  match buf with
  | [p; q; r] => scan s [] (ret ++ decode4 (find_char p) (find_char q) (find_char r) k)
  | _ => scan s (buf ++ [char_at k]) ret
  end.
Proof. intros Hk. destruct (char_at_spec k Hk) as (H1 & H2 & H3). cbn [scan]. rewrite H3, H2. cbn [orb negb]. by rewrite H1. Qed.
Lemma find_char_at k : 0 <= k < 64 → find_char (char_at k) = k.
Proof. apply char_at_spec. Qed.
Lemma decode_four p q r t s : 0 <= p < 64 → 0 <= q < 64 → 0 <= r < 64 → 0 <= t < 64 →
  decode (char_at p :: char_at q :: char_at r :: char_at t :: s) = decode4 p q r t ++ decode s.
Proof.
  intros Hp Hq Hr Ht. unfold decode, decode_rest. rewrite !decode_char by done. cbn [app]. rewrite !find_char_at, scan_ret by done.
  destruct (scan s [] []) as [buf ret]. cbn [fst snd].
  destruct buf as [|x [|y [|z [|w buf]]]]; by rewrite <- ?app_assoc.
Qed.
Lemma three_ind (P : list Z → Prop) : P [] → (∀ a, P [a]) → (∀ a b, P [a; b]) → (∀ a b c l, P l → P (a :: b :: c :: l)) → ∀ l, P l.
Proof. intros H0 H1 H2 H3. fix IH 1. intros [|a [|b [|c l]]]; [apply H0|apply H1|apply H2|apply H3, IH]. Qed.
Lemma decode_encode bytes : Forall byte bytes → decode (base64_encode bytes) = bytes.
Proof.
  induction bytes as [|a|a b|a b c l IH] using three_ind; intros H.
  - done.
  - apply Forall_inv in H. unfold base64_encode. cbn [encode_loop app]. rewrite encode3_eq by (done || byte_lia). cbn [take fmap list_fmap app].
    unfold decode, decode_rest. rewrite !decode_char by byte_lia. cbn [app scan]. rewrite Z.eqb_refl. cbn [orb].
    rewrite !find_char_at, decode4_first by byte_lia. cbn. f_equal. byte_lia.
  - apply Forall_cons in H as [Ha [Hb _]%Forall_cons]. unfold base64_encode. cbn [encode_loop app]. rewrite encode3_eq by (done || byte_lia). cbn [take fmap list_fmap app].
    unfold decode, decode_rest. rewrite !decode_char by byte_lia. cbn [app scan]. rewrite Z.eqb_refl. cbn [orb].
    rewrite !find_char_at, decode4_two by byte_lia. cbn. f_equal; [byte_lia|]. f_equal. byte_lia.
  - apply Forall_cons in H as [Ha [Hb [Hc Hl]%Forall_cons]%Forall_cons].
    rewrite encode_three, encode3_eq by done. cbn [fmap list_fmap app]. rewrite decode_four, decode4_eq, IH by (done || byte_lia).
    cbn [app]. f_equal; [byte_lia|]. f_equal; [byte_lia|]. f_equal. byte_lia.
Qed.
(** Four characters for three bytes. *)
Lemma base64_encode_length bytes : Z.of_nat (List.length (base64_encode bytes)) = 4 * ((Z.of_nat (List.length bytes) + 2) / 3).
Proof.
  induction bytes as [|a|a b|a b c l IH] using three_ind; [done..|].
  rewrite encode_three, length_app, length_fmap, Nat2Z.inj_add, IH. cbn [List.length encode3].
  replace (Z.of_nat (S (S (S (List.length l)))) + 2) with (Z.of_nat (List.length l) + 2 + 1 * 3) by lia. rewrite Z.div_add by lia. lia.
Qed.
(** The most bytes whose encoding has a size that is an int: three quarters of 2^31 - 4. *)
Definition most_bytes : Z := 3 * (2 ^ 29 - 1).
(** Decoding what encoding gives gives the bytes back, as long as the size of the encoded string
    is an int. *)
Theorem base64_roundtrip bytes :
  Forall byte bytes → Z.of_nat (List.length bytes) <= most_bytes → base64_decode (base64_encode bytes) = Some bytes.
Proof.
  intros Hb Hn. rewrite base64_decode_small; [by rewrite decode_encode|].
  rewrite base64_encode_length. unfold most_bytes in Hn. Z.to_euclidean_division_equations. lia.
Qed.
Lemma base64_roundtrip_witness : base64_decode (base64_encode (codes "Ichor")) = Some (codes "Ichor").
Proof. apply base64_roundtrip; [repeat constructor; vm_compute; done|vm_compute; done]. Defined.
(** Past that they are lost: a string of 2^32 characters has the size 0 as an int, and a string
    of 2^31 has the smallest int, whose decrement is undefined. *)
Lemma decode_nothing s : Z.of_nat (List.length s) = 2 ^ 32 → base64_decode s = Some [].
Proof. intros H. unfold base64_decode. rewrite H. by destruct s. Qed.
Lemma decode_undefined s : Z.of_nat (List.length s) = 2 ^ 31 → base64_decode s = None.
Proof. intros H. unfold base64_decode. rewrite H. by destruct s. Qed.
(** The example of RFC 4648. *)
Lemma base64_foobar : base64_encode (codes "foobar") = codes "Zm9vYmFy" ∧ base64_encode (codes "fooba") = codes "Zm9vYmE=" ∧ base64_encode (codes "foob") = codes "Zm9vYg==".
Proof. done. Qed.
