(* ===== verification/EventStatistics.v ===== *)
(** * Statistics of events

    src/services/metrics/EventStatisticsService.cpp: an interceptor measures how long events
    are processed; a timer summarises what was measured since it last fired; [stop()]
    reports a summary of the summaries.  Times are [Z]: nanoseconds in 64 bits do not
    overflow within centuries.  The loops over the maps treat every key once and on its own,
    hence the functions on maps. *)

From stdpp Require Import base list option gmap.
From Stdlib Require Import ZArith Lia.
From S2P Require Import Prelude.

Local Open Scope Z_scope.

Record StatisticEntry := mkStatisticEntry { se_timestamp : Z; processingTimeRequired : Z }.
Record AveragedStatisticEntry := mkAveraged {
  ae_timestamp : Z;
  minProcessingTimeRequired : Z;
  maxProcessingTimeRequired : Z;
  avgProcessingTimeRequired : Z;
  occurrences : Z }.
Record statistics := mkStatistics {
  recentEventStatistics : gmap Z (list StatisticEntry);
  averagedStatistics : gmap Z (list AveragedStatisticEntry);
  startProcessingTimestamp : Z }.
Definition new_statistics : statistics := mkStatistics ∅ ∅ 0.

(** The values of std::min_element and std::max_element of a range that is not empty, and
    std::accumulate. *)
Definition min_of (x : Z) (l : list Z) : Z := foldl Z.min x l.
Definition max_of (x : Z) (l : list Z) : Z := foldl Z.max x l.
Definition sum_of (l : list Z) : Z := foldl Z.add 0 l.

Definition preInterceptEvent (now : Z) (s : statistics) : statistics :=
  mkStatistics (recentEventStatistics s) (averagedStatistics s) now.
Definition postInterceptEvent (evtType : Z) (processed : bool) (now : Z) (s : statistics) : statistics :=
  if processed then
    let e := mkStatisticEntry now (now - startProcessingTimestamp s) in
    mkStatistics (<[evtType := default [] (recentEventStatistics s !! evtType) ++ [e]]> (recentEventStatistics s)) (averagedStatistics s) (startProcessingTimestamp s)
  else s.
(** The entry of a range of measurements. *)
Definition average (now : Z) (l : list StatisticEntry) : option AveragedStatisticEntry :=
  match processingTimeRequired <$> l with
  | [] => None
  | x :: ts => Some (mkAveraged now (min_of x ts) (max_of x ts) (sum_of (x :: ts) ÷ Z.of_nat (length l)) (Z.of_nat (length l)))
  end.
Definition calculateAverage (now : Z) (s : statistics) : statistics :=
  mkStatistics ∅
    (merge (λ a r, match r ≫= average now with Some e => Some (default [] a ++ [e]) | None => a end) (averagedStatistics s) (recentEventStatistics s))
    (startProcessingTimestamp s).
(** What [stop()] reports of a type of events: occurrences, min, max and avg. *)
Definition report (l : list AveragedStatisticEntry) : option (Z * Z * Z * Z) :=
  match l with
  | [] => None
  | e :: es =>
      Some (sum_of (occurrences <$> l), min_of (minProcessingTimeRequired e) (minProcessingTimeRequired <$> es),
            max_of (maxProcessingTimeRequired e) (maxProcessingTimeRequired <$> es),
            sum_of (avgProcessingTimeRequired <$> l) ÷ Z.of_nat (length l))
  end.
Definition stop_report (now : Z) (s : statistics) : gmap Z (Z * Z * Z * Z) := omap report (averagedStatistics (calculateAverage now s)).

(** ** Minimum, maximum and sum *)

Lemma min_of_spec x l : min_of x l ∈ x :: l ∧ ∀ y, y ∈ x :: l → min_of x l <= y.
Proof.
  revert x. induction l as [|z l IH]; intros x; cbn.
  - split; [by apply list_elem_of_singleton|]. intros y ->%list_elem_of_singleton. done.
  - destruct (IH (Z.min x z)) as [Hin Hle]. split.
    + rewrite !elem_of_cons in *. destruct Hin as [Hin|Hin]; [|by auto]. unfold min_of in Hin |- *. rewrite Hin. destruct (Z.min_spec x z) as [[_ ->]|[_ ->]]; auto.
    + assert (min_of (Z.min x z) l <= Z.min x z) as Hm by (apply Hle, elem_of_cons; by left).
      unfold min_of in *. intros y Hy. rewrite !elem_of_cons in Hy. destruct Hy as [->|[->|Hy]]; [lia|lia|]. apply Hle, elem_of_cons. by right.
Qed.
Lemma max_of_spec x l : max_of x l ∈ x :: l ∧ ∀ y, y ∈ x :: l → y <= max_of x l.
Proof.
  revert x. induction l as [|z l IH]; intros x; cbn.
  - split; [by apply list_elem_of_singleton|]. intros y ->%list_elem_of_singleton. done.
  - destruct (IH (Z.max x z)) as [Hin Hle]. split.
    + rewrite !elem_of_cons in *. destruct Hin as [Hin|Hin]; [|by auto]. unfold max_of in Hin |- *. rewrite Hin. destruct (Z.max_spec x z) as [[_ ->]|[_ ->]]; auto.
    + assert (Z.max x z <= max_of (Z.max x z) l) as Hm by (apply Hle, elem_of_cons; by left).
      unfold max_of in *. intros y Hy. rewrite !elem_of_cons in Hy. destruct Hy as [->|[->|Hy]]; [lia|lia|]. apply Hle, elem_of_cons. by right.
Qed.
Lemma foldl_add_acc a l : foldl Z.add a l = a + sum_of l.
Proof. unfold sum_of. revert a. induction l as [|x l IH]; intros a; cbn; [lia|]. rewrite IH, (IH (0 + x)). lia. Qed.
Lemma sum_of_cons x l : sum_of (x :: l) = x + sum_of l.
Proof. unfold sum_of at 1. cbn. by rewrite foldl_add_acc. Qed.
Lemma sum_of_bounds lo hi l : (∀ y, y ∈ l → lo <= y <= hi) → lo * Z.of_nat (length l) <= sum_of l <= hi * Z.of_nat (length l).
Proof.
  induction l as [|x l IH]; intros H; [cbn; lia|]. rewrite sum_of_cons. cbn [length].
  pose proof (H x ltac:(by apply elem_of_cons; left)). pose proof (IH (λ y Hy, H y (proj2 (elem_of_cons _ _ _) (or_intror Hy)))). nia.
Qed.
(** An average, rounded towards 0, is between the smallest and the largest. *)
Lemma average_bounds lo hi l : l ≠ [] → 0 <= lo → (∀ y, y ∈ l → lo <= y <= hi) → lo <= sum_of l ÷ Z.of_nat (length l) <= hi.
Proof.
  intros Hne Hlo H. pose proof (sum_of_bounds lo hi l H) as [H1 H2].
  assert (0 < Z.of_nat (length l)) as Hl by (destruct l; [done|cbn; lia]).
  rewrite Z.quot_div_nonneg by nia. split; [apply Z.div_le_lower_bound; nia|]. apply Z.div_le_upper_bound; nia.
Qed.

Lemma elem_of_concat {A} (y : A) ls : y ∈ concat ls ↔ ∃ l, y ∈ l ∧ l ∈ ls.
Proof.
  rewrite list_elem_of_In, in_concat. split; intros (l & H1 & H2); exists l; rewrite !list_elem_of_In in *; done.
Qed.

(** ** Runs *)

(** Interceptors are called around each event, the timer in between; the clock does not go
    back.  The list has the types and processing times of the events that were processed. *)
Inductive stat_run : list (Z * Z) → statistics → Prop :=
  | sr_new : stat_run [] new_statistics
  | sr_pre h s now : stat_run h s → stat_run h (preInterceptEvent now s)
  | sr_post h s k (processed : bool) now : stat_run h s → startProcessingTimestamp s <= now →
      stat_run (h ++ if processed then [(k, now - startProcessingTimestamp s)] else []) (postInterceptEvent k processed now s)
  | sr_average h s now : stat_run h s → stat_run h (calculateAverage now s).
Definition times (k : Z) (h : list (Z * Z)) : list Z := omap (λ x, if bool_decide (x.1 = k) then Some x.2 else None) h.

(** The entries of a type are those of groups of measurements; what is in no group yet is
    recent. *)
Definition grouped (k : Z) (h : list (Z * Z)) (s : statistics) : Prop :=
  ∃ groups, Forall2 (λ g e, ∃ now, average now g = Some e) groups (default [] (averagedStatistics s !! k)) ∧
    times k h = processingTimeRequired <$> concat groups ++ default [] (recentEventStatistics s !! k).
Lemma averaged_lookup now s k : averagedStatistics (calculateAverage now s) !! k =
  match recentEventStatistics s !! k ≫= average now with
  | Some e => Some (default [] (averagedStatistics s !! k) ++ [e])
  | None => averagedStatistics s !! k
  end.
Proof.
  cbn [averagedStatistics calculateAverage]. rewrite lookup_merge.
  by destruct (averagedStatistics s !! k), (recentEventStatistics s !! k).
Qed.
Lemma average_grouped k h s now : grouped k h s → grouped k h (calculateAverage now s).
Proof.
  intros (groups & Hg & Ht). unfold grouped. rewrite averaged_lookup. cbn [recentEventStatistics calculateAverage]. rewrite lookup_empty.
  destruct (recentEventStatistics s !! k) as [r|] eqn:Hr; cbn [mbind option_bind]; [|by exists groups].
  destruct (average now r) as [e|] eqn:Ha.
  - exists (groups ++ [r]). split; [apply Forall2_app; [done|]; constructor; [by exists now|constructor]|].
    rewrite concat_app. cbn. by rewrite !app_nil_r.
  - exists groups. split; [done|]. assert (r = []) as -> by (by destruct r). done.
Qed.
Lemma times_snoc k h k' t : times k (h ++ [(k', t)]) = times k h ++ (if bool_decide (k' = k) then [t] else []).
Proof. unfold times. rewrite omap_app. cbn. by case_bool_decide. Qed.
Lemma stat_run_grouped h s : stat_run h s → ∀ k, grouped k h s.
Proof.
  induction 1 as [|h s now _ IH|h s k' [] now _ IH _|h s now _ IH]; intros k.
  - by exists [].
  - apply IH.
  - destruct (IH k) as (groups & Hg & Ht). exists groups. split; [done|]. rewrite times_snoc, Ht. cbn.
    case_bool_decide as Hk.
    + subst. rewrite lookup_insert_eq. cbn. by rewrite app_assoc, !fmap_app.
    + rewrite lookup_insert_ne by done. by rewrite app_nil_r.
  - rewrite app_nil_r. apply IH.
  - apply average_grouped, IH.
Qed.
Lemma times_nonneg h s : stat_run h s → ∀ k y, y ∈ times k h → 0 <= y.
Proof.
  induction 1 as [|h s now _ IH|h s k' [] now _ IH Hn|h s now _ IH]; intros k y Hy; try by eapply IH.
  - by apply elem_of_nil in Hy.
  - rewrite times_snoc, elem_of_app in Hy. destruct Hy as [Hy|Hy]; [by eapply IH|]. case_bool_decide; [|by apply elem_of_nil in Hy].
    apply list_elem_of_singleton in Hy. lia.
  - rewrite app_nil_r in Hy. by eapply IH.
Qed.

(** ** What is reported *)

(** An entry describes its group. *)
Definition describes (ts : list Z) (e : AveragedStatisticEntry) : Prop :=
  occurrences e = Z.of_nat (length ts) ∧
  (minProcessingTimeRequired e ∈ ts ∧ ∀ y, y ∈ ts → minProcessingTimeRequired e <= y) ∧
  (maxProcessingTimeRequired e ∈ ts ∧ ∀ y, y ∈ ts → y <= maxProcessingTimeRequired e) ∧
  ((∀ y, y ∈ ts → 0 <= y) → minProcessingTimeRequired e <= avgProcessingTimeRequired e <= maxProcessingTimeRequired e).
Lemma average_describes now g e : average now g = Some e → describes (processingTimeRequired <$> g) e.
Proof.
  unfold average. destruct (processingTimeRequired <$> g) as [|x ts] eqn:Hts; [done|]. intros [= <-]. cbn -[sum_of].
  assert (length g = length (x :: ts)) as Hl by (by rewrite <- Hts, length_fmap).
  split; [by rewrite Hl|]. split; [apply min_of_spec|]. split; [apply max_of_spec|]. intros Hpos. cbn -[sum_of]. rewrite Hl.
  apply average_bounds; [done| |]; [apply Hpos, min_of_spec|]. intros y Hy. split; [by apply min_of_spec|by apply max_of_spec].
Qed.
Definition report_ok (ts : list Z) (r : Z * Z * Z * Z) : Prop :=
  let '(occ, mn, mx, avg) := r in
  occ = Z.of_nat (length ts) ∧ (mn ∈ ts ∧ ∀ y, y ∈ ts → mn <= y) ∧ (mx ∈ ts ∧ ∀ y, y ∈ ts → y <= mx) ∧ mn <= avg <= mx.
Lemma occurrences_sum groups es : Forall2 describes groups es → sum_of (occurrences <$> es) = Z.of_nat (length (concat groups)).
Proof. induction 1 as [|g e groups es [Ho _] _ IH]; [done|]. cbn [fmap list_fmap concat]. rewrite sum_of_cons, IH, Ho, length_app. lia. Qed.
(** A number that every group has, and that is the smallest or the largest of all groups. *)
Lemma described_member groups es e : Forall2 describes groups es → e ∈ es → ∃ g, g ∈ groups ∧ describes g e.
Proof.
  intros H (i & Hi)%list_elem_of_lookup. destruct (Forall2_lookup_r _ _ _ _ _ H Hi) as (g & Hg & Hd). exists g. split; [by eapply list_elem_of_lookup_2|done].
Qed.
Lemma described_time groups es y : Forall2 describes groups es → y ∈ concat groups → ∃ e, e ∈ es ∧ minProcessingTimeRequired e <= y <= maxProcessingTimeRequired e.
Proof.
  intros H (g & Hy & Hg)%elem_of_concat. apply list_elem_of_lookup in Hg as (i & Hi).
  destruct (Forall2_lookup_l _ _ _ _ _ H Hi) as (e & He & Hd). exists e. split; [by eapply list_elem_of_lookup_2|].
  destruct Hd as (_ & [_ Hmin] & [_ Hmax] & _). auto.
Qed.
Lemma report_groups groups es : Forall2 describes groups es → es ≠ [] → (∀ y, y ∈ concat groups → 0 <= y) → ∃ r, report es = Some r ∧ report_ok (concat groups) r.
Proof.
  intros H Hne Hpos. destruct es as [|e es]; [done|]. eexists. split; [done|]. unfold report_ok.
  assert (∀ x, x ∈ e :: es → minProcessingTimeRequired x ∈ concat groups ∧ maxProcessingTimeRequired x ∈ concat groups ∧
    minProcessingTimeRequired x <= avgProcessingTimeRequired x <= maxProcessingTimeRequired x) as Hin.
  { intros x Hx. destruct (described_member _ _ _ H Hx) as (g & Hg & _ & [Hm _] & [HM _] & Havg).
    split; [by apply elem_of_concat; exists g|]. split; [by apply elem_of_concat; exists g|].
    apply Havg. intros y Hy. apply Hpos, elem_of_concat. by exists g. }
  pose proof (min_of_spec (minProcessingTimeRequired e) (minProcessingTimeRequired <$> es)) as [Hm1 Hm2].
  pose proof (max_of_spec (maxProcessingTimeRequired e) (maxProcessingTimeRequired <$> es)) as [HM1 HM2].
  change (minProcessingTimeRequired e :: (minProcessingTimeRequired <$> es)) with (minProcessingTimeRequired <$> e :: es) in *.
  change (maxProcessingTimeRequired e :: (maxProcessingTimeRequired <$> es)) with (maxProcessingTimeRequired <$> e :: es) in *.
  split; [by apply occurrences_sum|]. split; [split|split; [split|]].
  - apply list_elem_of_fmap in Hm1 as (x & -> & Hx). by apply Hin.
  - intros y Hy. destruct (described_time _ _ _ H Hy) as (x & Hx & ? & _). etrans; [apply Hm2, list_elem_of_fmap_2, Hx|done].
  - apply list_elem_of_fmap in HM1 as (x & -> & Hx). by apply Hin.
  - intros y Hy. destruct (described_time _ _ _ H Hy) as (x & Hx & _ & ?). etrans; [done|apply HM2, list_elem_of_fmap_2, Hx].
  - rewrite <- (length_fmap avgProcessingTimeRequired). apply average_bounds; [done| |].
    + apply list_elem_of_fmap in Hm1 as (x & -> & Hx). by apply Hpos, Hin.
    + intros y (x & -> & Hx)%list_elem_of_fmap. pose proof (Hm2 _ (list_elem_of_fmap_2 minProcessingTimeRequired _ _ Hx)).
      pose proof (HM2 _ (list_elem_of_fmap_2 maxProcessingTimeRequired _ _ Hx)). destruct (Hin x Hx) as (_ & _ & ?). lia.
Qed.
(** What [stop()] reports, however often the timer fired in between: of every type of events
    that were processed, how many there were, the shortest and the longest processing time,
    and an average in between; and of no other type. *)
Theorem statistics_exact h s now k : stat_run h s →
  match stop_report now s !! k with
  | None => times k h = []
  | Some r => report_ok (times k h) r
  end.
Proof.
  intros H. pose proof (times_nonneg _ _ (sr_average _ _ now H) k) as Hpos.
  destruct (stat_run_grouped _ _ (sr_average _ _ now H) k) as (groups & Hg & Ht). cbn [recentEventStatistics calculateAverage] in Ht.
  rewrite lookup_empty in Ht. cbn in Ht. rewrite app_nil_r in Ht. unfold stop_report. rewrite lookup_omap.
  assert (Forall2 describes ((λ g : list StatisticEntry, processingTimeRequired <$> g) <$> groups) (default [] (averagedStatistics (calculateAverage now s) !! k))) as Hd.
  { apply Forall2_fmap_l. eapply Forall2_impl; [exact Hg|]. intros g e (n & Hn). by eapply average_describes. }
  assert (concat ((λ g : list StatisticEntry, processingTimeRequired <$> g) <$> groups) = times k h) as Hc by (rewrite Ht; symmetry; apply concat_map).
  destruct (averagedStatistics (calculateAverage now s) !! k) as [[|e es]|]; cbn [default from_option id mbind option_bind] in *.
  - cbn. apply Forall2_nil_inv_r in Hd. by rewrite <- Hc, Hd.
  - destruct (report_groups _ _ Hd) as (r & Hr & Hok); [done|by rewrite Hc|]. rewrite Hr. by rewrite <- Hc.
  - apply Forall2_nil_inv_r in Hd. by rewrite <- Hc, Hd.
Qed.
(** The average that is reported is the one of the averages of the intervals, not of the
    events. *)
Lemma average_of_averages :
  report <$> averagedStatistics (calculateAverage 9 (postInterceptEvent 1 true 9 (postInterceptEvent 1 true 9 (postInterceptEvent 1 true 9
    (preInterceptEvent 9 (calculateAverage 9 (postInterceptEvent 1 true 8 (preInterceptEvent 0 new_statistics)))))))) !! 1 = Some (Some (4, 0, 8, 4)).
Proof. reflexivity. Qed.
