(* ===== verification/TypeHash.v ===== *)
(** * The hashes of type names

    include/ichor/ConstevalHash.h: [typeNameHash<T>()] is the hash wyhash, version 3, of the name
    the compiler gives the type, with the seed 0.  Interfaces, events and the types of values in
    an [any] are told apart by it.

    The variant is that of compilers with a type of 128 bits.  A name is a list of ASCII codes:
    below 128 the shifts of [char]s, which are shifts of [int]s, neither overflow nor extend a sign. *)

From Stdlib Require Import ZArith Lia String Ascii.
From stdpp Require Import base list.
From S2P Require Import Prelude.

Local Open Scope Z_scope.

Definition wyp0 : Z := 0xa0761d6478bd642f.
Definition wyp1 : Z := 0xe7037ed1a0b428db.
Definition wyp2 : Z := 0x8ebc6af09c88c6e3.
Definition wyp3 : Z := 0x589965cc75374cc3.
Definition wyp4 : Z := 0x1d8e4e27c47d124f.

(** The two halves of the product; the conversion to 64 bits is at the end. *)
Definition consteval_wymum (a b : Z) : Z := let r := a * b in wrap64 (Z.lxor (Z.shiftr r 64) r).
(** [p[k]] *)
Definition at_ (p : list Z) (k : nat) : Z := nth k p 0.
Definition join (a b : Z) : Z := Z.lor (Z.shiftl a 8) b.
Definition consteval_wyr8 (p : list Z) : Z :=
  join (join (join (join (join (join (join (at_ p 0) (at_ p 1)) (at_ p 2)) (at_ p 3)) (at_ p 4)) (at_ p 5)) (at_ p 6)) (at_ p 7).
Definition consteval_wyr4 (p : list Z) : Z := join (join (join (at_ p 0) (at_ p 1)) (at_ p 2)) (at_ p 3).
Definition consteval_wyr3 (p : list Z) (k : nat) : Z := join (join (at_ p 0) (at_ p (k / 2)))  (at_ p (k - 1)).

Section with_xor.
Local Infix "^^" := Z.lxor (at level 40, left associativity).
Local Notation mum := consteval_wymum.
Local Notation r8 := consteval_wyr8.
Local Notation r4 := consteval_wyr4.

(** Two words of eight bytes into a seed. *)
Definition mix (p : list Z) (seed q q' : Z) : Z := mum (r8 p ^^ seed ^^ q) (r8 (drop 8 p) ^^ seed ^^ q').
(** A turn of the loop over 256 bytes: four rounds of 64 bytes, 32 for each of the seeds. *)
Definition round64 (p : list Z) (s : Z * Z) : Z * Z :=
  (mix p s.1 wyp0 wyp1 ^^ mix (drop 16 p) s.1 wyp2 wyp3, mix (drop 32 p) s.2 wyp1 wyp2 ^^ mix (drop 48 p) s.2 wyp3 wyp0).
Definition round256 (p : list Z) (s : Z * Z) : Z * Z :=
  round64 (drop 192 p) (round64 (drop 128 p) (round64 (drop 64 p) (round64 p s))).
Fixpoint loop256 (fuel : nat) (p : list Z) (s : Z * Z) : list Z * (Z * Z) :=
  match fuel with
  | O => (p, s)
  | S fuel' => if (256 <=? length p)%nat then loop256 fuel' (drop 256 p) (round256 p s) else (p, s)
  end.
Fixpoint loop32 (fuel : nat) (p : list Z) (s : Z * Z) : list Z * (Z * Z) :=
  match fuel with
  | O => (p, s)
  | S fuel' => if (32 <=? length p)%nat then loop32 fuel' (drop 32 p) (mix p s.1 wyp0 wyp1, mix (drop 16 p) s.2 wyp2 wyp3) else (p, s)
  end.
(** What is left after the loops. *)
Definition tail_round (p : list Z) (s : Z * Z) : Z * Z :=
  let i := length p in let '(seed, see1) := s in
  if (i =? 0)%nat then s
  else if (i <? 4)%nat then (mum (consteval_wyr3 p i ^^ seed ^^ wyp0) (seed ^^ wyp1), see1)
  else if (i <=? 8)%nat then (mum (r4 p ^^ seed ^^ wyp0) (r4 (drop (i - 4) p) ^^ seed ^^ wyp1), see1)
  else if (i <=? 16)%nat then (mum (r8 p ^^ seed ^^ wyp0) (r8 (drop (i - 8) p) ^^ seed ^^ wyp1), see1)
  else if (i <=? 24)%nat then (mix p seed wyp0 wyp1, mum (r8 (drop (i - 8) p) ^^ see1 ^^ wyp2) (see1 ^^ wyp3))
  else (mix p seed wyp0 wyp1, mum (r8 (drop 16 p) ^^ see1 ^^ wyp2) (r8 (drop (i - 8) p) ^^ see1 ^^ wyp3)).
Definition consteval_wyhash (key : list Z) (seed : Z) : Z :=
  let len := length key in let p := key in let l4 := Z.of_nat len ^^ wyp4 in
  if (len =? 0)%nat then 0
  else if (len <? 4)%nat then mum (mum (consteval_wyr3 p len ^^ seed ^^ wyp0) (seed ^^ wyp1)) l4
  else if (len <=? 8)%nat then mum (mum (r4 p ^^ seed ^^ wyp0) (r4 (drop (len - 4) p) ^^ seed ^^ wyp1)) l4
  else if (len <=? 16)%nat then mum (mum (r8 p ^^ seed ^^ wyp0) (r8 (drop (len - 8) p) ^^ seed ^^ wyp1)) l4
  else if (len <=? 24)%nat then mum (mix p seed wyp0 wyp1 ^^ mum (r8 (drop (len - 8) p) ^^ seed ^^ wyp2) (seed ^^ wyp3)) l4
  else if (len <=? 32)%nat then
    mum (mix p seed wyp0 wyp1 ^^ mum (r8 (drop 16 p) ^^ seed ^^ wyp2) (r8 (drop (len - 8) p) ^^ seed ^^ wyp3)) l4
  else
    let '(p1, s1) := loop256 len p (seed, seed) in
    let '(p2, s2) := loop32 len p1 s1 in
    let '(seed', see1') := tail_round p2 s2 in mum (seed' ^^ see1') l4.
End with_xor.

Definition name_of (s : string) : list Z := (λ c, Z.of_nat (nat_of_ascii c)) <$> list_ascii_of_string s.
(** [None]: the assertion that the hash is not 0 fails, and the program does not compile. *)
Definition typeNameHash (name : list Z) : option Z :=
  let ret := consteval_wyhash name 0 in if ret =? 0 then None else Some ret.

(** The loops get to their ends: fewer than 256, and fewer than 32 bytes are left. *)
Lemma loop256_ends fuel p s : (length p ≤ fuel)%nat → (length (loop256 fuel p s).1 < 256)%nat.
Proof.
  revert p s. induction fuel as [|fuel IH]; intros p s H; cbn [loop256]; [cbn; lia|].
  destruct (Nat.leb_spec 256 (length p)); [|done]. apply IH. rewrite length_drop. lia.
Qed.
Lemma loop32_ends fuel p s : (length p ≤ fuel)%nat → (length (loop32 fuel p s).1 < 32)%nat.
Proof.
  revert p s. induction fuel as [|fuel IH]; intros p s H; cbn [loop32]; [cbn; lia|].
  destruct (Nat.leb_spec 32 (length p)); [|done]. apply IH. rewrite length_drop. lia.
Qed.
(** Whatever the name, a hash is a number of 64 bits and not 0, which is the hash of an [any]
    without a value. *)
Lemma consteval_wyhash_range key seed : 0 <= consteval_wyhash key seed < u64_mod.
Proof.
  unfold consteval_wyhash. cbn zeta. destruct (_ =? _)%nat; [unfold u64_mod; lia|].
  repeat (case_match; try apply wrap64_range).
Qed.
Lemma typeNameHash_range name h : typeNameHash name = Some h → 0 < h < u64_mod.
Proof.
  unfold typeNameHash. pose proof (consteval_wyhash_range name 0). destruct (Z.eqb_spec (consteval_wyhash name 0) 0); [done|]. intros [= <-]. lia.
Qed.

(** Some names, whose hashes are different. *)
Definition name_int : list Z := name_of "int".
Definition name_bool : list Z := name_of "bool".
Definition name_string : list Z := name_of "std::string".
Definition name_version : list Z := name_of "Ichor::v1::Version".
Lemma some_hashes_differ : NoDup (typeNameHash <$> [name_int; name_bool; name_string; name_version]).
Proof. apply (bool_decide_eq_true_1 _). vm_compute. reflexivity. Qed.
