(* ===== verification/Any.v ===== *)
(** * The container for values of any type

    include/ichor/stl/Any.h, which the properties of services are made of: a value of a type
    that is only known when it is stored, in a buffer of the object if it is small, else on
    the heap, with the operations of its type.

    The model has several such objects, the heap they share, and for each buffer the value
    that lives in it.  A type is a number; its size and whether its move constructor may throw
    are given.  An operation of another type than the value has is undefined behaviour, as is
    one on a value that is no more. *)

From stdpp Require Import base list option gmap.
From Stdlib Require Import ZArith Lia.
From S2P Require Import Prelude.
From S2P Require Import TypeHash.

Local Open Scope nat_scope.

Section any.
Context {V : Type}.
(** sizeof, is_nothrow_move_constructible and typeNameHash of a type. *)
Context (sizeof : nat → nat) (nothrow_move : nat → bool) (typeNameHash : nat → Z).

Definition bufferTypeSize : nat := 16.
Definition in_buffer (t : nat) : bool := (sizeof t <=? bufferTypeSize) && nothrow_move t.
(** A value with its type; where [_ptr] points to. *)
Definition object : Type := nat * V.
Inductive pointer := Buffer | Heap (p : nat).
Record any := mkAny {
  a_size : nat;
  a_ptr : option pointer;
  a_typeHash : Z;
  a_opFn : option nat;          (* the type whose operations these are *)
  a_formatFn : option nat;
  a_typeName : option nat;
  a_buffer : option object }.   (* the value that lives in the buffer *)
Definition new_any : any := mkAny 0 None 0 None None None None.
Record store := mkStore {
  st_anys : gmap nat any;
  st_heap : gmap nat object;
  st_next : nat;                (* addresses from here on are free *)
  st_undestroyed : nat }.       (* values whose storage ended without their destructor *)

Definition set_any (x : nat) (a : any) (s : store) : store := mkStore (<[x := a]> (st_anys s)) (st_heap s) (st_next s) (st_undestroyed s).
Definition set_heap (h : gmap nat object) (n : nat) (s : store) : store := mkStore (st_anys s) h n (st_undestroyed s).
Definition with_ptr (p : option pointer) (b : option object) (a : any) : any :=
  mkAny (a_size a) p (a_typeHash a) (a_opFn a) (a_formatFn a) (a_typeName a) b.
(** The value [_ptr] points to. *)
Definition pointee (h : gmap nat object) (a : any) : option object :=
  match a_ptr a with None => None | Some Buffer => a_buffer a | Some (Heap p) => h !! p end.

(** ** The operations of a type *)

(** What the buffer has to give up when a value is constructed in it. *)
Definition overwrites (a : any) : nat := match a_buffer a with Some _ => 1 | None => 0 end.
(** A value that is constructed for object [a], which is not one of the store yet. *)
Definition construct (o : object) (a : any) (s : store) : any * store :=
  if in_buffer o.1 then (with_ptr (Some Buffer) (Some o) a, mkStore (st_anys s) (st_heap s) (st_next s) (st_undestroyed s + overwrites a))
  else (with_ptr (Some (Heap (st_next s))) (a_buffer a) a, set_heap (<[st_next s := o]> (st_heap s)) (S (st_next s)) s).
(** [DELETE_]; [None] is undefined behaviour. *)
Definition delete_value (a : any) (s : store) : option (any * store) :=
  match pointee (st_heap s) a, a_opFn a with
  | Some o, Some t =>
      if bool_decide (o.1 = t) then
        match a_ptr a with
        | Some (Heap p) => Some (with_ptr None (a_buffer a) a, set_heap (delete p (st_heap s)) (st_next s) s)
        | _ => Some (with_ptr None None a, s)
        end
      else None
  | _, _ => None
  end.
(** [CLONE] of the value of [b] for [a], by the operations of [b]. *)
Definition clone_value (b a : any) (s : store) : option (any * store) :=
  match pointee (st_heap s) b, a_opFn b with
  | Some o, Some t => if bool_decide (o.1 = t) then Some (construct o a s) else None
  | _, _ => None
  end.

(** ** The members *)

Definition any_reset (a : any) (s : store) : option (any * store) :=
  '(a1, s1) ← match a_ptr a with None => Some (a, s) | Some _ => delete_value a s end;
  Some (mkAny 0 None 0 (a_opFn a1) (a_formatFn a1) None (a_buffer a1), s1).
Definition reset (x : nat) (s : store) : option store :=
  a ← st_anys s !! x; '(a1, s1) ← any_reset a s; Some (set_any x a1 s1).
(** The destructor: a value that was moved from is left in the buffer. *)
Definition destroy (x : nat) (s : store) : option store :=
  a ← st_anys s !! x; '(a1, s1) ← any_reset a s;
  Some (mkStore (delete x (st_anys s1)) (st_heap s1) (st_next s1) (st_undestroyed s1 + overwrites a1)).
Definition emplace (formattable : bool) (x t : nat) (v : V) (s : store) : option store :=
  a ← st_anys s !! x; '(a1, s1) ← any_reset a s;
  let '(a2, s2) := construct (t, v) a1 s1 in
  Some (set_any x (mkAny (sizeof t) (a_ptr a2) (typeNameHash t) (Some t) (if formattable then Some t else a_formatFn a2) (Some t) (a_buffer a2)) s2).
(** The members but the pointer and the buffer of another object. *)
Definition copy_fields (b a : any) : any := mkAny (a_size b) (a_ptr a) (a_typeHash b) (a_opFn b) (a_formatFn b) (a_typeName b) (a_buffer a).
(** The copy constructor and the copy assignment. *)
Definition copy_into (a b : any) (s : store) : option (any * store) :=
  match a_ptr b with
  | None => Some (copy_fields b a, s)
  | Some _ => clone_value b (copy_fields b a) s
  end.
Definition construct_copy (x y : nat) (s : store) : option store :=
  if bool_decide (is_Some (st_anys s !! x)) then None
  else b ← st_anys s !! y; '(a1, s1) ← copy_into new_any b s; Some (set_any x a1 s1).
Definition assign (x y : nat) (s : store) : option store :=
  if bool_decide (x = y) then Some s
  else a ← st_anys s !! x; '(a1, s1) ← any_reset a s; b ← st_anys s1 !! y; '(a2, s2) ← copy_into a1 b s1; Some (set_any x a2 s2).
(** Taking the value over: [MOVE] for a value in the buffer, the pointer for one on the heap.
    The result for [a], and what is left of [b]. *)
Definition move_into (a b : any) (s : store) : option (any * any * store) :=
  match a_ptr b with
  | None => Some (copy_fields b a, b, s)
  | Some (Heap p) => Some (with_ptr (Some (Heap p)) (a_buffer a) (copy_fields b a), with_ptr None (a_buffer b) b, s)
  | Some Buffer => '(a1, s1) ← clone_value b (copy_fields b a) s; Some (a1, with_ptr None (a_buffer b) b, s1)
  end.
Definition construct_move (x y : nat) (s : store) : option store :=
  if bool_decide (is_Some (st_anys s !! x)) then None
  else
    b ← st_anys s !! y;
    match a_ptr b with
    | None => Some (set_any x (copy_fields b new_any) s)
    | Some _ =>
        '(a1, b1, s1) ← move_into new_any b s; '(b2, s2) ← any_reset b1 s1; Some (set_any x a1 (set_any y b2 s2))
    end.
Definition move_assign (x y : nat) (s : store) : option store :=
  if bool_decide (x = y) then Some s
  else
    a ← st_anys s !! x; '(a1, s1) ← any_reset a s; b ← st_anys s1 !! y;
    '(a2, b1, s2) ← move_into a1 b s1; Some (set_any x a2 (set_any y b1 s2)).
Definition has_value (a : any) : bool := match a_ptr a with Some _ => true | None => false end.
(** [any_cast]: the value, std::bad_any_cast, or undefined behaviour. *)
Inductive cast_result := Value (v : V) | BadAnyCast | Undefined.
Definition any_cast (t : nat) (s : store) (a : any) : cast_result :=
  if has_value a && bool_decide (a_typeHash a = typeNameHash t) then
    match pointee (st_heap s) a with
    | Some (t', v) => if bool_decide (t' = t) then Value v else Undefined
    | None => Undefined
    end
  else BadAnyCast.
(** [to_string]: [None] is undefined behaviour. *)
Definition to_string (format : nat → V → list Z) (unprintable : list Z) (s : store) (a : any) : option (list Z) :=
  match a_formatFn a, a_ptr a with
  | Some t, Some _ => match pointee (st_heap s) a with Some (t', v) => if bool_decide (t' = t) then Some (format t v) else None | None => None end
  | _, _ => Some unprintable
  end.

(** ** The specification: a value or none for each object *)

Definition contents (s : store) : gmap nat (option object) := pointee (st_heap s) <$> st_anys s.
Inductive any_op :=
  | OpNew (x : nat) | OpEmplace (formattable : bool) (x t : nat) (v : V) | OpReset (x : nat) | OpDestroy (x : nat)
  | OpCopy (x y : nat) | OpAssign (x y : nat) | OpMove (x y : nat) | OpMoveAssign (x y : nat).
Definition run_op (op : any_op) (s : store) : option store :=
  match op with
  | OpNew x => if bool_decide (is_Some (st_anys s !! x)) then None else Some (set_any x new_any s)
  | OpEmplace f x t v => emplace f x t v s
  | OpReset x => reset x s
  | OpDestroy x => destroy x s
  | OpCopy x y => construct_copy x y s
  | OpAssign x y => assign x y s
  | OpMove x y => construct_move x y s
  | OpMoveAssign x y => move_assign x y s
  end.
(** [None]: the call makes no sense, an object of it does not exist or exists already. *)
Definition spec_op (op : any_op) (m : gmap nat (option object)) : option (gmap nat (option object)) :=
  match op with
  | OpNew x => match m !! x with None => Some (<[x := None]> m) | Some _ => None end
  | OpEmplace _ x t v => match m !! x with Some _ => Some (<[x := Some (t, v)]> m) | None => None end
  | OpReset x => match m !! x with Some _ => Some (<[x := None]> m) | None => None end
  | OpDestroy x => match m !! x with Some _ => Some (delete x m) | None => None end
  | OpCopy x y => match m !! x, m !! y with None, Some o => Some (<[x := o]> m) | _, _ => None end
  | OpAssign x y => match m !! x, m !! y with Some _, Some o => Some (<[x := o]> m) | _, _ => None end
  | OpMove x y => match m !! x, m !! y with None, Some o => Some (<[x := o]> (<[y := None]> m)) | _, _ => None end
  | OpMoveAssign x y =>
      match m !! x, m !! y with
      | Some _, Some o => if bool_decide (x = y) then Some m else Some (<[x := o]> (<[y := None]> m))
      | _, _ => None
      end
  end.

(** ** The invariant *)

(** [_ptr], the operations and the hash go with the value. *)
Definition any_wf (h : gmap nat object) (a : any) : Prop :=
  match a_ptr a with
  | None => True
  | Some q => ∃ t v, pointee h a = Some (t, v) ∧ a_opFn a = Some t ∧ a_typeHash a = typeNameHash t ∧ (q = Buffer ↔ in_buffer t = true)
  end.
Record inv (s : store) : Prop := {
  inv_wf x a : st_anys s !! x = Some a → any_wf (st_heap s) a;
  inv_unique x y a b p : st_anys s !! x = Some a → st_anys s !! y = Some b → a_ptr a = Some (Heap p) → a_ptr b = Some (Heap p) → x = y;
  inv_owned p o : st_heap s !! p = Some o → p < st_next s ∧ ∃ x a, st_anys s !! x = Some a ∧ a_ptr a = Some (Heap p) }.

(** An object is given another value: what has to hold of it and of the heap. *)
Lemma update_inv s x a' h' n' u' : inv s → any_wf h' a' →
  (∀ y b, y ≠ x → st_anys s !! y = Some b → pointee h' b = pointee (st_heap s) b) →
  (∀ y b p, y ≠ x → st_anys s !! y = Some b → a_ptr a' = Some (Heap p) → a_ptr b ≠ Some (Heap p)) →
  (∀ p o, h' !! p = Some o → p < n' ∧ (a_ptr a' = Some (Heap p) ∨ ∃ y b, y ≠ x ∧ st_anys s !! y = Some b ∧ a_ptr b = Some (Heap p))) →
  let s' := mkStore (<[x := a']> (st_anys s)) h' n' u' in inv s' ∧ contents s' = <[x := pointee h' a']> (contents s).
Proof.
  intros Hi Hwf Hsame Hnew Hheap. split.
  - split; cbn.
    + intros y b. destruct (decide (y = x)) as [->|Hne]; [rewrite lookup_insert_eq; by intros [= <-]|]. rewrite lookup_insert_ne by done. intros Hb.
      pose proof (inv_wf _ Hi _ _ Hb) as Hw. unfold any_wf in *. by rewrite (Hsame _ _ Hne Hb).
    + intros y z b c p. destruct (decide (y = x)) as [->|Hy], (decide (z = x)) as [->|Hz]; rewrite ?lookup_insert_eq, ?lookup_insert_ne by done; [done| | |].
      * intros [= <-] Hc Hp Hp'. by destruct (Hnew _ _ _ Hz Hc Hp).
      * intros Hb [= <-] Hp Hp'. by destruct (Hnew _ _ _ Hy Hb Hp').
      * apply (inv_unique _ Hi).
    + intros p o Ho. destruct (Hheap p o Ho) as [Hlt [Hx|(y & b & Hne & Hb & Hp)]]; (split; [done|]).
      * exists x, a'. by rewrite lookup_insert_eq.
      * exists y, b. by rewrite lookup_insert_ne by done.
  - apply map_eq. intros y. unfold contents. cbn. rewrite lookup_fmap. destruct (decide (y = x)) as [->|Hne].
    + by rewrite !lookup_insert_eq.
    + rewrite !lookup_insert_ne, lookup_fmap by done. destruct (st_anys s !! y) as [b|] eqn:Hb; [|done]. cbn. by rewrite (Hsame _ _ Hne Hb).
Qed.
(** An object without a value on the heap becomes one without a value. *)
Lemma clear_inv s x a' u' : inv s → (∀ a p, st_anys s !! x = Some a → a_ptr a ≠ Some (Heap p)) → a_ptr a' = None →
  let s' := mkStore (<[x := a']> (st_anys s)) (st_heap s) (st_next s) u' in inv s' ∧ contents s' = <[x := None]> (contents s).
Proof.
  intros Hi Hx Ha. replace (None : option object) with (pointee (st_heap s) a') by (unfold pointee; by rewrite Ha).
  apply update_inv; [done|unfold any_wf; by rewrite Ha|done|intros; congruence|].
  intros p o Ho. destruct (inv_owned _ Hi _ _ Ho) as [Hlt (y & b & Hb & Hp)]. split; [done|]. right. exists y, b. split_and!; [|done|done].
  intros ->. by destruct (Hx _ p Hb).
Qed.
(** The value on the heap of an object is deleted. *)
Lemma delete_inv s x a p a' : inv s → st_anys s !! x = Some a → a_ptr a = Some (Heap p) → a_ptr a' = None →
  let s' := mkStore (<[x := a']> (st_anys s)) (delete p (st_heap s)) (st_next s) (st_undestroyed s) in inv s' ∧ contents s' = <[x := None]> (contents s).
Proof.
  intros Hi Hx Hp Ha. replace (None : option object) with (pointee (delete p (st_heap s)) a') by (unfold pointee; by rewrite Ha).
  apply update_inv; [done|unfold any_wf; by rewrite Ha| |intros; congruence|].
  - intros y b Hne Hb. unfold pointee. destruct (a_ptr b) as [[|q]|] eqn:Hq; [done| |done]. rewrite lookup_delete_ne; [done|].
    intros ->. by destruct Hne, (inv_unique _ Hi x y a b q Hx Hb Hp Hq).
  - intros q o Ho. apply lookup_delete_Some in Ho as [Hqp Ho]. destruct (inv_owned _ Hi _ _ Ho) as [Hlt (y & b & Hb & Hq)].
    split; [done|]. right. exists y, b. split_and!; [|done|done]. intros ->. congruence.
Qed.
Lemma set_heap_id s : set_heap (st_heap s) (st_next s) s = s.
Proof. by destruct s. Qed.
Lemma reset_inv s x a : inv s → st_anys s !! x = Some a →
  ∃ a1 h1, any_reset a s = Some (a1, set_heap h1 (st_next s) s) ∧ a_ptr a1 = None ∧
    let s1 := set_any x a1 (set_heap h1 (st_next s) s) in inv s1 ∧ contents s1 = <[x := None]> (contents s).
Proof.
  intros Hi Hx. pose proof (inv_wf _ Hi _ _ Hx) as Hw. unfold any_wf in Hw. unfold any_reset, delete_value.
  destruct (a_ptr a) as [q|] eqn:Hq.
  - destruct Hw as (t & v & Hpt & Hop & _). rewrite Hpt, Hop. cbn [fst]. rewrite bool_decide_true by done. destruct q as [|p].
    + eexists _, (st_heap s). rewrite set_heap_id. split; [done|]. split; [done|]. apply clear_inv; [done|congruence|done].
    + eexists _, (delete p (st_heap s)). split; [done|]. split; [done|]. by apply (delete_inv s x a p).
  - eexists _, (st_heap s). rewrite set_heap_id. split; [done|]. split; [done|]. apply clear_inv; [done|congruence|done].
Qed.
(** A value is constructed for an object that has none. *)
Lemma construct_inv s x a t v a2 s2 a3 : inv s → (∀ a0, st_anys s !! x = Some a0 → a_ptr a0 = None) → construct (t, v) a s = (a2, s2) →
  a_ptr a3 = a_ptr a2 → a_buffer a3 = a_buffer a2 → a_opFn a3 = Some t → a_typeHash a3 = typeNameHash t →
  st_anys s2 = st_anys s ∧ inv (set_any x a3 s2) ∧ contents (set_any x a3 s2) = <[x := Some (t, v)]> (contents s).
Proof.
  intros Hi Hx Hc Hptr Hbuf Hop Hhash. unfold construct in Hc. cbn [fst] in Hc.
  assert (∀ p o, st_heap s !! p = Some o → p < st_next s ∧ ∃ y b, y ≠ x ∧ st_anys s !! y = Some b ∧ a_ptr b = Some (Heap p)) as Ho.
  { intros p o Hp. destruct (inv_owned _ Hi _ _ Hp) as [Hlt (y & b & Hb & Hq)]. split; [done|]. exists y, b. split_and!; [|done|done].
    intros ->. rewrite (Hx _ Hb) in Hq. done. }
  destruct (in_buffer t) eqn:Hin; injection Hc as <- <-; (split; [done|]); cbn in Hptr, Hbuf.
  - assert (pointee (st_heap s) a3 = Some (t, v)) as Hpt by (unfold pointee; by rewrite Hptr).
    rewrite <- Hpt. apply (update_inv s x a3 (st_heap s) (st_next s) (st_undestroyed s + overwrites a)); [done| |done|congruence|].
    + unfold any_wf. rewrite Hptr. exists t, v. by split_and!.
    + intros p o Hp. destruct (Ho p o Hp) as [? ?]. by split; [|right].
  - assert (pointee (<[st_next s := (t, v)]> (st_heap s)) a3 = Some (t, v)) as Hpt by (unfold pointee; rewrite Hptr; apply lookup_insert_eq).
    assert (∀ y b p, st_anys s !! y = Some b → a_ptr b = Some (Heap p) → p ≠ st_next s) as Hfresh.
    { intros y b p Hb Hp ->. pose proof (inv_wf _ Hi _ _ Hb) as Hw. unfold any_wf in Hw. rewrite Hp in Hw. destruct Hw as (t' & v' & Hq & _).
      unfold pointee in Hq. rewrite Hp in Hq. destruct (Ho _ _ Hq) as [? _]. lia. }
    rewrite <- Hpt. apply (update_inv s x a3 (<[st_next s := (t, v)]> (st_heap s)) (S (st_next s)) (st_undestroyed s)); [done| | | |].
    + unfold any_wf. rewrite Hptr. exists t, v. split_and!; [done..|]. by rewrite Hin.
    + intros y b Hne Hb. unfold pointee. destruct (a_ptr b) as [[|p]|] eqn:Hp; [done| |done]. rewrite lookup_insert_ne; [done|]. symmetry. by eapply Hfresh.
    + intros y b p Hne Hb Hp Hp'. rewrite Hptr in Hp. injection Hp as <-. by eapply Hfresh.
    + intros p o Hp. destruct (decide (p = st_next s)) as [->|Hne].
      * split; [cbn; lia|]. left. by rewrite Hptr.
      * rewrite lookup_insert_ne in Hp by done. destruct (Ho p o Hp) as [? ?]. split; [cbn; lia|]. by right.
Qed.
Lemma set_any_twice x a a' s : set_any x a' (set_any x a s) = set_any x a' s.
Proof. unfold set_any. cbn. by rewrite insert_insert_eq. Qed.
Lemma set_any_swap x y a a' b s : x ≠ y → set_any x a' (set_any y b (set_any x a s)) = set_any x a' (set_any x a (set_any y b s)).
Proof. intros H. unfold set_any. cbn. f_equal. f_equal. by apply insert_insert_ne. Qed.
Lemma construct_set_any o a x c s : construct o a (set_any x c s) = ((construct o a s).1, set_any x c (construct o a s).2).
Proof. unfold construct. by destruct (in_buffer o.1). Qed.
Lemma contents_lookup s x o : contents s !! x = Some o → ∃ a, st_anys s !! x = Some a ∧ o = pointee (st_heap s) a.
Proof. unfold contents. rewrite lookup_fmap. destruct (st_anys s !! x) as [a|] eqn:Ha; [|done]. intros [= <-]. eauto. Qed.
Lemma contents_none s x : contents s !! x = None → st_anys s !! x = None.
Proof. unfold contents. rewrite lookup_fmap. by destruct (st_anys s !! x). Qed.
(** [x] has no value. *)
Definition free (s : store) (x : nat) : Prop := ∀ a0, st_anys s !! x = Some a0 → a_ptr a0 = None.
Lemma free_none s x : st_anys s !! x = None → free s x.
Proof. intros H a0. by rewrite H. Qed.
Lemma copy_into_set_any a b x c s : copy_into a b (set_any x c s) = (λ r, (r.1, set_any x c r.2)) <$> copy_into a b s.
Proof.
  unfold copy_into, clone_value. destruct (a_ptr b); [|done]. change (st_heap (set_any x c s)) with (st_heap s).
  destruct (pointee (st_heap s) b) as [o|]; [|done]. destruct (a_opFn b); [|done]. case_bool_decide; [|done]. cbn. by rewrite construct_set_any.
Qed.
Lemma move_into_set_any a b x c s : move_into a b (set_any x c s) = (λ r, (r.1, set_any x c r.2)) <$> move_into a b s.
Proof.
  unfold move_into, clone_value. destruct (a_ptr b) as [[|p]|]; [|done|done]. change (st_heap (set_any x c s)) with (st_heap s).
  destruct (pointee (st_heap s) b) as [o|]; [|done]. destruct (a_opFn b); [|done]. case_bool_decide; [|done]. cbn. rewrite construct_set_any.
  by destruct (construct o (copy_fields b a) s).
Qed.
Lemma copy_into_inv s x y a b : inv s → st_anys s !! y = Some b → free s x → a_ptr a = None →
  ∃ a2 s2, copy_into a b s = Some (a2, s2) ∧ st_anys s2 = st_anys s ∧ inv (set_any x a2 s2) ∧ contents (set_any x a2 s2) = <[x := pointee (st_heap s) b]> (contents s).
Proof.
  intros Hi Hy Hx Ha. pose proof (inv_wf _ Hi _ _ Hy) as Hw. unfold any_wf in Hw. unfold copy_into, clone_value.
  destruct (a_ptr b) as [q|] eqn:Hq.
  - destruct Hw as (t & v & Hpt & Hop & Hhash & _). rewrite Hpt, Hop. cbn [fst]. rewrite bool_decide_true by done.
    destruct (construct (t, v) (copy_fields b a) s) as [a2 s2] eqn:Hc. exists a2, s2. split; [done|].
    assert (a_opFn a2 = Some t ∧ a_typeHash a2 = typeNameHash t) as [H1 H2].
    { unfold construct in Hc. destruct (in_buffer _); by injection Hc as <- _. }
    by apply (construct_inv s x (copy_fields b a) t v a2 s2 a2).
  - eexists _, s. split; [done|]. split; [done|]. unfold pointee. rewrite Hq.
    apply (clear_inv s x _ (st_undestroyed s)); [done| |done]. intros a0 p H0. by rewrite (Hx _ H0).
Qed.
(** [x] takes the value on the heap of [y] over. *)
Lemma steal_inv s x y b p a' b' : inv s → x ≠ y → st_anys s !! y = Some b → free s x → a_ptr b = Some (Heap p) →
  a_ptr a' = Some (Heap p) → a_opFn a' = a_opFn b → a_typeHash a' = a_typeHash b → a_ptr b' = None →
  let s' := set_any x a' (set_any y b' s) in inv s' ∧ contents s' = <[x := pointee (st_heap s) b]> (<[y := None]> (contents s)).
Proof.
  intros Hi Hne Hy Hx Hp Hp' Hop Hhash Hb'. pose proof (inv_wf _ Hi _ _ Hy) as Hw. unfold any_wf in Hw. rewrite Hp in Hw.
  destruct Hw as (t & v & Hpt & Hopb & Hhb & Hin). pose proof Hpt as Hpt'. unfold pointee in Hpt'. rewrite Hp in Hpt'.
  destruct (delete_inv s y b p b' Hi Hy Hp Hb') as [Hi1 Hc1]. set (s1 := mkStore _ _ _ _) in *.
  assert (<[p := (t, v)]> (st_heap s1) = st_heap s) as Hh by (cbn; by rewrite insert_delete_eq, insert_id).
  assert (pointee (st_heap s) a' = Some (t, v)) as Hpa by (unfold pointee; by rewrite Hp').
  assert (∀ z c q, z ≠ x → st_anys s1 !! z = Some c → a_ptr c = Some (Heap q) → q ≠ p) as Hother.
  { intros z c q Hz Hc Hq ->. pose proof (inv_wf _ Hi1 _ _ Hc) as Hw. unfold any_wf, pointee in Hw. rewrite Hq in Hw. destruct Hw as (? & ? & Hw & _).
    cbn in Hw. by rewrite lookup_delete_eq in Hw. }
  destruct (update_inv s1 x a' (st_heap s) (st_next s) (st_undestroyed s) Hi1) as [Hi2 Hc2].
  - unfold any_wf. rewrite Hp'. exists t, v. rewrite Hop, Hhash. by split_and!.
  - intros z c Hz Hc. unfold pointee. destruct (a_ptr c) as [[|q]|] eqn:Hq; [done| |done]. rewrite <- Hh. apply lookup_insert_ne. symmetry. by eapply Hother.
  - intros z c q Hz Hc Hq Hq'. rewrite Hp' in Hq. injection Hq as <-. by eapply Hother.
  - intros q o Ho. rewrite <- Hh in Ho. destruct (decide (q = p)) as [->|Hqp]; [split; [apply (inv_owned _ Hi _ _ Hpt')|by left]|].
    rewrite lookup_insert_ne in Ho by done. destruct (inv_owned _ Hi1 _ _ Ho) as [Hlt (z & c & Hc & Hq)]. split; [done|]. right.
    exists z, c. split_and!; [|done|done]. intros ->. cbn in Hc. rewrite lookup_insert_ne in Hc by done. by rewrite (Hx _ Hc) in Hq.
  - rewrite Hpa, Hc1 in Hc2. rewrite Hpt. by split.
Qed.
(** The value of [y] goes to [x]; [b'] is what is left of [y]. *)
Lemma move_into_inv s x y a b (b' : any → any) : inv s → x ≠ y → st_anys s !! y = Some b → free s x → a_ptr a = None → (∀ c, a_ptr c = None → a_ptr (b' c) = None) →
  ∃ a2 b1 s2, move_into a b s = Some (a2, b1, s2) ∧ a_ptr b1 = None ∧ st_anys s2 = st_anys s ∧
    let s' := set_any x a2 (set_any y (b' b1) s2) in inv s' ∧ contents s' = <[x := pointee (st_heap s) b]> (<[y := None]> (contents s)).
Proof.
  intros Hi Hne Hy Hx Ha Hb'. unfold move_into. destruct (a_ptr b) as [[|p]|] eqn:Hq.
  - destruct (copy_into_inv s x y a b Hi Hy Hx Ha) as (a2 & s2 & Hc & Hs2 & Hi2 & Hc2). unfold copy_into in Hc. rewrite Hq in Hc. rewrite Hc. cbn [mbind option_bind].
    exists a2, (with_ptr None (a_buffer b) b), s2. split; [done|]. split; [done|]. split; [done|].
    destruct (clear_inv (set_any x a2 s2) y (b' (with_ptr None (a_buffer b) b)) (st_undestroyed s2) Hi2) as [Hi3 Hc3].
    + cbn. rewrite lookup_insert_ne, Hs2 by done. intros c p. rewrite Hy. intros [= <-]. by rewrite Hq.
    + by apply Hb'.
    + unfold set_any in *. cbn in *. rewrite insert_insert_ne by done. split; [done|]. rewrite Hc3, Hc2. by apply insert_insert_ne.
  - eexists _, _, s. split; [done|]. split; [done|]. split; [done|]. apply (steal_inv s x y b p); try done. by apply Hb'.
  - exists (copy_fields b a), b, s. split; [done|]. split; [done|]. split; [done|].
    destruct (clear_inv s y (b' b) (st_undestroyed s) Hi) as [Hi1 Hc1]; [intros c p; rewrite Hy; intros [= <-]; by rewrite Hq|by apply Hb'|].
    destruct (clear_inv (set_any y (b' b) s) x (copy_fields b a) (st_undestroyed s) Hi1) as [Hi2 Hc2]; [|done|].
    + cbn. rewrite lookup_insert_ne by done. intros c p Hc. by rewrite (Hx _ Hc).
    + split; [done|]. unfold pointee. rewrite Hq. etrans; [exact Hc2|]. by f_equal.
Qed.

(** ** Each member does what the specification says *)

Lemma new_refines s x m' : inv s → spec_op (OpNew x) (contents s) = Some m' → ∃ s', run_op (OpNew x) s = Some s' ∧ inv s' ∧ contents s' = m'.
Proof.
  intros Hi. cbn. destruct (contents s !! x) eqn:Hx; [done|]. intros [= <-]. apply contents_none in Hx. rewrite Hx, bool_decide_false by (by intros [? [=]]).
  eexists. split; [done|]. apply (clear_inv s x new_any (st_undestroyed s)); [done|by rewrite Hx|done].
Qed.
Lemma emplace_refines s f x t v m' : inv s → spec_op (OpEmplace f x t v) (contents s) = Some m' →
  ∃ s', run_op (OpEmplace f x t v) s = Some s' ∧ inv s' ∧ contents s' = m'.
Proof.
  intros Hi. cbn. destruct (contents s !! x) as [o|] eqn:Hx; [|done]. intros [= <-]. apply contents_lookup in Hx as (a & Hx & _).
  unfold emplace. rewrite Hx. cbn [mbind option_bind]. destruct (reset_inv s x a Hi Hx) as (a1 & h1 & -> & Ha1 & Hi1 & Hc1). cbn [mbind option_bind].
  destruct (construct (t, v) a1 (set_heap h1 (st_next s) s)) as [a2 s2] eqn:Hc. eexists. split; [done|].
  set (a3 := mkAny (sizeof t) (a_ptr a2) _ _ _ _ _).
  destruct (construct_inv _ x a1 t v a2 (set_any x a1 s2) a3 Hi1) as (_ & Hi3 & Hc3); try done.
  - intros a0. cbn. rewrite lookup_insert_eq. by intros [= <-].
  - by rewrite construct_set_any, Hc.
  - rewrite set_any_twice in Hi3, Hc3. split; [done|]. by rewrite Hc3, Hc1, insert_insert_eq.
Qed.
Lemma reset_refines s x m' : inv s → spec_op (OpReset x) (contents s) = Some m' → ∃ s', run_op (OpReset x) s = Some s' ∧ inv s' ∧ contents s' = m'.
Proof.
  intros Hi. cbn. destruct (contents s !! x) as [o|] eqn:Hx; [|done]. intros [= <-]. apply contents_lookup in Hx as (a & Hx & _).
  unfold reset. rewrite Hx. cbn [mbind option_bind]. destruct (reset_inv s x a Hi Hx) as (a1 & h1 & -> & Ha1 & Hi1 & Hc1). by eexists.
Qed.
Lemma destroy_refines s x m' : inv s → spec_op (OpDestroy x) (contents s) = Some m' → ∃ s', run_op (OpDestroy x) s = Some s' ∧ inv s' ∧ contents s' = m'.
Proof.
  intros Hi. cbn. destruct (contents s !! x) as [o|] eqn:Hx; [|done]. intros [= <-]. apply contents_lookup in Hx as (a & Hx & _).
  unfold destroy. rewrite Hx. cbn [mbind option_bind]. destruct (reset_inv s x a Hi Hx) as (a1 & h1 & -> & Ha1 & [Hw Hu Ho] & Hc1). cbn [mbind option_bind].
  eexists. split; [done|]. cbn in Hw, Hu, Ho. split.
  - split; cbn.
    + intros y b [Hne Hb]%lookup_delete_Some. apply (Hw y). by rewrite lookup_insert_ne.
    + intros y z b c p [Hy Hb]%lookup_delete_Some [Hz Hc]%lookup_delete_Some. apply Hu; by rewrite lookup_insert_ne.
    + intros p o' Hp. destruct (Ho p o' Hp) as [Hlt (y & b & Hb & Hq)]. split; [done|]. exists y, b. destruct (decide (y = x)) as [->|Hne].
      * rewrite lookup_insert_eq in Hb. injection Hb as <-. congruence.
      * rewrite lookup_insert_ne in Hb by done. by rewrite lookup_delete_ne by done.
  - apply (f_equal (delete x)) in Hc1. rewrite delete_insert_eq in Hc1. unfold contents in *. cbn in *. by rewrite fmap_delete, <- Hc1, fmap_insert, delete_insert_eq.
Qed.
Lemma copy_refines s x y m' : inv s → spec_op (OpCopy x y) (contents s) = Some m' → ∃ s', run_op (OpCopy x y) s = Some s' ∧ inv s' ∧ contents s' = m'.
Proof.
  intros Hi. cbn. destruct (contents s !! x) as [|] eqn:Hx; [done|]. destruct (contents s !! y) as [o|] eqn:Hy; [|done]. intros [= <-].
  apply contents_none in Hx. apply contents_lookup in Hy as (b & Hy & ->). unfold construct_copy. rewrite Hx, Hy, bool_decide_false by (by intros [? [=]]). cbn [mbind option_bind].
  destruct (copy_into_inv s x y new_any b Hi Hy (free_none _ _ Hx) eq_refl) as (a2 & s2 & -> & _ & Hi2 & Hc2). by eexists.
Qed.
Lemma assign_refines s x y m' : inv s → spec_op (OpAssign x y) (contents s) = Some m' → ∃ s', run_op (OpAssign x y) s = Some s' ∧ inv s' ∧ contents s' = m'.
Proof.
  intros Hi. cbn. destruct (contents s !! x) as [o'|] eqn:Hx; [|done]. destruct (contents s !! y) as [o|] eqn:Hy; [|done]. intros [= <-]. unfold assign.
  case_bool_decide as Hxy; [subst; exists s; split; [done|split; [done|]]; by rewrite insert_id|].
  apply contents_lookup in Hx as (a & Hx & _). apply contents_lookup in Hy as (b & Hy & Ho).
  rewrite Hx. cbn [mbind option_bind]. destruct (reset_inv s x a Hi Hx) as (a1 & h1 & -> & Ha1 & Hi1 & Hc1). cbn [mbind option_bind].
  change (st_anys (set_heap h1 (st_next s) s)) with (st_anys s). rewrite Hy. cbn [mbind option_bind].
  set (s1 := set_any x a1 (set_heap h1 (st_next s) s)) in *.
  assert (st_anys s1 !! y = Some b) as Hy1 by (cbn; by rewrite lookup_insert_ne).
  destruct (copy_into_inv s1 x y a1 b Hi1 Hy1) as (a2 & s2 & Hc & Hs2 & Hi2 & Hc2); [intros a0; cbn; rewrite lookup_insert_eq; by intros [= <-]|done|].
  unfold s1 in Hc. rewrite copy_into_set_any in Hc. apply fmap_Some in Hc as ([a2' s2'] & -> & [= -> ->]). eexists. split; [done|].
  cbn [snd] in *. rewrite set_any_twice in Hi2, Hc2. split; [done|]. rewrite Hc2, Hc1, insert_insert_eq. f_equal.
  apply (f_equal (.!! y)) in Hc1. rewrite lookup_insert_ne in Hc1 by done. unfold contents in Hc1. rewrite !lookup_fmap, Hy, Hy1 in Hc1. cbn in Hc1. injection Hc1 as Hc1. rewrite Ho. exact Hc1.
Qed.
Lemma op_move_refines s x y m' : inv s → spec_op (OpMove x y) (contents s) = Some m' → ∃ s', run_op (OpMove x y) s = Some s' ∧ inv s' ∧ contents s' = m'.
Proof.
  intros Hi. cbn. destruct (contents s !! x) as [|] eqn:Hx; [done|]. destruct (contents s !! y) as [o|] eqn:Hy; [|done]. intros [= <-].
  assert (x ≠ y) as Hne by congruence. pose proof Hy as Hyc.
  apply contents_none in Hx. apply contents_lookup in Hy as (b & Hy & ->). unfold construct_move. rewrite Hx, Hy, bool_decide_false by (by intros [? [=]]). cbn [mbind option_bind].
  set (emptied c := mkAny 0 None 0 (a_opFn c) (a_formatFn c) None (a_buffer c)).
  destruct (move_into_inv s x y new_any b emptied Hi Hne Hy (free_none _ _ Hx) eq_refl ltac:(done)) as (a2 & b1 & s2 & Hm & Hb1 & _ & Hi2 & Hc2).
  destruct (a_ptr b) as [q|] eqn:Hq.
  - rewrite Hm. cbn [mbind option_bind]. unfold any_reset. rewrite Hb1. cbn [mbind option_bind]. by eexists.
  - eexists. split; [done|]. destruct (clear_inv s x (copy_fields b new_any) (st_undestroyed s) Hi) as [Hi3 Hc3]; [by rewrite Hx|done|].
    split; [exact Hi3|]. unfold pointee in *. rewrite Hq in *. rewrite (insert_id (contents s) y) by done. exact Hc3.
Qed.
Lemma move_assign_refines s x y m' : inv s → spec_op (OpMoveAssign x y) (contents s) = Some m' → ∃ s', run_op (OpMoveAssign x y) s = Some s' ∧ inv s' ∧ contents s' = m'.
Proof.
  intros Hi. cbn. destruct (contents s !! x) as [o'|] eqn:Hx; [|done]. destruct (contents s !! y) as [o|] eqn:Hy; [|done]. unfold move_assign.
  case_bool_decide as Hxy; intros [= <-]; [by exists s|].
  apply contents_lookup in Hx as (a & Hx & _). apply contents_lookup in Hy as (b & Hy & Ho).
  rewrite Hx. cbn [mbind option_bind]. destruct (reset_inv s x a Hi Hx) as (a1 & h1 & -> & Ha1 & Hi1 & Hc1). cbn [mbind option_bind].
  change (st_anys (set_heap h1 (st_next s) s)) with (st_anys s). rewrite Hy. cbn [mbind option_bind].
  set (s1 := set_any x a1 (set_heap h1 (st_next s) s)) in *.
  assert (st_anys s1 !! y = Some b) as Hy1 by (cbn; by rewrite lookup_insert_ne).
  destruct (move_into_inv s1 x y a1 b id Hi1 Hxy Hy1) as (a2 & b1 & s2 & Hm & Hb1 & Hs2 & Hi2 & Hc2); [intros a0; cbn; rewrite lookup_insert_eq; by intros [= <-]|done|done|].
  unfold s1 in Hm. rewrite move_into_set_any in Hm. apply fmap_Some in Hm as ([[a2' b1'] s2'] & -> & [= -> -> ->]). eexists. split; [done|].
  cbn [fst snd id] in *. rewrite set_any_swap in Hi2, Hc2 by done. rewrite set_any_twice in Hi2, Hc2. split; [done|].
  rewrite Hc2, Hc1. rewrite (insert_insert_ne _ y x) by done. rewrite insert_insert_eq. f_equal.
  apply (f_equal (.!! y)) in Hc1. rewrite lookup_insert_ne in Hc1 by done. unfold contents in Hc1. rewrite !lookup_fmap, Hy, Hy1 in Hc1. cbn in Hc1. injection Hc1 as Hc1. rewrite Ho. exact Hc1.
Qed.
(** C35: Every member does to the contents what the specification says, as long as the call
    makes sense, and keeps the invariant: operations of a type are used on values of that
    type only, each value on the heap belongs to exactly one object (none is lost, none is
    deleted twice), and values of small types with a move constructor that does not throw,
    and only these, are in the buffers. *)
Theorem any_refines op s m' : inv s → spec_op op (contents s) = Some m' → ∃ s', run_op op s = Some s' ∧ inv s' ∧ contents s' = m'.
Proof.
  destruct op; [apply new_refines|apply emplace_refines|apply reset_refines|apply destroy_refines|apply copy_refines|apply assign_refines|apply op_move_refines|apply move_assign_refines].
Qed.
(** C36: A cast to the type of the value gives the value; a cast to another type is
    std::bad_any_cast, and so is any cast of an object without a value.  The types are told
    apart by [typeNameHash], a hash of their names in 64 bits, of which nothing is assumed: exactly for another type with the
    same hash, the value would be read as one of that type. *)
Theorem any_cast_exact s x a t : inv s → st_anys s !! x = Some a →
  any_cast t s a =
  match pointee (st_heap s) a with
  | Some (t', v) =>
      if bool_decide (t' = t) then Value v
      else if bool_decide (typeNameHash t' = typeNameHash t) then Undefined else BadAnyCast
  | None => BadAnyCast
  end.
Proof.
  intros Hi Hx. pose proof (inv_wf _ Hi _ _ Hx) as Hw. unfold any_wf in Hw. unfold any_cast, has_value.
  destruct (a_ptr a) as [q|] eqn:Hq; [|unfold pointee; by rewrite Hq]. destruct Hw as (t' & v & -> & _ & Hh & _). cbn [andb].
  rewrite Hh. case_bool_decide as H; [done|]. by rewrite bool_decide_false by congruence.
Qed.
End any.

(** ** Runs *)

(** Types below 10 have eight bytes and a move constructor that does not throw, others 32
    bytes. *)
Definition some_size (t : nat) : nat := if t <? 10 then 8 else 32.
Definition some_move (t : nat) : bool := true.
Definition some_name (t : nat) : list Z :=
  if t =? 3 then name_int else if t =? 4 then name_bool else if t =? 20 then name_string else name_version.
Definition some_hash (t : nat) : Z := default 0%Z (TypeHash.typeNameHash (some_name t)).
Definition run_ops (ops : list any_op) : option (@store nat) :=
  foldl (λ s op, s ≫= run_op some_size some_move some_hash op) (Some (mkStore ∅ ∅ 0 0)) ops.
Lemma no_anys_inv : inv some_size some_move some_hash (mkStore (V := nat) ∅ ∅ 0 0).
Proof. split; intros *; cbn; by rewrite lookup_empty. Qed.
(** An object with a value on the heap, and a copy of it. *)
Definition large_any : @any nat := mkAny 32 (Some (Heap 0)) (some_hash 20) (Some 20) (Some 20) (Some 20) None.
Definition large_value : @store nat := mkStore {[ 1 := large_any ]} {[ 0 := (20, 7) ]} 1 0.
Lemma large_value_inv : inv some_size some_move some_hash large_value.
Proof.
  split; cbn.
  - intros x a [<- <-]%lookup_singleton_Some. exists 20, 7. split_and!; [reflexivity..|]. by vm_compute.
  - intros x y a b p [<- _]%lookup_singleton_Some [<- _]%lookup_singleton_Some. done.
  - intros p o [<- _]%lookup_singleton_Some. split; [lia|]. eexists 1, _. split; [apply lookup_singleton_eq|done].
Qed.
Lemma any_refines_witness :
  ∃ s', run_op some_size some_move some_hash (OpCopy 2 1) large_value = Some s' ∧ contents s' = <[2 := Some (20, 7)]> (contents large_value).
Proof.
  destruct (any_refines some_size some_move some_hash (OpCopy 2 1) large_value (<[2 := Some (20, 7)]> (contents large_value)) large_value_inv) as (s' & H1 & _ & H2);
    [reflexivity|by exists s'].
Defined.
Lemma any_cast_exact_witness : any_cast some_hash 21 large_value large_any = BadAnyCast ∧ any_cast some_hash 20 large_value large_any = Value 7.
Proof.
  split; refine (eq_trans (any_cast_exact some_size some_move some_hash large_value 1 large_any _ large_value_inv _) _); reflexivity.
Defined.

(** The formatter of the value before is kept: a value that is stored without one is printed
    as if it had that type. *)
Lemma formatter_of_another_type :
  (s ← run_ops [OpNew 1; OpEmplace true 1 3 5; OpEmplace false 1 4 5]; a ← st_anys s !! 1; Some (to_string (λ _ _, []) [] s a)) = Some None.
Proof. reflexivity. Qed.
(** A value in the buffer that was moved from is never destroyed. *)
Lemma moved_value_not_destroyed : st_undestroyed <$> run_ops [OpNew 1; OpEmplace true 1 3 5; OpMove 2 1; OpDestroy 2; OpDestroy 1] = Some 1.
Proof. reflexivity. Qed.
