(* ===== verification/Redis.v ===== *)
(** * The Redis client

    src/services/redis/HiRedisService.cpp with include/ichor/services/redis/
    HiredisService.h and IRedis.h: the commands, their replies, transactions, and the
    connection with its timer that connects again.

    hiredis and the server are not part of the repository.  Of hiredis the model has
    what its documentation says: the callbacks of commands are called in the order of
    the commands, with the reply, or with a null pointer when the connection is gone;
    a reply object has a type and, by its type, a string, an integer or elements.  The
    server comes in RedisRuns.v as a function with named hypotheses.

    A command is a coroutine that may wait for the connection, is then sent, and is
    resumed with its reply.  [_disconnectEvt] is the event of AsyncMutex.v; the
    coroutines that wait for replies are the callbacks hiredis has still to call. *)

From Stdlib Require Import Ascii String.
From stdpp Require Import base list option strings.
From Stdlib Require Import ZArith Lia.
From S2P Require Import Prelude.
From S2P Require Import StringUtils.
From S2P Require Import HttpCommon.
From S2P Require Import AsyncMutex.
From S2P Require Import Timer.

Local Open Scope Z_scope.

(** ** Results, and the ways a function does not return *)

(** [std::terminate()]; a string made from a null [char*]; an empty optional that is
    dereferenced ([_redisVersion], [_timeoutTimer]); a null context given to hiredis. *)
Inductive fault : Type := StdTerminate | NullString | EmptyOptional | NullContext.
Inductive run (A : Type) : Type := Ok (a : A) | Fault (f : fault).
Arguments Ok {A} a.
Arguments Fault {A} f.
#[export] Instance run_ret : MRet run := λ A a, Ok a.
#[export] Instance run_bind : MBind run := λ A B f m, match m with Ok a => f a | Fault e => Fault e end.

Inductive RedisError : Type :=
| UNKNOWN | DISCONNECTED | FUNCTION_NOT_AVAILABLE_IN_SERVER | TRANSACTION_NOT_STARTED | QUEUED.
#[export] Instance RedisError_eq_dec : EqDecision RedisError.
Proof. solve_decision. Defined.

Record RedisSetOptions := mkSetOptions {
  EX : option Z; PX : option Z; EXAT : option Z; PXAT : option Z;
  NX : bool; XX : bool; KEEPTTL : bool; GET : bool }.

(** What [exec()] gives for each command. *)
Inductive variant : Type :=
| RedisGetReply (value : option cstring)
| RedisSetReply (executed : bool) (oldValue : cstring)
| RedisAuthReply (success : bool)
| RedisIntegerReply (value : Z).
(** The hashes of these types in [_queuedResponseTypes]. *)
Inductive reply_kind : Type := KGet | KSet | KAuth | KInteger.
#[export] Instance reply_kind_eq_dec : EqDecision reply_kind.
Proof. solve_decision. Defined.

(** The [redisReply] of hiredis, for the replies of version 2 of the protocol. *)
Inductive redisReply : Type :=
| RString (s : cstring) | RArray (elements : list redisReply) | RInteger (n : Z) | RNil
| RStatus (s : cstring) | RError (s : cstring).
(** The members [str], up to its first NUL as a [char*] is read, and [integer]. *)
Definition c_str (s : cstring) : cstring := take (search s [NUL]) s.
Definition reply_str (r : redisReply) : option cstring :=
  match r with RString s | RStatus s | RError s => Some (c_str s) | _ => None end.
Definition reply_integer (r : redisReply) : Z := match r with RInteger n => n | _ => 0 end.
Definition std_string (p : option cstring) : run cstring := match p with Some s => Ok s | None => Fault NullString end.

(** ** Commands and the requests they send *)

Inductive command : Type :=
| Auth (user password : cstring)
| Set_ (key value : cstring)
| SetOpts (key value : cstring) (opts : RedisSetOptions)
| Get (key : cstring)
| GetDel (key : cstring)
| Del (keys : cstring)
| Incr (keys : cstring)
| IncrBy (keys : cstring) (incr : Z)
| IncrByFloat (keys : cstring) (incr : cstring)     (* the double as %f prints it *)
| Decr (keys : cstring)
| DecrBy (keys : cstring) (decr : Z)
| Strlen (key : cstring)
| Multi | Exec | Discard | Info_.

(** What is given to [redisAsyncCommand]: arguments, or a text that hiredis takes for
    a format and divides at the spaces. *)
Inductive request : Type := Arguments_ (args : list cstring) | Text (format : cstring).

Section requests.
(** The printer of integers of fmt and of [%i], and what is in memory behind the
    buffer of [_formatSet], which is not ended by a NUL. *)
Context (fmt_int : Z → cstring) (behind : cstring).

Definition space : cstring := str " ".
(** [uint32_t timeOptsSet] counts the options that were set. *)
Definition time_option (name : cstring) (o : option Z) (n : Z) (buf : cstring) : Z * cstring :=
  match o with
  | Some t => (n + 1, buf ++ space ++ name ++ space ++ fmt_int t)
  | None => (n, buf)
  end.
(** [_formatSet]: all four options with a time are written as EX. *)
Definition formatSet (key value : cstring) (opts : RedisSetOptions) : run cstring :=
  let buf := str "SET " ++ key ++ space ++ value in
  if NX opts && XX opts then Fault StdTerminate
  else
    let buf := if NX opts then buf ++ str " NX" else buf in
    let buf := if XX opts then buf ++ str " XX" else buf in
    let buf := if GET opts then buf ++ str " GET" else buf in
    let '(n, buf) := if KEEPTTL opts then (1, buf ++ str " KEEPTTL") else (0, buf) in
    let '(n, buf) := time_option (str "EX") (EX opts) n buf in
    let '(n, buf) := time_option (str "EX") (PX opts) n buf in
    let '(n, buf) := time_option (str "EX") (EXAT opts) n buf in
    let '(n, buf) := time_option (str "EX") (PXAT opts) n buf in
    if 1 <? n then Fault StdTerminate else Ok buf.

(** An [int64_t] that is read as the [int] of [%i]. *)
Definition as_int (z : Z) : Z := (z + 2 ^ 31) mod 2 ^ 32 - 2 ^ 31.

Definition request_of (c : command) : run request :=
  match c with
  | Auth user password => Ok (Arguments_ [str "AUTH"; user; password])
  | Set_ key value => Ok (Arguments_ [str "SET"; key; value])
  | SetOpts key value opts => buf ← formatSet key value opts; Ok (Text (c_str (buf ++ behind)))
  | Get key => Ok (Arguments_ [str "GET"; key])
  | GetDel key => Ok (Arguments_ [str "GETDEL"; key])
  | Del keys => Ok (Arguments_ [str "DEL"; keys])
  | Incr keys => Ok (Arguments_ [str "INCR"; keys])
  | IncrBy keys incr => Ok (Arguments_ [str "INCRBY"; keys; fmt_int (as_int incr)])
  | IncrByFloat keys incr => Ok (Arguments_ [str "INCRBYFLOAT"; keys; incr])
  | Decr keys => Ok (Arguments_ [str "DECR"; keys])
  | DecrBy keys decr => Ok (Arguments_ [str "DECRBY"; keys; fmt_int (as_int decr)])
  | Strlen key => Ok (Arguments_ [str "STRLEN"; key])
  | Multi => Ok (Arguments_ [str "MULTI"])
  | Exec => Ok (Arguments_ [str "EXEC"])
  | Discard => Ok (Arguments_ [str "DISCARD"])
  | Info_ => Ok (Arguments_ [str "INFO"])
  end.
End requests.

(** The version a command needs. *)
Definition needs_version (c : command) : option Version :=
  match c with
  | GetDel _ => Some (mkVersion 6 2 0)
  | IncrByFloat _ _ => Some (mkVersion 2 6 0)
  | Strlen _ => Some (mkVersion 2 2 0)
  | Multi | Exec => Some (mkVersion 1 2 0)
  | Discard => Some (mkVersion 2 0 0)
  | _ => None
  end.
(** What a command that the server queues puts into [_queuedResponseTypes]; [multi],
    [exec], [discard] and [info] do not look for that reply. *)
Definition queues_as (c : command) : option reply_kind :=
  match c with
  | Auth _ _ => Some KAuth
  | Set_ _ _ | SetOpts _ _ _ => Some KSet
  | Get _ | GetDel _ => Some KGet
  | Del _ | Incr _ | IncrBy _ _ | IncrByFloat _ _ | Decr _ | DecrBy _ _ | Strlen _ => Some KInteger
  | Multi | Exec | Discard | Info_ => None
  end.

(** ** Replies *)

(** The map [info()] makes of the text of the server; [emplace] keeps the first value
    of a key. *)
Definition info_line (line : cstring) : option (cstring * cstring) :=
  if decide (sv_find line (str ":") = None) then None
  else match content <$> split (view_of line) (str ":") false with
       | [key; value] => Some (key, value)
       | _ => None
       end.
Definition info_of (text : cstring) : list (cstring * cstring) :=
  omap info_line (content <$> split (view_of text) CRLF false).
Definition info_find (key : cstring) (m : list (cstring * cstring)) : option cstring :=
  snd ∘ snd <$> list_find (λ kv, kv.1 = key) m.

(** What a member function returns. *)
Inductive result : Type :=
| Value (v : variant)
| Void
| Values (vs : list variant)
| InfoMap (m : list (cstring * cstring))
| VersionIs (v : Version)
| Error (e : RedisError).

(** One turn of the loop of [exec()]. *)
Definition exec_element (k : reply_kind) (e : redisReply) : run variant :=
  match k, e with
  | KGet, RString s => Ok (RedisGetReply (Some (c_str s)))
  | KGet, RNil => Ok (RedisGetReply None)
  | KSet, RStatus s => Ok (RedisSetReply true (c_str s))
  | KAuth, RString _ => Ok (RedisAuthReply true)
  | KInteger, RInteger n => Ok (RedisIntegerReply n)
  | _, _ => Fault StdTerminate
  end.
Fixpoint exec_loop (ks : list reply_kind) (es : list redisReply) : run (list variant) :=
  match ks, es with
  | k :: ks', e :: es' => v ← exec_element k e; vs ← exec_loop ks' es'; Ok (v :: vs)
  | _, _ => Ok []
  end.
Definition exec_reply (queued : list reply_kind) (r : redisReply) : run result :=
  match r with
  | RArray es =>
      if decide (length es = length queued) then vs ← exec_loop queued es; Ok (Values vs)
      else Fault StdTerminate
  | _ => Ok (Error UNKNOWN)
  end.
(** The end of a member function, for a reply that is no error and not QUEUED. *)
Definition plain_reply (c : command) (r : redisReply) : run result :=
  match c with
  | Auth _ _ => Ok (Value (RedisAuthReply true))
  | Set_ _ _ | SetOpts _ _ _ => s ← std_string (reply_str r); Ok (Value (RedisSetReply true s))
  | Get _ =>
      match r with
      | RNil => Ok (Value (RedisGetReply None))
      | _ => s ← std_string (reply_str r); Ok (Value (RedisGetReply (Some s)))
      end
  | GetDel _ => s ← std_string (reply_str r); Ok (Value (RedisGetReply (Some s)))
  | Del _ | Incr _ | IncrBy _ _ | IncrByFloat _ _ | Decr _ | DecrBy _ _ | Strlen _ =>
      Ok (Value (RedisIntegerReply (reply_integer r)))
  | Multi | Discard | Exec => Ok Void
  | Info_ => s ← std_string (reply_str r); Ok (InfoMap (info_of s))
  end.
Definition says_queued (r : redisReply) : bool :=
  match r with RStatus s => bool_decide (c_str s = str "QUEUED") | _ => false end.
(** The scope guards of [exec] and [discard]. *)
Definition leave (c : command) (queued : list reply_kind) : list reply_kind :=
  match c with Exec | Discard => [] | _ => queued end.
(** A member function from where it is resumed with its reply: what it returns, and
    [_queuedResponseTypes]. *)
Definition resume (c : command) (reply : option redisReply) (queued : list reply_kind) : run (result * list reply_kind) :=
  match reply with
  | None => Ok (Error DISCONNECTED, leave c queued)
  | Some r =>
      match c, r with
      | Exec, _ => res ← exec_reply queued r; Ok (res, leave c queued)
      | _, RError _ => Ok (Error UNKNOWN, leave c queued)
      | _, _ =>
          match queues_as c, says_queued r with
          | Some k, true => Ok (Error QUEUED, queued ++ [k])
          | _, _ => res ← plain_reply c r; Ok (res, leave c queued)
          end
      end
  end.

(** ** The service *)

Inductive call : Type := Command (c : command) | GetServerVersion.
(** Who made a call: service code, or the coroutine of the timer, which asks for the
    version. *)
Inductive caller : Type := Own | User (id : nat).

Record Hiredis := mkHiredis {
  h_redisContext : bool;                        (* whether it is not null *)
  h_startEvt : bool;
  h_disconnectEvt : AsyncManualResetEvent;
  h_timeoutTimer : option TimerState;
  h_queuedResponseTypes : list reply_kind;
  h_timeoutTimerRunning : bool;
  h_redisVersion : option Version;
  h_timeoutMs : Z;
  h_timeWhenDisconnected : Z;
  (* hiredis: the callbacks to call, and whether the context takes no commands any more *)
  h_pending : list (caller * command);
  h_closing : bool;
  (* callbacks of a context the service dropped without closing it: nobody polls it *)
  h_abandoned : list (caller * command);
  (* the calls that wait for the connection, what calls and start() returned, and the
     events the service pushed to stop itself *)
  h_waiting : list (nat * call);
  h_results : list (nat * result);
  h_started : option bool;
  h_stopEvents : nat }.

Definition set_context (b : bool) (h : Hiredis) : Hiredis :=
  mkHiredis b (h_startEvt h) (h_disconnectEvt h) (h_timeoutTimer h) (h_queuedResponseTypes h) (h_timeoutTimerRunning h) (h_redisVersion h) (h_timeoutMs h) (h_timeWhenDisconnected h) (h_pending h) (h_closing h) (h_abandoned h) (h_waiting h) (h_results h) (h_started h) (h_stopEvents h).
Definition set_startEvt (h : Hiredis) : Hiredis :=
  mkHiredis (h_redisContext h) true (h_disconnectEvt h) (h_timeoutTimer h) (h_queuedResponseTypes h) (h_timeoutTimerRunning h) (h_redisVersion h) (h_timeoutMs h) (h_timeWhenDisconnected h) (h_pending h) (h_closing h) (h_abandoned h) (h_waiting h) (h_results h)
    (if h_startEvt h then h_started h else Some (h_redisContext h)) (h_stopEvents h).
Definition set_disconnectEvt (e : AsyncManualResetEvent) (h : Hiredis) : Hiredis :=
  mkHiredis (h_redisContext h) (h_startEvt h) e (h_timeoutTimer h) (h_queuedResponseTypes h) (h_timeoutTimerRunning h) (h_redisVersion h) (h_timeoutMs h) (h_timeWhenDisconnected h) (h_pending h) (h_closing h) (h_abandoned h) (h_waiting h) (h_results h) (h_started h) (h_stopEvents h).
Definition set_timeoutTimer (t : option TimerState) (h : Hiredis) : Hiredis :=
  mkHiredis (h_redisContext h) (h_startEvt h) (h_disconnectEvt h) t (h_queuedResponseTypes h) (h_timeoutTimerRunning h) (h_redisVersion h) (h_timeoutMs h) (h_timeWhenDisconnected h) (h_pending h) (h_closing h) (h_abandoned h) (h_waiting h) (h_results h) (h_started h) (h_stopEvents h).
Definition set_queued (q : list reply_kind) (h : Hiredis) : Hiredis :=
  mkHiredis (h_redisContext h) (h_startEvt h) (h_disconnectEvt h) (h_timeoutTimer h) q (h_timeoutTimerRunning h) (h_redisVersion h) (h_timeoutMs h) (h_timeWhenDisconnected h) (h_pending h) (h_closing h) (h_abandoned h) (h_waiting h) (h_results h) (h_started h) (h_stopEvents h).
Definition set_timerRunning (b : bool) (h : Hiredis) : Hiredis :=
  mkHiredis (h_redisContext h) (h_startEvt h) (h_disconnectEvt h) (h_timeoutTimer h) (h_queuedResponseTypes h) b (h_redisVersion h) (h_timeoutMs h) (h_timeWhenDisconnected h) (h_pending h) (h_closing h) (h_abandoned h) (h_waiting h) (h_results h) (h_started h) (h_stopEvents h).
Definition set_version (v : option Version) (h : Hiredis) : Hiredis :=
  mkHiredis (h_redisContext h) (h_startEvt h) (h_disconnectEvt h) (h_timeoutTimer h) (h_queuedResponseTypes h) (h_timeoutTimerRunning h) v (h_timeoutMs h) (h_timeWhenDisconnected h) (h_pending h) (h_closing h) (h_abandoned h) (h_waiting h) (h_results h) (h_started h) (h_stopEvents h).
Definition set_timeWhenDisconnected (now : Z) (h : Hiredis) : Hiredis :=
  mkHiredis (h_redisContext h) (h_startEvt h) (h_disconnectEvt h) (h_timeoutTimer h) (h_queuedResponseTypes h) (h_timeoutTimerRunning h) (h_redisVersion h) (h_timeoutMs h) now (h_pending h) (h_closing h) (h_abandoned h) (h_waiting h) (h_results h) (h_started h) (h_stopEvents h).
Definition set_pending (l : list (caller * command)) (h : Hiredis) : Hiredis :=
  mkHiredis (h_redisContext h) (h_startEvt h) (h_disconnectEvt h) (h_timeoutTimer h) (h_queuedResponseTypes h) (h_timeoutTimerRunning h) (h_redisVersion h) (h_timeoutMs h) (h_timeWhenDisconnected h) l (h_closing h) (h_abandoned h) (h_waiting h) (h_results h) (h_started h) (h_stopEvents h).
Definition set_closing (b : bool) (h : Hiredis) : Hiredis :=
  mkHiredis (h_redisContext h) (h_startEvt h) (h_disconnectEvt h) (h_timeoutTimer h) (h_queuedResponseTypes h) (h_timeoutTimerRunning h) (h_redisVersion h) (h_timeoutMs h) (h_timeWhenDisconnected h) (h_pending h) b (h_abandoned h) (h_waiting h) (h_results h) (h_started h) (h_stopEvents h).
Definition set_waiting (l : list (nat * call)) (h : Hiredis) : Hiredis :=
  mkHiredis (h_redisContext h) (h_startEvt h) (h_disconnectEvt h) (h_timeoutTimer h) (h_queuedResponseTypes h) (h_timeoutTimerRunning h) (h_redisVersion h) (h_timeoutMs h) (h_timeWhenDisconnected h) (h_pending h) (h_closing h) (h_abandoned h) l (h_results h) (h_started h) (h_stopEvents h).
Definition set_abandoned (l : list (caller * command)) (h : Hiredis) : Hiredis :=
  mkHiredis (h_redisContext h) (h_startEvt h) (h_disconnectEvt h) (h_timeoutTimer h) (h_queuedResponseTypes h) (h_timeoutTimerRunning h) (h_redisVersion h) (h_timeoutMs h) (h_timeWhenDisconnected h) (h_pending h) (h_closing h) l (h_waiting h) (h_results h) (h_started h) (h_stopEvents h).
Definition returns (id : nat) (r : result) (h : Hiredis) : Hiredis :=
  mkHiredis (h_redisContext h) (h_startEvt h) (h_disconnectEvt h) (h_timeoutTimer h) (h_queuedResponseTypes h) (h_timeoutTimerRunning h) (h_redisVersion h) (h_timeoutMs h) (h_timeWhenDisconnected h) (h_pending h) (h_closing h) (h_abandoned h) (h_waiting h) (h_results h ++ [(id, r)]) (h_started h) (h_stopEvents h).
Definition push_stop (h : Hiredis) : Hiredis :=
  mkHiredis (h_redisContext h) (h_startEvt h) (h_disconnectEvt h) (h_timeoutTimer h) (h_queuedResponseTypes h) (h_timeoutTimerRunning h) (h_redisVersion h) (h_timeoutMs h) (h_timeWhenDisconnected h) (h_pending h) (h_closing h) (h_abandoned h) (h_waiting h) (h_results h) (h_started h) (S (h_stopEvents h)).

(** ** The timer, as far as its state goes *)

Definition timer_start (h : Hiredis) : run Hiredis :=
  match h_timeoutTimer h with
  | None => Fault EmptyOptional
  | Some STOPPED | Some STOPPING => Ok (set_timeoutTimer (Some STARTING) h)
  | Some _ => Ok h
  end.
Definition timer_stop (h : Hiredis) : run Hiredis :=
  match h_timeoutTimer h with
  | None => Fault EmptyOptional
  | Some RUNNING | Some STOPPING => Ok (set_timeoutTimer (Some STOPPING) h)
  | Some _ => Ok h
  end.
(** Its thread: it has begun to run, or has seen that it is to stop. *)
Definition timer_thread (h : Hiredis) : Hiredis :=
  match h_timeoutTimer h with
  | Some STARTING => set_timeoutTimer (Some RUNNING) h
  | Some STOPPING => set_timeoutTimer (Some STOPPED) h
  | _ => h
  end.
(** These are the states [Timer.v] gives its timer. *)
Lemma timer_stop_state t h h' : h_timeoutTimer h = Some (tm_state t) → timer_stop h = Ok h' →
  h_timeoutTimer h' = Some (tm_state (stopTimer None t).2).
Proof.
  intros Ht H. unfold timer_stop in H. rewrite Ht in H. unfold stopTimer.
  destruct (tm_state t) eqn:E; case_decide as Hd; simplify_eq; simpl; rewrite ?E; naive_solver.
Qed.
Lemma timer_start_state t i f t' h h' : h_timeoutTimer h = Some (tm_state t) → start_check t = true →
  start_thread i f t = Some t' → timer_start h = Ok h' → h_timeoutTimer h' = Some (tm_state t').
Proof.
  intros Ht Hc Hs H. unfold timer_start in H. rewrite Ht in H. apply bool_decide_eq_true in Hc.
  assert (tm_state t' = STARTING) as -> by (unfold start_thread in Hs; repeat case_match; by simplify_eq).
  destruct Hc as [E|E]; rewrite E in H; by simplify_eq.
Qed.

(** ** The connection *)

(** [redisAsyncConnectWithOptions] and [redisPollAttach]: no memory for a context, an
    error, or a context that is connecting. *)
Inductive setup : Type := NoMemory | SetupError | SetupOk.
Definition new_context (h : Hiredis) : Hiredis :=
  set_closing false (set_pending [] (set_abandoned (h_abandoned h ++ h_pending h) h)).
Definition connect (o : setup) (h : Hiredis) : run (bool * Hiredis) :=
  match o with
  | NoMemory => Fault NullContext
  | SetupError => Ok (false, set_context false (new_context h))
  | SetupOk => Ok (true, set_context true (new_context h))
  end.

(** The scope guard of the callback of the timer. *)
Definition guard_of_tick (now : Z) (error : bool) (h : Hiredis) : run Hiredis :=
  if h_redisContext h then h ← timer_stop h; Ok (set_timerRunning false (set_startEvt h))
  else if error || (wrap64 (h_timeWhenDisconnected h + h_timeoutMs h) <? now) then
    h ← timer_stop h; Ok (set_timerRunning false (push_stop (set_startEvt h)))
  else Ok (set_timerRunning false h).

(** The callback from the reply to [info()] on. *)
Definition tick_info (now : Z) (r : result) (h : Hiredis) : run Hiredis :=
  match r with
  | InfoMap m =>
      match info_find (str "redis_version") m with
      | None => guard_of_tick now true h
      | Some version =>
          let v := parseStringAsVersion (view_of version) in
          guard_of_tick now (bool_decide (v = None)) (set_version v h)
      end
  | Error DISCONNECTED => guard_of_tick now false h
  | _ => guard_of_tick now true h
  end.
Definition finish (now : Z) (who : caller) (r : result) (h : Hiredis) : run Hiredis :=
  match who with Own => tick_info now r h | User id => Ok (returns id r h) end.

Section service.
Context (fmt_int : Z → cstring) (behind : cstring).

(** A command from where it knows whether there is a connection to where it awaits its
    reply. *)
Definition go_on (now : Z) (who : caller) (k : call) (h : Hiredis) : run Hiredis :=
  match k with
  | GetServerVersion =>
      finish now who
        (if h_redisContext h then match h_redisVersion h with Some v => VersionIs v | None => Error UNKNOWN end
         else Error DISCONNECTED) h
  | Command c =>
      let fails e := finish now who (Error e) (set_queued (leave c (h_queuedResponseTypes h)) h) in
      let send :=
        request_of fmt_int behind c ≫= λ _,
        if h_closing h then Fault StdTerminate else Ok (set_pending (h_pending h ++ [(who, c)]) h) in
      if negb (h_redisContext h) then fails DISCONNECTED
      else match needs_version c, h_redisVersion h with
           | None, _ => send
           | Some _, None => Fault EmptyOptional
           | Some least, Some v => if decide (version_compare v least = Lt) then fails FUNCTION_NOT_AVAILABLE_IN_SERVER else send
           end
  end.
(** A call of service code: ICHOR_WAIT_IF_NOT_CONNECTED, and on. *)
Definition issue (now : Z) (id : nat) (k : call) (h : Hiredis) : run Hiredis :=
  if h_redisContext h then go_on now (User id) k h
  else match await_event id (h_disconnectEvt h) with
       | Some e => Ok (set_waiting (h_waiting h ++ [(id, k)]) (set_disconnectEvt e h))
       | None => go_on now (User id) k h
       end.

(** [_onAsyncReply] and the coroutine it resumes. *)
Definition reply_one (now : Z) (r : option redisReply) (h : Hiredis) : run Hiredis :=
  match h_pending h with
  | [] => Ok h
  | (who, c) :: rest =>
      '(res, q) ← resume c r (h_queuedResponseTypes h);
      finish now who res (set_queued q (set_pending rest h))
  end.
(** hiredis calls all callbacks with a null pointer. *)
Fixpoint null_replies (n : nat) (now : Z) (h : Hiredis) : run Hiredis :=
  match n with
  | O => Ok h
  | S n' => h ← reply_one now None h; null_replies n' now h
  end.

Definition onRedisDisconnect (now : Z) (ok : bool) (h : Hiredis) : run Hiredis :=
  if ok then Ok (set_context false h)
  else match h_timeoutTimer h with
       | None => Fault EmptyOptional
       | Some STOPPED =>
           timer_start (set_timeWhenDisconnected now (set_context false (set_disconnectEvt (reset_event (h_disconnectEvt h)) h)))
       | Some _ => Ok (set_context false h)
       end.

(** The waiters of [_disconnectEvt] are resumed in the order of [set_event]. *)
Definition resume_waiter (now : Z) (id : nat) (h : Hiredis) : run Hiredis :=
  match list_find (λ w, w.1 = id) (h_waiting h) with
  | Some (i, (_, k)) => go_on now (User id) k (set_waiting (delete i (h_waiting h)) h)
  | None => Ok h
  end.
Fixpoint resume_waiters (now : Z) (ids : list nat) (h : Hiredis) : run Hiredis :=
  match ids with
  | [] => Ok h
  | id :: ids' => h ← resume_waiter now id h; resume_waiters now ids' h
  end.
Definition onRedisConnect (now : Z) (ok : bool) (h : Hiredis) : run Hiredis :=
  if ok then
    h ← timer_stop h;
    let '(ids, e) := set_event (h_disconnectEvt h) in
    resume_waiters now ids (set_disconnectEvt e h)
  else match h_timeoutTimer h with
       | None => Fault EmptyOptional
       | Some STOPPED => timer_start (set_timeWhenDisconnected now (set_context false h))
       | Some _ => Ok (set_context false h)
       end.

(** ** Events *)

(** The poll timer sees a reply; after a disconnect was asked for, the last reply ends
    the connection. *)
Definition reply (now : Z) (r : redisReply) (h : Hiredis) : run Hiredis :=
  if negb (h_redisContext h) then Ok h
  else
    h ← reply_one now (Some r) h;
    if h_closing h && bool_decide (h_pending h = []) then onRedisDisconnect now true (set_closing false h) else Ok h.
(** The attempt to connect failed. *)
Definition connection_failed (now : Z) (h : Hiredis) : run Hiredis :=
  h ← onRedisConnect now false h; null_replies (length (h_pending h)) now h.
(** The connection is lost. *)
Definition connection_lost (now : Z) (h : Hiredis) : run Hiredis :=
  h ← null_replies (length (h_pending h)) now h; onRedisDisconnect now false (set_closing false h).
(** The callback of the timer. *)
Definition tick (now : Z) (o : setup) (h : Hiredis) : run Hiredis :=
  if h_timeoutTimerRunning h then Ok h
  else
    '(ok, h) ← connect o (set_timerRunning true h);
    if (ok : bool) then go_on now Own (Command Info_) h else guard_of_tick now true h.
(** [start()] up to where it awaits [_startEvt]. *)
Definition start (now : Z) (address port : bool) (timeout : option Z) : run Hiredis :=
  if negb address || negb port then Fault StdTerminate
  else Ok (mkHiredis false false (new_manual_event false) (Some STARTING) [] false None (default 10000 timeout) now [] false [] [] [] None 0).
Definition stop (now : Z) (h : Hiredis) : run Hiredis :=
  if negb (h_redisContext h) then Fault NullContext
  else
    h ← (if decide (h_pending h = []) then onRedisDisconnect now true h else Ok (set_closing true h));
    Ok (set_timeoutTimer None h).

Inductive event : Type :=
| Issue (id : nat) (k : call)
| Reply (r : redisReply)
| Tick (o : setup)
| TimerThread
| Connected
| ConnectFailed
| Lost
| Stop.
Definition step (now : Z) (e : event) (h : Hiredis) : run Hiredis :=
  match e with
  | Issue id k => issue now id k h
  | Reply r => reply now r h
  | Tick o => tick now o h
  | TimerThread => Ok (timer_thread h)
  | Connected => onRedisConnect now true h
  | ConnectFailed => connection_failed now h
  | Lost => connection_lost now h
  | Stop => stop now h
  end.
Fixpoint steps (es : list (Z * event)) (h : Hiredis) : run Hiredis :=
  match es with
  | [] => Ok h
  | (now, e) :: es' => h ← step now e h; steps es' h
  end.
End service.

(** A service that is connected to a server of version 7.2.0, used in examples. *)
Definition connected_hiredis : Hiredis :=
  mkHiredis true true IsSet (Some STOPPED) [] false (Some (mkVersion 7 2 0)) 10000 0 [] false [] [] [] (Some true) 0.

(** ** Inverting runs *)

Lemma run_bind_Ok {A B} (m : run A) (f : A → run B) b : (m ≫= f) = Ok b ↔ ∃ a, m = Ok a ∧ f a = Ok b.
Proof. destruct m; simpl; naive_solver. Qed.
Lemma bind_ret {A} (m : run A) : (m ≫= λ a, Ok a) = m.
Proof. by destruct m. Qed.
Ltac run_inv :=
  repeat match goal with
  | H : mbind _ _ = Ok _ |- _ => apply run_bind_Ok in H as (? & ? & H)
  | H : (let '(_, _) := ?x in _) = Ok _ |- _ => destruct x eqn:?
  | H : Ok _ = Ok _ |- _ => injection H; clear H; intros; try subst
  | H : Fault _ = Ok _ |- _ => discriminate H
  end.
