(* ===== verification/RedisText.v ===== *)
(** * The Redis client: the texts it writes and reads

    [_formatSet] of src/services/redis/HiRedisService.cpp against the words of a SET
    command, and [info()]: the map it makes of the lines of a server, up to the version
    the service keeps when it has connected. *)

From Stdlib Require Import Ascii String.
From stdpp Require Import base list option sets strings.
From Stdlib Require Import ZArith Lia.
From S2P Require Import Prelude.
From S2P Require Import StringUtils.
From S2P Require Import HttpCommon.
From S2P Require Import AsyncMutex.
From S2P Require Import Timer.
From S2P Require Import Redis.

Local Open Scope Z_scope.

(** ** SET with options *)

Section set_options.
Context (fmt_int : Z → cstring).

(** The words of the command, in the order the code writes them. *)
Definition time_words (o : option Z) : list cstring := match o with Some t => [str "EX"; fmt_int t] | None => [] end.
Definition flag_words (b : bool) (w : cstring) : list cstring := if b then [w] else [].
Definition set_words (key value : cstring) (o : RedisSetOptions) : list cstring :=
  [str "SET"; key; value] ++ flag_words (NX o) (str "NX") ++ flag_words (XX o) (str "XX") ++ flag_words (GET o) (str "GET") ++
  flag_words (KEEPTTL o) (str "KEEPTTL") ++ time_words (EX o) ++ time_words (PX o) ++ time_words (EXAT o) ++ time_words (PXAT o).
(** Every word but the last is followed by a space. *)
Fixpoint joined (ws : list cstring) : cstring :=
  match ws with [] => [] | [w] => w | w :: ws' => w ++ space ++ joined ws' end.
(** NX and XX exclude each other, and there is one time at most. *)
Definition count_some (o : option Z) : nat := match o with Some _ => 1 | None => 0 end.
Definition options_ok (o : RedisSetOptions) : bool :=
  negb (NX o && XX o) &&
  (Nat.b2n (KEEPTTL o) + count_some (EX o) + count_some (PX o) + count_some (EXAT o) + count_some (PXAT o) <=? 1)%nat.

Lemma formatSet_words key value o :
  formatSet fmt_int key value o = if options_ok o then Ok (joined (set_words key value o)) else Fault StdTerminate.
Proof.
  destruct o as [[?|] [?|] [?|] [?|] [] [] [] []]; try reflexivity;
    cbn -[str space]; rewrite <- ?app_assoc; reflexivity.
Qed.

(** A word hiredis takes as one. *)
Definition word_ok (w : cstring) : Prop := w ≠ [] ∧ " "%char ∉ w.
#[local] Instance word_ok_dec w : Decision (word_ok w).
Proof. unfold word_ok. apply _. Defined.
Lemma joined_snoc ws p : joined (ws ++ [p]) = terminated space ws ++ p.
Proof.
  induction ws as [|w ws IH]; [done|]. rewrite terminated_cons, <- !app_assoc, <- IH. simpl. by destruct ws.
Qed.
Lemma joined_split ws : ws ≠ [] → Forall word_ok ws → content <$> split (view_of (joined ws)) space false = ws.
Proof.
  intros Hne H. destruct ws as [|p ws _] using rev_ind; [done|]. apply Forall_app in H as [H [[Hp1 Hp2] _]%list.Forall_cons].
  rewrite joined_snoc. apply split_joined_content; [done| |done|by apply search_absent].
  eapply Forall_impl; [exact H|]. intros w [_ Hw]. by apply clean_first.
Qed.

(** The times are [uint32_t]s. *)
Definition time_ok (o : option Z) : Prop := match o with Some t => 0 ≤ t < 2 ^ 32 | None => True end.
Lemma time_words_ok o : prints_decimal fmt_int → time_ok o → Forall word_ok (time_words o).
Proof.
  intros Hf Ho. destruct o as [t|]; [|constructor]. simpl in *.
  destruct (Hf t ltac:(unfold u64_mod; lia)) as (Hne & Hd & _). repeat constructor; [done|set_solver|done|].
  intros Hin. rewrite forallb_forall in Hd. by discriminate (Hd " "%char ltac:(by apply list_elem_of_In)).
Qed.
Lemma flag_words_ok b w : word_ok w → Forall word_ok (flag_words b w).
Proof. destruct b; repeat constructor; apply H. Qed.

(** SET with options.  The options of a SET are refused, with [std::terminate()],
    exactly when both NX and XX or more than one of EX, PX, EXAT, PXAT and KEEPTTL are
    given; otherwise, for a key and a value without spaces, the text [_formatSet] makes
    consists of the words of the command: the key, the value, the flags that are set
    and the time.  (Whatever time was given, its word is EX.) *)
Theorem set_options_command key value o :
  prints_decimal fmt_int → word_ok key → word_ok value →
  time_ok (EX o) → time_ok (PX o) → time_ok (EXAT o) → time_ok (PXAT o) →
  if options_ok o
  then ∃ buf, formatSet fmt_int key value o = Ok buf ∧ content <$> split (view_of buf) space false = set_words key value o
  else formatSet fmt_int key value o = Fault StdTerminate.
Proof.
  intros Hf Hk Hv H1 H2 H3 H4. rewrite formatSet_words. destruct (options_ok o); [|done].
  eexists. split; [done|]. apply joined_split; [done|]. unfold set_words.
  repeat (apply Forall_app; split); repeat constructor; try apply Hk; try apply Hv; try by apply time_words_ok.
  all: try (apply flag_words_ok); apply (bool_decide_unpack (word_ok _)); reflexivity.
Qed.
End set_options.

Lemma set_options_command_witness :
  let o := mkSetOptions (Some 30) None None None true false false true in
  ∃ buf, formatSet decimal (str "key") (str "value") o = Ok buf ∧
    content <$> split (view_of buf) space false = str <$> ["SET"; "key"; "value"; "NX"; "GET"; "EX"; "30"]%string.
Proof.
  intros o. apply (set_options_command decimal (str "key") (str "value") o).
  - exact decimal_prints.
  - apply (bool_decide_unpack (word_ok _)). reflexivity.
  - apply (bool_decide_unpack (word_ok _)). reflexivity.
  - simpl. lia.
  - exact I.
  - exact I.
  - exact I.
Defined.

(** ** INFO *)

Definition colon : ascii := ":"%char.
Lemma info_line_pair k v : colon ∉ k → colon ∉ v → v ≠ [] → info_line (k ++ [colon] ++ v) = Some (k, v).
Proof.
  intros Hk Hv Hne. unfold info_line. change (str ":") with [colon].
  assert (search (k ++ [colon] ++ v) [colon] = length k) as Hs by (by apply search_first).
  rewrite decide_False.
  - pose proof (split_joined_content [colon] [k] v ltac:(done)) as E. rewrite terminated_cons, <- !app_assoc in E.
    change (terminated [colon] []) with ([] : cstring) in E. cbn [app] in E. cbn [app]. rewrite E; [done| |done|by apply search_absent].
    repeat constructor. by apply clean_first.
  - unfold sv_find. rewrite Hs. case_decide as Hd; [|done]. destruct Hd as [Hd _]. rewrite !length_app in Hd. simpl in Hd. lia.
Qed.
Lemma info_of_lines lines : Forall (λ l, CR ∉ l) lines → info_of (terminated CRLF lines) = omap info_line lines.
Proof.
  intros H. unfold info_of, view_of.
  pose proof (split_terminated CRLF lines [] ltac:(done)) as E. rewrite app_nil_r in E. rewrite E, content_views; [done|].
  eapply Forall_impl; [exact H|]. intros l Hl. by apply clean_first.
Qed.
Lemma info_find_first k v l1 l2 :
  Forall (λ kv, kv.1 ≠ k) l1 → info_find k (l1 ++ (k, v) :: l2) = Some v.
Proof.
  intros H. unfold info_find. rewrite list_find_app_r by (by apply list_find_None). simpl. by rewrite decide_True.
Qed.
Lemma c_str_clean s : NUL ∉ s → c_str s = s.
Proof. intros H. unfold c_str. rewrite search_absent by done. by rewrite take_ge. Qed.

Definition version_key : cstring := str "redis_version".
(** What a server prints: lines that end with CR LF, one of them with its version, and
    none of the lines before with that key. *)
Definition info_text (l1 : list cstring) (version : cstring) (l2 : list cstring) : cstring :=
  terminated CRLF (l1 ++ [version_key ++ [colon] ++ version] ++ l2).
Definition info_ok (l1 : list cstring) (version : cstring) (l2 : list cstring) : Prop :=
  Forall (λ l, CR ∉ l) (l1 ++ [version_key ++ [colon] ++ version] ++ l2) ∧
  Forall (λ kv, kv.1 ≠ version_key) (omap info_line l1) ∧ NUL ∉ info_text l1 version l2.

Lemma version_text_clean fmt_uint v : prints_decimal fmt_uint → version_ok v →
  toString fmt_uint v ≠ [] ∧ colon ∉ toString fmt_uint v.
Proof.
  intros Hf (H1 & H2 & H3).
  destruct (Hf (major v) H1) as (Na & Da & _), (Hf (minor v) H2) as (_ & Db & _), (Hf (patch v) H3) as (_ & Dc & _).
  assert (∀ s : cstring, forallb is_digit s = true → colon ∉ s) as Hd.
  { intros s Hs Hin. rewrite forallb_forall in Hs. by discriminate (Hs colon ltac:(by apply list_elem_of_In)). }
  unfold toString. split.
  - intros E. by apply app_eq_nil in E as [E _].
  - rewrite !elem_of_app. intros [H|[H|[H|[H|H]]]]; try (by eapply Hd in H); apply list_elem_of_singleton in H; discriminate H.
Qed.

(** C22: When the service has connected and the server answers INFO with lines of which
    one has its version, the service keeps exactly that version, stops its timer, and
    its [start()] succeeds if it was waiting. *)
Theorem connect_learns_the_version fmt_uint v l1 l2 now h rest :
  prints_decimal fmt_uint → version_ok v → info_ok l1 (toString fmt_uint v) l2 →
  h_redisContext h = true → h_closing h = false → h_pending h = (Own, Info_) :: rest →
  h_timeoutTimer h = Some RUNNING ∨ h_timeoutTimer h = Some STOPPING →
  ∃ h', reply now (RString (info_text l1 (toString fmt_uint v) l2)) h = Ok h' ∧
    h_redisVersion h' = Some v ∧ h_redisContext h' = true ∧ h_timeoutTimer h' = Some STOPPING ∧
    h_timeoutTimerRunning h' = false ∧ h_pending h' = rest ∧ h_startEvt h' = true ∧
    (h_startEvt h = false → h_started h' = Some true).
Proof.
  intros Hf Hv (Hl & Hk & Hn) Hc Hcl Hp Ht. destruct (version_text_clean fmt_uint v Hf Hv) as [Hne Hco].
  assert (info_find version_key (info_of (c_str (info_text l1 (toString fmt_uint v) l2))) = Some (toString fmt_uint v)) as Hi.
  { rewrite c_str_clean by done. unfold info_text. rewrite info_of_lines by done. rewrite !omap_app. cbn [omap list_omap].
    rewrite info_line_pair by (done || apply (bool_decide_unpack (colon ∉ version_key)); reflexivity).
    by apply info_find_first. }
  unfold reply, reply_one. rewrite Hc, Hp. cbn [negb resume queues_as plain_reply reply_str std_string mbind run_bind finish leave].
  unfold tick_info. change (str "redis_version") with version_key. rewrite Hi, version_roundtrip by done.
  unfold guard_of_tick, timer_stop. cbn [h_redisContext set_version set_queued set_pending h_timeoutTimer]. rewrite Hc.
  destruct Ht as [-> | ->]; cbn [mbind run_bind]; simpl; rewrite Hcl; eexists; (split; [done|]); simpl; rewrite ?Hc; split_and!; try done; by intros ->.
Qed.

Definition connecting_hiredis : Hiredis :=
  mkHiredis true false (NotSet []) (Some RUNNING) [] true None 10000 0 [(Own, Info_)] false [] [] [] None 0.
Lemma connect_learns_the_version_witness :
  ∃ h', reply 5 (RString (info_text [str "# Server"] (str "7.2.4") [str "os:Linux"])) connecting_hiredis = Ok h' ∧
    h_redisVersion h' = Some (mkVersion 7 2 4) ∧ h_started h' = Some true.
Proof.
  destruct (connect_learns_the_version decimal (mkVersion 7 2 4) [str "# Server"] [str "os:Linux"] 5 connecting_hiredis [])
    as (h' & E & Ev & _ & _ & _ & _ & _ & Es).
  - exact decimal_prints.
  - unfold version_ok, u64_mod. simpl. lia.
  - split; [|split]; apply (bool_decide_unpack _); vm_compute; reflexivity.
  - reflexivity.
  - reflexivity.
  - reflexivity.
  - by left.
  - exists h'. split; [exact E|]. split; [exact Ev|]. apply Es. reflexivity.
Defined.
