(* ===== verification/RedisRuns.v ===== *)
(** * The Redis client: every call is answered once

    In all runs of the service of Redis.v, with any order of calls, replies, timer
    callbacks, failed and lost connections, a call is answered at most once and never
    forgotten: it has returned, waits for a connection, is one hiredis will answer, or
    was sent over a context that was dropped.  Losing the connection answers all calls
    that were sent; the calls that wait are all sent when it is back, the newest
    first. *)

From Stdlib Require Import Ascii String.
From stdpp Require Import base list option sets strings.
From Stdlib Require Import ZArith Lia.
From S2P Require Import Prelude.
From S2P Require Import StringUtils.
From S2P Require Import HttpCommon.
From S2P Require Import AsyncMutex.
From S2P Require Import Timer.
From S2P Require Import Redis.

Local Open Scope Z_scope.

Definition user_id (p : caller * command) : option nat := match p.1 with User id => Some id | Own => None end.
Definition users (l : list (caller * command)) : list nat := omap user_id l.
Definition caller_ids (who : caller) : list nat := match who with User id => [id] | Own => [] end.
(** Where a call can be. *)
Definition accounted_for (h : Hiredis) : list nat :=
  (h_results h).*1 ++ (h_waiting h).*1 ++ users (h_pending h) ++ users (h_abandoned h).
Definition issued_by (e : event) : list nat := match e with Issue id _ => [id] | _ => [] end.

Lemma users_app l1 l2 : users (l1 ++ l2) = users l1 ++ users l2.
Proof. apply omap_app. Qed.
Lemma users_one who c : users [(who, c)] = caller_ids who.
Proof. by destruct who. Qed.

(** What the steps leave alone. *)
Definition same_calls (h h' : Hiredis) : Prop :=
  h_results h' = h_results h ∧ h_waiting h' = h_waiting h ∧ h_pending h' = h_pending h ∧
  h_abandoned h' = h_abandoned h ∧ h_disconnectEvt h' = h_disconnectEvt h.
Lemma same_calls_accounted h h' : same_calls h h' → accounted_for h' = accounted_for h.
Proof. intros (E1 & E2 & E3 & E4 & _). unfold accounted_for. by rewrite E1, E2, E3, E4. Qed.
Lemma timer_start_same h h' : timer_start h = Ok h' → same_calls h h'.
Proof. unfold timer_start. intros H. repeat case_match; run_inv; done. Qed.
Lemma timer_stop_same h h' : timer_stop h = Ok h' → same_calls h h'.
Proof. unfold timer_stop. intros H. repeat case_match; run_inv; done. Qed.
Lemma guard_same now error h h' : guard_of_tick now error h = Ok h' → same_calls h h'.
Proof.
  unfold guard_of_tick. intros H. repeat case_match; run_inv;
    repeat match goal with H : timer_stop _ = Ok _ |- _ => apply timer_stop_same in H end; done.
Qed.
Lemma tick_info_same now r h h' : tick_info now r h = Ok h' → same_calls h h'.
Proof. unfold tick_info. intros H. repeat case_match; apply guard_same in H; done. Qed.

(** What ends a call adds it to the results. *)
Lemma finish_accounted now who r h h' : finish now who r h = Ok h' →
  accounted_for h' ≡ₚ caller_ids who ++ accounted_for h ∧
  h_waiting h' = h_waiting h ∧ h_disconnectEvt h' = h_disconnectEvt h.
Proof.
  destruct who as [|id]; simpl; intros H.
  - pose proof (tick_info_same _ _ _ _ H) as Hs. rewrite (same_calls_accounted _ _ Hs). by destruct Hs as (_ & ? & _ & _ & ?).
  - run_inv. unfold accounted_for. simpl. split; [|done]. rewrite fmap_app. simpl. solve_Permutation.
Qed.

Section runs.
Context (fmt_int : Z → cstring) (behind : cstring).
Local Notation go_on := (go_on fmt_int behind).
Local Notation issue := (issue fmt_int behind).
Local Notation resume_waiters := (resume_waiters fmt_int behind).
Local Notation step := (step fmt_int behind).
Local Notation steps := (steps fmt_int behind).

Lemma go_on_accounted now who k h h' : go_on now who k h = Ok h' →
  accounted_for h' ≡ₚ caller_ids who ++ accounted_for h ∧
  h_waiting h' = h_waiting h ∧ h_disconnectEvt h' = h_disconnectEvt h.
Proof.
  unfold Redis.go_on. intros H. repeat case_match; simpl in *; run_inv;
    try (case_match; run_inv);
    try (match goal with H : finish _ _ _ _ = Ok _ |- _ => apply finish_accounted in H; done end).
  all: unfold accounted_for; simpl; rewrite users_app, users_one; split; [solve_Permutation|done].
Qed.

(** The coroutines that wait for the event are the calls that wait, the newest first. *)
Definition waiters_match (h : Hiredis) : Prop := event_waiters (h_disconnectEvt h) = reverse (h_waiting h).*1.

Lemma issue_accounted now id k h h' : waiters_match h → issue now id k h = Ok h' →
  accounted_for h' ≡ₚ id :: accounted_for h ∧ waiters_match h'.
Proof.
  unfold Redis.issue, waiters_match. intros Hw H. repeat case_match; run_inv.
  1,3: destruct (go_on_accounted _ _ _ _ _ H) as (E & -> & ->); done.
  unfold accounted_for. simpl. unfold await_event in *. destruct (h_disconnectEvt h) eqn:E; simplify_eq. simpl in *.
  rewrite fmap_app. simpl. split; [solve_Permutation|]. by rewrite Hw, reverse_snoc.
Qed.

Lemma reply_one_accounted now r h h' : reply_one now r h = Ok h' →
  accounted_for h' ≡ₚ accounted_for h ∧ h_waiting h' = h_waiting h ∧ h_disconnectEvt h' = h_disconnectEvt h.
Proof.
  unfold reply_one. intros H. destruct (h_pending h) as [|[who c] rest] eqn:Ep; run_inv; [done|].
  destruct (finish_accounted _ _ _ _ _ H) as (E & -> & ->). simpl. split; [|done]. rewrite E.
  unfold accounted_for. simpl. rewrite Ep. change ((who, c) :: rest) with ([(who, c)] ++ rest).
  rewrite users_app, users_one. solve_Permutation.
Qed.
Lemma null_replies_accounted n now h h' : null_replies n now h = Ok h' →
  accounted_for h' ≡ₚ accounted_for h ∧ h_waiting h' = h_waiting h ∧ h_disconnectEvt h' = h_disconnectEvt h.
Proof.
  revert h. induction n as [|n IH]; intros h H; simpl in H; run_inv; [done|].
  destruct (reply_one_accounted _ _ _ _ H0) as (E & Ew & Ee). destruct (IH _ H) as (-> & -> & ->). done.
Qed.

Lemma resume_waiter_accounted now id h h' : id ∈ (h_waiting h).*1 → resume_waiter fmt_int behind now id h = Ok h' →
  accounted_for h' ≡ₚ accounted_for h ∧ (h_waiting h).*1 ≡ₚ id :: (h_waiting h').*1 ∧ h_disconnectEvt h' = h_disconnectEvt h.
Proof.
  unfold resume_waiter. intros Hid H. destruct (list_find _ _) as [[i [id' k]]|] eqn:Ef.
  - apply list_find_Some in Ef as (Ei & E & _). simpl in E. subst id'.
    pose proof (delete_Permutation _ _ _ Ei) as Hp. destruct (go_on_accounted _ _ _ _ _ H) as (Ea & Ew & Ee).
    rewrite Ee, Ew. simpl in *. split_and!; [|by rewrite Hp at 1|done]. rewrite Ea. unfold accounted_for. simpl.
    rewrite Hp at 2. simpl. solve_Permutation.
  - apply list_find_None in Ef. rewrite list.Forall_forall in Ef.
    apply list_elem_of_fmap in Hid as (w & -> & Hw). by destruct (Ef w Hw).
Qed.
Lemma resume_waiters_accounted now ids h h' : ids ≡ₚ (h_waiting h).*1 → resume_waiters now ids h = Ok h' →
  accounted_for h' ≡ₚ accounted_for h ∧ h_waiting h' = [] ∧ h_disconnectEvt h' = h_disconnectEvt h.
Proof.
  revert h. induction ids as [|id ids IH]; intros h Hp H; simpl in H; run_inv.
  - split_and!; [done| |done]. by destruct (h_waiting h'); [|apply Permutation_nil_cons in Hp].
  - destruct (resume_waiter_accounted _ id _ _ ltac:(rewrite <- Hp; set_solver) H0) as (Ea & Ew & Ee).
    destruct (IH x) as (-> & -> & ->); [|done|done]. rewrite Ew in Hp. by apply Permutation_cons_inv in Hp.
Qed.

Lemma disconnect_accounted now ok h h' : waiters_match h → onRedisDisconnect now ok h = Ok h' →
  accounted_for h' ≡ₚ accounted_for h ∧ waiters_match h'.
Proof.
  unfold onRedisDisconnect, waiters_match. intros Hw H. repeat case_match; run_inv; try done.
  pose proof (timer_start_same _ _ H) as Hs. rewrite (same_calls_accounted _ _ Hs).
  destruct Hs as (_ & -> & _ & _ & ->). simpl. split; [done|]. rewrite <- Hw. by destruct (h_disconnectEvt h).
Qed.
Lemma connect_accounted now ok h h' : waiters_match h → onRedisConnect fmt_int behind now ok h = Ok h' →
  accounted_for h' ≡ₚ accounted_for h ∧ waiters_match h'.
Proof.
  unfold onRedisConnect, waiters_match. intros Hw H. destruct ok; [|repeat case_match; run_inv; try done].
  - run_inv. pose proof (timer_stop_same _ _ H0) as Hs. rewrite <- (same_calls_accounted _ _ Hs).
    destruct Hs as (_ & Ew & _ & _ & Ee). rewrite Ee in Heqp. rewrite <- Ew in Hw.
    destruct (resume_waiters_accounted now l (set_disconnectEvt a x) h') as (-> & -> & ->); [|done|].
    + simpl. rewrite <- (reverse_Permutation (h_waiting x).*1), <- Hw. unfold set_event in Heqp. by destruct (h_disconnectEvt h); simplify_eq.
    + simpl. split; [done|]. unfold set_event in Heqp. by destruct (h_disconnectEvt h); simplify_eq.
  - pose proof (timer_start_same _ _ H) as Hs. rewrite (same_calls_accounted _ _ Hs). by destruct Hs as (_ & -> & _ & _ & ->).
Qed.

Lemma step_accounted now e h h' : waiters_match h → step now e h = Ok h' →
  accounted_for h' ≡ₚ issued_by e ++ accounted_for h ∧ waiters_match h'.
Proof.
  intros Hw H. destruct e; simpl in H |- *.
  - by apply (issue_accounted now id k).
  - unfold Redis.reply in H. case_match; run_inv; [done|].
    match goal with H : reply_one _ _ _ = Ok _ |- _ => destruct (reply_one_accounted _ _ _ _ H) as (E & Ew & Ee) end.
    assert (waiters_match x) as Hx by (unfold waiters_match; by rewrite Ee, Ew).
    case_match; run_inv; [|done].
    destruct (disconnect_accounted now true (set_closing false x) h' Hx H) as (E' & ?). by rewrite E', <- E.
  - unfold tick in H. case_match; run_inv; [done|]. destruct o; cbn [connect] in *; run_inv.
    + pose proof (guard_same _ _ _ _ H) as Hs. rewrite (same_calls_accounted _ _ Hs). unfold waiters_match.
      destruct Hs as (_ & -> & _ & _ & ->). simpl. split; [|done]. unfold accounted_for. simpl. rewrite users_app. solve_Permutation.
    + destruct (go_on_accounted _ _ _ _ _ H) as (-> & Ew & Ee). unfold waiters_match. rewrite Ew, Ee. simpl. split; [|done].
      unfold accounted_for. simpl. rewrite users_app. solve_Permutation.
  - run_inv. unfold timer_thread. repeat case_match; done.
  - by apply (connect_accounted now true).
  - unfold connection_failed in H. run_inv. destruct (connect_accounted _ _ _ _ Hw H0) as (<- & Hx).
    destruct (null_replies_accounted _ _ _ _ H) as (-> & Ew & Ee). unfold waiters_match. by rewrite Ew, Ee.
  - unfold connection_lost in H. run_inv. destruct (null_replies_accounted _ _ _ _ H0) as (<- & Ew & Ee).
    apply (disconnect_accounted now false (set_closing false x)); [|done]. unfold waiters_match. simpl. by rewrite Ew, Ee.
  - unfold Redis.stop in H. repeat case_match; run_inv.
    + destruct (disconnect_accounted now true h x) as (<- & ?); done.
    + done.
Qed.

(** ** Sent calls are not forgotten *)

(** Without a context hiredis has no callbacks to call. *)
Definition nothing_pending (h : Hiredis) : Prop := h_redisContext h = false → h_pending h = [].
Lemma same_calls_context h h' : timer_start h = Ok h' ∨ timer_stop h = Ok h' → h_redisContext h' = h_redisContext h.
Proof. unfold timer_start, timer_stop. intros [H|H]; repeat case_match; run_inv; done. Qed.
Lemma guard_context now error h h' : guard_of_tick now error h = Ok h' → h_redisContext h' = h_redisContext h.
Proof.
  unfold guard_of_tick. intros H. repeat case_match; run_inv; simpl; try done;
    match goal with H : timer_stop _ = Ok _ |- _ => rewrite (same_calls_context _ _ (or_intror H)) end; congruence.
Qed.
Lemma tick_info_context now r h h' : tick_info now r h = Ok h' → h_redisContext h' = h_redisContext h.
Proof. unfold tick_info. intros H. repeat case_match; apply guard_context in H; done. Qed.
Lemma finish_context now who r h h' : finish now who r h = Ok h' →
  h_redisContext h' = h_redisContext h ∧ h_pending h' = h_pending h ∧ h_abandoned h' = h_abandoned h.
Proof.
  destruct who; simpl; intros H; [|by run_inv].
  rewrite (tick_info_context _ _ _ _ H). by destruct (tick_info_same _ _ _ _ H) as (_ & _ & -> & -> & _).
Qed.
Lemma go_on_context now who k h h' : go_on now who k h = Ok h' →
  h_redisContext h' = h_redisContext h ∧ (h_redisContext h = false → h_pending h' = h_pending h) ∧ h_abandoned h' = h_abandoned h.
Proof.
  unfold Redis.go_on. intros H. repeat case_match; simpl in *; run_inv; try (case_match; run_inv); simpl;
    try (match goal with H : finish _ _ _ _ = Ok _ |- _ => apply finish_context in H as (-> & -> & ->); done end).
  all: by destruct (h_redisContext h).
Qed.
Lemma reply_one_context now r h h' : reply_one now r h = Ok h' →
  h_redisContext h' = h_redisContext h ∧ h_pending h' = tail (h_pending h) ∧ h_abandoned h' = h_abandoned h.
Proof.
  unfold reply_one. intros H. destruct (h_pending h) as [|[who c] rest] eqn:Ep; run_inv; [by rewrite Ep|].
  by apply finish_context in H as (-> & -> & ->).
Qed.
Lemma null_replies_context n now h h' : null_replies n now h = Ok h' →
  h_redisContext h' = h_redisContext h ∧ h_pending h' = drop n (h_pending h) ∧ h_abandoned h' = h_abandoned h.
Proof.
  revert h. induction n as [|n IH]; intros h H; simpl in H; run_inv; [done|].
  destruct (reply_one_context _ _ _ _ H0) as (Ec & Ep & Ea). destruct (IH _ H) as (-> & -> & ->). rewrite Ec, Ea, Ep.
  split_and!; [done| |done]. by destruct (h_pending h); simpl; rewrite ?drop_nil.
Qed.
Lemma disconnect_context now ok h h' : onRedisDisconnect now ok h = Ok h' →
  h_pending h' = h_pending h ∧ h_abandoned h' = h_abandoned h ∧ h_redisContext h' = false.
Proof.
  unfold onRedisDisconnect. intros H. repeat case_match; run_inv; try done.
  rewrite (same_calls_context _ _ (or_introl H)). by destruct (timer_start_same _ _ H) as (_ & _ & -> & -> & _).
Qed.
Lemma resume_waiters_context now ids h h' : resume_waiters now ids h = Ok h' →
  h_redisContext h' = h_redisContext h ∧ (h_redisContext h = false → h_pending h' = h_pending h) ∧ h_abandoned h' = h_abandoned h.
Proof.
  revert h. induction ids as [|id ids IH]; intros h H; simpl in H; run_inv; [done|].
  destruct (IH _ H) as (-> & Hp & ->). unfold resume_waiter in H0. repeat case_match; run_inv; [|done].
  apply go_on_context in H0 as (E & Hp' & ->). rewrite E in *. simpl in *. split_and!; [done| |done]. naive_solver congruence.
Qed.

(** A callback of the timer that runs while there is a context would drop it. *)
Definition calm (e : event) (h : Hiredis) : Prop :=
  match e with Tick _ => h_redisContext h = false ∨ h_timeoutTimerRunning h = true | _ => True end.
Lemma step_keeps_sent now e h h' : nothing_pending h → step now e h = Ok h' →
  nothing_pending h' ∧ (calm e h → h_abandoned h' = h_abandoned h).
Proof.
  unfold nothing_pending. intros Hn H. destruct e; simpl in H |- *.
  - unfold Redis.issue in H. repeat case_match; run_inv; try done.
    all: try (apply go_on_context in H as (-> & Hp & ->)); naive_solver congruence.
  - unfold Redis.reply in H. case_match; run_inv; [done|].
    destruct (reply_one_context _ _ _ _ H1) as (Ec & Ep & Ea). case_match eqn:Eb; run_inv.
    + apply disconnect_context in H as (-> & -> & ->). simpl. split; [|done]. intros _.
      apply andb_prop in Eb as [_ Eb]. by apply bool_decide_eq_true in Eb.
    + rewrite Ec, Ea, Ep. split; [|done]. intros E. by rewrite Hn.
  - unfold tick in H. case_match; run_inv; [done|]. destruct o; cbn [connect] in *; run_inv.
    + rewrite (guard_context _ _ _ _ H). destruct (guard_same _ _ _ _ H) as (_ & _ & -> & -> & _). simpl.
      split; [done|]. intros [E|E]; [|congruence]. rewrite Hn by done. apply app_nil_r.
    + apply go_on_context in H as (-> & Hp & ->). simpl. split; [done|].
      intros [E|E]; [|congruence]. rewrite Hn by done. apply app_nil_r.
  - run_inv. unfold timer_thread. repeat case_match; done.
  - unfold onRedisConnect in H. run_inv. apply resume_waiters_context in H as (Ec & Hp & ->).
    destruct (timer_stop_same _ _ H0) as (_ & _ & Ep & Ea & _). rewrite Ec. simpl in *.
    rewrite (same_calls_context _ _ (or_intror H0)) in *. split; [|done]. intros E. rewrite Hp by done. rewrite Ep. by apply Hn.
  - unfold connection_failed in H. run_inv. apply null_replies_context in H as (-> & -> & ->).
    rewrite drop_all. split; [done|]. intros _. unfold onRedisConnect in H0. repeat case_match; run_inv; try done.
    by destruct (timer_start_same _ _ H0) as (_ & _ & _ & -> & _).
  - unfold connection_lost in H. run_inv. apply disconnect_context in H as (-> & -> & ->). simpl.
    apply null_replies_context in H0 as (_ & -> & ->). by rewrite drop_all.
  - unfold Redis.stop in H. repeat case_match; run_inv.
    + match goal with H : onRedisDisconnect _ _ _ = Ok _ |- _ => apply disconnect_context in H as (E1 & E2 & E3) end.
      simpl. rewrite E1, E2. done.
    + simpl. by destruct (h_redisContext h).
Qed.

(** ** Complete runs *)

Fixpoint calm_run (es : list (Z * event)) (h : Hiredis) : Prop :=
  match es with
  | [] => True
  | (now, e) :: es' => calm e h ∧ ∀ h', step now e h = Ok h' → calm_run es' h'
  end.
Definition issued (es : list (Z * event)) : list nat := es ≫= λ e, issued_by e.2.

Lemma steps_accounted es h h' : waiters_match h → steps es h = Ok h' →
  accounted_for h' ≡ₚ issued es ++ accounted_for h ∧ waiters_match h'.
Proof.
  revert h. induction es as [|[now e] es IH]; intros h Hw H; simpl in H; run_inv; [done|].
  destruct (step_accounted _ _ _ _ Hw H0) as (E & Hw'). destruct (IH _ Hw' H) as (-> & ?). split; [|done].
  rewrite E. simpl. solve_Permutation.
Qed.
Lemma steps_keep_sent es h h' : nothing_pending h → calm_run es h → steps es h = Ok h' →
  nothing_pending h' ∧ h_abandoned h' = h_abandoned h.
Proof.
  revert h. induction es as [|[now e] es IH]; intros h Hn Hc H; simpl in H, Hc; run_inv; [done|].
  destruct Hc as [Hc Hcs]. destruct (step_keeps_sent _ _ _ _ Hn H0) as (Hn' & Ha). specialize (Ha Hc).
  destruct (IH x Hn' (Hcs x H0) H) as (? & E). split; [done|congruence].
Qed.

(** C19: Every call is answered once.  In any run of the service from its start on,
    with any order of calls, replies, callbacks of the timer, connections that are
    made, fail or are lost, and a stop, the calls that have returned, those that wait
    for a connection, those whose callback hiredis has still to call and those sent
    over a context that was dropped are, each counted once, the calls that were made.
    If no callback of the timer runs while there is a context, none of them was
    dropped. *)
Theorem redis_calls_answered_once t0 timeout h0 es h :
  start t0 true true timeout = Ok h0 → steps es h0 = Ok h →
  (h_results h).*1 ++ (h_waiting h).*1 ++ users (h_pending h) ++ users (h_abandoned h) ≡ₚ issued es ∧
  (calm_run es h0 → h_abandoned h = []).
Proof.
  intros [= <-] H. split.
  - eapply steps_accounted in H as [E _]; [|done]. unfold accounted_for in E. rewrite E. simpl. by rewrite app_nil_r.
  - intros Hc. by eapply steps_keep_sent in H as [_ ->].
Qed.

(** ** A lost connection *)

Definition disconnected (p : caller * command) : option (nat * result) :=
  (λ id, (id, Error DISCONNECTED)) <$> user_id p.
Definition all_users (l : list (caller * command)) : Prop := Forall (λ p, p.1 ≠ Own) l.

(** Null replies to calls of service code. *)
Lemma null_replies_users now l h : h_pending h = l → all_users l →
  ∃ h', null_replies (length l) now h = Ok h' ∧ h_results h' = h_results h ++ omap disconnected l ∧ h_pending h' = [] ∧
    h_timeoutTimer h' = h_timeoutTimer h ∧ h_waiting h' = h_waiting h ∧ h_disconnectEvt h' = h_disconnectEvt h ∧
    h_redisVersion h' = h_redisVersion h ∧ h_timeoutTimerRunning h' = h_timeoutTimerRunning h.
Proof.
  revert h. induction l as [|[who c] l IH]; intros h Hp Hu.
  { exists h. by rewrite app_nil_r. }
  apply list.Forall_cons in Hu as [Hw Hu]. destruct who as [|id]; [done|]. simpl. unfold reply_one. rewrite Hp. simpl.
  destruct (IH (returns id (Error DISCONNECTED) (set_queued (leave c (h_queuedResponseTypes h)) (set_pending l h)))) as (h' & -> & E & Hs);
    [done|done|]. exists h'. simpl in *. rewrite E, <- app_assoc. done.
Qed.

(** A call that needs no newer server than the one there is, and whose request can be
    made. *)
Definition sendable (h : Hiredis) (w : nat * call) : Prop :=
  match w.2 with
  | Command c =>
      (∃ q, request_of fmt_int behind c = Ok q) ∧
      match needs_version c with
      | None => True
      | Some least => ∃ v, h_redisVersion h = Some v ∧ version_compare v least ≠ Lt
      end
  | GetServerVersion => False
  end.
Definition sent (w : nat * call) : option (caller * command) :=
  match w.2 with Command c => Some (User w.1, c) | GetServerVersion => None end.

Lemma go_on_sends now id c h : h_redisContext h = true → h_closing h = false → sendable h (id, Command c) →
  go_on now (User id) (Command c) h = Ok (set_pending (h_pending h ++ [(User id, c)]) h).
Proof.
  intros Hc Hcl [[q Hq] Hv]. unfold Redis.go_on. rewrite Hc. cbn [negb]. rewrite Hq, Hcl. simpl in *.
  destruct (needs_version c); [|done]. destruct Hv as (v' & -> & Hv). by rewrite decide_False.
Qed.
Lemma resume_waiters_sends now ws : ∀ h,
  h_redisContext h = true → h_closing h = false → NoDup ws.*1 → h_waiting h = ws → Forall (sendable h) ws →
  ∃ h', resume_waiters now (reverse ws.*1) h = Ok h' ∧ h_pending h' = h_pending h ++ omap sent (reverse ws) ∧ h_waiting h' = [] ∧
    h_results h' = h_results h.
Proof.
  induction ws as [|[id k] ws IH] using rev_ind; intros h Hc Hcl Hnd Hw Hs.
  { exists h. simpl. by rewrite app_nil_r. }
  rewrite fmap_app in *. simpl in *. rewrite !reverse_snoc. apply Forall_app in Hs as [Hs [Hk _]%list.Forall_cons].
  destruct k as [c|]; [|done]. cbn [Redis.resume_waiters]. unfold resume_waiter. rewrite Hw.
  apply list.NoDup_app in Hnd as (Hnd & Hnot & _).
  rewrite list_find_app_r by (apply list_find_None, list.Forall_forall; intros w Hw' E; apply (Hnot w.1); [by apply list_elem_of_fmap_2|set_solver]).
  cbn [list_find]. rewrite decide_True by done. cbn [fmap option_fmap option_map prod_map fst snd].
  cbv [Datatypes.id]. cbn [Nat.add]. rewrite delete_middle, app_nil_r.
  rewrite go_on_sends by done. simpl.
  edestruct (IH (set_pending (h_pending h ++ [(User id, c)]) (set_waiting ws h))) as (h' & -> & Hp & Hw' & Hr); [done..|].
  exists h'. simpl in *. rewrite Hp, <- app_assoc. done.
Qed.

Lemma steps_app l1 l2 h : steps (l1 ++ l2) h = (h' ← steps l1 h; steps l2 h').
Proof.
  revert h. induction l1 as [|[now e] l1 IH]; intros h; [done|]. simpl. destruct (step now e h); simpl; [apply IH|done].
Qed.
Definition issues (t : Z) (ws : list (nat * call)) : list (Z * event) := (λ w, (t, Issue w.1 w.2)) <$> ws.
Lemma issues_wait t ws : ∀ h l,
  h_redisContext h = false → h_disconnectEvt h = NotSet l →
  steps (issues t ws) h = Ok (set_waiting (h_waiting h ++ ws) (set_disconnectEvt (NotSet (reverse ws.*1 ++ l)) h)).
Proof.
  induction ws as [|[id k] ws IH]; intros h l Hc He; simpl.
  { destruct h; simpl in *. by rewrite He, app_nil_r. }
  unfold Redis.issue. rewrite Hc, He. simpl. rewrite (IH _ (id :: l)) by done. simpl.
  by rewrite reverse_cons, <- !app_assoc.
Qed.

Lemma thread_runs h : h_timeoutTimer h = Some STARTING →
  ∃ h', timer_thread h = h' ∧ h_timeoutTimer h' = Some RUNNING ∧ same_calls h h' ∧
    h_timeoutTimerRunning h' = h_timeoutTimerRunning h ∧ h_redisVersion h' = h_redisVersion h.
Proof. intros Ht. eexists. split; [done|]. unfold timer_thread. by rewrite Ht. Qed.
Lemma tick_connects t h : h_timeoutTimerRunning h = false →
  ∃ h', tick fmt_int behind t SetupOk h = Ok h' ∧ h_redisContext h' = true ∧ h_closing h' = false ∧ h_pending h' = [(Own, Info_)] ∧
    h_timeoutTimer h' = h_timeoutTimer h ∧ h_disconnectEvt h' = h_disconnectEvt h ∧ h_waiting h' = h_waiting h ∧
    h_results h' = h_results h ∧ h_redisVersion h' = h_redisVersion h.
Proof. intros Hr. unfold tick. rewrite Hr. eexists. split; [done|]. done. Qed.
Lemma connected_resumes t h l : h_timeoutTimer h = Some RUNNING → h_disconnectEvt h = NotSet l →
  ∃ h', onRedisConnect fmt_int behind t true h = resume_waiters t l h' ∧ h_redisContext h' = h_redisContext h ∧
    h_closing h' = h_closing h ∧ h_pending h' = h_pending h ∧ h_waiting h' = h_waiting h ∧ h_results h' = h_results h ∧
    h_redisVersion h' = h_redisVersion h.
Proof.
  intros Ht He. unfold onRedisConnect, timer_stop. rewrite Ht. cbn [mbind run_bind]. simpl h_disconnectEvt. rewrite He.
  eexists. split; [done|]. done.
Qed.

(** The connection is lost; the calls that come wait. *)
Lemma lost_and_wait t h ws :
  h_redisContext h = true → h_disconnectEvt h = IsSet → h_waiting h = [] → h_timeoutTimer h = Some STOPPED → all_users (h_pending h) →
  ∃ h2, steps ([(t, Lost)] ++ issues t ws) h = Ok h2 ∧ h_results h2 = h_results h ++ omap disconnected (h_pending h) ∧
    h_redisContext h2 = false ∧ h_pending h2 = [] ∧ h_waiting h2 = ws ∧ h_disconnectEvt h2 = NotSet (reverse ws.*1) ∧
    h_timeoutTimer h2 = Some STARTING ∧ h_timeoutTimerRunning h2 = h_timeoutTimerRunning h ∧ h_redisVersion h2 = h_redisVersion h.
Proof.
  intros Hc He Hw Ht Hu.
  destruct (null_replies_users t _ h eq_refl Hu) as (h1 & E1 & Er & Ep & Et & Ew & Ee & Ev & Etr).
  rewrite steps_app. cbn [Redis.steps Redis.step]. unfold connection_lost, onRedisDisconnect, timer_start. rewrite E1.
  cbn [mbind run_bind h_timeoutTimer set_closing set_timeWhenDisconnected set_context set_disconnectEvt]. rewrite Et, Ht.
  cbn [mbind run_bind]. erewrite issues_wait; [|done|simpl; by rewrite Ee, He]. eexists. split; [done|]. simpl.
  by rewrite Ew, Hw, app_nil_r.
Qed.
(** The timer connects. *)
Lemma reconnects t' t'' h l :
  h_disconnectEvt h = NotSet l → h_timeoutTimer h = Some STARTING → h_timeoutTimerRunning h = false →
  ∃ h3, steps [(t', TimerThread); (t', Tick SetupOk); (t'', Connected)] h = resume_waiters t'' l h3 ∧
    h_redisContext h3 = true ∧ h_closing h3 = false ∧ h_pending h3 = [(Own, Info_)] ∧ h_waiting h3 = h_waiting h ∧
    h_results h3 = h_results h ∧ h_redisVersion h3 = h_redisVersion h.
Proof.
  intros He Ht Hr. cbn [Redis.steps Redis.step mbind run_bind].
  destruct (thread_runs h Ht) as (h1 & -> & Ht1 & (Er1 & Ew1 & _ & _ & Ee1) & Hr1 & Ev1).
  destruct (tick_connects t' h1 ltac:(congruence)) as (h2 & -> & Ec2 & El2 & Ep2 & Et2 & Ee2 & Ew2 & Er2 & Ev2).
  cbn [mbind run_bind].
  destruct (connected_resumes t'' h2 l) as (h3 & -> & Ec3 & El3 & Ep3 & Ew3 & Er3 & Ev3); [congruence..|].
  exists h3. rewrite bind_ret. split_and!; congruence.
Qed.

End runs.

(** ** The theorems at runs *)

(** A first connection, a call that is answered, a lost connection with a call in
    flight, and a call that waits. *)
Definition a_run : list (Z * event) :=
  [(1, TimerThread); (1, Tick SetupOk); (2, Connected); (3, Reply (RString (str "redis_version:7.2.4"))); (4, TimerThread);
   (5, Issue 1 (Command (Get (str "a")))); (6, Reply RNil); (7, Issue 2 (Command (Get (str "b")))); (8, Lost);
   (9, Issue 3 (Command (Get (str "c"))))].
Definition after_a_run : Hiredis :=
  match start 0 true true None with
  | Ok h0 => match steps decimal [] a_run h0 with Ok h => h | Fault _ => connected_hiredis end
  | Fault _ => connected_hiredis
  end.
Lemma redis_calls_answered_once_witness :
  h_results after_a_run = [(1%nat, Value (RedisGetReply None)); (2%nat, Error DISCONNECTED)] ∧
  h_waiting after_a_run = [(3%nat, Command (Get (str "c")))] ∧
  (h_results after_a_run).*1 ++ (h_waiting after_a_run).*1 ++ users (h_pending after_a_run) ++ users (h_abandoned after_a_run)
    ≡ₚ [1; 2; 3]%nat.
Proof.
  split; [vm_compute; reflexivity|]. split; [vm_compute; reflexivity|].
  refine (proj1 (redis_calls_answered_once decimal [] 0 None _ a_run after_a_run eq_refl _)).
  vm_compute. reflexivity.
Defined.

Definition busy_hiredis : Hiredis := set_pending [(User 1, Get (str "a")); (User 2, Del (str "b"))] connected_hiredis.
