(* ===== verification/RedisTransactions.v ===== *)
(** * The Redis client: transactions

    [multi()], commands that the server queues, and [exec()] (or [discard()]) of
    src/services/redis/HiRedisService.cpp, together with a server.  The server is a
    function from a request to a reply; what the client relies on is the class
    [transactional]: the documented behaviour of MULTI, EXEC and DISCARD.  Commands are
    sent and answered in the order of the calls, with any number of commands in flight.

    While the connection lasts, [_queuedResponseTypes] has the types of the commands
    the server has queued, so [exec()] never sees another number of replies than it
    expects and gives each command the value of its reply. *)

From Stdlib Require Import Ascii String.
From stdpp Require Import base list option sets strings.
From Stdlib Require Import ZArith Lia.
From S2P Require Import Prelude.
From S2P Require Import StringUtils.
From S2P Require Import HttpCommon.
From S2P Require Import AsyncMutex.
From S2P Require Import Timer.
From S2P Require Import Redis.

Local Open Scope Z_scope.

Definition MULTI : request := Arguments_ [str "MULTI"].
Definition EXEC : request := Arguments_ [str "EXEC"].
Definition DISCARD : request := Arguments_ [str "DISCARD"].

(** What a server does with transactions; [queue s] are the requests of the open one. *)
Class transactional {S : Type} (serve : request → S → redisReply * S) (queue : S → option (list request)) : Prop := {
  multi_opens s : queue s = None → queue (serve MULTI s).2 = Some [] ∨ queue (serve MULTI s).2 = None;
  multi_not_nested s q : queue s = Some q → queue (serve MULTI s).2 = Some q;
  others_are_queued s q r : queue s = Some q → r ≠ MULTI → r ≠ EXEC → r ≠ DISCARD →
    ((serve r s).1 = RStatus (str "QUEUED") ∧ queue (serve r s).2 = Some (q ++ [r])) ∨
    (∃ e, (serve r s).1 = RError e ∧ queue (serve r s).2 = Some q);
  none_is_queued s r : queue s = None → r ≠ MULTI → queue (serve r s).2 = None ∧ says_queued (serve r s).1 = false;
  exec_closes s q : queue s = Some q →
    queue (serve EXEC s).2 = None ∧ ∀ es, (serve EXEC s).1 = RArray es → length es = length q;
  exec_without s : queue s = None → ∃ e, (serve EXEC s).1 = RError e;
  discard_closes s q : queue s = Some q → queue (serve DISCARD s).2 = None }.

Section session.
Context (fmt_int : Z → cstring) (behind : cstring).
Context {S : Type} (serve : request → S → redisReply * S) (queue : S → option (list request)).
Local Notation request_of := (request_of fmt_int behind).

Inductive session_event : Type := Call (id : nat) (k : call) | Answer.
(** The server answers the oldest command. *)
Definition session_step (now : Z) (e : session_event) (σ : Hiredis * S) : run (Hiredis * S) :=
  let '(h, s) := σ in
  match e with
  | Call id k => h ← issue fmt_int behind now id k h; Ok (h, s)
  | Answer =>
      match h_pending h with
      | [] => Ok (h, s)
      | (_, c) :: _ =>
          q ← request_of c;
          let '(r, s') := serve q s in
          h ← reply now r h; Ok (h, s')
      end
  end.
Fixpoint session (es : list (Z * session_event)) (σ : Hiredis * S) : run (Hiredis * S) :=
  match es with
  | [] => Ok σ
  | (now, e) :: es' => σ ← session_step now e σ; session es' σ
  end.
(** Service code does not ask for INFO. *)
Definition no_info (es : list (Z * session_event)) : Prop := ∀ t id, (t, Call id (Command Info_)) ∉ es.

(** A connection has just been made, to a server that knows DISCARD. *)
Definition fresh (h : Hiredis) (s : S) : Prop :=
  h_redisContext h = true ∧ h_closing h = false ∧ h_pending h = [] ∧ h_queuedResponseTypes h = [] ∧
  (∃ v, h_redisVersion h = Some v ∧ version_compare v (mkVersion 2 0 0) ≠ Lt) ∧ queue s = None.

(** The commands the server has queued, with their types. *)
Definition mirrored (cs : list command) (kinds : list reply_kind) (q : list request) : Prop :=
  Forall2 (λ c k, queues_as c = Some k) cs kinds ∧ Forall2 (λ c r, request_of c = Ok r) cs q.
Definition mirror (h : Hiredis) (s : S) : Prop :=
  match queue s with
  | None => h_queuedResponseTypes h = []
  | Some q => ∃ cs, mirrored cs (h_queuedResponseTypes h) q
  end.
Definition pending_ok (p : caller * command) : Prop := (∃ id, p.1 = User id) ∧ p.2 ≠ Info_.
Record session_inv (h : Hiredis) (s : S) : Prop := mkInv {
  si_context : h_redisContext h = true;
  si_closing : h_closing h = false;
  si_version : ∃ v, h_redisVersion h = Some v ∧ version_compare v (mkVersion 2 0 0) ≠ Lt;
  si_pending : Forall pending_ok (h_pending h);
  si_mirror : mirror h s }.

Lemma fresh_inv h s : fresh h s → session_inv h s.
Proof.
  intros (Hc & Hcl & Hp & Hq & Hv & Hs). constructor; [done..| |].
  - by rewrite Hp.
  - unfold mirror. by rewrite Hs.
Qed.

(** A version that knows DISCARD knows the commands of transactions. *)
Lemma version_knows v : version_compare v (mkVersion 2 0 0) ≠ Lt → version_compare v (mkVersion 1 2 0) ≠ Lt.
Proof.
  unfold version_compare. simpl. destruct (Z.compare_spec (major v) 2), (Z.compare_spec (major v) 1); try done; lia.
Qed.

(** Only [exec] and [discard] clear the types, and here they are always sent. *)
Lemma issue_inv now id k h h' s :
  session_inv h s → k ≠ Command Info_ → issue fmt_int behind now id k h = Ok h' → session_inv h' s.
Proof.
  intros [Hc Hcl (v & Hv & Hv2) Hp Hm] Hk H. unfold issue in H. rewrite Hc in H. destruct k as [c|]; simpl in H.
  - assert (∀ e, leave c (h_queuedResponseTypes h) = h_queuedResponseTypes h →
      finish now (User id) (Error e) (set_queued (leave c (h_queuedResponseTypes h)) h) = Ok h' → session_inv h' s) as Hfail.
    { intros e El He. simpl in He. run_inv. constructor; simpl; eauto. unfold mirror. simpl. by rewrite El. }
    assert (request_of c ≫= (λ _, if h_closing h then Fault StdTerminate else Ok (set_pending (h_pending h ++ [(User id, c)]) h)) = Ok h' →
      session_inv h' s) as Hsend.
    { intros He. run_inv. rewrite Hcl in He. run_inv. constructor; simpl; eauto.
      apply Forall_app; split; [done|]. repeat constructor; simpl; [eauto|congruence]. }
    rewrite Hc, Hv in H. cbn [negb] in H. destruct (needs_version c) as [least|] eqn:En; [|by apply Hsend].
    case_decide as Hlt; [|by apply Hsend]. apply (Hfail FUNCTION_NOT_AVAILABLE_IN_SERVER); [|done].
    destruct c; try done; simpl in En; simplify_eq; first [by destruct Hv2 | by destruct (version_knows v Hv2)].
  - run_inv. constructor; simpl; eauto.
Qed.

Lemma plain_request c k r : queues_as c = Some k → request_of c = Ok r → r ≠ MULTI ∧ r ≠ EXEC ∧ r ≠ DISCARD.
Proof. destruct c; simpl; intros Hk Hr; try discriminate Hk; run_inv; split_and!; intros E; discriminate E. Qed.

Lemma resume_queued c k kinds : queues_as c = Some k →
  resume c (Some (RStatus (str "QUEUED"))) kinds = Ok (Error QUEUED, kinds ++ [k]).
Proof. destruct c; intros [= <-]; reflexivity. Qed.
Lemma resume_refused c k e kinds : queues_as c = Some k → resume c (Some (RError e)) kinds = Ok (Error UNKNOWN, kinds).
Proof. destruct c; intros [= <-]; reflexivity. Qed.

Context {Htx : transactional serve queue}.

(** How the reply to a command changes the types, and what the server then has queued. *)
Lemma resume_mirror h s c r res q' :
  mirror h s → c ≠ Info_ → request_of c = Ok r →
  resume c (Some (serve r s).1) (h_queuedResponseTypes h) = Ok (res, q') →
  mirror (set_queued q' h) (serve r s).2.
Proof.
  unfold mirror. intros Hm Hc Hr H. simpl. destruct (queues_as c) as [k|] eqn:Ek.
  - destruct (plain_request c k r Ek Hr) as (N1 & N2 & N3).
    assert (c ≠ Exec ∧ c ≠ Discard) as [Nc Nd] by (destruct c; done).
    assert (leave c (h_queuedResponseTypes h) = h_queuedResponseTypes h) as El by (by destruct c).
    destruct (queue s) as [q|] eqn:Eq.
    + destruct Hm as [cs [Hk Hq]]. destruct (others_are_queued s q r Eq N1 N2 N3) as [[E ->]|(e & E & ->)]; rewrite E in H.
      * exists (cs ++ [c]). rewrite (resume_queued c k) in H by done. simplify_eq.
        split; apply Forall2_app; repeat constructor; done.
      * exists cs. rewrite (resume_refused c k) in H by done. simplify_eq. done.
    + destruct (none_is_queued s r Eq N1) as [-> E]. rewrite <- Hm.
      assert (resume c (Some (serve r s).1) (h_queuedResponseTypes h) = Ok (res, q') → q' = leave c (h_queuedResponseTypes h)) as Hl.
      { unfold resume. rewrite Ek, E. intros H'. destruct c, (serve r s).1; try done; run_inv; done. }
      by rewrite Hl, El.
  - destruct c; try done; cbn [Redis.request_of] in Hr; run_inv; cbn [resume queues_as] in H.
    + change (Arguments_ _) with MULTI in *.
      assert (q' = h_queuedResponseTypes h) as -> by (destruct (serve MULTI s).1; simpl in H; run_inv; done).
      destruct (queue s) as [q|] eqn:Eq; [by rewrite (multi_not_nested s q)|].
      destruct (multi_opens s Eq) as [->| ->]; [|done]. exists []. rewrite Hm. by split.
    + change (Arguments_ _) with EXEC in *.
      assert (q' = []) as -> by (run_inv; done).
      destruct (queue s) as [q|] eqn:Eq; [by destruct (exec_closes s q Eq) as [-> _]|].
      by destruct (none_is_queued s EXEC Eq) as [-> _].
    + change (Arguments_ _) with DISCARD in *.
      assert (q' = []) as -> by (destruct (serve DISCARD s).1; simpl in H; run_inv; done).
      destruct (queue s) as [q|] eqn:Eq; [by rewrite (discard_closes s q)|].
      by destruct (none_is_queued s DISCARD Eq) as [-> _].
Qed.

(** The oldest command gets its reply. *)
Lemma answer_step now h s id c rest r :
  session_inv h s → h_pending h = (User id, c) :: rest → request_of c = Ok r →
  session_step now Answer (h, s) =
  ('(res, q) ← resume c (Some (serve r s).1) (h_queuedResponseTypes h);
   Ok (returns id res (set_queued q (set_pending rest h)), (serve r s).2)).
Proof.
  intros Hi Hp Hr. unfold session_step. rewrite Hp, Hr. cbn [mbind run_bind]. destruct (serve r s) as [rp s'] eqn:Es.
  unfold reply, reply_one. rewrite (si_context _ _ Hi), Hp. cbn [negb fst snd].
  destruct (resume c (Some rp) (h_queuedResponseTypes h)) as [[res q]|f]; simpl; [|done]. by rewrite (si_closing _ _ Hi).
Qed.

Lemma session_inv_step now e h s h' s' :
  session_inv h s → (∀ id, e ≠ Call id (Command Info_)) → session_step now e (h, s) = Ok (h', s') → session_inv h' s'.
Proof.
  intros Hi Hn H. destruct e as [id k|].
  - simpl in H. run_inv. eapply issue_inv; [done| |done]. intros ->. by apply (Hn id).
  - destruct (h_pending h) as [|[who c] rest] eqn:Hp.
    { simpl in H. rewrite Hp in H. by run_inv. }
    pose proof (si_pending _ _ Hi) as Hpk. rewrite Hp in Hpk. apply list.Forall_cons in Hpk as [[[id Hid] Hc] Hrest].
    simpl in Hid, Hc. subst who. destruct (request_of c) as [r|f] eqn:Hr.
    2:{ simpl in H. rewrite Hp, Hr in H. discriminate H. }
    rewrite (answer_step now h s id c rest r Hi Hp Hr) in H. run_inv. simplify_eq.
    pose proof (resume_mirror h s c r _ _ (si_mirror _ _ Hi) Hc Hr H0) as Hm. destruct Hi. constructor; simpl; done.
Qed.
Lemma session_reachable es h s h' s' :
  session_inv h s → no_info es → session es (h, s) = Ok (h', s') → session_inv h' s'.
Proof.
  revert h s. induction es as [|[now e] es IH]; intros h s Hi Hn H; simpl in H; run_inv; [done|].
  destruct x as [h1 s1]. eapply (IH h1 s1); [|intros t id Hin; by apply (Hn t id), elem_of_cons; right|done].
  eapply session_inv_step; [done| |done]. intros id ->. by apply (Hn now id), elem_of_cons; left.
Qed.

(** The value [exec()] gives for a command and its reply. *)
Definition exec_value (c : command) (r : redisReply) : option variant :=
  k ← queues_as c; match exec_element k r with Ok v => Some v | Fault _ => None end.
Lemma exec_loop_values cs kinds rs vs :
  Forall2 (λ c k, queues_as c = Some k) cs kinds → Forall3 (λ c r v, exec_value c r = Some v) cs rs vs → exec_loop kinds rs = Ok vs.
Proof.
  intros Hk H. revert kinds Hk. induction H as [|c r v cs rs vs Hv H IH]; intros kinds Hk; inversion Hk as [|? k ? ks Hk1 Hk2]; subst; [done|].
  unfold exec_value in Hv. rewrite Hk1 in Hv. simpl in *. destruct (exec_element k r); simplify_eq. simpl. by rewrite IH.
Qed.
Lemma exec_loop_fails cs kinds rs :
  Forall2 (λ c k, queues_as c = Some k) cs kinds → Exists (λ cr, exec_value cr.1 cr.2 = None) (zip cs rs) →
  exec_loop kinds rs = Fault StdTerminate.
Proof.
  intros Hk. revert rs. induction Hk as [|c k cs ks Hk1 Hk IH]; intros [|r rs] H; simpl in *; try by apply List.Exists_nil in H.
  apply List.Exists_cons in H. simpl in H. unfold exec_value at 1 in H. rewrite Hk1 in H. simpl in H.
  assert (exec_element k r = Fault StdTerminate ∨ ∃ v, exec_element k r = Ok v) as [E|[v E]] by (destruct k, r; simpl; eauto);
    rewrite E in *; [done|]. destruct H as [[=]|H]. simpl. by rewrite IH.
Qed.

(** C20: Transactions.  On a connection to a server that keeps to the documented
    behaviour of MULTI, EXEC and DISCARD and is of version 2.0.0 or later (one that knows
    DISCARD), from the time the connection was made ([fresh]: nothing is in flight and no types
    are kept) and as long as it is not lost, with any number of calls in flight of which none is [info()], and none of
    which has terminated the program: when
    the array of replies to EXEC arrives, it has one reply for each command that was
    queued since MULTI; [exec()] returns the values of these replies, each read as its
    command says, in the order of the commands, and forgets the types; and it
    terminates the program if one of the replies is not of the type its command is
    meant to have.  An [info()] in a transaction, a connection that is lost in one and an old
    server are in RedisAnomalies.v ([info_in_a_transaction_terminates],
    [lost_transaction_terminates_the_next], [discard_forgets_on_old_servers]). *)
Theorem exec_returns_the_transaction h0 s0 es h s id rest rs now :
  fresh h0 s0 → no_info es → session es (h0, s0) = Ok (h, s) →
  h_pending h = (User id, Exec) :: rest → (serve EXEC s).1 = RArray rs →
  ∃ q cs, queue s = Some q ∧ Forall2 (λ c r, request_of c = Ok r) cs q ∧ length rs = length cs ∧
    (∀ vs, Forall3 (λ c r v, exec_value c r = Some v) cs rs vs →
       ∃ h', session_step now Answer (h, s) = Ok (h', (serve EXEC s).2) ∧
         h_results h' = h_results h ++ [(id, Values vs)] ∧ h_queuedResponseTypes h' = [] ∧ h_pending h' = rest) ∧
    (Exists (λ cr, exec_value cr.1 cr.2 = None) (zip cs rs) → session_step now Answer (h, s) = Fault StdTerminate).
Proof.
  intros Hf Hn Hs Hp Hr. pose proof (session_reachable _ _ _ _ _ (fresh_inv _ _ Hf) Hn Hs) as Hi.
  pose proof (si_mirror _ _ Hi) as Hm. unfold mirror in Hm. destruct (queue s) as [q|] eqn:Eq.
  2:{ destruct (exec_without s Eq) as [e E]. congruence. }
  destruct Hm as [cs [Hk Hq]]. destruct (exec_closes s q Eq) as [_ Hlen]. specialize (Hlen rs Hr).
  pose proof (Forall2_length _ _ _ Hk). pose proof (Forall2_length _ _ _ Hq).
  exists q, cs. split_and!; [done|done|lia| |].
  all: [> intros vs Hv | intros Hv]; rewrite (answer_step now h s id Exec rest EXEC Hi Hp) by done; rewrite Hr;
    cbn [resume exec_reply]; rewrite decide_True by lia.
  - rewrite (exec_loop_values _ _ _ _ Hk Hv). cbn [mbind run_bind]. eexists. split; [done|]. done.
  - by rewrite (exec_loop_fails _ _ _ Hk Hv).
Qed.
End session.

(** ** A server, and the theorem at it *)

Module ToyServer.
(** Strings that are set and read, and an open transaction. *)
Record state := mkState { ts_values : list (cstring * cstring); ts_queue : option (list request) }.
Definition value (k : cstring) (m : list (cstring * cstring)) : option cstring := snd ∘ snd <$> list_find (λ kv, kv.1 = k) m.
Definition apply_one (r : request) (m : list (cstring * cstring)) : redisReply * list (cstring * cstring) :=
  match r with
  | Arguments_ [verb; k; v] => if decide (verb = str "SET") then (RStatus (str "OK"), (k, v) :: m) else (RError (str "ERR"), m)
  | Arguments_ [verb; k] =>
      if decide (verb = str "GET") then (match value k m with Some v => RString v | None => RNil end, m)
      else if decide (verb = str "STRLEN") then (RInteger (Z.of_nat (length (default [] (value k m)))), m)
      else (RError (str "ERR"), m)
  | _ => (RError (str "ERR"), m)
  end.
Fixpoint apply_all (rs : list request) (m : list (cstring * cstring)) : list redisReply * list (cstring * cstring) :=
  match rs with
  | [] => ([], m)
  | r :: rs' => let '(e, m1) := apply_one r m in let '(es, m2) := apply_all rs' m1 in (e :: es, m2)
  end.
#[local] Instance request_eq_dec : EqDecision request.
Proof. solve_decision. Defined.
Definition serve (r : request) (s : state) : redisReply * state :=
  match ts_queue s with
  | None =>
      if decide (r = MULTI) then (RStatus (str "OK"), mkState (ts_values s) (Some []))
      else let '(e, m) := apply_one r (ts_values s) in (e, mkState m None)
  | Some q =>
      if decide (r = MULTI) then (RError (str "ERR nested"), s)
      else if decide (r = EXEC) then let '(es, m) := apply_all q (ts_values s) in (RArray es, mkState m None)
      else if decide (r = DISCARD) then (RStatus (str "OK"), mkState (ts_values s) None)
      else (RStatus (str "QUEUED"), mkState (ts_values s) (Some (q ++ [r])))
  end.
Lemma apply_all_length rs m : length (apply_all rs m).1 = length rs.
Proof.
  revert m. induction rs as [|r rs IH]; intros m; [done|]. simpl. destruct (apply_one r m) as [e m1].
  specialize (IH m1). destruct (apply_all rs m1). simpl in *. lia.
Qed.
Lemma apply_one_not_queued r m : says_queued (apply_one r m).1 = false.
Proof. unfold apply_one. repeat case_match; reflexivity. Qed.
Lemma serve_transactional : transactional serve ts_queue.
Proof.
  split; unfold serve; intros *.
  - intros ->. by left.
  - intros E. by rewrite E.
  - intros -> ? ? ?. rewrite !decide_False by done. by left.
  - intros -> ?. rewrite decide_False by done. pose proof (apply_one_not_queued r (ts_values s)). by destruct (apply_one r (ts_values s)).
  - intros ->. rewrite decide_False by done. rewrite decide_True by done.
    pose proof (apply_all_length q (ts_values s)). destruct (apply_all q (ts_values s)). split; [done|]. simpl in *. congruence.
  - intros ->. rewrite decide_False by done. simpl. by eexists.
  - intros ->. done.
Qed.
End ToyServer.

Lemma set_request fmt_int behind c k v : request_of fmt_int behind c = Ok (Arguments_ [str "SET"; k; v]) → c = Set_ k v.
Proof. destruct c; intros H; simpl in H; run_inv; try discriminate; congruence. Qed.
Lemma get_request fmt_int behind c k : request_of fmt_int behind c = Ok (Arguments_ [str "GET"; k]) → c = Get k.
Proof. destruct c; intros H; simpl in H; run_inv; try discriminate; congruence. Qed.

(** Four commands in flight: MULTI, SET, GET and EXEC. *)
Definition transaction : list (Z * session_event) :=
  [(1, Call 1 (Command Multi)); (1, Call 2 (Command (Set_ (str "a") (str "1")))); (1, Call 3 (Command (Get (str "a"))));
   (1, Call 4 (Command Exec)); (2, Answer); (2, Answer); (2, Answer)].
Definition toy_session : run (Hiredis * ToyServer.state) :=
  session decimal [] ToyServer.serve transaction (connected_hiredis, ToyServer.mkState [] None).
Definition toy_end : Hiredis * ToyServer.state :=
  match toy_session with Ok σ => σ | Fault _ => (connected_hiredis, ToyServer.mkState [] None) end.
Lemma exec_returns_the_transaction_witness :
  ∃ h', session_step decimal [] ToyServer.serve 3 Answer toy_end = Ok (h', ToyServer.mkState [(str "a", str "1")] None) ∧
    h_results h' = [(1%nat, Void); (2%nat, Error QUEUED); (3%nat, Error QUEUED);
                    (4%nat, Values [RedisSetReply true (str "OK"); RedisGetReply (Some (str "1"))])].
Proof.
  destruct (exec_returns_the_transaction decimal [] ToyServer.serve ToyServer.ts_queue (Htx := ToyServer.serve_transactional)
    connected_hiredis (ToyServer.mkState [] None) transaction toy_end.1 toy_end.2 4 [] [RStatus (str "OK"); RString (str "1")] 3)
    as (q & cs & Hq & Hcs & Hl & Hv & _).
  - vm_compute. split_and!; try reflexivity. exists (mkVersion 7 2 0). by split.
  - intros t id Hin. unfold transaction in Hin. repeat (apply elem_of_cons in Hin as [[=]|Hin]). by apply not_elem_of_nil in Hin.
  - vm_compute. reflexivity.
  - vm_compute. reflexivity.
  - vm_compute. reflexivity.
  - destruct (Hv [RedisSetReply true (str "OK"); RedisGetReply (Some (str "1"))]) as (h' & E & Er & _).
    + vm_compute in Hq. injection Hq as <-. clear -Hcs.
      inversion Hcs as [|c1 ? cs1 ? H1 Hcs1]; subst. inversion Hcs1 as [|c2 ? cs2 ? H2 Hcs2]; subst. inversion Hcs2; subst.
      apply set_request in H1 as ->. apply get_request in H2 as ->. repeat constructor.
    + exists h'. rewrite (surjective_pairing toy_end), E, Er. vm_compute. split; reflexivity.
Defined.
