(* ===== verification/RedisAnomalies.v ===== *)
(** * The Redis client: runs in which it does not do what it means to

    Each theorem is a run of the service of Redis.v, or a fact about one of its
    functions, that its interface (include/ichor/services/redis/IRedis.h) does not
    lead one to expect. *)

From Stdlib Require Import Ascii String.
From stdpp Require Import base list option strings.
From Stdlib Require Import ZArith Lia.
From S2P Require Import Prelude.
From S2P Require Import StringUtils.
From S2P Require Import HttpCommon.
From S2P Require Import AsyncMutex.
From S2P Require Import Timer.
From S2P Require Import Redis.
From S2P Require Import RedisText.
From S2P Require Import RedisTransactions.

Local Open Scope Z_scope.

(** ** Requests *)

(** A time in milliseconds, or the time at which a key expires, is sent as a number of
    seconds from now. *)
Theorem times_are_sent_as_seconds fmt_int key value t :
  let with_time ex px exat pxat := formatSet fmt_int key value (mkSetOptions ex px exat pxat false false false false) in
  with_time None (Some t) None None = with_time (Some t) None None None ∧
  with_time None None (Some t) None = with_time (Some t) None None None ∧
  with_time None None None (Some t) = with_time (Some t) None None None.
Proof. done. Qed.

(** Increments are cut to 32 bits: adding 2^32 adds nothing. *)
Theorem increments_are_cut fmt_int behind keys n :
  request_of fmt_int behind (IncrBy keys (n + 2 ^ 32)) = request_of fmt_int behind (IncrBy keys n) ∧
  request_of fmt_int behind (DecrBy keys (n + 2 ^ 32)) = request_of fmt_int behind (DecrBy keys n).
Proof.
  assert (as_int (n + 2 ^ 32) = as_int n) as E.
  { unfold as_int. replace (n + 2 ^ 32 + 2 ^ 31) with (n + 2 ^ 31 + 1 * 2 ^ 32) by lia. by rewrite Z.mod_add by lia. }
  cbn [request_of]. by rewrite E.
Qed.

(** ** Replies *)

(** INCRBYFLOAT is answered with a string, and the result is always 0. *)
Theorem incrByFloat_gives_zero keys incr s kinds :
  resume (IncrByFloat keys incr) (Some (RString s)) kinds = Ok (Value (RedisIntegerReply 0), kinds).
Proof. done. Qed.
(** A SET that is not executed (NX, XX), and a GETDEL of a key that does not exist, are
    answered with nil; a string is then made from a null pointer. *)
Theorem nil_replies_fault key value opts kinds :
  resume (SetOpts key value opts) (Some RNil) kinds = Fault NullString ∧
  resume (GetDel key) (Some RNil) kinds = Fault NullString ∧
  resume (Get key) (Some RNil) kinds = Ok (Value (RedisGetReply None), kinds).
Proof. done. Qed.
(** A value is cut at its first NUL when it is read, although it is sent whole. *)
Theorem values_are_cut a b kinds key :
  NUL ∉ a → resume (Get key) (Some (RString (a ++ NUL :: b))) kinds = Ok (Value (RedisGetReply (Some a)), kinds).
Proof.
  intros H. cbn [resume queues_as says_queued plain_reply reply_str]. unfold c_str.
  change (a ++ NUL :: b) with (a ++ [NUL] ++ b). rewrite search_first by done. by rewrite take_app_length.
Qed.
(** In a transaction the reply to AUTH, a status, terminates [exec()]; so does a SET
    that is not executed, and any command that fails. *)
Theorem exec_terminates_on :
  exec_reply [KAuth] (RArray [RStatus (str "OK")]) = Fault StdTerminate ∧
  exec_reply [KSet] (RArray [RNil]) = Fault StdTerminate ∧
  exec_reply [KInteger] (RArray [RError (str "WRONGTYPE")]) = Fault StdTerminate.
Proof. done. Qed.

(** ** Runs *)

Local Notation steps := (steps decimal []).
Definition OK : redisReply := RStatus (str "OK").
Definition IN_QUEUE : redisReply := RStatus (str "QUEUED").
Definition info_reply : redisReply := RString (info_text [] (str "7.2.4") []).

(** The types of commands that were queued are kept when the connection is lost, and
    the next transaction, on the new connection, terminates the program. *)
Theorem lost_transaction_terminates_the_next :
  steps [(1, Issue 1 (Command Multi)); (1, Reply OK); (1, Issue 2 (Command (Set_ (str "a") (str "1")))); (1, Reply IN_QUEUE);
         (2, Lost); (3, TimerThread); (3, Tick SetupOk); (3, Connected); (4, Reply info_reply);
         (5, Issue 3 (Command Multi)); (5, Reply OK); (5, Issue 4 (Command (Get (str "a")))); (5, Reply IN_QUEUE);
         (6, Issue 5 (Command Exec)); (6, Reply (RArray [RNil]))] connected_hiredis = Fault StdTerminate.
Proof. vm_compute. reflexivity. Qed.
(** INFO in a transaction is queued by the server but not noted by the client. *)
Theorem info_in_a_transaction_terminates :
  steps [(1, Issue 1 (Command Multi)); (1, Reply OK); (1, Issue 2 (Command Info_)); (1, Reply IN_QUEUE);
         (1, Issue 3 (Command Exec)); (1, Reply (RArray [info_reply]))] connected_hiredis = Fault StdTerminate.
Proof. vm_compute. reflexivity. Qed.
(** A server that knows MULTI but not DISCARD: [discard()] says that it is not
    available, forgets the types all the same, and [exec()] terminates. *)
Theorem discard_forgets_on_old_servers :
  steps [(1, Issue 1 (Command Multi)); (1, Reply OK); (1, Issue 2 (Command (Get (str "a")))); (1, Reply IN_QUEUE);
         (1, Issue 3 (Command Discard)); (1, Issue 4 (Command Exec)); (1, Reply (RArray [RNil]))]
    (set_version (Some (mkVersion 1 2 6)) connected_hiredis) = Fault StdTerminate.
Proof. vm_compute. reflexivity. Qed.

(** When the service gives up connecting it asks to be stopped; calls that wait stay
    suspended, and [stop()] gives hiredis a null context. *)
Definition given_up : run Hiredis :=
  steps [(1, Lost); (2, Issue 1 (Command (Get (str "a")))); (3, TimerThread); (4, Tick SetupOk); (20000, ConnectFailed)] connected_hiredis.
Theorem giving_up_strands_calls :
  ∃ h, given_up = Ok h ∧ h_stopEvents h = 1%nat ∧ h_waiting h = [(1%nat, Command (Get (str "a")))] ∧
    stop 20001 h = Fault NullContext.
Proof. eexists. split; [vm_compute; reflexivity|]. split_and!; reflexivity. Qed.

(** A connection that is lost before the timer's thread has seen that it is to stop is
    not made again: the timer ends, and all calls return DISCONNECTED. *)
Theorem lost_while_the_timer_stops :
  ∃ h, steps [(1, Tick SetupOk); (2, Connected); (3, Reply info_reply); (4, Lost); (5, TimerThread);
              (6, Issue 1 (Command (Get (str "a"))))]
         (set_timeoutTimer (Some RUNNING) (set_disconnectEvt (NotSet []) (set_context false connected_hiredis))) = Ok h ∧
    h_timeoutTimer h = Some STOPPED ∧ h_redisContext h = false ∧ is_set (h_disconnectEvt h) = true ∧
    h_results h = [(1%nat, Error DISCONNECTED)].
Proof. eexists. split; [vm_compute; reflexivity|]. split_and!; reflexivity. Qed.

(** A server whose INFO has no version, or one that cannot be read: the error is noted
    but the service starts, and commands that look at the version read an empty
    optional. *)
Theorem starts_without_a_version :
  ∃ h h0, start 0 true true None = Ok h0 ∧
    steps [(1, TimerThread); (1, Tick SetupOk); (2, Connected); (3, Reply (RString (str "redis_version:7.0-rc1")))] h0 = Ok h ∧
    h_started h = Some true ∧ h_redisVersion h = None ∧ h_stopEvents h = 0%nat ∧
    steps [(4, Issue 1 (Command Multi))] h = Fault EmptyOptional.
Proof. eexists _, _. split; [reflexivity|]. split; [vm_compute; reflexivity|]. split_and!; reflexivity. Qed.

(** A callback of the timer that was queued before the timer was stopped drops the
    connection that has just been made; calls that were sent are not answered. *)
Theorem late_tick_drops_the_connection :
  ∃ h, steps [(1, Issue 1 (Command (Get (str "a")))); (1, Tick SetupOk)] connected_hiredis = Ok h ∧
    h_abandoned h = [(User 1, Get (str "a"))] ∧ h_pending h = [(Own, Info_)].
Proof. eexists. split; [vm_compute; reflexivity|]. split; reflexivity. Qed.

(** A command while [stop()] waits for the last reply terminates the program. *)
Theorem command_while_stopping_terminates :
  steps [(1, Issue 1 (Command (Get (str "a")))); (2, Stop); (3, Issue 2 (Command (Get (str "b"))))] connected_hiredis = Fault StdTerminate.
Proof. vm_compute. reflexivity. Qed.
