(* ===== verification/Factories.v ===== *)
(** * Factories of connections and of loggers

    include/ichor/services/network/ClientFactory.h and include/ichor/services/logging/
    LoggerFactory.h: services that create another service for each service that asks
    for a connection or a logger, let only that service see it (with a filter), and
    stop it when it is not needed any more.

    What a factory promises to those that ask is the class [PerRequester]; both
    factories are instances, and the theorem on sequences of requests is proved from
    the class.  Maps are those of DenseMap.v; the id of a new service comes from the
    counter of the manager. *)

From stdpp Require Import base list option sets.
From Stdlib Require Import ZArith Lia.
From S2P Require Import Prelude.
From S2P Require Import DenseMap.
From S2P Require Import Events.

Local Open Scope Z_scope.

(** ** What the factories do to the manager and its queue *)

(** A service that was created, the service its filter names, and its priority. *)
Record created := mkCreated { cr_id : Z; cr_filter : Z; cr_priority : Z; cr_level : option Z }.
Record Outside := mkOutside {
  out_next : Z;                      (* the next service id *)
  out_created : list created;
  out_stops : list (option Z * Z) }. (* StopServiceEvents: the priority, if given, and the service *)
Definition createServiceManager (filter priority : Z) (level : option Z) (o : Outside) : Z * Outside :=
  (out_next o, mkOutside (out_next o + 1) (out_created o ++ [mkCreated (out_next o) filter priority level]) (out_stops o)).
Definition push_stops (l : list (option Z * Z)) (o : Outside) : Outside :=
  mkOutside (out_next o) (out_created o) (out_stops o ++ l).

(** ** [ClientFactory] *)

Record ClientFactory := mkClientFactory {
  cf_connectionCounter : Z;
  cf_connections : list (Z * list (Z * Z));   (* requesting service → connection id → service *)
  cf_tracking : bool;                          (* _trackerRegistration *)
  cf_outside : Outside }.

Definition createNewConnection (svc priority : Z) (f : ClientFactory) : Z * ClientFactory :=
  let count := wrap64 (cf_connectionCounter f + 1) in
  let '(id, o) := createServiceManager svc priority None (cf_outside f) in
  match dfind svc (cf_connections f) with
  | None => (count, mkClientFactory count (demplace svc (demplace count id []) (cf_connections f)) (cf_tracking f) o)
  | Some _ => (count, mkClientFactory count (dupdate svc (demplace count id) (cf_connections f)) (cf_tracking f) o)
  end.
Definition removeConnection (svc connectionId : Z) (f : ClientFactory) : ClientFactory :=
  match dfind svc (cf_connections f) with
  | None => f
  | Some m =>
      match dfind connectionId m with
      | None => f
      | Some id =>
          let m' := derase connectionId m in
          let connections := dupdate svc (λ _, m') (cf_connections f) in
          mkClientFactory (cf_connectionCounter f)
            (match m' with [] => derase svc connections | _ => connections end)
            (cf_tracking f) (push_stops [(None, id)] (cf_outside f))
      end
  end.
(** The properties of a request: whether there are any, and an address and a port. *)
Record asked := mkAsked { as_properties : bool; as_address : bool; as_port : bool }.
Definition cf_handleDependencyRequest (a : asked) (svc priority : Z) (f : ClientFactory) : ClientFactory :=
  if negb (as_properties a) then f
  else if negb (as_address a) then f
  else if negb (as_port a) then f
  else if dcontains svc (cf_connections f) then f
  else
    let '(id, o) := createServiceManager svc priority None (cf_outside f) in
    mkClientFactory (wrap64 (cf_connectionCounter f + 1))
      (demplace svc (demplace (cf_connectionCounter f) id []) (cf_connections f)) (cf_tracking f) o.
Definition cf_handleDependencyUndoRequest (svc : Z) (f : ClientFactory) : ClientFactory :=
  match dfind svc (cf_connections f) with
  | None => f
  | Some m =>
      mkClientFactory (cf_connectionCounter f) (derase svc (cf_connections f)) (cf_tracking f)
        (push_stops ((λ c, (Some INTERNAL_DEPENDENCY_EVENT_PRIORITY, c.2)) <$> m) (cf_outside f))
  end.
Definition cf_start (f : ClientFactory) : ClientFactory := mkClientFactory (cf_connectionCounter f) (cf_connections f) true (cf_outside f).
Definition cf_stop (f : ClientFactory) : ClientFactory := mkClientFactory (cf_connectionCounter f) (cf_connections f) false (cf_outside f).

(** ** [LoggerFactory] *)

Record LoggerFactory := mkLoggerFactory {
  lf_tracking : bool;                (* _loggerTrackerRegistration *)
  lf_loggers : list (Z * Z);         (* requesting service → logger *)
  lf_defaultLevel : Z;
  lf_outside : Outside }.
Definition setDefaultLogLevel (level : Z) (f : LoggerFactory) : LoggerFactory :=
  mkLoggerFactory (lf_tracking f) (lf_loggers f) level (lf_outside f).
(** [level] is the LogLevel property of the request, if it has one. *)
Definition lf_handleDependencyRequest (level : option Z) (svc priority : Z) (f : LoggerFactory) : LoggerFactory :=
  match dfind svc (lf_loggers f) with
  | None =>
      let requestedLevel := default (lf_defaultLevel f) level in
      let '(id, o) := createServiceManager svc priority (Some requestedLevel) (lf_outside f) in
      mkLoggerFactory (lf_tracking f) (demplace svc id (lf_loggers f)) (lf_defaultLevel f) o
  | Some _ => f
  end.
Definition lf_handleDependencyUndoRequest (svc : Z) (f : LoggerFactory) : LoggerFactory :=
  match dfind svc (lf_loggers f) with
  | Some id =>
      mkLoggerFactory (lf_tracking f) (derase svc (lf_loggers f)) (lf_defaultLevel f)
        (push_stops [(Some INTERNAL_DEPENDENCY_EVENT_PRIORITY, id)] (lf_outside f))
  | None => f
  end.
Definition lf_start (f : LoggerFactory) : LoggerFactory := mkLoggerFactory true (lf_loggers f) (lf_defaultLevel f) (lf_outside f).
Definition lf_stop (f : LoggerFactory) : LoggerFactory := mkLoggerFactory false (lf_loggers f) (lf_defaultLevel f) (lf_outside f).

(** ** The promise *)

(** The books of a factory: who has which service, the services that were created with
    the service that may see them, and those that were told to stop. *)
Record books := mkBooks { b_owned : list (Z * Z); b_created : list (Z * Z); b_stopped : list Z }.
(** A service is added for a requester; those of a requester are stopped. *)
Definition adds (svc id : Z) (b b' : books) : Prop :=
  id ∉ (b_created b).*2 ∧ b_owned b' ≡ₚ (svc, id) :: b_owned b ∧ b_created b' ≡ₚ (svc, id) :: b_created b ∧ b_stopped b' = b_stopped b.
Definition drops (svc : Z) (b b' : books) : Prop :=
  b_owned b' ≡ₚ filter (λ p, p.1 ≠ svc) (b_owned b) ∧ b_created b' = b_created b ∧
  b_stopped b' ≡ₚ (filter (λ p, p.1 = svc) (b_owned b)).*2 ++ b_stopped b.

Class PerRequester (F : Type) := {
  pr_inv : F → Prop;
  pr_books : F → books;
  pr_request : Z → Z → F → F;
  pr_undo : Z → F → F;
  pr_request_inv svc prio f : pr_inv f → pr_inv (pr_request svc prio f);
  pr_request_spec svc prio f : pr_inv f →
    if decide (svc ∈ (b_owned (pr_books f)).*1) then pr_books (pr_request svc prio f) = pr_books f
    else ∃ id, adds svc id (pr_books f) (pr_books (pr_request svc prio f));
  pr_undo_inv svc f : pr_inv f → pr_inv (pr_undo svc f);
  pr_undo_spec svc f : pr_inv f → drops svc (pr_books f) (pr_books (pr_undo svc f)) }.

(** *** What follows from it *)

Record balanced (b : books) : Prop := mkBalanced {
  bal_sum : (b_created b).*2 ≡ₚ (b_owned b).*2 ++ b_stopped b;
  bal_fresh : NoDup (b_created b).*2;
  bal_filter : b_owned b ⊆ b_created b }.

Lemma adds_balanced svc id b b' : balanced b → adds svc id b b' → balanced b'.
Proof.
  intros [Hs Hf Ho] (Hid & Eo & Ec & Es). constructor.
  - rewrite Ec, Eo, Es. simpl. by rewrite Hs.
  - rewrite Ec. simpl. by constructor.
  - rewrite Eo, Ec. by apply list.list_subseteq_skip.
Qed.
Lemma drops_balanced svc b b' : balanced b → drops svc b b' → balanced b'.
Proof.
  intros [Hs Hf Ho] (Eo & Ec & Es). constructor; rewrite ?Ec.
  - rewrite Hs, Eo, Es, app_assoc. apply Permutation_app_tail. rewrite <- fmap_app. apply fmap_Permutation.
    rewrite (Permutation_app_comm (filter _ _)). symmetry. apply (filter_app_complement (λ p, p.1 = svc)).
  - done.
  - rewrite Eo. intros x Hx. apply list_elem_of_filter in Hx as [_ Hx]. by apply Ho.
Qed.

Section requests.
Context `{PerRequester F}.

Inductive asks : Type := Asks (svc priority : Z) | Undoes (svc : Z).
Definition ask (a : asks) (f : F) : F := match a with Asks svc prio => pr_request svc prio f | Undoes svc => pr_undo svc f end.
Definition ask_all (l : list asks) (f : F) : F := fold_left (λ f a, ask a f) l f.
(** Whether the last word of a service was a request. *)
Definition wants_step (svc : Z) (w : bool) (a : asks) : bool :=
  match a with
  | Asks s _ => if decide (s = svc) then true else w
  | Undoes s => if decide (s = svc) then false else w
  end.
Definition wants (svc : Z) (l : list asks) : bool := fold_left (wants_step svc) l false.

Lemma ask_owned a f svc : pr_inv f →
  svc ∈ (b_owned (pr_books (ask a f))).*1 ↔ wants_step svc (bool_decide (svc ∈ (b_owned (pr_books f)).*1)) a = true.
Proof.
  intros Hi. destruct a as [s prio|s]; simpl.
  - pose proof (pr_request_spec s prio f Hi) as Hs. case_decide as Hin.
    + rewrite Hs. case_decide; [subst; naive_solver|]. by rewrite bool_decide_eq_true.
    + destruct Hs as (id & _ & -> & _). simpl. rewrite elem_of_cons. case_decide; [naive_solver|]. rewrite bool_decide_eq_true. naive_solver.
  - destruct (pr_undo_spec s f Hi) as (-> & _). rewrite list_elem_of_fmap. case_decide as E; subst.
    + split; [|done]. intros (p & -> & [Hp _]%list_elem_of_filter). done.
    + rewrite bool_decide_eq_true, list_elem_of_fmap. split; intros (p & -> & Hp); exists p; (split; [done|]).
      * by apply list_elem_of_filter in Hp as [_ ?].
      * apply list_elem_of_filter. by split.
Qed.
Lemma ask_balanced a f : pr_inv f → balanced (pr_books f) → pr_inv (ask a f) ∧ balanced (pr_books (ask a f)).
Proof.
  intros Hi Hb. destruct a as [s prio|s]; simpl.
  - split; [by apply pr_request_inv|]. pose proof (pr_request_spec s prio f Hi) as Hs. case_decide; [by rewrite Hs|].
    destruct Hs as (id & Hs). by eapply adds_balanced.
  - split; [by apply pr_undo_inv|]. eapply drops_balanced; [done|]. by apply pr_undo_spec.
Qed.

(** Whatever requests come and are undone: the services a factory created are, each
    once, those it still has and those it has told to stop; a service it has for a
    requester was created with a filter for that requester; and it has one exactly for
    the requesters whose last word was a request. *)
Lemma requests_served l f : pr_inv f → b_owned (pr_books f) = [] → b_created (pr_books f) = [] → b_stopped (pr_books f) = [] →
  balanced (pr_books (ask_all l f)) ∧
  ∀ svc, svc ∈ (b_owned (pr_books (ask_all l f))).*1 ↔ wants svc l = true.
Proof.
  intros Hi Eo Ec Es.
  assert (balanced (pr_books f)) as Hb.
  { constructor; rewrite ?Eo, ?Ec, ?Es; simpl; [done|constructor|done]. }
  assert (∀ svc, bool_decide (svc ∈ (b_owned (pr_books f)).*1) = false) as Hw.
  { intros svc. rewrite Eo. by apply bool_decide_eq_false_2, not_elem_of_nil. }
  assert (∀ svc w, bool_decide (svc ∈ (b_owned (pr_books f)).*1) = w →
    (svc ∈ (b_owned (pr_books (ask_all l f))).*1 ↔ fold_left (wants_step svc) l w = true)) as Hg; [|].
  { clear Eo Ec Es Hw. revert f Hi Hb. induction l as [|a l IH]; intros f Hi Hb svc w Ew; simpl.
    - rewrite <- Ew. by rewrite bool_decide_eq_true.
    - destruct (ask_balanced a f Hi Hb) as [Hi' Hb']. apply (IH _ Hi' Hb').
      rewrite <- Ew. apply Bool.eq_iff_eq_true. rewrite bool_decide_eq_true. by apply ask_owned. }
  split; [|intros svc; by apply Hg].
  clear Eo Ec Es Hw Hg. revert f Hi Hb. induction l as [|a l IH]; intros f Hi Hb; [done|]. simpl.
  destruct (ask_balanced a f Hi Hb) as [Hi' Hb']. by apply IH.
Qed.
End requests.

(** ** Both factories keep it *)

(** An entry of a map and the rest. *)
Lemma dense_entry {V} (k : Z) (m : list (Z * V)) v g : dwf m → dfind k m = Some v →
  ∃ rest, m ≡ₚ (k, v) :: rest ∧ dupdate k g m ≡ₚ (k, g v) :: rest ∧ derase k m ≡ₚ rest ∧ k ∉ rest.*1.
Proof.
  intros Hw Hf. assert (∃ rest, m ≡ₚ (k, v) :: rest ∧ dupdate k g m ≡ₚ (k, g v) :: rest) as (rest & E1 & E2).
  { clear Hw. induction m as [|[k' v'] m IH]; [done|]. simpl in *. case_decide; simplify_eq; [by exists m|].
    destruct (IH Hf) as (rest & E1 & E2). exists ((k', v') :: rest). split; [rewrite E1|rewrite E2]; apply perm_swap. }
  assert (k ∉ rest.*1) as Hk.
  { unfold dwf, dkeys in Hw. rewrite E1 in Hw. simpl in Hw. by inversion Hw. }
  exists rest. split_and!; [done|done| |done]. rewrite derase_perm by done. rewrite E1, filter_cons_False by (simpl; naive_solver).
  rewrite filter_all; [done|]. apply list.Forall_forall. intros p Hp Ep. apply Hk. rewrite <- Ep. by apply list_elem_of_fmap_2.
Qed.
Lemma demplace_appends {V} (k : Z) (m : list (Z * V)) v : dfind k m = None → demplace k v m = m ++ [(k, v)].
Proof. intros E. unfold demplace. by rewrite E. Qed.

Definition entry_of (c : created) : Z * Z := (cr_filter c, cr_id c).
Definition outside_ok (o : Outside) : Prop := Forall (λ c, cr_id c < out_next o) (out_created o).
Lemma outside_fresh o : outside_ok o → out_next o ∉ (entry_of <$> out_created o).*2.
Proof.
  intros H Hin. rewrite <- list_fmap_compose in Hin. apply list_elem_of_fmap in Hin as (c & E & Hc).
  unfold outside_ok in H. rewrite list.Forall_forall in H. specialize (H c Hc). simpl in *. lia.
Qed.
Lemma outside_ok_created filter prio level o : outside_ok o → outside_ok (createServiceManager filter prio level o).2.
Proof.
  intros H. unfold outside_ok in *. simpl. apply Forall_app. split; [|repeat constructor; simpl; lia].
  eapply Forall_impl; [exact H|]. simpl. lia.
Qed.

(** *** Loggers *)

Definition lf_books (f : LoggerFactory) : books :=
  mkBooks (lf_loggers f) (entry_of <$> out_created (lf_outside f)) (out_stops (lf_outside f)).*2.
Definition lf_inv (f : LoggerFactory) : Prop := dwf (lf_loggers f) ∧ outside_ok (lf_outside f).
#[export] Program Instance loggers : PerRequester LoggerFactory := {|
  pr_inv := lf_inv; pr_books := lf_books;
  pr_request := lf_handleDependencyRequest None; pr_undo := lf_handleDependencyUndoRequest |}.
Next Obligation.
  intros svc prio f [Hw Ho]. unfold lf_handleDependencyRequest. destruct (dfind svc _); [done|]. split; simpl; [by apply dwf_demplace|].
  by apply (outside_ok_created svc prio (Some (lf_defaultLevel f))).
Qed.
Next Obligation.
  intros svc prio f [Hw Ho]. simpl. unfold lf_handleDependencyRequest. case_decide as Hin.
  - apply (dfind_is_Some svc) in Hin as [id ->]. done.
  - apply (dfind_None svc) in Hin. rewrite Hin. exists (out_next (lf_outside f)). unfold adds, lf_books. simpl. rewrite demplace_appends by done.
    split_and!; [by apply outside_fresh|solve_Permutation|rewrite fmap_app; simpl; solve_Permutation|done].
Qed.
Next Obligation.
  intros svc f [Hw Ho]. unfold lf_handleDependencyUndoRequest. destruct (dfind svc _); [|done]. split; simpl; [by apply dwf_derase|done].
Qed.
Next Obligation.
  intros svc f [Hw Ho]. unfold drops. simpl. unfold lf_handleDependencyUndoRequest, lf_books.
  destruct (dfind svc (lf_loggers f)) as [id|] eqn:Ef; simpl.
  - destruct (dense_entry svc (lf_loggers f) id (λ v, v) Hw Ef) as (rest & E1 & _ & E2 & Hn).
    split_and!; [by apply derase_perm|done|]. rewrite fmap_app, E1, filter_cons_True by done. simpl.
    rewrite filter_none; [simpl; solve_Permutation|]. apply list.Forall_forall. intros p Hp Ep. apply Hn. rewrite <- Ep. by apply list_elem_of_fmap_2.
  - apply dfind_None in Ef. assert (Forall (λ p, p.1 ≠ svc) (lf_loggers f)) as Hn.
    { apply list.Forall_forall. intros p Hp <-. by apply Ef, list_elem_of_fmap_2. }
    by rewrite filter_all, (filter_none (λ p, p.1 = svc)).
Qed.

(** *** Connections *)

Definition services_of (e : Z * list (Z * Z)) : list (Z * Z) := (λ c, (e.1, c.2)) <$> e.2.
Definition owned_of (m : list (Z * list (Z * Z))) : list (Z * Z) := m ≫= services_of.
Definition cf_books (f : ClientFactory) : books :=
  mkBooks (owned_of (cf_connections f)) (entry_of <$> out_created (cf_outside f)) (out_stops (cf_outside f)).*2.
Definition connections_ok (m : list (Z * list (Z * Z))) : Prop := dwf m ∧ Forall (λ e, e.2 ≠ [] ∧ dwf e.2) m.
Definition cf_inv (f : ClientFactory) : Prop := connections_ok (cf_connections f) ∧ outside_ok (cf_outside f).

#[export] Instance owned_of_perm : Proper (Permutation ==> Permutation) owned_of.
Proof. intros m m' E. unfold owned_of. by rewrite E. Qed.
Lemma owned_cons e m : owned_of (e :: m) = services_of e ++ owned_of m.
Proof. done. Qed.
Lemma services_not svc e : e.1 ≠ svc → filter (λ p, p.1 ≠ svc) (services_of e) = services_of e ∧ filter (λ p, p.1 = svc) (services_of e) = [].
Proof.
  intros He. split; [apply filter_all|apply filter_none]; apply list.Forall_forall; intros p [c [-> _]]%list_elem_of_fmap; done.
Qed.
Lemma services_own svc m : filter (λ p, p.1 ≠ svc) (services_of (svc, m)) = [] ∧ filter (λ p, p.1 = svc) (services_of (svc, m)) = services_of (svc, m).
Proof.
  split; [apply filter_none|apply filter_all]; apply list.Forall_forall; intros p [c [-> _]]%list_elem_of_fmap; simpl; naive_solver.
Qed.
Lemma owned_not svc m : svc ∉ m.*1 → filter (λ p, p.1 ≠ svc) (owned_of m) = owned_of m ∧ filter (λ p, p.1 = svc) (owned_of m) = [].
Proof.
  induction m as [|e m IH]; intros Hn; [done|]. simpl in Hn. rewrite owned_cons, !list.filter_app.
  destruct (services_not svc e) as [-> ->]; [set_solver|]. destruct IH as [-> ->]; [set_solver|]. done.
Qed.
Lemma owned_has svc m : Forall (λ e, e.2 ≠ [] ∧ dwf e.2) m → svc ∈ (owned_of m).*1 ↔ is_Some (dfind svc m).
Proof.
  intros Hm. rewrite dfind_is_Some. unfold dkeys. induction Hm as [|[k l] m [Hne _] _ IH]; [done|].
  rewrite owned_cons, fmap_app, elem_of_app, IH. simpl. rewrite elem_of_cons. apply or_iff_compat_r.
  destruct l as [|c l]; [done|]. simpl. rewrite elem_of_cons, list_elem_of_fmap. split; [|naive_solver].
  intros [->|(p & -> & [c' [-> _]]%list_elem_of_fmap)]; done.
Qed.
Lemma connections_ok_entry svc m l rest : connections_ok m → m ≡ₚ (svc, l) :: rest → l ≠ [] ∧ dwf l ∧ connections_ok rest ∧ svc ∉ rest.*1.
Proof.
  intros [Hw Hf] E. rewrite E in Hf. unfold dwf, dkeys in Hw. rewrite E in Hw. simpl in Hw.
  apply list.Forall_cons in Hf as [[? ?] ?]. by inversion Hw.
Qed.
Lemma connections_ok_perm m m' : m ≡ₚ m' → connections_ok m → connections_ok m'.
Proof. intros E [Hw Hf]. unfold connections_ok, dwf, dkeys in *. by rewrite <- E. Qed.
Lemma connections_ok_cons svc l rest : l ≠ [] → dwf l → connections_ok rest → svc ∉ rest.*1 → connections_ok ((svc, l) :: rest).
Proof. intros ? ? [? ?] ?. split; [by constructor|by repeat constructor]. Qed.
Lemma connections_ok_new svc k id m : connections_ok m → dfind svc m = None → connections_ok (demplace svc (demplace k id []) m).
Proof.
  intros Hm Hf. rewrite demplace_appends by done. eapply connections_ok_perm; [apply Permutation_cons_append|].
  apply connections_ok_cons; [done|repeat constructor; set_solver|done|]. by apply dfind_None in Hf.
Qed.
Lemma owned_new svc k id m : dfind svc m = None → owned_of (demplace svc (demplace k id []) m) ≡ₚ (svc, id) :: owned_of m.
Proof.
  intros Hf. rewrite demplace_appends by done. rewrite <- Permutation_cons_append. done.
Qed.

(** The undoing of a request. *)
Lemma undo_drops svc f : cf_inv f → cf_inv (cf_handleDependencyUndoRequest svc f) ∧ drops svc (cf_books f) (cf_books (cf_handleDependencyUndoRequest svc f)).
Proof.
  intros [Hm Ho]. unfold cf_handleDependencyUndoRequest, drops, cf_books, cf_inv.
  destruct (dfind svc (cf_connections f)) as [l|] eqn:Ef; simpl.
  - destruct (dense_entry svc _ l (λ v, v) (proj1 Hm) Ef) as (rest & E1 & _ & E2 & Hn).
    destruct (connections_ok_entry _ _ _ _ Hm E1) as (_ & _ & Hrest & _).
    split; [by split; [eapply connections_ok_perm; [symmetry; exact E2|]|]|].
    rewrite E2, E1, owned_cons, !list.filter_app. destruct (owned_not svc rest Hn) as [-> ->], (services_own svc l) as [-> ->].
    split_and!; [done|done|]. rewrite app_nil_r, fmap_app, Permutation_app_comm. apply Permutation_app_tail.
    unfold services_of. by rewrite <- !list_fmap_compose.
  - split; [done|]. apply dfind_None in Ef. destruct (owned_not svc _ Ef) as [-> ->]. done.
Qed.
(** A request. *)
Definition proper_request : asked := mkAsked true true true.
Lemma request_adds svc prio f : cf_inv f →
  cf_inv (cf_handleDependencyRequest proper_request svc prio f) ∧
  if decide (svc ∈ (owned_of (cf_connections f)).*1)
  then cf_handleDependencyRequest proper_request svc prio f = f
  else ∃ id, adds svc id (cf_books f) (cf_books (cf_handleDependencyRequest proper_request svc prio f)).
Proof.
  intros [Hm Ho]. unfold cf_handleDependencyRequest, dcontains. simpl.
  pose proof (owned_has svc (cf_connections f) (proj2 Hm)) as Hh. case_decide as Hin.
  - rewrite bool_decide_eq_true_2 by (by apply Hh). done.
  - rewrite bool_decide_eq_false_2 by naive_solver.
    assert (dfind svc (cf_connections f) = None) as Ef by (apply eq_None_not_Some; naive_solver).
    split; [split; [by apply connections_ok_new|by apply (outside_ok_created svc prio None)]|].
    exists (out_next (cf_outside f)). unfold adds, cf_books. simpl. rewrite owned_new by done.
    split_and!; [by apply outside_fresh|done|rewrite fmap_app; simpl; solve_Permutation|done].
Qed.
#[export] Program Instance connections : PerRequester ClientFactory := {|
  pr_inv := cf_inv; pr_books := cf_books;
  pr_request := cf_handleDependencyRequest proper_request; pr_undo := cf_handleDependencyUndoRequest |}.
Next Obligation. intros svc prio f Hi. by apply (request_adds svc prio f). Qed.
Next Obligation. intros svc prio f Hi. destruct (request_adds svc prio f Hi) as [_ Hs]. simpl. case_decide; [by rewrite Hs|done]. Qed.
Next Obligation. intros svc f Hi. by apply undo_drops. Qed.
Next Obligation. intros svc f Hi. by apply undo_drops. Qed.

(** *** Connections that are created and removed one by one *)

Definition below (counter : Z) (m : list (Z * list (Z * Z))) : Prop := Forall (λ e, Forall (λ c, 0 ≤ c.1 ≤ counter) e.2) m.
Record cf_ok (f : ClientFactory) : Prop := mkCfOk {
  ok_inv : cf_inv f;
  ok_counter : 0 ≤ cf_connectionCounter f;
  ok_below : below (cf_connectionCounter f) (cf_connections f) }.
Lemma below_mono c c' m : c ≤ c' → below c m → below c' m.
Proof. intros Hc H. do 2 (eapply Forall_impl; [exact H|]; clear H; intros ? H). simpl in *. lia. Qed.
Lemma below_perm c m m' : m ≡ₚ m' → below c m → below c m'.
Proof. intros E. unfold below. by rewrite E. Qed.
Lemma below_new c svc k id m : 0 ≤ k ≤ c → below c m → dfind svc m = None → below c (demplace svc (demplace k id []) m).
Proof. intros Hk Hm Hf. rewrite demplace_appends by done. apply Forall_app. split; [done|]. constructor; [|done]. constructor; [done|constructor]. Qed.

Lemma create_adds svc prio f : cf_ok f → cf_connectionCounter f + 1 < u64_mod →
  cf_ok (createNewConnection svc prio f).2 ∧ cf_connectionCounter (createNewConnection svc prio f).2 = cf_connectionCounter f + 1 ∧
  adds svc (out_next (cf_outside f)) (cf_books f) (cf_books (createNewConnection svc prio f).2) ∧
  (∃ l, dfind svc (cf_connections (createNewConnection svc prio f).2) = Some l ∧
        dfind (createNewConnection svc prio f).1 l = Some (out_next (cf_outside f))).
Proof.
  intros [[Hm Ho] Hc Hb] Hlt. unfold createNewConnection. simpl.
  assert (wrap64 (cf_connectionCounter f + 1) = cf_connectionCounter f + 1) as -> by (apply Z.mod_small; lia).
  set (k := cf_connectionCounter f + 1). set (id := out_next (cf_outside f)).
  assert (∀ o', adds svc id (cf_books f) (mkBooks o' (entry_of <$> out_created (cf_outside f) ++ [mkCreated id svc prio None]) (out_stops (cf_outside f)).*2) ↔
    o' ≡ₚ (svc, id) :: owned_of (cf_connections f)) as Hadd.
  { intros o'. unfold adds, cf_books. simpl. split; [naive_solver|]. intros E.
    split_and!; [by apply outside_fresh|done|rewrite fmap_app; simpl; solve_Permutation|done]. }
  pose proof (outside_ok_created svc prio None _ Ho) as Ho'.
  assert (below k (cf_connections f)) as Hbk by (eapply below_mono; [|done]; lia).
  destruct (dfind svc (cf_connections f)) as [l|] eqn:Ef; simpl.
  - destruct (dense_entry svc _ l (demplace k id) (proj1 Hm) Ef) as (rest & E1 & E2 & _ & Hn).
    destruct (connections_ok_entry _ _ _ _ Hm E1) as (_ & Hwl & Hrest & _).
    pose proof (below_perm _ _ _ E1 Hb) as Hb1. apply list.Forall_cons in Hb1 as [Hl _]. simpl in Hl.
    assert (dfind k l = None) as Ek.
    { apply dfind_None. intros (c & E & Hin)%list_elem_of_fmap. rewrite list.Forall_forall in Hl. specialize (Hl c Hin). subst k. simpl in *. lia. }
    split; [|split; [done|split]].
    + constructor; simpl; [|lia|].
      * split; [|done]. eapply connections_ok_perm; [symmetry; exact E2|]. apply connections_ok_cons; [|by apply dwf_demplace|done|done].
        rewrite demplace_appends by done. by destruct l.
      * eapply below_perm; [symmetry; exact E2|]. pose proof (below_perm _ _ _ E1 Hbk) as Hb1.
        apply list.Forall_cons in Hb1 as [Hl' Hr]. constructor; [|done]. simpl in *. rewrite demplace_appends by done.
        apply Forall_app. split; [done|]. repeat constructor; simpl; lia.
    + apply Hadd. simpl. rewrite (owned_of_perm _ _ E2), (owned_of_perm _ _ E1), !owned_cons. unfold services_of. simpl.
      rewrite demplace_appends by done. rewrite fmap_app. simpl. solve_Permutation.
    + exists (demplace k id l). rewrite dfind_dupdate, Ef, decide_True by done. simpl. split; [done|]. by rewrite dfind_demplace, Ek, decide_True.
  - split; [|split; [done|split]].
    + constructor; simpl; [split; [by apply connections_ok_new|done]|lia|apply below_new; [lia|done|done]].
    + apply Hadd. exact (owned_new svc k id _ Ef).
    + exists [(k, id)]. rewrite demplace_appends by done. rewrite dfind_app, Ef. simpl. by rewrite !decide_True.
Qed.

(** One connection is taken off the books and told to stop. *)
Definition drops_one (svc id : Z) (b b' : books) : Prop :=
  b_owned b ≡ₚ (svc, id) :: b_owned b' ∧ b_created b' = b_created b ∧ b_stopped b' = b_stopped b ++ [id].
Lemma drops_one_balanced svc id b b' : balanced b → drops_one svc id b b' → balanced b'.
Proof.
  intros [Hs Hf Ho] (Eo & Ec & Es). constructor; rewrite ?Ec, ?Es; [|done|].
  - rewrite Hs, Eo. simpl. solve_Permutation.
  - intros x Hx. apply Ho. rewrite Eo. by apply elem_of_cons; right.
Qed.
Lemma remove_drops svc cid f : cf_ok f →
  cf_ok (removeConnection svc cid f) ∧ cf_connectionCounter (removeConnection svc cid f) = cf_connectionCounter f ∧
  match dfind svc (cf_connections f) ≫= dfind cid with
  | Some id => drops_one svc id (cf_books f) (cf_books (removeConnection svc cid f))
  | None => removeConnection svc cid f = f
  end.
Proof.
  intros Hok. pose proof Hok as [[Hm Ho] Hc Hb]. unfold removeConnection.
  destruct (dfind svc (cf_connections f)) as [l|] eqn:Ef; [|done]. simpl. destruct (dfind cid l) as [id|] eqn:El; [|done].
  destruct (dense_entry svc _ l (λ _, derase cid l) (proj1 Hm) Ef) as (rest & E1 & E2 & _ & Hn).
  destruct (connections_ok_entry _ _ _ _ Hm E1) as (_ & Hwl & Hrest & _).
  destruct (dense_entry cid l id (λ v, v) Hwl El) as (lrest & L1 & _ & L2 & _).
  pose proof (below_perm _ _ _ E1 Hb) as Hb1. apply list.Forall_cons in Hb1 as [Hl Hr]. simpl in Hl.
  set (conns := match derase cid l with [] => derase svc (dupdate svc (λ _, derase cid l) (cf_connections f)) | _ => dupdate svc (λ _, derase cid l) (cf_connections f) end).
  assert (conns ≡ₚ match derase cid l with [] => rest | _ => (svc, derase cid l) :: rest end) as Ec.
  { unfold conns. destruct (derase cid l) eqn:Ed; [|done].
    rewrite derase_perm by (apply dwf_dupdate, Hm). rewrite E2, filter_cons_False by (simpl; naive_solver).
    rewrite filter_all; [done|]. apply list.Forall_forall. intros p Hp Ep. apply Hn. rewrite <- Ep. by apply list_elem_of_fmap_2. }
  assert (dwf (derase cid l)) as Hdw by (by apply dwf_derase).
  assert (Forall (λ c, 0 ≤ c.1 ≤ cf_connectionCounter f) (derase cid l)) as Hdb.
  { rewrite L2. rewrite L1 in Hl. by apply list.Forall_cons in Hl as [_ Hl]. }
  assert (owned_of conns ≡ₚ services_of (svc, derase cid l) ++ owned_of rest) as Eo.
  { rewrite (owned_of_perm _ _ Ec). by destruct (derase cid l). }
  split; [|split; [done|]].
  - constructor; simpl; [split; [|done]|done|].
    + eapply connections_ok_perm; [symmetry; exact Ec|]. destruct (derase cid l) eqn:Ed; [done|].
      by apply connections_ok_cons.
    + eapply below_perm; [symmetry; exact Ec|]. destruct (derase cid l) eqn:Ed; [done|]. by constructor.
  - unfold drops_one, cf_books. simpl. fold conns. rewrite Eo, fmap_app. split_and!; [|done|done].
    rewrite (owned_of_perm _ _ E1), owned_cons. unfold services_of. simpl. rewrite L2, L1. done.
Qed.

(** All operations of the factory. *)
Inductive client_op : Type := New (svc priority : Z) | Remove (svc connectionId : Z) | Wanted (a : asked) (svc priority : Z) | Unwanted (svc : Z).
Definition client_step (f : ClientFactory) (op : client_op) : ClientFactory :=
  match op with
  | New svc prio => (createNewConnection svc prio f).2
  | Remove svc cid => removeConnection svc cid f
  | Wanted a svc prio => cf_handleDependencyRequest a svc prio f
  | Unwanted svc => cf_handleDependencyUndoRequest svc f
  end.
Definition new_client_factory (next : Z) : ClientFactory := mkClientFactory 0 [] true (mkOutside next [] []).

Lemma wanted_ok a svc prio f : cf_ok f → cf_connectionCounter f + 1 < u64_mod → balanced (cf_books f) →
  let f' := cf_handleDependencyRequest a svc prio f in
  cf_ok f' ∧ cf_connectionCounter f' ≤ cf_connectionCounter f + 1 ∧ balanced (cf_books f').
Proof.
  intros Hok Hlt Hb f'. pose proof Hok as [Hi Hc Hbl].
  destruct a as [[] [] []]; try (subst f'; simpl; split_and!; [done|unfold cf_handleDependencyRequest; simpl; lia|done]).
  change (mkAsked true true true) with proper_request in f'. destruct (request_adds svc prio f Hi) as [Hi' Hs]. fold f' in Hi', Hs.
  case_decide as Hin; [rewrite Hs; split_and!; [done|lia|done]|].
  assert (cf_connectionCounter f' = cf_connectionCounter f + 1 ∧ below (cf_connectionCounter f + 1) (cf_connections f')) as [Ec Hb'].
  { assert (dfind svc (cf_connections f) = None) as Ef.
    { apply eq_None_not_Some. intros Hx. by apply Hin, owned_has; [apply Hi|]. }
    subst f'. unfold cf_handleDependencyRequest, dcontains. simpl. rewrite bool_decide_eq_false_2 by (by rewrite Ef; intros [? ?]).
    simpl. assert (wrap64 (cf_connectionCounter f + 1) = cf_connectionCounter f + 1) as -> by (apply Z.mod_small; lia).
    split; [done|]. apply (below_new _ svc (cf_connectionCounter f)); [lia| |done]. eapply below_mono; [|done]. lia. }
  split_and!; [constructor; [done|lia|by rewrite Ec]|lia|]. destruct Hs as (id & Hs). by eapply adds_balanced.
Qed.
Lemma client_step_ok f op : cf_ok f → cf_connectionCounter f + 1 < u64_mod → balanced (cf_books f) →
  cf_ok (client_step f op) ∧ cf_connectionCounter (client_step f op) ≤ cf_connectionCounter f + 1 ∧ balanced (cf_books (client_step f op)).
Proof.
  intros Hok Hlt Hb. pose proof Hok as [Hi Hc Hbl]. destruct op as [svc prio|svc cid|a svc prio|svc]; simpl.
  - destruct (create_adds svc prio f Hok Hlt) as (H1 & H2 & H3 & _). split_and!; [done|lia|by eapply adds_balanced].
  - destruct (remove_drops svc cid f Hok) as (H1 & H2 & H3). split_and!; [done|lia|].
    destruct (_ ≫= _); [by eapply drops_one_balanced|by rewrite H3].
  - by apply wanted_ok.
  - destruct (undo_drops svc f Hi) as [Hi' Hd].
    assert (cf_connectionCounter (cf_handleDependencyUndoRequest svc f) = cf_connectionCounter f ∧
      below (cf_connectionCounter f) (cf_connections (cf_handleDependencyUndoRequest svc f))) as [E Hb'].
    { unfold cf_handleDependencyUndoRequest. destruct (dfind svc _) eqn:Ef; [|done]. split; [done|]. simpl.
      eapply below_perm; [symmetry; by apply derase_perm, Hi|]. apply list.Forall_forall. intros e [_ He]%list_elem_of_filter.
      unfold below in Hbl. rewrite list.Forall_forall in Hbl. by apply Hbl. }
    split_and!; [constructor; [done|lia|by rewrite E]|lia|by eapply drops_balanced].
Qed.
Lemma create_stops_none svc prio f : out_stops (cf_outside (createNewConnection svc prio f).2) = out_stops (cf_outside f).
Proof. unfold createNewConnection. simpl. by destruct (dfind svc (cf_connections f)). Qed.
Lemma client_run_ok l : ∀ f, cf_ok f → cf_connectionCounter f + Z.of_nat (length l) < u64_mod → balanced (cf_books f) →
  cf_ok (fold_left client_step l f) ∧ cf_connectionCounter (fold_left client_step l f) ≤ cf_connectionCounter f + Z.of_nat (length l) ∧
  balanced (cf_books (fold_left client_step l f)).
Proof.
  induction l as [|op l IH]; intros f Hok Hlt Hb; [simpl in *; split_and!; [done|lia|done]|].
  cbn [fold_left length] in *. destruct (client_step_ok f op Hok ltac:(lia) Hb) as (H1 & H2 & H3).
  destruct (IH _ H1 ltac:(lia) H3) as (? & ? & ?). split_and!; [done|lia|done].
Qed.
Lemma new_client_factory_ok next : cf_ok (new_client_factory next) ∧ balanced (cf_books (new_client_factory next)).
Proof.
  split.
  - constructor; simpl; [|lia|constructor]. split; [split; [apply dwf_nil|constructor]|constructor].
  - constructor; simpl; [done|constructor|done].
Qed.

(** C39: Connections are neither lost nor stopped twice.  After any sequence of calls of
    createNewConnection and removeConnection, of requests for connections and of
    requests that are undone, the services a factory created are, each once, those it
    has for some service and those it pushed a StopServiceEvent for; a service that it
    has for a requester was created with a filter for that requester; and removing the
    connection whose id createNewConnection has just returned stops that connection
    and no other. *)
Theorem client_factory_balances next l svc prio :
  Z.of_nat (length l) + 1 < u64_mod →
  let f := fold_left client_step l (new_client_factory next) in
  cr_id <$> out_created (cf_outside f) ≡ₚ (owned_of (cf_connections f)).*2 ++ (out_stops (cf_outside f)).*2 ∧
  NoDup (cr_id <$> out_created (cf_outside f)) ∧
  (∀ r id, (r, id) ∈ owned_of (cf_connections f) → ∃ c, c ∈ out_created (cf_outside f) ∧ cr_id c = id ∧ cr_filter c = r) ∧
  let '(cid, f1) := createNewConnection svc prio f in
  let f2 := removeConnection svc cid f1 in
  owned_of (cf_connections f2) ≡ₚ owned_of (cf_connections f) ∧
  out_stops (cf_outside f2) = out_stops (cf_outside f) ++ [(None, out_next (cf_outside f))].
Proof.
  intros Hl f. destruct (new_client_factory_ok next) as [Hn Hb].
  destruct (client_run_ok l _ Hn ltac:(simpl; lia) Hb) as (Hok & Hlt & [Hs Hf Ho]). fold f in Hok, Hlt, Hs, Hf, Ho. simpl in Hlt.
  simpl in Hs, Hf, Ho. rewrite <- list_fmap_compose in Hs, Hf. split_and!; [exact Hs|exact Hf| |].
  - intros r id Hin. apply Ho, list_elem_of_fmap in Hin as (c & E & Hc). exists c. unfold entry_of in E. by simplify_eq.
  - destruct (create_adds svc prio f Hok ltac:(lia)) as (Hok1 & _ & (_ & Eo & _ & Es) & m & Em & Ec).
    pose proof (create_stops_none svc prio f) as Es'.
    destruct (createNewConnection svc prio f) as [cid f1]. simpl in *.
    destruct (remove_drops svc cid f1 Hok1) as (_ & _ & Hd). rewrite Em in Hd. simpl in Hd. rewrite Ec in Hd.
    destruct Hd as (Eo2 & _ & _). simpl in Eo2. rewrite Eo in Eo2. apply Permutation_cons_inv in Eo2. split; [done|].
    unfold removeConnection. rewrite Em, Ec. simpl. by rewrite Es'.
Qed.
Lemma client_factory_balances_witness :
  let f := fold_left client_step [New 7 1000; Wanted proper_request 8 1000; New 7 1000; Remove 7 1; Unwanted 8] (new_client_factory 20) in
  cf_connections f = [(7, [(3, 22)])] ∧ (out_stops (cf_outside f)).*2 = [20; 21] ∧
  cr_id <$> out_created (cf_outside f) ≡ₚ (owned_of (cf_connections f)).*2 ++ (out_stops (cf_outside f)).*2.
Proof.
  intros f. split; [vm_compute; reflexivity|]. split; [vm_compute; reflexivity|].
  refine (proj1 (client_factory_balances 20 [New 7 1000; Wanted proper_request 8 1000; New 7 1000; Remove 7 1; Unwanted 8] 7 1000 _)).
  vm_compute. reflexivity.
Defined.

(** Requests are served.  Whatever requests for loggers or connections come and are
    undone, a factory of either kind has a service exactly for the services whose last
    word was a request. *)
Theorem factories_serve_requests next level l svc :
  (svc ∈ (lf_loggers (ask_all l (mkLoggerFactory true [] level (mkOutside next [] [])))).*1 ↔ wants svc l = true) ∧
  (svc ∈ (owned_of (cf_connections (ask_all l (new_client_factory next)))).*1 ↔ wants svc l = true).
Proof.
  split.
  - refine (proj2 (requests_served (F := LoggerFactory) l (mkLoggerFactory true [] level (mkOutside next [] [])) _ _ _ _) svc); try done.
    split; [apply dwf_nil|constructor].
  - refine (proj2 (requests_served (F := ClientFactory) l (new_client_factory next) _ _ _ _) svc); try done.
    apply (new_client_factory_ok next).
Qed.

(** A factory that is stopped stops nothing of what it created, and it does not see the
    requests that are undone after that. *)
Lemma stopped_factory_leaves_its_services f g : cf_books (cf_stop f) = cf_books f ∧ lf_books (lf_stop g) = lf_books g.
Proof. done. Qed.
