(* ===== verification/EtcdV2.v ===== *)
(** * The etcd v2 client

    src/services/etcd/EtcdV2Service.cpp with include/ichor/services/etcd/IEtcdV2.h and
    EtcdV2Service.h: the HTTP request each operation sends and what it makes of the
    response, the credentials, and the connections watches ask for.

    JSON is read and written by glaze, which is not part of the repository: a reader and
    a writer are parameters.  Requests and responses are those of HttpCommon.v; the
    factory that makes connections is [Factories.ClientFactory]. *)

From Stdlib Require Import Ascii String.
From stdpp Require Import base list option sets strings.
From Stdlib Require Import ZArith Lia.
From S2P Require Import Prelude.
From S2P Require Import DenseMap.
From S2P Require Import StringUtils.
From S2P Require Import HttpCommon.
From S2P Require Import Base64.
From S2P Require Import Factories.

Local Open Scope Z_scope.

Inductive EtcdError : Type :=
| HTTP_RESPONSE_ERROR | JSON_PARSE_ERROR | TIMEOUT | CONNECTION_CLOSED_PREMATURELY_TRY_AGAIN | ROOT_USER_NOT_YET_CREATED
| REMOVING_ROOT_NOT_ALLOWED_WITH_AUTH_ENABLED | NO_AUTHENTICATION_SET | UNAUTHORIZED | NOT_FOUND
| DUPLICATE_PERMISSION_OR_REVOKING_NON_EXISTENT | CANNOT_DELETE_ROOT_WHILE_AUTH_IS_ENABLED | QUITTING | HTTP_SEND_ERROR.
#[export] Instance EtcdError_eq_dec : EqDecision EtcdError.
Proof. solve_decision. Defined.

(** ** Operations *)

Record put_options := mkPut {
  previous_value : option cstring; previous_index : option Z; previous_exists : option bool; ttl_second : option Z;
  put_refresh : bool; put_dir : bool; put_in_order : bool }.
Inductive operation : Type :=
| Put (key value : cstring) (o : put_options)
| Get (key : cstring) (recursive sorted watch : bool) (watchIndex : option Z)
| Del (key : cstring) (recursive dir : bool)
| LeaderStatistics | SelfStatistics | StoreStatistics | VersionOf | Health | AuthStatus | EnableAuth | DisableAuth
| GetUsers | GetUserDetails (user : cstring)
| CreateUser (user pass : cstring) | GrantUserRoles (user : cstring) (roles : list cstring)
| RevokeUserRoles (user : cstring) (roles : list cstring) | UpdateUserPassword (user pass : cstring) | DeleteUser (user : cstring)
| GetRoles | GetRole (role : cstring)
| CreateRole (role : cstring) (reads writes : list cstring) | GrantRolePermissions (role : cstring) (reads writes : list cstring)
| RevokeRolePermissions (role : cstring) (reads writes : list cstring) | DeleteRole (role : cstring).
(** The overloads of [put] and [get]. *)
Definition no_options : put_options := mkPut None None None None false false false.
Definition put_ttl_refresh (key value : cstring) (ttl : option Z) (refresh : bool) : operation :=
  Put key value (mkPut None None None ttl refresh false false).
Definition put_ttl (key value : cstring) (ttl : option Z) : operation := Put key value (mkPut None None None ttl false false false).
Definition put_plain (key value : cstring) : operation := Put key value no_options.
Definition get_plain (key : cstring) : operation := Get key false false false None.

(** The objects that are written as JSON: [EtcdUserReply] and [EtcdRoleReply]. *)
Record permissions := mkPermissions { kv_read : list cstring; kv_write : list cstring }.
Inductive json : Type :=
| JUser (user : cstring) (password : option cstring) (grant revoke : option (list cstring))
| JRole (role : cstring) (p : permissions) (grant revoke : option permissions).

Record http_request := mkHttpRequest { hr_method : HttpMethod; hr_route : cstring; hr_headers : Headers; hr_body : cstring }.

Section operations.
(** [fmt] for [uint64_t], and glaze: writing, reading the type an operation expects, and
    the members of two of these types. *)
Context (fmt_uint : Z → cstring) (write_json : json → option cstring).
Context {J : Type} (read_json : operation → cstring → option J) (health_of : J → cstring) (enabled_of : J → bool).

Definition true_false (b : bool) : cstring := if b then str "true" else str "false".
Definition opt_text {A} (o : option A) (f : A → cstring) : cstring := match o with Some a => f a | None => [] end.
Definition flag_text (b : bool) (s : cstring) : cstring := if b then s else [].

(** The body of [put], and the URLs of [get] and [del]. *)
Definition put_body (value : cstring) (o : put_options) : cstring :=
  str "value=" ++ value ++ opt_text (ttl_second o) (λ t, str "&ttl=" ++ fmt_uint t) ++ flag_text (put_refresh o) (str "&refresh=true") ++
  opt_text (previous_value o) (λ v, str "&prevValue=" ++ v) ++ opt_text (previous_index o) (λ i, str "&prevIndex=" ++ fmt_uint i) ++
  opt_text (previous_exists o) (λ b, str "&prevExist=" ++ true_false b) ++ flag_text (put_dir o) (str "&dir=true").
Definition get_url (key : cstring) (recursive sorted watch : bool) (watchIndex : option Z) : cstring :=
  str "/v2/keys/" ++ key ++ str "?" ++ flag_text recursive (str "recursive=true&") ++ flag_text sorted (str "sorted=true&") ++
  flag_text watch (str "wait=true&") ++ opt_text watchIndex (λ i, str "waitIndex=" ++ fmt_uint i ++ str "&").
Definition del_url (key : cstring) (recursive dir : bool) : cstring :=
  str "/v2/keys/" ++ key ++ str "?" ++ flag_text dir (str "dir=true&") ++ flag_text recursive (str "recursive=true&").

Definition Authorization : cstring := str "Authorization".
Definition auth_headers (auth : option cstring) : Headers := match auth with Some a => [(Authorization, a)] | None => [] end.
Definition users_route (user : cstring) : cstring := str "/v2/auth/users/" ++ user.
Definition roles_route (role : cstring) : cstring := str "/v2/auth/roles/" ++ role.
(** A PUT with an object, and a NUL behind it. *)
Definition put_json (route : cstring) (auth : option cstring) (j : json) : EtcdError + http_request :=
  match write_json j with
  | Some text => inr (mkHttpRequest HttpMethod.put route (auth_headers auth) (text ++ [NUL]))
  | None => inl JSON_PARSE_ERROR
  end.
(** The request of an operation, with [_auth]; an error is returned without sending
    anything. *)
Definition request_for (auth : option cstring) (op : operation) : EtcdError + http_request :=
  let plain method route := inr (mkHttpRequest method route [] []) in
  let with_auth method route := inr (mkHttpRequest method route (auth_headers auth) []) in
  match op with
  | Put key value o =>
      inr (mkHttpRequest (if put_in_order o then HttpMethod.post else HttpMethod.put) (str "/v2/keys/" ++ key)
             ((str "Content-Type", str "application/x-www-form-urlencoded") :: auth_headers auth) (put_body value o))
  | Get key recursive sorted watch watchIndex => with_auth HttpMethod.get (get_url key recursive sorted watch watchIndex)
  | Del key recursive dir => with_auth HttpMethod.delete_ (del_url key recursive dir)
  | LeaderStatistics => plain HttpMethod.get (str "/v2/stats/leader")
  | SelfStatistics => plain HttpMethod.get (str "/v2/stats/self")
  | StoreStatistics => plain HttpMethod.get (str "/v2/stats/store")
  | VersionOf => plain HttpMethod.get (str "/version")
  | Health => plain HttpMethod.get (str "/health")
  | AuthStatus => plain HttpMethod.get (str "/v2/auth/enable")
  | EnableAuth => plain HttpMethod.put (str "/v2/auth/enable")
  | DisableAuth =>
      match auth with
      | None => inl NO_AUTHENTICATION_SET
      | Some _ => with_auth HttpMethod.delete_ (str "/v2/auth/enable")
      end
  | GetUsers => with_auth HttpMethod.get (str "/v2/auth/users")
  | GetUserDetails user => with_auth HttpMethod.get (users_route user)
  | CreateUser user pass | UpdateUserPassword user pass => put_json (users_route user) auth (JUser user (Some pass) None None)
  | GrantUserRoles user roles => put_json (users_route user) auth (JUser user None (Some roles) None)
  | RevokeUserRoles user roles => put_json (users_route user) auth (JUser user None None (Some roles))
  | DeleteUser user => with_auth HttpMethod.delete_ (users_route user)
  | GetRoles => with_auth HttpMethod.get (str "/v2/auth/roles")
  | GetRole role => with_auth HttpMethod.get (roles_route role)
  | CreateRole role reads writes => put_json (roles_route role) auth (JRole role (mkPermissions reads writes) None None)
  | GrantRolePermissions role reads writes => put_json (roles_route role) auth (JRole role (mkPermissions [] []) (Some (mkPermissions reads writes)) None)
  | RevokeRolePermissions role reads writes => put_json (roles_route role) auth (JRole role (mkPermissions [] []) None (Some (mkPermissions reads writes)))
  | DeleteRole role => with_auth HttpMethod.delete_ (roles_route role)
  end.

(** ** Responses *)

Record etcd_headers := mkEtcdHeaders { x_cluster_id : option cstring; x_index : option Z; x_raft_index : option Z; x_raft_term : option Z }.
Inductive answer : Type :=
| Object (j : J) (x : etcd_headers)
| Truth (b : bool)
| Nothing
| Failed (e : EtcdError).
Definition no_headers : etcd_headers := mkEtcdHeaders None None None None.
Definition read_headers (hs : Headers) : etcd_headers :=
  mkEtcdHeaders (dfind (str "X-Etcd-Cluster-Id") hs) (FastAtoiu <$> dfind (str "X-Etcd-Index") hs)
    (FastAtoiu <$> dfind (str "X-Raft-Index") hs) (FastAtoiu <$> dfind (str "X-Raft-Term") hs).

Definition has_status (s : HttpStatus) (n : StatusName.t) : bool := s =? status_code n.
(** The tests of the status, in the order of the code: the error that is returned. *)
Definition status_error (op : operation) (s : HttpStatus) : option EtcdError :=
  let unless b e := if (b : bool) then None else Some e in
  let ok := has_status s StatusName.ok in
  match op with
  | Put _ _ _ =>
      unless (ok || has_status s StatusName.created || has_status s StatusName.forbidden || has_status s StatusName.precondition_failed || has_status s StatusName.not_found)
        HTTP_RESPONSE_ERROR
  | Get _ _ _ _ _ => unless (ok || has_status s StatusName.not_found) HTTP_RESPONSE_ERROR
  | LeaderStatistics => None
  | EnableAuth =>
      if has_status s StatusName.bad_request then Some ROOT_USER_NOT_YET_CREATED
      else unless (ok || has_status s StatusName.conflict) HTTP_RESPONSE_ERROR
  | DisableAuth =>
      if has_status s StatusName.unauthorized then Some UNAUTHORIZED else unless (ok || has_status s StatusName.conflict) HTTP_RESPONSE_ERROR
  | CreateUser _ _ | GrantUserRoles _ _ | RevokeUserRoles _ _ | UpdateUserPassword _ _ =>
      unless (ok || has_status s StatusName.created) HTTP_RESPONSE_ERROR
  | DeleteUser _ =>
      if has_status s StatusName.unauthorized then Some UNAUTHORIZED
      else if has_status s StatusName.forbidden then Some REMOVING_ROOT_NOT_ALLOWED_WITH_AUTH_ENABLED
      else if has_status s StatusName.not_found then Some NOT_FOUND
      else unless ok HTTP_RESPONSE_ERROR
  | GetRoles => if has_status s StatusName.unauthorized then Some UNAUTHORIZED else unless ok HTTP_RESPONSE_ERROR
  | GetRole _ =>
      if has_status s StatusName.unauthorized then Some UNAUTHORIZED
      else if has_status s StatusName.not_found then Some NOT_FOUND
      else unless ok HTTP_RESPONSE_ERROR
  | CreateRole _ _ _ | GrantRolePermissions _ _ _ | RevokeRolePermissions _ _ _ =>
      if has_status s StatusName.unauthorized then Some UNAUTHORIZED
      else if has_status s StatusName.not_found then Some NOT_FOUND
      else if has_status s StatusName.conflict then Some DUPLICATE_PERMISSION_OR_REVOKING_NON_EXISTENT
      else unless (ok || has_status s StatusName.created) HTTP_RESPONSE_ERROR
  | DeleteRole _ =>
      if has_status s StatusName.unauthorized then Some UNAUTHORIZED
      else if has_status s StatusName.forbidden then Some CANNOT_DELETE_ROOT_WHILE_AUTH_IS_ENABLED
      else if has_status s StatusName.not_found then Some NOT_FOUND
      else unless ok HTTP_RESPONSE_ERROR
  | Del _ _ _ | SelfStatistics | StoreStatistics | VersionOf | Health | AuthStatus | GetUsers | GetUserDetails _ =>
      unless ok HTTP_RESPONSE_ERROR
  end.
(** What an operation returns for its response; [None] is an error of [sendAsync]. *)
Definition answer_of (op : operation) (reply : option HttpResponse) : answer :=
  match reply with
  | None => Failed HTTP_SEND_ERROR
  | Some r =>
      match status_error op (rs_status r) with
      | Some e => Failed e
      | None =>
          match op with
          | LeaderStatistics => Failed JSON_PARSE_ERROR
          | EnableAuth | DisableAuth => Truth true
          | DeleteUser _ | DeleteRole _ => Nothing
          | _ =>
              let premature := match op with
                               | Get _ _ _ _ _ => bool_decide (rs_body r = []) && has_status (rs_status r) StatusName.ok
                               | _ => false
                               end in
              if (premature : bool) then Failed CONNECTION_CLOSED_PREMATURELY_TRY_AGAIN
              else match read_json op (rs_body r) with
                   | None => Failed JSON_PARSE_ERROR
                   | Some j =>
                       match op with
                       | Health => Truth (bool_decide (health_of j = str "true"))
                       | AuthStatus => Truth (enabled_of j)
                       | Put _ _ _ => Object j (read_headers (rs_headers r))
                       | _ => Object j no_headers
                       end
                   end
          end
      end
  end.
End operations.

(** ** Credentials *)

Definition bytes_of (s : cstring) : list Z := code <$> s.
Definition text_of (bs : list Z) : cstring := (λ z, ascii_of_N (Z.to_N z)) <$> bs.
(** The value of [_auth] after [setAuthentication]; [clearAuthentication] resets it. *)
Definition setAuthentication (user pass : cstring) : option cstring :=
  Some (str "Basic " ++ text_of (base64_encode (bytes_of (user ++ str ":" ++ pass)))).
Definition clearAuthentication : option cstring := None.
(** [None] is undefined behaviour, that of decoding; [Some None] an empty optional. *)
Definition getAuthenticationUser (auth : option cstring) : option (option cstring) :=
  match auth with
  | None => Some None
  | Some a =>
      bytes ← base64_decode (bytes_of (drop 6 a));
      let full_str := text_of bytes in
      Some (Some (match sv_find full_str (str ":") with Some pos => take pos full_str | None => full_str end))
  end.

Lemma text_of_bytes s : text_of (bytes_of s) = s.
Proof.
  unfold text_of, bytes_of. rewrite <- list_fmap_compose. rewrite <- (list_fmap_id s) at 2. apply list_fmap_ext. intros _ c _.
  simpl. unfold code. rewrite N2Z.id. apply ascii_N_embedding.
Qed.
Lemma bytes_of_text bs : Forall byte bs → bytes_of (text_of bs) = bs.
Proof.
  induction 1 as [|z bs Hz H IH]; [done|]. change (code (ascii_of_N (Z.to_N z)) :: bytes_of (text_of bs) = z :: bs).
  rewrite IH. f_equal. unfold code, byte in *.
  rewrite N_ascii_embedding by lia. lia.
Qed.
Lemma bytes_of_ok s : Forall byte (bytes_of s).
Proof. apply list.Forall_forall. intros z (c & -> & _)%list_elem_of_fmap. apply code_range. Qed.
#[local] Instance byte_dec z : Decision (byte z).
Proof. unfold byte. apply _. Defined.
Lemma base64_chars_bytes : Forall byte base64_chars.
Proof. apply (bool_decide_unpack _). vm_compute. reflexivity. Qed.
Lemma char_at_byte k : byte (char_at k).
Proof.
  unfold char_at. destruct (nth_in_or_default (Z.to_nat k) base64_chars 0) as [H| ->]; [|unfold byte; lia].
  pose proof base64_chars_bytes as Hb. rewrite List.Forall_forall in Hb. by apply Hb.
Qed.
Lemma chars_bytes l : Forall byte (char_at <$> l).
Proof. apply Forall_fmap, list.Forall_forall. intros k _. apply char_at_byte. Qed.
Lemma base64_encode_bytes bs : Forall byte (base64_encode bs).
Proof.
  assert (∀ buf ret, Forall byte ret → Forall byte (encode_loop bs buf ret).2) as Hl.
  { induction bs as [|x bs IH]; intros buf ret Hr; [done|]. cbn [encode_loop].
    destruct buf as [|a [|b [|? ?]]]; apply IH; try done. apply Forall_app. split; [done|]. apply chars_bytes. }
  assert (byte pad) by (unfold byte, pad; lia). unfold base64_encode. specialize (Hl [] [] ltac:(constructor)).
  destruct (encode_loop bs [] []) as [buf ret]. simpl in Hl.
  destruct buf as [|a [|b [|? ?]]]; try done; repeat (apply Forall_app; split); try done; try apply chars_bytes; by repeat constructor.
Qed.

(** C40: The name of the user can be read back: [getAuthenticationUser()] after
    [setAuthentication(user, pass)] gives the user, for a name without a colon and any password
    that is not too long: name, colon and password are together at most 3 * (2^29 - 1) bytes
    (about 1.5 GiB), so that the size of the encoded string is an int, which is what
    [base64_decode] keeps it in. *)
Theorem authentication_user user pass :
  ":"%char ∉ user →
  (Z.of_nat (length (user ++ str ":" ++ pass)) <= most_bytes)%Z →
  getAuthenticationUser (setAuthentication user pass) = Some (Some user).
Proof.
  intros Hu Hn. unfold getAuthenticationUser, setAuthentication.
  change (drop 6 (str "Basic " ++ ?x)) with x.
  rewrite bytes_of_text by apply base64_encode_bytes. rewrite base64_roundtrip; [|apply bytes_of_ok|unfold bytes_of; by rewrite length_fmap].
  cbn [mbind option_bind]. rewrite text_of_bytes.
  change (str ":") with [":"%char]. unfold sv_find. rewrite search_first by done. rewrite decide_False.
  - by rewrite take_app_length.
  - intros [E _]. rewrite !length_app in E. simpl in E. lia.
Qed.
Lemma authentication_user_witness : getAuthenticationUser (setAuthentication (str "root") (str "pa:ss")) = Some (Some (str "root")).
Proof. apply (authentication_user (str "root") (str "pa:ss")); [apply (bool_decide_unpack _); reflexivity|vm_compute; discriminate]. Defined.
(** Past that the user is not the one that was set: of 2^32 encoded characters nothing is
    decoded. *)
Lemma long_credentials_lost a : Z.of_nat (length (bytes_of (drop 6 a))) = (2 ^ 32)%Z → getAuthenticationUser (Some a) = Some (Some []).
Proof. intros H. unfold getAuthenticationUser. by rewrite decode_nothing. Qed.

(** ** The form [put] sends *)

Section form.
Context (fmt_uint : Z → cstring).
Definition amp : ascii := "&"%char.
Definition opt_field {A} (o : option A) (name : cstring) (f : A → cstring) : list cstring := match o with Some a => [name ++ f a] | None => [] end.
Definition flag_field (b : bool) (s : cstring) : list cstring := if b then [s] else [].
(** The fields of the form. *)
Definition put_fields (value : cstring) (o : put_options) : list cstring :=
  [str "value=" ++ value] ++ opt_field (ttl_second o) (str "ttl=") fmt_uint ++ flag_field (put_refresh o) (str "refresh=true") ++
  opt_field (previous_value o) (str "prevValue=") (λ v, v) ++ opt_field (previous_index o) (str "prevIndex=") fmt_uint ++
  opt_field (previous_exists o) (str "prevExist=") true_false ++ flag_field (put_dir o) (str "dir=true").
Lemma put_body_fields value o : put_body fmt_uint value o = (str "value=" ++ value) ++ concat (([amp] ++.) <$> tail (put_fields value o)).
Proof.
  unfold put_body, put_fields. simpl tail. rewrite !fmap_app, !concat_app.
  destruct (ttl_second o), (put_refresh o), (previous_value o), (previous_index o), (previous_exists o), (put_dir o); simpl;
    rewrite ?app_nil_r, <- ?app_assoc; reflexivity.
Qed.
Lemma ampersands p ps : p ++ concat (([amp] ++.) <$> ps) =
  match reverse (p :: ps) with q :: qs => terminated [amp] (reverse qs) ++ q | [] => [] end.
Proof.
  induction ps as [|q ps IH] using rev_ind; [simpl; by rewrite app_nil_r|].
  rewrite fmap_app, concat_app, app_assoc, IH. rewrite app_comm_cons, reverse_snoc. simpl. rewrite app_nil_r.
  destruct (reverse (p :: ps)) as [|q' qs] eqn:E; [apply (f_equal length) in E; rewrite length_reverse in E; done|].
  rewrite reverse_cons, terminated_app, terminated_cons. change (terminated [amp] []) with ([] : cstring).
  rewrite app_nil_r, <- !app_assoc. done.
Qed.
Lemma split_ampersands p ps : p ≠ [] → Forall (λ q, q ≠ [] ∧ amp ∉ q) (p :: ps) →
  content <$> split (view_of (p ++ concat (([amp] ++.) <$> ps))) [amp] false = p :: ps.
Proof.
  intros Hne H. rewrite ampersands. rewrite <- (reverse_involutive (p :: ps)) at 2.
  destruct (reverse (p :: ps)) as [|q qs] eqn:E; [apply (f_equal length) in E; rewrite length_reverse in E; done|].
  assert (Forall (λ q, q ≠ [] ∧ amp ∉ q) (q :: qs)) as Hq by (rewrite <- E; by apply Forall_reverse).
  apply list.Forall_cons in Hq as [[Hq1 Hq2] Hq]. rewrite reverse_cons.
  apply split_joined_content; [done| |done|by apply search_absent].
  apply Forall_reverse. eapply Forall_impl; [exact Hq|]. intros x [_ Hx]. by apply clean_first.
Qed.

(** The form of a put.  With a value and a previous value without an ampersand, the
    server that divides the body at the ampersands finds the value and exactly the
    fields for the options that were given, in their order. *)
Theorem put_form value o :
  prints_decimal fmt_uint → amp ∉ value → match previous_value o with Some v => amp ∉ v | None => True end →
  match ttl_second o with Some t => 0 ≤ t < u64_mod | None => True end →
  match previous_index o with Some i => 0 ≤ i < u64_mod | None => True end →
  content <$> split (view_of (put_body fmt_uint value o)) [amp] false = put_fields value o.
Proof.
  intros Hf Hv Hp Ht Hi. rewrite put_body_fields. change (put_fields value o) with ((str "value=" ++ value) :: tail (put_fields value o)) at 2.
  assert (∀ n, 0 ≤ n < u64_mod → amp ∉ fmt_uint n) as Hd.
  { intros n Hn Hin. destruct (Hf n Hn) as (_ & Hdg & _). rewrite forallb_forall in Hdg.
    by discriminate (Hdg amp ltac:(by apply list_elem_of_In)). }
  assert (∀ a b : cstring, amp ∉ a → amp ∉ b → amp ∉ a ++ b) as Happ by (intros a b Ha Hb [?|?]%elem_of_app; done).
  apply split_ampersands; [done|]. unfold put_fields. simpl tail.
  constructor; [split; [done|apply Happ; [|done]; apply (bool_decide_unpack _); reflexivity]|].
  repeat (apply Forall_app; split).
  all: unfold opt_field, flag_field; repeat case_match; repeat constructor; try done; try (apply (bool_decide_unpack _); reflexivity).
  all: try (apply Happ; [apply (bool_decide_unpack _); reflexivity|]); try (by apply Hd); try done.
  all: match goal with |- amp ∉ true_false ?b => destruct b end; apply (bool_decide_unpack _); reflexivity.
Qed.
End form.

(** A value with an ampersand brings its own fields. *)
Lemma put_form_is_not_escaped fmt_uint :
  put_body fmt_uint (str "x&dir=true") no_options = put_body fmt_uint (str "x") (mkPut None None None None false true false).
Proof. done. Qed.

(** ** Connections for watches *)

(** A watch of [get] waits for a connection of its own.  [et_requests] is the stack
    [_connRequests], the top first: the watch and the connection it was given. *)
Record Etcd := mkEtcd {
  et_mainConn : option Z;
  et_requests : list (nat * option Z);
  et_factory : ClientFactory;
  (* the coroutines: those that await the event of their request, those that have sent
     their request over a connection, the connections to clean up, and the results *)
  et_waiting : list nat;
  et_sending : list (nat * Z);
  et_connIdToClean : list (nat * Z);
  et_quitting : list nat }.
Definition service_id : Z := 1.

Definition set_requests (l : list (nat * option Z)) (e : Etcd) : Etcd :=
  mkEtcd (et_mainConn e) l (et_factory e) (et_waiting e) (et_sending e) (et_connIdToClean e) (et_quitting e).
(** [get] with a watch, up to where it awaits its connection. *)
Definition watch_begin (w : nat) (priority : Z) (e : Etcd) : Etcd :=
  let '(cid, f) := createNewConnection service_id priority (et_factory e) in
  mkEtcd (et_mainConn e) ((w, None) :: et_requests e) f (et_waiting e ++ [w]) (et_sending e) (et_connIdToClean e ++ [(w, cid)]) (et_quitting e).
(** The end of [get]: the scope guard removes the connection. *)
Definition watch_end (w : nat) (e : Etcd) : Etcd :=
  mkEtcd (et_mainConn e) (et_requests e)
    (match dfind w (et_connIdToClean e) with Some cid => removeConnection service_id cid (et_factory e) | None => et_factory e end)
    (et_waiting e) (et_sending e) (filter (λ p, p.1 ≠ w) (et_connIdToClean e)) (et_quitting e).
(** [event.set()] for a request with that connection: a watch that waits goes on. *)
Definition event_set (w : nat) (conn : option Z) (e : Etcd) : Etcd :=
  if decide (w ∈ et_waiting e) then
    let waiting := filter (λ x, x ≠ w) (et_waiting e) in
    match conn with
    | Some c => mkEtcd (et_mainConn e) (et_requests e) (et_factory e) waiting (et_sending e ++ [(w, c)]) (et_connIdToClean e) (et_quitting e)
    | None => watch_end w (mkEtcd (et_mainConn e) (et_requests e) (et_factory e) waiting (et_sending e) (et_connIdToClean e) (et_quitting e ++ [w]))
    end
  else e.
(** [addDependencyInstance] and [removeDependencyInstance] for connections. *)
Definition addConnection (c : Z) (e : Etcd) : Etcd :=
  match et_mainConn e with
  | None => mkEtcd (Some c) (et_requests e) (et_factory e) (et_waiting e) (et_sending e) (et_connIdToClean e) (et_quitting e)
  | Some _ =>
      match et_requests e with
      | [] => e
      | (w, _) :: rest => event_set w (Some c) (set_requests ((w, Some c) :: rest) e)
      end
  end.
Fixpoint quit_requests (l : list (nat * option Z)) (e : Etcd) : Etcd :=
  match l with
  | [] => e
  | (w, conn) :: rest => quit_requests rest (set_requests rest (event_set w conn e))
  end.
Definition removeConnectionInstance (c : Z) (stopping : bool) (e : Etcd) : Etcd :=
  let e := if decide (et_mainConn e = Some c)
           then mkEtcd None (et_requests e) (et_factory e) (et_waiting e) (et_sending e) (et_connIdToClean e) (et_quitting e) else e in
  if stopping then quit_requests (et_requests e) e else e.
(** The response to a watch. *)
Definition watch_reply (w : nat) (e : Etcd) : Etcd :=
  watch_end w (mkEtcd (et_mainConn e) (et_requests e) (et_factory e) (et_waiting e) (filter (λ p, p.1 ≠ w) (et_sending e)) (et_connIdToClean e) (et_quitting e)).

Inductive watch_event : Type := Begin (w : nat) (priority : Z) | Added (c : Z) | Removed (c : Z) (stopping : bool) | Replied (w : nat).
Definition watch_step (e : Etcd) (ev : watch_event) : Etcd :=
  match ev with
  | Begin w prio => watch_begin w prio e
  | Added c => addConnection c e
  | Removed c stopping => removeConnectionInstance c stopping e
  | Replied w => watch_reply w e
  end.
Definition no_stop (ev : watch_event) : Prop := match ev with Removed _ true => False | _ => True end.

(** A request that is not on top of the stack. *)
Definition buried (w : nat) (e : Etcd) : Prop :=
  w ∈ et_waiting e ∧ ∃ top above below, et_requests e = top :: above ++ (w, None) :: below ∧ w ∉ (top :: above).*1.
Lemma buried_step w e ev : no_stop ev → (∀ prio, ev ≠ Begin w prio) → ev ≠ Replied w → buried w e → buried w (watch_step e ev).
Proof.
  intros Hns Hb Hr (Hw & top & above & below & E & Hn). destruct ev as [v prio|c|c []|v]; simpl; [| |done| |].
  - unfold watch_begin. destruct (createNewConnection _ _ _) as [cid f]. split; simpl; [set_solver|].
    exists (v, None), (top :: above), below. rewrite E. split; [done|]. simpl in *. assert (v ≠ w) by (intros ->; by eapply Hb). set_solver.
  - unfold addConnection. destruct (et_mainConn e); [|split; [done|by eauto 10]]. rewrite E. destruct top as [v o]. simpl in Hn.
    assert (v ≠ w) by set_solver. unfold event_set. simpl. case_decide; split; simpl; try done.
    + by apply list_elem_of_filter.
    + exists (v, Some c), above, below. done.
    + exists (v, Some c), above, below. done.
  - unfold removeConnectionInstance. case_decide; (split; [done|by eauto 10]).
  - split; [done|by eauto 10].
Qed.

(** A watch whose request is not the newest is never served: in any run without a
    stop, whatever connections are added, it keeps waiting (the requests are a stack,
    and a request that was served stays on it). *)
Theorem buried_watch_starves w e evs :
  buried w e → Forall no_stop evs → Forall (λ ev, (∀ prio, ev ≠ Begin w prio) ∧ ev ≠ Replied w) evs →
  w ∈ et_waiting (fold_left watch_step evs e).
Proof.
  revert e. induction evs as [|ev evs IH]; intros e Hb H1 H2; [by destruct Hb|]. simpl.
  apply list.Forall_cons in H1 as [? ?]. apply list.Forall_cons in H2 as [[? ?] ?]. apply IH; [by apply buried_step|done|done].
Qed.
Definition new_etcd : Etcd := mkEtcd (Some 2) [] (new_client_factory 10) [] [] [] [].
(** Two watches, and both connections arrive: the second watch gets the connection made
    for the first, the first waits on. *)
Lemma buried_watch_starves_witness :
  let e := fold_left watch_step [Begin 1 1000; Begin 2 1000] new_etcd in
  let e' := fold_left watch_step [Added 10; Added 11] e in
  et_sending e' = [(2%nat, 10)] ∧ 1%nat ∈ et_waiting e'.
Proof.
  intros e e'. split; [reflexivity|]. apply (buried_watch_starves 1 e [Added 10; Added 11]).
  - split; [apply (bool_decide_unpack _); reflexivity|]. exists (2%nat, None), [], []. split; [reflexivity|].
    apply (bool_decide_unpack _); reflexivity.
  - repeat constructor.
  - repeat constructor; intros; discriminate.
Defined.

(** *** Stopping *)

Definition watches_registered (e : Etcd) : Prop := ∀ w, w ∈ et_waiting e → w ∈ (et_requests e).*1.
Lemma event_set_waiting w conn e :
  et_waiting (event_set w conn e) = filter (λ x, x ≠ w) (et_waiting e) ∧ et_requests (event_set w conn e) = et_requests e.
Proof.
  unfold event_set. case_decide as Hin; [by destruct conn|]. split; [|done]. symmetry. apply filter_all.
  apply list.Forall_forall. by intros x Hx ->.
Qed.
Lemma quit_requests_waiting l : ∀ e, et_requests e = l →
  et_requests (quit_requests l e) = [] ∧ et_waiting (quit_requests l e) = filter (λ x, x ∉ l.*1) (et_waiting e).
Proof.
  induction l as [|[w conn] l IH]; intros e He; simpl.
  - split; [done|]. symmetry. apply filter_all, list.Forall_forall. intros x _. apply not_elem_of_nil.
  - destruct (IH (set_requests l (event_set w conn e)) eq_refl) as [-> ->]. split; [done|]. simpl.
    destruct (event_set_waiting w conn e) as [-> _]. rewrite list_filter_filter. apply list_filter_iff. intros x. set_solver.
Qed.
Lemma watches_registered_step e ev : watches_registered e → watches_registered (watch_step e ev).
Proof.
  unfold watches_registered. intros Hr. destruct ev as [v prio|c|c stopping|v]; simpl.
  - unfold watch_begin. destruct (createNewConnection _ _ _) as [cid f]. simpl. set_solver.
  - unfold addConnection. destruct (et_mainConn e); [|done]. destruct (et_requests e) as [|[v o] rest] eqn:E; [by rewrite ?E|].
    destruct (event_set_waiting v (Some c) (set_requests ((v, Some c) :: rest) e)) as [-> ->]. simpl.
    intros w [_ Hw]%list_elem_of_filter. by specialize (Hr w Hw).
  - unfold removeConnectionInstance. intros w. destruct stopping; [|case_decide; apply Hr].
    destruct (quit_requests_waiting _ _ (eq_refl (et_requests
      (if decide (et_mainConn e = Some c) then mkEtcd None (et_requests e) (et_factory e) (et_waiting e) (et_sending e) (et_connIdToClean e) (et_quitting e) else e)))) as [-> ->].
    intros [Hn Hw]%list_elem_of_filter. destruct Hn. case_decide; by apply Hr.
  - done.
Qed.

(** No watch is left behind by a stop: whatever watches were begun and connections
    added and removed before, when a connection is removed while the service stops, no
    watch waits any more and the requests are gone. *)
Theorem stop_ends_watches evs c :
  let e := removeConnectionInstance c true (fold_left watch_step evs new_etcd) in et_waiting e = [] ∧ et_requests e = [].
Proof.
  assert (watches_registered (fold_left watch_step evs new_etcd)) as Hr.
  { assert (watches_registered new_etcd) as H0 by (intros w Hw; by apply not_elem_of_nil in Hw).
    revert H0. generalize new_etcd. induction evs as [|ev evs IH]; intros e He; [done|]. by apply IH, watches_registered_step. }
  set (e0 := fold_left watch_step evs new_etcd) in *. intros e. subst e. unfold removeConnectionInstance.
  set (e1 := if decide _ then _ else _). destruct (quit_requests_waiting (et_requests e1) e1 eq_refl) as [-> ->]. split; [|done].
  apply filter_none, list.Forall_forall. intros w Hw Hn. apply Hn. subst e1. case_decide; by apply Hr.
Qed.
