(* ===== verification/EtcdV3.v ===== *)
(** * The etcd v3 client

    src/services/etcd/EtcdV3Service.cpp with include/ichor/services/etcd/IEtcdV3.h and
    EtcdV3Service.h: the version of the server, what a request needs of it, the request
    each operation sends, and the token of an authentication.  The connections for
    watches are handled as in EtcdV2.v, with the same code.

    JSON is read and written by glaze: a reader and a writer are parameters.  Operations
    run up to where they await their response and from there on. *)

From Stdlib Require Import Ascii String.
From stdpp Require Import base list option sets strings.
From Stdlib Require Import ZArith Lia.
From S2P Require Import Prelude.
From S2P Require Import StringUtils.
From S2P Require Import HttpCommon.

Local Open Scope Z_scope.

Module EtcdError.
Inductive t : Type :=
| HTTP_RESPONSE_ERROR | VERSION_PARSE_ERROR | JSON_PARSE_ERROR | TIMEOUT | CONNECTION_CLOSED_PREMATURELY_TRY_AGAIN
| ROOT_USER_NOT_YET_CREATED | REMOVING_ROOT_NOT_ALLOWED_WITH_AUTH_ENABLED | NO_AUTHENTICATION_SET | UNAUTHORIZED | NOT_FOUND
| DUPLICATE_PERMISSION_OR_REVOKING_NON_EXISTENT | CANNOT_DELETE_ROOT_WHILE_AUTH_IS_ENABLED | QUITTING
| ETCD_SERVER_DOES_NOT_SUPPORT | HTTP_SEND_ERROR.
End EtcdError.

(** ** Requests *)

Inductive EtcdCompareResult : Type := EQUAL | GREATER | LESS | NOT_EQUAL.
Inductive EtcdCompareTarget : Type := VERSION | CREATE | MOD | VALUE | LEASE.
#[export] Instance EtcdCompareResult_eq_dec : EqDecision EtcdCompareResult.
Proof. solve_decision. Defined.
#[export] Instance EtcdCompareTarget_eq_dec : EqDecision EtcdCompareTarget.
Proof. solve_decision. Defined.

Record EtcdPutRequest := mkPutRequest {
  pq_key : cstring; pq_value : cstring; pq_lease : option Z; pq_prev_kv : option bool; pq_ignore_value : option bool; pq_ignore_lease : option bool }.
Record EtcdRangeRequest := mkRangeRequest {
  rq_key : cstring; rq_range_end : option cstring; rq_limit : option Z; rq_revision : option Z; rq_sort_order : option Z; rq_sort_target : option Z;
  rq_serializable : option bool; rq_keys_only : option bool; rq_count_only : option bool;
  rq_min_mod_revision : option Z; rq_max_mod_revision : option Z; rq_min_create_revision : option Z; rq_max_create_revision : option Z }.
Record EtcdDeleteRangeRequest := mkDeleteRangeRequest { dq_key : cstring; dq_range_end : option cstring; dq_prev_kv : option bool }.
Record EtcdCompare := mkCompare {
  cmp_result : EtcdCompareResult; cmp_target : EtcdCompareTarget; cmp_key : cstring; cmp_range_end : option cstring;
  cmp_version : option Z; cmp_create_revision : option Z; cmp_mod_revision : option Z; cmp_value : option cstring; cmp_lease : option Z }.
Inductive EtcdTxnRequest : Type :=
| mkTxnRequest (compare : list EtcdCompare) (success failure : list EtcdRequestOp)
with EtcdRequestOp : Type :=
| mkRequestOp (request_range : option EtcdRangeRequest) (request_put : option EtcdPutRequest)
    (request_delete : option EtcdDeleteRangeRequest) (request_txn : option EtcdTxnRequest).

Inductive operation3 : Type :=
| Put (r : EtcdPutRequest) | Range (r : EtcdRangeRequest) | DeleteRange (r : EtcdDeleteRangeRequest) | Txn (r : EtcdTxnRequest)
| Compact (revision : Z) (physical : option bool)
| LeaseGrant (ttl id : Z) | LeaseRevoke (id : Z) | LeaseKeepAlive (id : Z) | LeaseTimeToLive (id : Z) (keys : option bool) | LeaseLeases
| AuthEnable | AuthDisable | AuthStatus | Authenticate (name password : cstring)
| UserAdd (name password : cstring) (options : option bool) (hashedPassword : option cstring)
| UserGet (name : cstring) | UserList | UserDelete (name : cstring)
| UserChangePassword (name password : cstring) (hashedPassword : option cstring)
| UserGrantRole (user role : cstring) | UserRevokeRole (name role : cstring)
| RoleAdd (name : cstring) | RoleGet (role : cstring) | RoleList | RoleDelete (role : cstring)
| RoleGrantPermission (name : cstring) (permType : Z) (key range_end : cstring)
| RoleRevokePermission (role key range_end : cstring).

(** ** Versions *)

Definition less (a b : Version) : bool := match version_compare a b with Lt => true | _ => false end.
Definition v3 (minor : Z) : Version := mkVersion 3 minor 0.
Definition given {A} (o : option A) : bool := bool_decide (is_Some o).
Definition needs (b : bool) (minor : Z) : list Version := if b then [v3 minor] else [].
Definition compare_needs (c : EtcdCompare) : list Version :=
  needs (bool_decide (cmp_result c = NOT_EQUAL)) 1 ++ needs (bool_decide (cmp_target c = LEASE)) 3 ++
  needs (given (cmp_lease c)) 3 ++ needs (given (cmp_range_end c)) 3.
Definition op_needs (o : EtcdRequestOp) : list Version := let '(mkRequestOp _ _ _ txn) := o in needs (given txn) 3.
(** The versions an operation tests [_detectedVersion] against, in the order of the
    code. *)
Definition minimums (op : operation3) : list Version :=
  match op with
  | Put r => needs (given (pq_prev_kv r)) 1 ++ needs (given (pq_ignore_value r)) 2 ++ needs (given (pq_ignore_lease r)) 2
  | Range r =>
      needs (given (rq_min_mod_revision r)) 1 ++ needs (given (rq_max_mod_revision r)) 1 ++
      needs (given (rq_min_create_revision r)) 1 ++ needs (given (rq_max_create_revision r)) 1
  | DeleteRange r => needs (given (dq_prev_kv r)) 1
  | Txn (mkTxnRequest compare success failure) => (compare ≫= compare_needs) ++ (success ≫= op_needs) ++ (failure ≫= op_needs)
  | LeaseKeepAlive _ | LeaseTimeToLive _ _ => [v3 1]
  | LeaseLeases | AuthEnable | AuthDisable | Authenticate _ _ => [v3 3]
  | AuthStatus => [v3 5]
  | UserAdd _ _ options hashed => needs (given options) 4 ++ needs (given hashed) 5
  | UserChangePassword _ _ hashed => needs (given hashed) 5
  | _ => []
  end.
Definition route3 (op : operation3) : cstring :=
  str (match op with
  | Put _ => "/kv/put" | Range _ => "/kv/range" | DeleteRange _ => "/kv/deleterange" | Txn _ => "/kv/txn" | Compact _ _ => "/kv/compaction"
  | LeaseGrant _ _ => "/lease/grant" | LeaseRevoke _ => "/kv/lease/revoke" | LeaseKeepAlive _ => "/lease/keepalive"
  | LeaseTimeToLive _ _ => "/kv/lease/timetolive" | LeaseLeases => "/kv/lease/leases"
  | AuthEnable => "/auth/enable" | AuthDisable => "/auth/disable" | AuthStatus => "/auth/status" | Authenticate _ _ => "/auth/authenticate"
  | UserAdd _ _ _ _ => "/auth/user/add" | UserGet _ => "/auth/user/get" | UserList => "/auth/user/list" | UserDelete _ => "/auth/user/delete"
  | UserChangePassword _ _ _ => "/auth/user/changepw" | UserGrantRole _ _ => "/auth/user/grant" | UserRevokeRole _ _ => "/auth/user/revoke"
  | RoleAdd _ => "/auth/role/add" | RoleGet _ => "/auth/role/get" | RoleList => "/auth/role/list" | RoleDelete _ => "/auth/role/delete"
  | RoleGrantPermission _ _ _ _ => "/auth/role/grant" | RoleRevokePermission _ _ _ => "/auth/role/revoke"
  end)%string.

(** The versions the server names in its reply: [version()] from the JSON on. *)
Record EtcdVersionReply := mkVersionReply { vr_etcdserver : Version; vr_etcdcluster : Version; vr_storage : option Version }.
Definition before_dash (s : cstring) : string_view :=
  match sv_find s (str "-") with Some loc => mkView s loc | None => view_of s end.
Definition read_versions (server cluster : cstring) (storage : option cstring) : EtcdError.t + EtcdVersionReply :=
  match parseStringAsVersion (before_dash server), parseStringAsVersion (view_of cluster), storage with
  | None, _, _ | _, None, _ => inl EtcdError.VERSION_PARSE_ERROR
  | Some s, Some c, None => inr (mkVersionReply s c None)
  | Some s, Some c, Some text =>
      match parseStringAsVersion (view_of text) with
      | None => inl EtcdError.VERSION_PARSE_ERROR
      | Some st => inr (mkVersionReply s c (Some st))
      end
  end.

(** ** The service *)

Record Etcd3 := mkEtcd3 {
  e_auth : option cstring;
  e_authUser : option cstring;
  e_detectedVersion : Version;
  e_versionSpecificUrl : cstring }.
Definition new_etcd3 : Etcd3 := mkEtcd3 None None (mkVersion 0 0 0) (str "/v3").
Inductive start_result : Type :=
| StartFailed                (* Missing address or port *)
| NoValueRead                (* [*ver] although [version()] failed *)
| Started (e : Etcd3).
Definition start3 (address port : bool) (ver : EtcdError.t + EtcdVersionReply) (e : Etcd3) : start_result :=
  if negb address || negb port then StartFailed
  else match ver with
       | inl _ => NoValueRead
       | inr r =>
           let v := vr_etcdserver r in
           Started (mkEtcd3 (e_auth e) (e_authUser e) v
             (if less v (v3 3) then str "/v3alpha" else if less v (v3 4) then str "/v3beta" else e_versionSpecificUrl e))
       end.

Record http_request3 := mkHttpRequest3 { h3_route : cstring; h3_headers : Headers; h3_body : cstring }.
Section service.
(** glaze; the flag is for [AuthRoleRevokePermissionRequestBugWorkaround].  A reply to
    authenticate has a token. *)
Context (write_json : bool → operation3 → option cstring).
Context {J : Type} (read_json : operation3 → cstring → option J) (token_of : J → cstring).

(** An operation up to [sendAsync] in [execute_request]. *)
Definition begin3 (op : operation3) (e : Etcd3) : EtcdError.t + http_request3 :=
  if existsb (less (e_detectedVersion e)) (minimums op) then inl EtcdError.ETCD_SERVER_DOES_NOT_SUPPORT
  else
    let workaround := match op with RoleRevokePermission _ _ _ => less (e_detectedVersion e) (v3 4) | _ => false end in
    match write_json workaround op with
    | None => inl EtcdError.JSON_PARSE_ERROR
    | Some text =>
        inr (mkHttpRequest3 (e_versionSpecificUrl e ++ route3 op)
               (match e_auth e with Some token => [(str "Authorization", token)] | None => [] end) (text ++ [NUL]))
    end.
(** [execute_request] from the response on. *)
Definition read_reply3 (op : operation3) (reply : option HttpResponse) : EtcdError.t + J :=
  match reply with
  | None => inl EtcdError.HTTP_SEND_ERROR
  | Some r =>
      if negb (rs_status r =? status_code StatusName.ok) then inl EtcdError.HTTP_RESPONSE_ERROR
      else match read_json op (rs_body r) with Some j => inr j | None => inl EtcdError.JSON_PARSE_ERROR end
  end.
Definition finish3 (op : operation3) (reply : option HttpResponse) (e : Etcd3) : (EtcdError.t + J) * Etcd3 :=
  let r := read_reply3 op reply in
  (r, match op, r with
      | AuthDisable, inr _ => mkEtcd3 None None (e_detectedVersion e) (e_versionSpecificUrl e)
      | Authenticate name _, inr j => mkEtcd3 (Some (token_of j)) (Some name) (e_detectedVersion e) (e_versionSpecificUrl e)
      | _, _ => e
      end).
End service.

(** ** Support grows with the version *)

Definition at_least (a b : Version) : Prop := less a b = false.
Lemma at_least_trans a b c : at_least a b → at_least b c → at_least a c.
Proof.
  unfold at_least, less, version_compare.
  destruct (Z.compare_spec (major a) (major b)), (Z.compare_spec (major b) (major c)), (Z.compare_spec (major a) (major c)); try done; try lia;
    destruct (Z.compare_spec (minor a) (minor b)), (Z.compare_spec (minor b) (minor c)), (Z.compare_spec (minor a) (minor c)); try done; try lia;
    destruct (Z.compare_spec (patch a) (patch b)), (Z.compare_spec (patch b) (patch c)), (Z.compare_spec (patch a) (patch c)); try done; lia.
Qed.
Lemma at_least_refl a : at_least a a.
Proof. unfold at_least, less, version_compare. by rewrite !Z.compare_refl. Qed.

Lemma refused_iff (write_json : bool → operation3 → option cstring) op e :
  begin3 write_json op e = inl EtcdError.ETCD_SERVER_DOES_NOT_SUPPORT ↔ Exists (λ m, ¬ at_least (e_detectedVersion e) m) (minimums op).
Proof.
  unfold begin3, at_least. destruct (existsb _ _) eqn:E.
  - apply existsb_exists in E as (m & Hm & E). rewrite List.Exists_exists. split; [|done]. intros _. exists m. by rewrite E.
  - split; [repeat case_match; done|]. intros (m & Hm & Hl)%List.Exists_exists. exfalso. apply Hl.
    destruct (less (e_detectedVersion e) m) eqn:El; [|done]. rewrite (proj2 (existsb_exists _ _)) in E; [done|by eauto].
Qed.

(** What a server supports, a later one supports: an operation is refused exactly if
    the version of the server does not reach one of the minimums of what it asks for,
    and an operation that is not refused for a server of some version is not refused
    for a server of the same or a later version. *)
Theorem support_is_monotone (write_json : bool → operation3 → option cstring) op e e' :
  at_least (e_detectedVersion e') (e_detectedVersion e) →
  begin3 write_json op e ≠ inl EtcdError.ETCD_SERVER_DOES_NOT_SUPPORT →
  begin3 write_json op e' ≠ inl EtcdError.ETCD_SERVER_DOES_NOT_SUPPORT ∧ Forall (at_least (e_detectedVersion e')) (minimums op).
Proof.
  rewrite !refused_iff. intros Hv Hn.
  assert (Forall (at_least (e_detectedVersion e')) (minimums op)) as Hall.
  { apply List.Forall_forall. intros m Hm. eapply at_least_trans; [exact Hv|]. destruct (less (e_detectedVersion e) m) eqn:E; [|done].
    destruct Hn. apply List.Exists_exists. exists m. split; [done|]. unfold at_least. congruence. }
  split; [|done]. intros (m & Hm & Hl)%List.Exists_exists. apply Hl. rewrite List.Forall_forall in Hall. by apply Hall.
Qed.
Definition server (v : Version) : Etcd3 := mkEtcd3 None None v (str "/v3").
Definition put_prev : operation3 := Put (mkPutRequest (str "k") (str "v") None (Some true) None (Some true)).
Lemma support_is_monotone_witness :
  begin3 (λ _ _, Some []) put_prev (server (v3 1)) = inl EtcdError.ETCD_SERVER_DOES_NOT_SUPPORT ∧
  begin3 (λ _ _, Some []) put_prev (server (v3 5)) ≠ inl EtcdError.ETCD_SERVER_DOES_NOT_SUPPORT.
Proof.
  split; [reflexivity|]. refine (proj1 (support_is_monotone (λ _ _, Some []) put_prev (server (v3 2)) (server (v3 5)) _ _)).
  - reflexivity.
  - discriminate.
Defined.

(** ** Detecting the version *)

(** The version of the server is found with or without a suffix behind a dash. *)
Lemma version_detected fmt_uint v c suffix :
  prints_decimal fmt_uint → version_ok v → version_ok c → suffix = [] ∨ (∃ x, suffix = "-"%char :: x) →
  read_versions (toString fmt_uint v ++ suffix) (toString fmt_uint c) None = inr (mkVersionReply v c None).
Proof.
  intros Hf Hv Hc Hs. unfold read_versions. rewrite (version_roundtrip fmt_uint c) by done.
  destruct Hv as (H1 & H2 & H3). destruct v as [a b p]. simpl in *.
  destruct (Hf a H1) as (Na & Da & Va), (Hf b H2) as (Nb & Db & Vb), (Hf p H3) as (Np & Dp & Vp).
  assert (before_dash (toString fmt_uint (mkVersion a b p) ++ suffix) =
    mkView (fmt_uint a ++ "."%char :: (fmt_uint b ++ "."%char :: fmt_uint p) ++ suffix) (length (fmt_uint a) + S (length (fmt_uint b) + S (length (fmt_uint p))))) as ->.
  { assert ("-"%char ∉ toString fmt_uint (mkVersion a b p)) as Hd.
    { unfold toString. simpl. rewrite elem_of_app, elem_of_cons, elem_of_app, elem_of_cons.
      assert (∀ s, forallb is_digit s = true → "-"%char ∉ s) as Hdig.
      { intros s Hs' Hin. rewrite forallb_forall in Hs'. by discriminate (Hs' "-"%char ltac:(by apply list_elem_of_In)). }
      intros [H|[H|[H|[H|H]]]]; try discriminate H; by eapply Hdig in H. }
    assert (toString fmt_uint (mkVersion a b p) ++ suffix = fmt_uint a ++ "."%char :: (fmt_uint b ++ "."%char :: fmt_uint p) ++ suffix) as E.
    { unfold toString. simpl. by rewrite <- !app_assoc, <- app_comm_cons, <- app_assoc. }
    assert (length (toString fmt_uint (mkVersion a b p)) = length (fmt_uint a) + S (length (fmt_uint b) + S (length (fmt_uint p))))%nat as El.
    { unfold toString. simpl. rewrite length_app. simpl. by rewrite length_app. }
    unfold before_dash, sv_find. change (str "-") with ["-"%char]. destruct Hs as [->|[x ->]].
    - rewrite app_nil_r in *. rewrite search_absent by done. rewrite decide_True by done. unfold view_of. rewrite <- E, El. done.
    - change ("-"%char :: x) with (["-"%char] ++ x) in *. rewrite search_first by done.
      rewrite decide_False by (rewrite length_app; simpl; intros [? _]; lia). by rewrite E, El. }
  rewrite (parse_three (fmt_uint a) (fmt_uint b) (fmt_uint p) suffix Da Db Dp Na Nb Np).
  - rewrite Va, Vb, Vp, !Z.mod_small by done. done.
  - destruct Hs as [->|[x ->]]; done.
Qed.

(** ** Divergences *)

(** A server that does not answer [version()]: its value is read all the same. *)
Lemma start_without_version e err : start3 true true (inl err) e = NoValueRead.
Proof. done. Qed.
(** The operations in a transaction are not tested: what put refuses goes through. *)
Lemma txn_does_not_test_its_operations :
  begin3 (λ _ _, Some []) put_prev (server (v3 0)) = inl EtcdError.ETCD_SERVER_DOES_NOT_SUPPORT ∧
  is_Some (match begin3 (λ _ _, Some []) (Txn (mkTxnRequest [] [mkRequestOp None
    (Some (mkPutRequest (str "k") (str "v") None (Some true) None (Some true))) None None] [])) (server (v3 0)) with inr r => Some r | inl _ => None end).
Proof. split; [reflexivity|by eexists]. Qed.

(** ** The token *)

Section token.
Context (write_json : bool → operation3 → option cstring) {J : Type} (read_json : operation3 → cstring → option J) (token_of : J → cstring).
(** Operations begin and end in any order; the requests that were sent. *)
Inductive event3 : Type := Begins (op : operation3) | Ends (op : operation3) (reply : option HttpResponse).
Definition step3 (σ : Etcd3 * list http_request3) (ev : event3) : Etcd3 * list http_request3 :=
  match ev with
  | Begins op => (σ.1, match begin3 write_json op σ.1 with inr r => σ.2 ++ [r] | inl _ => σ.2 end)
  | Ends op reply => ((finish3 read_json token_of op reply σ.1).2, σ.2)
  end.
(** The token of the last authentication that succeeded, unless authentication was
    disabled after it. *)
Definition token_after (t : option cstring) (ev : event3) : option cstring :=
  match ev with
  | Ends AuthDisable reply => match read_reply3 read_json AuthDisable reply with inr _ => None | inl _ => t end
  | Ends (Authenticate n p) reply => match read_reply3 read_json (Authenticate n p) reply with inr j => Some (token_of j) | inl _ => t end
  | _ => t
  end.
Definition auth_of (r : http_request3) : option cstring := snd <$> head (h3_headers r).
Lemma step3_token ev σ t : e_auth σ.1 = t → e_auth (step3 σ ev).1 = token_after t ev.
Proof. intros <-. destruct ev as [op|op reply]; [done|]. simpl. unfold finish3. destruct op; simpl; try done; by destruct (read_reply3 _ _ _). Qed.
(** A request that is sent has the token, and no other header. *)
Lemma sent_with_token evs op e0 r :
  e_auth e0 = None →
  let σ := fold_left step3 evs (e0, []) in
  begin3 write_json op σ.1 = inr r → auth_of r = fold_left token_after evs None.
Proof.
  intros H0 σ Hr. assert (e_auth σ.1 = fold_left token_after evs None) as <-.
  { subst σ. clear Hr. revert H0. generalize (None : option cstring). generalize ([] : list http_request3). revert e0.
    induction evs as [|ev evs IH]; intros e0 l t H0; [done|]. simpl.
    rewrite (surjective_pairing (step3 (e0, l) ev)). apply IH. by apply (step3_token ev (e0, l)). }
  unfold begin3 in Hr. repeat case_match; simplify_eq; unfold auth_of; simpl; congruence.
Qed.
End token.
