(* ===== verification/CtorInjection.v ===== *)
(** * Services that get their dependencies through their constructor

    [ConstructorInjectionService<T>] of
    include/ichor/dependency_management/ConstructorInjectionService.h: a service
    wraps a class [T] that knows nothing of the framework.  It registers the
    parameters of the constructor of [T] as required dependencies, collects the
    injected services in the table [_deps], constructs the [T] in a buffer when
    it is started, and destroys it when it is stopped.

    The service is driven by a [DependencyLifecycleManager], the record [lm] of
    Lifecycle.v: [lm_calls] are the calls of [addDependencyInstance] and
    [removeDependencyInstance] it makes.  [system] is the pair of both with the
    providers that are on their way out.  A provider that leaves is looked up,
    counted down registration by registration (with waiting in between) and
    taken out at last, and these are separate steps, between which anything else
    happens, as in Dispatch.v.

    The keys of [_deps] are hashes of the type of the parameter, and the values
    proxies: here the hash of the interface, and the id of the provider. *)

From S2P Require Import Prelude DenseMap Register Lifecycle Injection.
From S2P Require Import Heap Events Manager Dispatch EventLoop Scenarios Anomalies.
From stdpp Require Import base list sets gmap.
From Stdlib Require Import ZArith Lia.

Open Scope Z_scope.

(** ** The service *)

(** The buffer holds no object, or one constructed from these providers. *)
Record ctor := mkCtor {
  c_args : list Z;            (* CO_ARGS *)
  c_state : ServiceState;     (* _serviceState *)
  c_deps : list (Z * Z);      (* _deps *)
  c_buf : option (list Z);    (* buf *)
}.

Definition new_ctor (args : list Z) : ctor := mkCtor args INSTALLED [] None.
Definition registerDependenciesSpecialSauce (args : list Z) : list registration :=
  foldl registerDependencyConstructor [] args.

Definition addDependencyInstance (iface provider : Z) (c : ctor) : ctor :=
  mkCtor (c_args c) (c_state c) (demplace iface provider (c_deps c)) (c_buf c).
Definition removeDependencyInstance (iface : Z) (c : ctor) : ctor :=
  mkCtor (c_args c) (c_state c) (derase iface (c_deps c)) (c_buf c).

(** [_deps.at] for every parameter; a missing one is an exception. *)
Fixpoint deps_at (deps : list (Z * Z)) (args : list Z) : outcome (list Z) :=
  match args with
  | [] => Done []
  | h :: args' =>
      match dfind h deps with
      | None => Terminated
      | Some p => ps ← deps_at deps args'; Done (p :: ps)
      end
  end.

Section service.
  (** Does the constructor of [T] throw, given these providers. *)
  Variable throws : list Z → bool.

  (** Exceptions are reported and end the program. *)
Definition createServiceSpecialSauce (c : ctor) : outcome (list Z) :=
  ps ← deps_at (c_deps c) (c_args c);
  if throws ps then Terminated else Done ps.

Definition ctor_start (dependencies : option (list registration)) (c : ctor) : outcome ctor :=
  if negb (bool_decide (c_state c = INSTALLED))
     || match dependencies with Some r => negb (allSatisfied r) | None => false end
  then Done c
  else
    ps ← createServiceSpecialSauce c;
    Done (mkCtor (c_args c) INJECTING (c_deps c) (Some ps)).

(** Destroying an object that is not there is undefined. *)
Definition destroy_object (c : ctor) : outcome ctor :=
  match c_buf c with
  | None => Terminated
  | Some _ => Done (mkCtor (c_args c) INSTALLED (c_deps c) None)
  end.
Definition ctor_stop (c : ctor) : outcome ctor :=
  if bool_decide (c_state c = INSTALLED) then Done c
  else if negb (bool_decide (c_state c = UNINJECTING)) then Terminated
  else destroy_object c.
(** The same of a class whose constructor has no parameters. *)
Definition plain_ctor_stop (c : ctor) : outcome ctor :=
  if negb (bool_decide (c_state c = UNINJECTING)) then Terminated else destroy_object c.

Definition ctor_setInjected (c : ctor) : bool * ctor :=
  if bool_decide (c_state c = INJECTING)
  then (true, mkCtor (c_args c) ACTIVE (c_deps c) (c_buf c)) else (false, c).
Definition ctor_setUninjected (c : ctor) : bool * ctor :=
  if bool_decide (c_state c = ACTIVE)
  then (true, mkCtor (c_args c) UNINJECTING (c_deps c) (c_buf c)) else (false, c).

(** The pointer to the buffer, by what is in it. *)
Definition getImplementation (c : ctor) : outcome (option (list Z)) :=
  if negb (state_le INJECTING (c_state c)) then Terminated else Done (c_buf c).

(** ** Under its lifecycle manager *)

Record leaving := mkLeaving {
  l_who : lm;             (* the provider *)
  l_deps : list nat;      (* what interestedInDependencyGoingOffline gave *)
  l_todo : list nat;      (* what is not counted down yet *)
}.
Record system := mkSystem { y_m : lm; y_c : ctor; y_leaving : list leaving }.

Definition fresh_system (id : Z) (ifaces args : list Z) (props : Properties) : system :=
  mkSystem (new_dependency_manager id ifaces (registerDependenciesSpecialSauce args) props) (new_ctor args) [].

Definition deliver_call (c : ctor) (call : inj_call) : ctor :=
  match call with
  | AddDependencyInstance iface provider => addDependencyInstance iface provider c
  | RemoveDependencyInstance iface _ => removeDependencyInstance iface c
  end.
(** The calls the manager has made since it was [m]. *)
Definition deliver (m m' : lm) (c : ctor) : ctor :=
  foldl deliver_call c (drop (length (lm_calls m)) (lm_calls m')).

Inductive op :=
  | Arrive (prov : provider)
  | Leave (who : lm)
  | CountDown (n : nat)
  | Finish (n : nat)
  | Start
  | SetInjected
  | SetUninjected
  | Stop.

(** Is a provider of one of the interfaces on its way out. *)
Definition disputed (ifaces : list Z) (l : list leaving) : bool :=
  existsb (λ e, existsb (λ h, bool_decide (h ∈ lm_interfaces (l_who e))) ifaces) l.

(** [None]: not the time for this step.  With [careful] also arrivals and
    departures of providers whose interfaces are disputed are none. *)
Definition sstep (careful : bool) (o : op) (s : system) : option (outcome system) :=
  let '(mkSystem m c l) := s in
  match o with
  | Arrive prov =>
      if careful && disputed (prov_interfaces prov) l then None
      else let '(_, m', _) := dependencyOnline m prov in Some (Done (mkSystem m' (deliver m m' c) l))
  | Leave who =>
      let deps := interestedInDependencyGoingOffline m who in
      if careful && disputed (lm_interfaces who) l then None
      else if bool_decide (deps = []) then None
      else Some (Done (mkSystem (set_goingaway (sinsert (lm_id who) (lm_goingaway m)) m) c (mkLeaving who deps deps :: l)))
  | CountDown n =>
      match l !! n with
      | Some (mkLeaving who deps (i :: todo)) =>
          let m' := set_registry (down_at (lm_registry m) i) m in
          match lm_registry m' !! i with
          | Some node =>
              if satisfied (reg_dep node) =? u64_mod - 1 then Some Terminated
              else Some (Done (mkSystem m' c (<[n := mkLeaving who deps todo]> l)))
          | None => None
          end
      | _ => None
      end
  | Finish n =>
      match l !! n with
      | Some (mkLeaving who deps []) =>
          Some ('(m', _) ← finishDependencyOffline m who deps; Done (mkSystem m' (deliver m m' c) (delete n l)))
      | _ => None
      end
  | Start =>
      Some (c' ← ctor_start (Some (lm_registry m)) c;
            Done (mkSystem (match internal_start_begin (Some (lm_registry m)) m with
                            | Some m1 => (internal_start_end true m1).2
                            | None => m
                            end) c' l))
  | SetInjected => Some (Done (mkSystem (internalSetInjected m).2 (ctor_setInjected c).2 l))
  | SetUninjected => Some (Done (mkSystem (internalSetUninjected m).2 (ctor_setUninjected c).2 l))
  | Stop =>
      if negb (bool_decide (lm_state m = UNINJECTING)) then None
      else Some (m1 ← internal_stop_begin m; c' ← ctor_stop c;
                 Done (mkSystem (set_injected [] (internal_stop_end m1).2) c' l))
  end.

Fixpoint srun (careful : bool) (ops : list op) (s : system) : option (outcome system) :=
  match ops with
  | [] => Some (Done s)
  | o :: ops' =>
      match sstep careful o s with
      | None => None
      | Some Terminated => Some Terminated
      | Some (Done s') => srun careful ops' s'
      end
  end.
End service.

(** ** What the table has to do with the register *)

(** The last call for an interface. *)
Definition call_iface (c : inj_call) : Z :=
  match c with AddDependencyInstance h _ | RemoveDependencyInstance h _ => h end.
Definition latest (h : Z) (calls : list inj_call) : option inj_call :=
  foldl (λ acc c, if call_iface c =? h then Some c else acc) None calls.

(** [P h]: a provider of [h] is counted down and not taken out yet. *)
Record fits (r : list registration) (deps : list (Z * Z)) (calls : list inj_call) (P : Z → Prop) : Prop := {
  fits_hashes : NoDup (interfaceNameHash ∘ reg_dep <$> r);
  fits_wf : dwf deps;
  fits_flags i node : r !! i = Some node → flags (reg_dep node) = FLAG_REQUIRED;
  fits_count i node : r !! i = Some node →
    satisfied (reg_dep node) = 0 ∨ satisfied (reg_dep node) = 1 ∧ ¬ P (interfaceNameHash (reg_dep node));
  fits_entry i node : r !! i = Some node →
    is_Some (dfind (interfaceNameHash (reg_dep node)) deps) ↔
    satisfied (reg_dep node) = 1 ∨ P (interfaceNameHash (reg_dep node));
  fits_latest h p : dfind h deps = Some p → latest h calls = Some (AddDependencyInstance h p);
}.
Arguments fits_hashes {_ _ _ _}. Arguments fits_wf {_ _ _ _}. Arguments fits_flags {_ _ _ _}.
Arguments fits_count {_ _ _ _}. Arguments fits_entry {_ _ _ _}. Arguments fits_latest {_ _ _ _}.

Lemma latest_app h calls c :
  latest h (calls ++ [c]) = if call_iface c =? h then Some c else latest h calls.
Proof. unfold latest. by rewrite foldl_app. Qed.

Lemma fits_ext r deps calls P Q : (∀ h, P h ↔ Q h) → fits r deps calls P → fits r deps calls Q.
Proof.
  intros E [H1 H2 H3 H4 H5 H6]. split; try done.
  - intros i node Hi. rewrite <- E. eauto.
  - intros i node Hi. rewrite <- E. eauto.
Qed.

Lemma hashes_alter (f : registration → registration) (r : list registration) (i : nat) :
  (∀ node, interfaceNameHash (reg_dep (f node)) = interfaceNameHash (reg_dep node)) →
  interfaceNameHash ∘ reg_dep <$> alter f i r = (interfaceNameHash ∘ reg_dep <$> r).
Proof.
  intros Hf. apply list_eq. intros j. rewrite !list_lookup_fmap.
  pose proof (hash_at_alter r i j f Hf) as H. exact H.
Qed.

(** A registration that takes one provider is found for an arriving one when it
    has none. *)
Lemma found_vacant r deps calls P h i :
  fits r deps calls P → find_hash_sat r h false = Some i →
  ∃ node, r !! i = Some node ∧ interfaceNameHash (reg_dep node) = h ∧ satisfied (reg_dep node) = 0.
Proof.
  intros F (node & Hi & Hp & _)%find_if_Some. exists node.
  unfold find_pred in Hp. rewrite (fits_flags F i node Hi) in Hp. cbn in Hp.
  apply andb_true_iff in Hp as [H1%Z.eqb_eq H2%Z.eqb_eq]. done.
Qed.
Lemma found_taken r deps calls P h i :
  fits r deps calls P → find_hash_sat r h true = Some i →
  ∃ node, r !! i = Some node ∧ interfaceNameHash (reg_dep node) = h ∧ satisfied (reg_dep node) = 1.
Proof.
  intros F (node & Hi & Hp & _)%find_if_Some. exists node.
  unfold find_pred in Hp. rewrite (fits_flags F i node Hi) in Hp. cbn in Hp.
  apply andb_true_iff in Hp as [H1%Z.eqb_eq H2]. rewrite orb_false_r in H2. apply Z.ltb_lt in H2.
  split_and!; [done..|]. destruct (fits_count F i node Hi) as [?|[? _]]; [lia|done].
Qed.

Lemma fits_up r deps calls P h p i :
  fits r deps calls P → find_hash_sat r h false = Some i → ¬ P h →
  fits (up_at r i) (demplace h p deps) (calls ++ [AddDependencyInstance h p]) P.
Proof.
  intros F Hf HP. destruct (found_vacant _ _ _ _ _ _ F Hf) as (n0 & Hi & <- & H0).
  assert (dfind (interfaceNameHash (reg_dep n0)) deps = None) as Hnone.
  { apply eq_None_not_Some. rewrite (fits_entry F i n0 Hi). intros [?|?]; [lia|done]. }
  split.
  - unfold up_at. by rewrite hashes_alter; [apply F|].
  - apply dwf_demplace, F.
  - intros j node. unfold up_at. destruct (decide (i = j)) as [<-|Hne].
    + rewrite list_lookup_alter_eq, Hi. intros [= <-]. simpl. by eapply F.
    + rewrite list_lookup_alter_ne by done. apply F.
  - intros j node. unfold up_at. destruct (decide (i = j)) as [<-|Hne].
    + rewrite list_lookup_alter_eq, Hi. intros [= <-]. right. simpl. by rewrite H0.
    + rewrite list_lookup_alter_ne by done. apply F.
  - intros j node. unfold up_at. rewrite dfind_demplace. destruct (decide (i = j)) as [<-|Hne].
    + rewrite list_lookup_alter_eq, Hi. intros [= <-]. simpl. rewrite Hnone, decide_True, H0 by done.
      split; [by left|by eexists].
    + rewrite list_lookup_alter_ne by done. intros Hj. rewrite <- (fits_entry F j node Hj).
      destruct (dfind (interfaceNameHash (reg_dep node)) deps) eqn:E; [done|].
      rewrite decide_False; [done|]. intros Eq. apply Hne.
      eapply (NoDup_lookup _ i j); [apply (fits_hashes F)|rewrite list_lookup_fmap, Hi; reflexivity|].
      rewrite list_lookup_fmap, Hj. simpl. by rewrite Eq.
  - intros x q. rewrite dfind_demplace, latest_app. simpl.
    destruct (dfind x deps) eqn:E.
    + intros [= ->]. rewrite (proj2 (Z.eqb_neq _ _)) by congruence. by apply F.
    + case_decide; [|done]. intros [= <-]. subst x. by rewrite Z.eqb_refl.
Qed.

Lemma fits_down r deps calls P i node :
  fits r deps calls P → r !! i = Some node → satisfied (reg_dep node) = 1 →
  fits (down_at r i) deps calls (λ x, x = interfaceNameHash (reg_dep node) ∨ P x).
Proof.
  intros F Hi H1.
  assert (∀ j n, i ≠ j → r !! j = Some n → interfaceNameHash (reg_dep n) ≠ interfaceNameHash (reg_dep node)) as Hother.
  { intros j n Hne Hj Eq. apply Hne. eapply (NoDup_lookup _ i j); [apply (fits_hashes F)|rewrite list_lookup_fmap, Hi; reflexivity|].
    rewrite list_lookup_fmap, Hj. simpl. by rewrite Eq. }
  split; try apply F.
  - unfold down_at. by rewrite hashes_alter; [apply F|].
  - intros j n. unfold down_at. destruct (decide (i = j)) as [<-|Hne].
    + rewrite list_lookup_alter_eq, Hi. intros [= <-]. simpl. by eapply F.
    + rewrite list_lookup_alter_ne by done. apply F.
  - intros j n. unfold down_at. destruct (decide (i = j)) as [<-|Hne].
    + rewrite list_lookup_alter_eq, Hi. intros [= <-]. left. simpl. by rewrite H1.
    + rewrite list_lookup_alter_ne by done. intros Hj. pose proof (Hother j n Hne Hj).
      destruct (fits_count F j n Hj) as [?|[? ?]]; [by left|right]. naive_solver.
  - intros j n. unfold down_at. destruct (decide (i = j)) as [<-|Hne].
    + rewrite list_lookup_alter_eq, Hi. intros [= <-]. simpl. rewrite (fits_entry F i node Hi). naive_solver.
    + rewrite list_lookup_alter_ne by done. intros Hj. pose proof (Hother j n Hne Hj).
      rewrite (fits_entry F j n Hj). naive_solver.
Qed.

Lemma fits_remove r deps calls P h q :
  fits r deps calls P → P h →
  fits r (derase h deps) (calls ++ [RemoveDependencyInstance h q]) (λ x, x ≠ h ∧ P x).
Proof.
  intros F HP. split; try apply F.
  - apply dwf_derase, F.
  - intros i node Hi. destruct (fits_count F i node Hi) as [?|[? ?]]; [by left|right]. naive_solver.
  - intros i node Hi. rewrite dfind_derase by apply F. case_decide as E.
    + rewrite E. destruct (fits_count F i node Hi) as [?|[_ Hn]]; [|by rewrite E in Hn].
      split; [by intros []|]. intros [?|[? _]]; [lia|done].
    + rewrite (fits_entry F i node Hi). naive_solver.
  - intros x p. rewrite dfind_derase, latest_app by apply F. simpl. case_decide as E; [done|].
    rewrite (proj2 (Z.eqb_neq _ _)) by congruence. apply F.
Qed.

(** ** Calls delivered to the service *)

Definition table_call (deps : list (Z * Z)) (call : inj_call) : list (Z * Z) :=
  match call with
  | AddDependencyInstance iface provider => demplace iface provider deps
  | RemoveDependencyInstance iface _ => derase iface deps
  end.

Lemma deliver_spec m m' c cs :
  lm_calls m' = lm_calls m ++ cs →
  deliver m m' c = mkCtor (c_args c) (c_state c) (foldl table_call (c_deps c) cs) (c_buf c).
Proof.
  intros E. unfold deliver. rewrite E, drop_app_length. clear E.
  revert c. induction cs as [|call cs IH]; intros c; [by destruct c|].
  cbn [foldl]. rewrite IH. by destruct call.
Qed.

(** What the manager leaves as it is while it passes on calls. *)
Definition same_service (m m' : lm) : Prop :=
  lm_kind m' = lm_kind m ∧ lm_state m' = lm_state m ∧ ∀ i, hash_at (lm_registry m') i = hash_at (lm_registry m) i.

Lemma online_fits prov ifaces ch self deps P :
  fits (lm_registry self) deps (lm_calls self) P → (∀ h, h ∈ ifaces → ¬ P h) →
  let m' := (fold_left (λ acc iface, dependencyOnline_step prov iface acc) ifaces (ch, self)).2 in
  ∃ cs, lm_calls m' = lm_calls self ++ cs ∧
    fits (lm_registry m') (foldl table_call deps cs) (lm_calls m') P ∧ same_service self m' ∧
    ∀ i node, lm_registry self !! i = Some node → satisfied (reg_dep node) = 1 → lm_registry m' !! i = Some node.
Proof.
  revert ch self deps. induction ifaces as [|h ifaces IH]; intros ch self deps F HP; cbn zeta.
  { exists []. by rewrite app_nil_r. }
  cbn [fold_left]. rewrite online_step.
  destruct (find_hash_sat (lm_registry self) h false) as [i|] eqn:E; [|apply IH; set_solver].
  pose proof (fits_up _ _ _ _ _ (prov_id prov) _ F E (HP h ltac:(set_solver))) as F'.
  destruct (found_vacant _ _ _ _ _ _ F E) as (n0 & Hi & Hh & H0).
  set (ch' := if decide _ then FOUND else ch). set (self1 := set_registry _ _).
  destruct (IH ch' self1 (demplace h (prov_id prov) deps)) as (cs & Hc & Hf & (K & S & Hs) & Hk);
    [exact F'|set_solver|].
  exists (AddDependencyInstance h (prov_id prov) :: cs). split_and!.
  - rewrite Hc. simpl. by rewrite <- app_assoc.
  - exact Hf.
  - split_and!; [done..|]. intros j. rewrite Hs. by apply hash_at_alter.
  - intros j node Hj H1. apply Hk; [|done]. simpl. unfold up_at.
    rewrite list_lookup_alter_ne; [done|]. intros <-. simplify_eq. lia.
Qed.

Lemma finish_fits deps self who ds P :
  fits (lm_registry self) ds (lm_calls self) P → NoDup deps →
  (∀ i, i ∈ deps → ∃ h, hash_at (lm_registry self) i = Some h ∧ h ∈ lm_interfaces who ∧ P h) →
  ∃ self' who' cs, finish_loop deps self who = Done (self', who') ∧
    lm_calls self' = lm_calls self ++ cs ∧ lm_registry self' = lm_registry self ∧
    lm_kind self' = lm_kind self ∧ lm_state self' = lm_state self ∧
    fits (lm_registry self) (foldl table_call ds cs) (lm_calls self')
      (λ x, P x ∧ ∀ i, i ∈ deps → hash_at (lm_registry self) i ≠ Some x).
Proof.
  intros F Hnd. revert self who ds P F. induction Hnd as [|i deps Hi Hnd IH]; intros self who ds P F Hall.
  { exists self, who, []. rewrite app_nil_r. split_and!; try done.
    eapply fits_ext; [|exact F]. intros h. set_solver. }
  destruct (Hall i) as (h & Hh & Hin & HP); [set_solver|]. cbn [finish_loop].
  unfold hash_at in Hh. destruct (lm_registry self !! i) as [node|] eqn:Ei; [|done]. simplify_eq/=.
  unfold removeSelfInto_calls. rewrite bool_decide_true by done. set (h := interfaceNameHash (reg_dep node)) in *.
  pose proof (fits_remove _ _ _ _ _ (lm_id who) F HP) as F'.
  assert (∀ j, j ∈ deps → ∃ x, hash_at (lm_registry self) j = Some x ∧ x ∈ lm_interfaces who ∧ x ≠ h ∧ P x) as Hall'.
  { intros j Hj. destruct (Hall j) as (x & Hx & ? & ?); [set_solver|]. exists x. split_and!; try done.
    intros ->. apply Hi. unfold hash_at in Hx. destruct (lm_registry self !! j) as [n|] eqn:Ej; [|done].
    replace i with j; [done|]. eapply (NoDup_lookup _ j i); [apply (fits_hashes F)|rewrite list_lookup_fmap, Ej; exact Hx|].
    by rewrite list_lookup_fmap, Ei. }
  edestruct (IH (add_call (RemoveDependencyInstance h (lm_id who)) self) (removeSelfInto h (lm_id self) who) (derase h ds))
    as (s' & w' & cs & Hf & Hc & Hr & Hk & Hs & F2); [exact F'| |].
  { intros j Hj. destruct (Hall' j Hj) as (x & ? & ? & ? & ?). exists x. split_and!; try done.
    unfold removeSelfInto. repeat (case_match || case_bool_decide); done. }
  exists s', w', (RemoveDependencyInstance h (lm_id who) :: cs). split_and!; try done.
  - rewrite Hc. simpl. by rewrite <- app_assoc.
  - eapply fits_ext; [|exact F2]. intros x. cbn beta.
    assert (hash_at (lm_registry self) i = Some h) as Eh by (unfold hash_at; by rewrite Ei).
    split.
    + intros [[Hx HPx] Hd]. split; [done|]. intros j [->|Hj]%elem_of_cons; [congruence|by apply Hd].
    + intros [HPx Hd]. split; [split; [|done]|].
      * intros ->. by apply (Hd i); [set_solver|].
      * intros j Hj. apply Hd. set_solver.
Qed.

(** ** The invariant of the pair *)

Definition counted (r : list registration) (l : list leaving) (h : Z) : Prop :=
  ∃ e i, e ∈ l ∧ i ∈ l_deps e ∧ i ∉ l_todo e ∧ hash_at r i = Some h.

Definition leaving_ok (r : list registration) (e : leaving) : Prop :=
  l_todo e `suffix_of` l_deps e ∧
  (∀ i, i ∈ l_deps e → ∃ h, hash_at r i = Some h ∧ h ∈ lm_interfaces (l_who e)) ∧
  (∀ i, i ∈ l_todo e → ∃ node, r !! i = Some node ∧ satisfied (reg_dep node) = 1).

Definition object_matches (c : ctor) : Prop :=
  match c_state c with
  | INSTALLED => c_buf c = None
  | INJECTING | ACTIVE | UNINJECTING => is_Some (c_buf c)
  | _ => False
  end.

Record Inv (args : list Z) (s : system) : Prop := {
  inv_kind : lm_kind (y_m s) = KDependency;
  inv_state : lm_state (y_m s) = c_state (y_c s);
  inv_args : c_args (y_c s) = args;
  inv_hashes : interfaceNameHash ∘ reg_dep <$> lm_registry (y_m s) = args;
  inv_object : object_matches (y_c s);
  inv_fits : fits (lm_registry (y_m s)) (c_deps (y_c s)) (lm_calls (y_m s))
               (counted (lm_registry (y_m s)) (y_leaving s));
  inv_leaving e : e ∈ y_leaving s → leaving_ok (lm_registry (y_m s)) e;
  inv_apart : NoDup (y_leaving s ≫= l_deps);
}.
Arguments inv_kind {_ _}. Arguments inv_state {_ _}. Arguments inv_args {_ _}. Arguments inv_hashes {_ _}.
Arguments inv_object {_ _}. Arguments inv_fits {_ _}. Arguments inv_leaving {_ _}. Arguments inv_apart {_ _}.

Lemma counted_perm r l l' h : l ≡ₚ l' → counted r l h ↔ counted r l' h.
Proof. intros E. unfold counted. by setoid_rewrite E. Qed.

Lemma counted_same r r' l h : (∀ i, hash_at r' i = hash_at r i) → counted r' l h ↔ counted r l h.
Proof. intros E. unfold counted. by setoid_rewrite E. Qed.

(** The order of the departures does not matter. *)
Lemma inv_perm args m c l l' : l ≡ₚ l' → Inv args (mkSystem m c l) → Inv args (mkSystem m c l').
Proof.
  intros E [H1 H2 H3 H4 H5 H6 H7 H8]. split; try done; simpl in *.
  - eapply fits_ext; [|exact H6]. intros h. by apply counted_perm.
  - intros e He. apply H7. by rewrite E.
  - by rewrite <- E.
Qed.

Lemma same_hashes (r r' : list registration) :
  (∀ i, hash_at r' i = hash_at r i) → interfaceNameHash ∘ reg_dep <$> r' = (interfaceNameHash ∘ reg_dep <$> r).
Proof. intros E. apply list_eq. intros i. rewrite !list_lookup_fmap. apply E. Qed.

Lemma registered args :
  interfaceNameHash ∘ reg_dep <$> registerDependenciesSpecialSauce args = args ∧
  ∀ i node, registerDependenciesSpecialSauce args !! i = Some node →
    flags (reg_dep node) = FLAG_REQUIRED ∧ satisfied (reg_dep node) = 0.
Proof.
  unfold registerDependenciesSpecialSauce. induction args as [|h args [IH1 IH2]] using rev_ind; [done|].
  rewrite foldl_app. simpl. unfold registerDependencyConstructor at 1 3. split.
  - by rewrite fmap_app, IH1.
  - intros i node [H|[_ H]]%lookup_app_Some; [by eapply IH2|]. apply list_lookup_singleton_Some in H as [_ <-]. done.
Qed.

Lemma inv_fresh id ifaces args props : NoDup args → Inv args (fresh_system id ifaces args props).
Proof.
  intros Hnd. destruct (registered args) as [Hh Hz]. split; try done; simpl.
  - split; try done; simpl.
    + by rewrite Hh.
    + apply dwf_nil.
    + intros i node Hi. by apply (Hz i).
    + intros i node Hi. left. by apply (Hz i).
    + intros i node Hi. split; [by intros []|]. destruct (Hz i node Hi) as [_ H0]. rewrite H0.
      intros [?|(e & j & He & _)]; [lia|]. set_solver.
  - set_solver.
  - apply NoDup_nil_2.
Qed.

Lemma disputed_false ifaces l e h :
  disputed ifaces l = false → e ∈ l → h ∈ ifaces → h ∉ lm_interfaces (l_who e).
Proof.
  unfold disputed. intros Hd He Hh Hin.
  enough (true = false) by done. rewrite <- Hd. symmetry. apply existsb_exists. exists e. split; [by apply list_elem_of_In|].
  apply existsb_exists. exists h. split; [by apply list_elem_of_In|]. by apply bool_decide_eq_true.
Qed.

Lemma not_counted args s ifaces h :
  Inv args s → disputed ifaces (y_leaving s) = false → h ∈ ifaces → ¬ counted (lm_registry (y_m s)) (y_leaving s) h.
Proof.
  intros I Hd Hh (e & i & He & Hi & _ & Hash). eapply disputed_false; [exact Hd|exact He|exact Hh|].
  destruct (inv_leaving I e He) as (_ & Hw & _). destruct (Hw i Hi) as (x & Hx & Hin). congruence.
Qed.

(** ** The steps *)

Lemma arrive_inv args m c l prov :
  Inv args (mkSystem m c l) → disputed (prov_interfaces prov) l = false →
  let m' := (dependencyOnline m prov).1.2 in Inv args (mkSystem m' (deliver m m' c) l).
Proof.
  intros I Hd. cbn zeta. destruct (dependencyOnline m prov) as [[b m'] rec] eqn:E. cbn [fst snd].
  unfold dependencyOnline in E. rewrite (inv_kind I : lm_kind m = KDependency) in E.
  destruct (scontains (prov_id prov) (lm_injected m)).
  { simplify_eq. rewrite (deliver_spec m' m' c []); [|by rewrite app_nil_r]. by destruct c. }
  destruct (online_fits prov (prov_interfaces prov) NOT_FOUND m (c_deps c) (counted (lm_registry m) l))
    as (cs & Hc & F & (Hk & Hs & Hh) & Hkeep); [apply I|intros h Hin; by apply (not_counted _ _ _ _ I Hd)|].
  destruct (fold_left _ _ _) as [ch m1]. simpl in *. simplify_eq.
  rewrite (deliver_spec _ _ _ _ Hc). destruct I as [H1 H2 H3 H4 H5 H6 H7 H8]. split; simpl in *; try done.
  - congruence.
  - congruence.
  - rewrite <- H4. by apply same_hashes.
  - eapply fits_ext; [|exact F]. intros h. symmetry. by apply counted_same.
  - intros e He. destruct (H7 e He) as (? & Hw & Ht). split_and!; [done| |].
    + intros i Hi. rewrite Hh. by apply Hw.
    + intros i Hi. destruct (Ht i Hi) as (node & Hn & H1'). exists node. split; [|done]. by apply Hkeep.
Qed.

Lemma interested_found args m c l who i :
  Inv args (mkSystem m c l) → i ∈ interestedInDependencyGoingOffline m who →
  ∃ h node, h ∈ lm_interfaces who ∧ hash_at (lm_registry m) i = Some h ∧
    lm_registry m !! i = Some node ∧ satisfied (reg_dep node) = 1.
Proof.
  intros I. unfold interestedInDependencyGoingOffline. rewrite (inv_kind I : lm_kind m = KDependency).
  repeat case_match; [set_solver..|]. rewrite list_elem_of_omap. intros (h & Hin & Hf).
  destruct (found_taken _ _ _ _ _ _ (inv_fits I) Hf) as (node & Hn & Hh & Hs).
  exists h, node. split_and!; try done. by eapply find_hash_sat_at.
Qed.

Lemma interested_NoDup m who : NoDup (lm_interfaces who) → NoDup (interestedInDependencyGoingOffline m who).
Proof.
  intros Hnd. unfold interestedInDependencyGoingOffline. repeat case_match; try apply NoDup_nil_2.
  induction Hnd as [|h l Hh Hl IH]; [apply NoDup_nil_2|]. cbn.
  destruct (find_hash_sat (lm_registry m) h true) as [i|] eqn:E; [|done]. apply NoDup_cons. split; [|done].
  rewrite list_elem_of_omap. intros (h' & Hin & E'). apply find_hash_sat_at in E, E'. congruence.
Qed.

Lemma leave_inv args m c l who :
  Inv args (mkSystem m c l) → disputed (lm_interfaces who) l = false → NoDup (lm_interfaces who) →
  let deps := interestedInDependencyGoingOffline m who in
  Inv args (mkSystem (set_goingaway (sinsert (lm_id who) (lm_goingaway m)) m) c (mkLeaving who deps deps :: l)).
Proof.
  intros I Hd Hnd deps. pose proof I as [H1 H2 H3 H4 H5 H6 H7 H8]. split; simpl in *; try done.
  - eapply fits_ext; [|exact H6]. intros h. unfold counted. split; [set_solver|].
    intros (e & i & [->|He]%elem_of_cons & Hi & Hn & Hh); [done|]. by exists e, i.
  - intros e [->|He]%elem_of_cons; [|by apply H7]. split_and!; [done| |].
    + intros i Hi. destruct (interested_found _ _ _ _ _ _ I Hi) as (h & node & ? & ? & ?). by exists h.
    + intros i Hi. destruct (interested_found _ _ _ _ _ _ I Hi) as (h & node & ? & ? & ? & ?). by exists node.
  - apply NoDup_app. split_and!; [by apply interested_NoDup| |done].
    intros i Hi (e & Hie & He)%list_elem_of_bind. destruct (interested_found _ _ _ _ _ _ I Hi) as (h & _ & Hin & Hh & _).
    destruct (H7 e He) as (_ & Hw & _). destruct (Hw i Hie) as (x & Hx & Hx').
    eapply disputed_false; [exact Hd|exact He|exact Hin|]. congruence.
Qed.

Lemma countdown_inv args m c l who deps i todo :
  Inv args (mkSystem m c (mkLeaving who deps (i :: todo) :: l)) →
  ∃ node, lm_registry m !! i = Some node ∧ satisfied (reg_dep node) = 1 ∧
  Inv args (mkSystem (set_registry (down_at (lm_registry m) i) m) c (mkLeaving who deps todo :: l)).
Proof.
  intros I. pose proof I as [H1 H2 H3 H4 H5 H6 H7 H8]. simpl in *.
  destruct (H7 (mkLeaving who deps (i :: todo)) ltac:(set_solver)) as (Hsuf & Hw & Ht). simpl in *.
  destruct (Ht i ltac:(set_solver)) as (node & Hi & Hs). exists node. split_and!; [done..|].
  assert (i ∈ deps) as Hdep by (destruct Hsuf as [k ->]; set_solver).
  assert (NoDup deps) as Hnd by by apply NoDup_app in H8 as [? _].
  assert (i ∉ todo) as Hni.
  { destruct Hsuf as [k ->]. apply NoDup_app in Hnd as (_ & _ & Hnd). by apply NoDup_cons in Hnd as [? _]. }
  assert (∀ j, hash_at (down_at (lm_registry m) i) j = hash_at (lm_registry m) j) as Hh by (intros j; by apply hash_at_alter).
  split; simpl; try done.
  - rewrite <- H4. by apply same_hashes.
  - eapply fits_ext; [|exact (fits_down _ _ _ _ _ _ H6 Hi Hs)]. intros h. rewrite counted_same by done. unfold counted. split.
    + intros [->|(e & j & [->|He]%elem_of_cons & Hj & Hn & Hhj)]; simpl in *.
      * exists (mkLeaving who deps todo), i. split_and!; [set_solver|done|done|]. unfold hash_at. by rewrite Hi.
      * exists (mkLeaving who deps todo), j. split_and!; [set_solver|done|set_solver|done].
      * exists e, j. split_and!; [set_solver|done..].
    + intros (e & j & [->|He]%elem_of_cons & Hj & Hn & Hhj); simpl in *.
      * destruct (decide (j = i)) as [->|Hne].
        -- left. unfold hash_at in Hhj. rewrite Hi in Hhj. simpl in Hhj. congruence.
        -- right. exists (mkLeaving who deps (i :: todo)), j. split_and!; [set_solver|done|set_solver|done].
      * right. exists e, j. split_and!; [set_solver|done..].
  - assert (∀ e, e ∈ mkLeaving who deps todo :: l → i ∉ l_todo e) as Hother.
    { intros e [->|He]%elem_of_cons; [done|]. apply NoDup_app in H8 as (_ & Hdis & _). intros Hin.
      destruct (H7 e ltac:(set_solver)) as ([k Ek] & _). apply (Hdis i Hdep), list_elem_of_bind. exists e.
      split; [rewrite Ek; set_solver|done]. }
    intros e He. pose proof (Hother e He) as Hno.
    assert (l_todo e `suffix_of` l_deps e ∧ (∀ j, j ∈ l_deps e → ∃ h, hash_at (lm_registry m) j = Some h ∧ h ∈ lm_interfaces (l_who e)) ∧
            ∀ j, j ∈ l_todo e → ∃ n, lm_registry m !! j = Some n ∧ satisfied (reg_dep n) = 1) as (Hs' & Hw' & Ht').
    { apply elem_of_cons in He as [->|He]; [|by apply H7; set_solver]. simpl. split_and!; [|done|intros j Hj; apply Ht; set_solver].
      by eapply suffix_cons_l. }
    split_and!; [done|intros j Hj; rewrite Hh; by apply Hw'|].
    intros j Hj. unfold down_at. rewrite list_lookup_alter_ne by (intros ->; done). by apply Ht'.
Qed.

Lemma finish_inv args m c l who deps :
  Inv args (mkSystem m c (mkLeaving who deps [] :: l)) →
  ∃ m' who', finishDependencyOffline m who deps = Done (m', who') ∧ Inv args (mkSystem m' (deliver m m' c) l).
Proof.
  intros I. pose proof I as [H1 H2 H3 H4 H5 H6 H7 H8]. simpl in *.
  destruct (H7 (mkLeaving who deps []) ltac:(set_solver)) as (_ & Hw & _). simpl in *.
  apply NoDup_app in H8 as (Hnd & Hdis & Hl).
  destruct (finish_fits deps m who (c_deps c) (counted (lm_registry m) (mkLeaving who deps [] :: l)) H6 Hnd)
    as (m1 & w1 & cs & Hf & Hc & Hr & Hk & Hs & F).
  { intros i Hi. destruct (Hw i Hi) as (h & Hh & Hin). exists h. split_and!; try done.
    exists (mkLeaving who deps []), i. split_and!; [set_solver|done|set_solver|done]. }
  unfold finishDependencyOffline. rewrite H1, Hf. simpl. eexists _, _. split; [reflexivity|].
  rewrite (deliver_spec _ _ _ cs) by done. split; simpl; try congruence; try done.
  - rewrite Hr. eapply fits_ext; [|exact F]. intros h. unfold counted. split.
    + intros [(e & i & [->|He]%elem_of_cons & Hi & Hn & Hh) Hd]; [by destruct (Hd i Hi)|by exists e, i].
    + intros (e & i & He & Hi & Hn & Hh). split; [exists e, i; split_and!; [set_solver|done..]|].
      intros j Hj Hhj. apply (Hdis j Hj), list_elem_of_bind. exists e. split; [|done]. replace j with i; [done|].
      eapply (NoDup_lookup _ i j); [apply (fits_hashes H6)| |]; rewrite list_lookup_fmap; [exact Hh|exact Hhj].
  - intros e He. rewrite Hr. apply H7. set_solver.
Qed.

(** ** Starting and stopping *)

Lemma deps_at_latest deps calls args :
  (∀ h, h ∈ args → is_Some (dfind h deps)) →
  (∀ h p, dfind h deps = Some p → latest h calls = Some (AddDependencyInstance h p)) →
  ∃ ps, deps_at deps args = Done ps ∧ Forall2 (λ h p, latest h calls = Some (AddDependencyInstance h p)) args ps.
Proof.
  intros Hin Hl. induction args as [|h args IH]; [by exists []|].
  destruct (Hin h) as [p Hp]; [set_solver|]. destruct IH as (ps & E & HF); [set_solver|].
  exists (p :: ps). cbn [deps_at]. rewrite Hp, E. split; [done|]. constructor; [by apply Hl|done].
Qed.

Lemma all_supplied args m c l :
  Inv args (mkSystem m c l) → allSatisfied (lm_registry m) = true →
  ∃ ps, deps_at (c_deps c) (c_args c) = Done ps ∧
    Forall2 (λ h p, latest h (lm_calls m) = Some (AddDependencyInstance h p)) args ps.
Proof.
  intros I Hall. rewrite (inv_args I : c_args c = args). apply deps_at_latest; [|apply (fits_latest (inv_fits I))].
  intros h Hin. rewrite <- (inv_hashes I) in Hin. apply list_elem_of_fmap in Hin as (node & -> & [i Hi]%list_elem_of_lookup).
  simpl. apply (fits_entry (inv_fits I) i node Hi). left.
  assert (0 < satisfied (reg_dep node)) as Hpos.
  { eapply allSatisfied_spec; [exact Hall|exact Hi|]. by rewrite (fits_flags (inv_fits I) i node Hi). }
  destruct (fits_count (inv_fits I) i node Hi) as [?|[? _]]; [lia|done].
Qed.

(** A change of the state and the buffer alone. *)
Lemma restate_inv args m c l st buf :
  Inv args (mkSystem m c l) → object_matches (mkCtor (c_args c) st (c_deps c) buf) →
  ∀ m', lm_kind m' = lm_kind m → lm_state m' = st → lm_registry m' = lm_registry m → lm_calls m' = lm_calls m →
  Inv args (mkSystem m' (mkCtor (c_args c) st (c_deps c) buf) l).
Proof.
  intros [H1 H2 H3 H4 H5 H6 H7 H8] Ho m' E1 E2 E3 E4. split; simpl in *; rewrite ?E3, ?E4; try congruence; done.
Qed.

Definition op_ok (o : op) : Prop := match o with Leave who => NoDup (lm_interfaces who) | _ => True end.

Section sound.
  Variable throws : list Z → bool.

(** The object is made of these providers, and its constructor throws. *)
Definition constructor_fails (c : ctor) : Prop := ∃ ps, deps_at (c_deps c) (c_args c) = Done ps ∧ throws ps = true.

Lemma ctor_start_inv args m c l :
  Inv args (mkSystem m c l) →
  ctor_start throws (Some (lm_registry m)) c = Terminated ∧ constructor_fails c ∨
  ∃ c', ctor_start throws (Some (lm_registry m)) c = Done c' ∧
  Inv args (mkSystem (match internal_start_begin (Some (lm_registry m)) m with
                      | Some m1 => (internal_start_end true m1).2
                      | None => m
                      end) c' l).
Proof.
  intros I. unfold ctor_start, internal_start_begin. rewrite (inv_state I : lm_state m = c_state c).
  case_bool_decide as Ei; simpl; [|by right; exists c].
  destruct (allSatisfied (lm_registry m)) eqn:Ea; simpl; [|by right; exists c].
  destruct (all_supplied _ _ _ _ I Ea) as (ps & Ep & _). unfold createServiceSpecialSauce. rewrite Ep. simpl.
  destruct (throws ps) eqn:Et; [left; split; [done|by exists ps]|right].
  eexists. split; [reflexivity|]. apply (restate_inv _ _ _ _ _ _ I); [by eexists|done..].
Qed.

Lemma ctor_stop_inv args m c l m1 :
  Inv args (mkSystem m c l) → lm_state m = UNINJECTING → internal_stop_begin m = Done m1 →
  ∃ c', ctor_stop c = Done c' ∧ Inv args (mkSystem (set_injected [] (internal_stop_end m1).2) c' l).
Proof.
  intros I Hs Hb. unfold internal_stop_begin in Hb. rewrite bool_decide_true in Hb by done. simplify_eq.
  pose proof (inv_object I) as Ho. unfold object_matches in Ho. simpl in Ho.
  rewrite (inv_state I : lm_state m = c_state c) in Hs. rewrite Hs in Ho. destruct Ho as [ps Eb].
  unfold ctor_stop, destroy_object. rewrite Hs, Eb. simpl. eexists. split; [reflexivity|].
  by apply (restate_inv _ _ _ _ _ _ I).
Qed.

Lemma sstep_inv args o s r :
  op_ok o → Inv args s → sstep throws true o s = Some r →
  r = Terminated ∧ o = Start ∧ constructor_fails (y_c s) ∨ ∃ s', r = Done s' ∧ Inv args s'.
Proof.
  intros Hok I E. assert (o = Start ∨ o ≠ Start) as [->|Hne] by (destruct o; auto).
  { destruct s as [m c l]. cbn [sstep] in E. destruct (ctor_start_inv _ _ _ _ I) as [[Ec Hf]|(c' & Ec & I')]; rewrite Ec in E; simpl in E; simplify_eq.
    - by left.
    - right. by eexists. }
  right. destruct s as [m c l]. destruct o as [prov|who|n|n| | | |]; cbn [sstep] in E.
  - rewrite andb_true_l in E. destruct (disputed _ _) eqn:Ed; [done|].
    pose proof (arrive_inv _ _ _ _ _ I Ed) as I'. destruct (dependencyOnline m prov) as [[b m'] rec].
    simplify_eq. by eexists.
  - rewrite andb_true_l in E. destruct (disputed _ _) eqn:Ed; [done|]. case_bool_decide; [done|].
    simplify_eq. eexists. split; [done|]. by apply leave_inv.
  - destruct (l !! n) as [[who deps [|i todo]]|] eqn:En; try done.
    assert (Inv args (mkSystem m c (mkLeaving who deps (i :: todo) :: delete n l))) as I1.
    { eapply inv_perm; [|exact I]. by apply delete_Permutation. }
    destruct (countdown_inv _ _ _ _ _ _ _ _ I1) as (node & Hi & Hs & I2).
    cbn [lm_registry set_registry] in E. unfold down_at in E. rewrite list_lookup_alter_eq, Hi in E. simpl in E.
    rewrite Hs in E. simpl in E. simplify_eq. eexists. split; [done|]. eapply inv_perm; [|exact I2].
    rewrite insert_take_drop by (by eapply lookup_lt_Some). rewrite delete_take_drop. by rewrite Permutation_middle.
  - destruct (l !! n) as [[who deps [|i todo]]|] eqn:En; try done.
    assert (Inv args (mkSystem m c (mkLeaving who deps [] :: delete n l))) as I1.
    { eapply inv_perm; [|exact I]. by apply delete_Permutation. }
    destruct (finish_inv _ _ _ _ _ _ I1) as (m' & who' & Ef & I2). rewrite Ef in E. simpl in E. simplify_eq. by eexists.
  - done.
  - simplify_eq. eexists. split; [done|]. unfold internalSetInjected, ctor_setInjected.
    pose proof (inv_state I : lm_state m = c_state c) as Es. rewrite Es. pose proof (inv_object I) as Ho.
    case_bool_decide as Ei; simpl; [|done]. apply (restate_inv _ _ _ _ _ _ I); try done.
    unfold object_matches in *. simpl in *. by rewrite Ei in Ho.
  - simplify_eq. eexists. split; [done|]. unfold internalSetUninjected, ctor_setUninjected.
    pose proof (inv_state I : lm_state m = c_state c) as Es. rewrite Es. pose proof (inv_object I) as Ho.
    case_bool_decide as Ei; simpl; [|done]. apply (restate_inv _ _ _ _ _ _ I); try done.
    unfold object_matches in *. simpl in *. by rewrite Ei in Ho.
  - case_bool_decide as Es; [|done]. simpl in E.
    destruct (internal_stop_begin m) as [m1|] eqn:Eb; [|by unfold internal_stop_begin in Eb; rewrite bool_decide_true in Eb].
    destruct (ctor_stop_inv _ _ _ _ _ I Es Eb) as (c' & Ec & I'). simpl in E. rewrite Ec in E. simpl in E. simplify_eq. by eexists.
Qed.

(** The run gets to a start at which the constructor throws. *)
Definition start_throws (ops : list op) (s : system) : Prop :=
  ∃ ops1 ops2 s', ops = ops1 ++ Start :: ops2 ∧ srun throws true ops1 s = Some (Done s') ∧ constructor_fails (y_c s').
Lemma srun_inv args ops s r :
  Forall op_ok ops → Inv args s → srun throws true ops s = Some r →
  r = Terminated ∧ start_throws ops s ∨ ∃ s', r = Done s' ∧ Inv args s'.
Proof.
  intros Hok. revert s. induction Hok as [|o ops Ho Hok IH]; intros s I E; cbn [srun] in E.
  { simplify_eq. right. by exists s. }
  destruct (sstep throws true o s) as [r1|] eqn:E1; [|done].
  destruct (sstep_inv _ _ _ _ Ho I E1) as [(-> & -> & Hf)|(s1 & -> & I1)].
  - simplify_eq. left. split; [done|]. by exists [], ops, s.
  - destruct (IH s1 I1 E) as [[-> (ops1 & ops2 & s2 & -> & Hr & Hf)]|?]; [left|by right].
    split; [done|]. exists (o :: ops1), ops2, s2. split_and!; [done| |done]. cbn [srun]. by rewrite E1.
Qed.

(** C13: a service with constructor injection under its lifecycle manager, the parameters of the
    constructor having different types and hashes ([std::get] by type does not compile with a type twice),
    and the interfaces of a provider too.  In every run in which no provider comes or starts to leave while another
    provider of one of its interfaces is leaving, and whatever the order of
    arrivals, departures (with their steps apart), starts and stops: the program
    is terminated only by a start at which the constructor of the class throws, given the
    providers it was to be made of.  Otherwise the service is in the state its manager would
    have with an [AdvancedService] whose [start()] returns at once, the object exists exactly
    while the state says so and [getImplementation] never gives a buffer without
    one; and whenever all dependencies are satisfied, starting calls the constructor
    with the provider of the last [addDependencyInstance] for each
    parameter that no [removeDependencyInstance] followed, and
    the object is there unless that throws. *)
Theorem constructor_injection_sound id ifaces args props ops r :
  NoDup args → Forall op_ok ops →
  srun throws true ops (fresh_system id ifaces args props) = Some r →
  r = Terminated ∧ start_throws ops (fresh_system id ifaces args props) ∨
  ∃ s, r = Done s ∧
    lm_state (y_m s) = c_state (y_c s) ∧ object_matches (y_c s) ∧
    (∀ o, getImplementation (y_c s) = Done o → is_Some o) ∧
    (lm_state (y_m s) = INSTALLED → allSatisfied (lm_registry (y_m s)) = true →
     ∃ ps, Forall2 (λ h p, latest h (lm_calls (y_m s)) = Some (AddDependencyInstance h p)) args ps ∧
       ctor_start throws (Some (lm_registry (y_m s))) (y_c s) =
         if throws ps then Terminated else Done (mkCtor args INJECTING (c_deps (y_c s)) (Some ps))).
Proof.
  intros Hnd Hok E. destruct (srun_inv args ops _ r Hok (inv_fresh id ifaces args props Hnd) E) as [?|([m c l] & -> & I)]; [by left|right].
  pose proof (inv_state I : lm_state m = c_state c) as Es. pose proof (inv_object I) as Ho.
  exists (mkSystem m c l). simpl in *. split_and!; [done..| |].
  - unfold getImplementation, object_matches in *. intros o.
    destruct (c_state c); simpl; intros Eo; simplify_eq; done.
  - intros Hi Ha. destruct (all_supplied _ _ _ _ I Ha) as (ps & Ep & HF). rewrite Hi in Es.
    exists ps. split; [done|]. unfold ctor_start, createServiceSpecialSauce. rewrite <- Es, Ha, Ep. simpl.
    rewrite (inv_args I : c_args c = args). by destruct (throws ps).
Qed.
End sound.

(** ** A run, and two that end badly *)

Definition no_throw (ps : list Z) : bool := false.
Definition demo_args : list Z := [IFACE_A; IFACE_B].
Definition first_a : lm := new_plain_manager 3 [IFACE_A] [].
Definition second_a : lm := new_plain_manager 6 [IFACE_A] [].
Definition only_b : lm := new_plain_manager 4 [IFACE_B] [].
(** The provider of the first parameter is replaced while the service is stopped. *)
Definition demo_ops : list op :=
  [Arrive (provider_of first_a); Arrive (provider_of only_b); Start; SetInjected; Leave first_a; CountDown 0;
   SetUninjected; Stop; Finish 0; Arrive (provider_of second_a)].

Lemma constructor_injection_sound_witness :
  ∃ s ps, srun no_throw true demo_ops (fresh_system 5 [] demo_args []) = Some (Done s) ∧
    ctor_start no_throw (Some (lm_registry (y_m s))) (y_c s) = Done (mkCtor demo_args INJECTING (c_deps (y_c s)) (Some ps)) ∧
    Forall2 (λ h p, latest h (lm_calls (y_m s)) = Some (AddDependencyInstance h p)) demo_args ps.
Proof.
  destruct (srun no_throw true demo_ops (fresh_system 5 [] demo_args [])) as [r|] eqn:E; [|vm_compute in E; discriminate].
  destruct (constructor_injection_sound no_throw 5 [] demo_args [] demo_ops r) as [[-> _]|(s & -> & _ & _ & _ & Hs)].
  - apply (bool_decide_eq_true_1 (NoDup demo_args)). vm_compute. reflexivity.
  - repeat constructor; apply not_elem_of_nil.
  - exact E.
  - vm_compute in E. discriminate.
  - destruct Hs as (ps & H1 & H2).
    + vm_compute in E. injection E as <-. reflexivity.
    + vm_compute in E. injection E as <-. reflexivity.
    + exists s, ps. split_and!; [reflexivity|exact H2|exact H1].
Defined.
(** A constructor that throws ends the program. *)
Lemma throwing_constructor_terminates :
  srun (λ _, true) true [Arrive (provider_of first_a); Arrive (provider_of only_b); Start] (fresh_system 5 [] demo_args []) = Some Terminated.
Proof. vm_compute. reflexivity. Qed.

(** The same, with the new provider coming while the old one is on its way out:
    the entry of the old one is still in the table, so the new one is not added
    to it, and then the entry is erased.  All dependencies are satisfied, and the
    next start terminates the program. *)
Lemma exchanged_provider_terminates :
  let ops := [Arrive (provider_of first_a); Arrive (provider_of only_b); Start; SetInjected; Leave first_a; CountDown 0;
              Arrive (provider_of second_a); SetUninjected; Stop; Finish 0] in
  (∃ s, srun no_throw false ops (fresh_system 5 [] demo_args []) = Some (Done s) ∧
     allSatisfied (lm_registry (y_m s)) = true ∧ c_deps (y_c s) = [(IFACE_B, 4)]) ∧
  srun no_throw false (ops ++ [Start]) (fresh_system 5 [] demo_args []) = Some Terminated.
Proof. split; [eexists; split_and!; vm_compute; reflexivity|vm_compute; reflexivity]. Qed.

(** The event loop does that.  Service 3 provides [IFACE_A] and is stopped;
    service 4 needs it, service 5 needs service 4 and takes its time to stop,
    creating another provider of [IFACE_A] meanwhile.  The manager injects it
    before the old one is taken out, and starts service 4 again: with constructor
    injection its table is empty then. *)
Definition IFACE_C : Z := 12.
Definition spec_middle : service_spec := mkSpec [IFACE_C] (Some [(IFACE_A, FLAG_REQUIRED, None)]) [] 1000 false.
Definition spec_slow : service_spec := mkSpec [] (Some [(IFACE_C, FLAG_REQUIRED, None)]) [] 1000 false.
Definition slow_code (svc : Z) (meanwhile : list action) : UserCode := {|
  uc_start := uc_start idle_code;
  uc_stop := λ s d, if s =? svc then CoAwaitEvent meanwhile svc 4000 false (UCustom 77 0) (CoReturn [] ())
                    else uc_stop idle_code s d;
  uc_handle := uc_handle idle_code; uc_track := uc_track idle_code; uc_run := uc_run idle_code;
  uc_runAsync := uc_runAsync idle_code; uc_preIntercept := uc_preIntercept idle_code;
  uc_postIntercept := uc_postIntercept idle_code;
|}.
Definition service_after (svc : Z) (r : list Event * outcome (bool * PriorityQueue)) : option lm :=
  match r.2 with Done (_, q) => dfind svc (services (pq_dm q)) | Terminated => None end.

Lemma manager_exchanges_providers :
  let r := run (slow_code 5 [CreateServiceManager spec_provider])
    [CreateServiceManager spec_provider; CreateServiceManager spec_middle; CreateServiceManager spec_slow;
     PushEvent 0 3000 (UStop 3 false); PushEvent 0 5000 (UStart 4)] 100 in
  ∃ m, service_after 4 r = Some m ∧
    lm_calls m = [AddDependencyInstance IFACE_A 3; AddDependencyInstance IFACE_A 6; RemoveDependencyInstance IFACE_A 3] ∧
    rev (lm_trace m) = [INSTALLED; STARTING; INJECTING; ACTIVE; UNINJECTING; STOPPING; INSTALLED; STARTING; INJECTING] ∧
    lm_state m = ACTIVE ∧
    createServiceSpecialSauce no_throw (foldl deliver_call (new_ctor [IFACE_A]) (lm_calls m)) = Terminated.
Proof. cbn zeta. eexists. split_and!; vm_compute; reflexivity. Qed.

(** Counting down stops for waiting between two registrations.  Service 3
    provides [IFACE_A] and [IFACE_B], service 4 [IFACE_B] and [IFACE_D]; both are
    injected into service 5, [IFACE_B] counted for service 3.  When both are
    stopped while a dependee of service 5 takes its time, both count [IFACE_B]
    down: the counter wraps and the program is terminated. *)
Definition IFACE_D : Z := 13.
Lemma two_departures_terminate :
  let specs := CreateServiceManager <$>
    [mkSpec [IFACE_A; IFACE_B] None [] 1000 false; mkSpec [IFACE_B; IFACE_D] None [] 1000 false;
     mkSpec [IFACE_C] (Some [(IFACE_A, FLAG_REQUIRED, None); (IFACE_B, FLAG_REQUIRED, None); (IFACE_D, FLAG_REQUIRED, None)]) [] 1000 false;
     spec_slow] in
  let acts := specs ++ [PushEvent 0 3000 (UStop 3 false); PushEvent 0 3001 (UStop 4 false)] in
  counters 5 (run (slow_code 6 []) specs 60) = Some [1; 1; 1] ∧
  counters 5 (run (slow_code 6 []) acts 25) = Some [0; 0; 1] ∧
  (run (slow_code 6 []) acts 26).2 = Terminated.
Proof. vm_compute. split_and!; reflexivity. Qed.

(** Stopping a service that is installed: nothing, or with a constructor without
    parameters the end of the program. *)
Lemma stopping_an_installed_service args :
  ctor_stop (new_ctor args) = Done (new_ctor args) ∧ plain_ctor_stop (new_ctor args) = Terminated.
Proof. done. Qed.
